(** * Test-orchestrator scripts of AgentNetwork: a shallow embedding

    The scripts under [scripts/] (and the two attack demos next to them)
    drive external node processes over sockets, HTTP and OS process
    control.  The embedding keeps the code's data (Python [int] as [Z],
    [str] as [string], lists as lists, insertion-ordered [dict]s as
    association lists) and threads the scripts' mutable state and their
    exceptions through a small state-and-exception monad.  The outside
    world (sockets, HTTP servers, child processes, the operator's Ctrl-C)
    is an oracle that answers every request the code issues. *)

From Stdlib Require Import ZArith List String Ascii Bool Lia QArith Sorting.Sorted.
From Stdlib Require Import DecimalString.
Import ListNotations.
Open Scope string_scope.
Open Scope list_scope.
Open Scope Z_scope.

Set Implicit Arguments.

(* ===================================================================== *)
(** * Part I. Definitions                                                 *)
(* ===================================================================== *)

(** ** Port probing and node planning
       (scripts/malicious_node_test.py, scripts/network_manager.py) *)

Module Ports.

(** [sock.connect_ex(('127.0.0.1', port))] as seen by the caller:
    [Some errno] when the call returns ([0]: the connection was accepted,
    so the port is bound), [None] when it raises (a port outside
    0..65535 raises OverflowError, socket creation may fail). *)
Definition host := Z -> option Z.

(** A port is available for the scripts when the probe returns a
    non-zero error indicator. *)
Definition unbound (connect_ex : host) (port : Z) : bool :=
  match connect_ex port with
  | Some result => negb (result =? 0)
  | None => false
  end.

(** Outcome of running a loop that need not terminate. *)
Inductive run (A : Type) : Type :=
| Returned (a : A)
| Raised
| OutOfFuel.
Arguments Returned {A} a.
Arguments Raised {A}.
Arguments OutOfFuel {A}.

(** [MaliciousNodeTest.find_available_port]: the [while] loop with its
    [try]/bare [except]; one unit of fuel per iteration. *)
Fixpoint find_available_port_loop (connect_ex : host) (fuel : nat)
         (ports : list Z) (port count : Z) : run (list Z) :=
  if Z.of_nat (List.length ports) <? count then
    match fuel with
    | O => OutOfFuel
    | S fuel' =>
        match connect_ex port with
        | Some result =>
            if negb (result =? 0)
            then find_available_port_loop connect_ex fuel' (ports ++ [port]) (port + 1) count
            else find_available_port_loop connect_ex fuel' ports (port + 1) count
        | None =>
            (* except: port += 1 *)
            find_available_port_loop connect_ex fuel' ports (port + 1) count
        end
    end
  else Returned ports.

Definition find_available_port (connect_ex : host) (fuel : nat)
           (start_port count : Z) : run (list Z) :=
  find_available_port_loop connect_ex fuel [] start_port count.

(** network_manager.py: [is_port_in_use] and the module-level
    [find_available_port]; here a raising probe propagates. *)
Definition is_port_in_use (connect_ex : host) (port : Z) : option bool :=
  match connect_ex port with
  | Some result => Some (result =? 0)
  | None => None
  end.

Fixpoint nm_find_available_port_loop (connect_ex : host) (fuel : nat)
         (ports : list Z) (port count : Z) : run (list Z) :=
  if Z.of_nat (List.length ports) <? count then
    match fuel with
    | O => OutOfFuel
    | S fuel' =>
        match is_port_in_use connect_ex port with
        | Some in_use =>
            if negb in_use
            then nm_find_available_port_loop connect_ex fuel' (ports ++ [port]) (port + 1) count
            else nm_find_available_port_loop connect_ex fuel' ports (port + 1) count
        | None => Raised
        end
    end
  else Returned ports.

Definition nm_find_available_port (connect_ex : host) (fuel : nat)
           (start_port count : Z) : run (list Z) :=
  nm_find_available_port_loop connect_ex fuel [] start_port count.

(** The candidates [port, port+1, ..., port+n-1] visited by [n]
    iterations, and those of them that are available. *)
Definition candidates (port : Z) (n : nat) : list Z :=
  map (fun i => port + Z.of_nat i) (seq 0 n).

Definition available (connect_ex : host) (port : Z) (n : nat) : list Z :=
  filter (unbound connect_ex) (candidates port n).

(** How many more ports the loop still has to find. *)
Definition missing (ports : list Z) (count : Z) : nat :=
  Z.to_nat (count - Z.of_nat (List.length ports)).

(** [NodeInfo] (malicious_node_test.py). *)
Inductive node_status : Type := stopped | started | running | failed.

Record NodeInfo : Type := mkNodeInfo {
  node_id : string;
  index : nat;
  p2p_port : Z;
  http_port : Z;
  admin_port : Z;
  data_dir : string;
  is_genesis : bool;
  is_malicious : bool;
  pid : Z;
  status : node_status
}.

(** [f"{index:02d}"] *)
Definition fmt02 (n : nat) : string :=
  let s := NilZero.string_of_uint (Nat.to_uint n) in
  if (String.length s <? 2)%nat then ("0" ++ s)%string else s.

Definition DATA_DIR : string := "testnet_malicious/data".

Definition base_port (index : nat) : Z := 9000 + Z.of_nat index * 100.

(** [MaliciousNodeTest.create_node]: the port allocation and the
    descriptor.  The log line is left out, and so is
    [data_dir.mkdir(exist_ok=True)]: the call is followed on a file
    system where the directory of the node can be made, as [DATA_DIR]
    itself was in [__init__]; where it cannot, [mkdir] raises OSError
    and no descriptor is made.  [Raised] is the IndexError of
    [ports[0], ports[1], ports[2]]. *)
Definition create_node (connect_ex : host) (fuel : nat) (index : nat)
           (genesis malicious : bool) : run NodeInfo :=
  match find_available_port connect_ex fuel (base_port index) 3 with
  | Returned ports =>
      match nth_error ports 0, nth_error ports 1, nth_error ports 2 with
      | Some p2p, Some http, Some admin =>
          Returned (mkNodeInfo ("node" ++ fmt02 index)%string index p2p http admin
                               (DATA_DIR ++ "/" ++ "node" ++ fmt02 index)%string
                               genesis malicious 0 stopped)
      | _, _, _ => Raised (* IndexError *)
      end
  | Raised => Raised
  | OutOfFuel => OutOfFuel
  end.

(** The descriptors created for one run, in creation order: index 0 by
    [stage_1_genesis] ([is_genesis=True]), then [range(1, n)] by
    [stage_2_expand_to_10] with [is_malicious = i in malicious_indices].
    [hosts i] is the state of the host when node [i] is probed. *)
Fixpoint create_nodes (hosts : nat -> host) (fuel : nat)
         (malicious_indices : list nat) (indices : list nat) : run (list NodeInfo) :=
  match indices with
  | [] => Returned []
  | i :: rest =>
      match create_node (hosts i) fuel i (Nat.eqb i 0)
                        (existsb (Nat.eqb i) malicious_indices) with
      | Returned node =>
          match create_nodes hosts fuel malicious_indices rest with
          | Returned nodes => Returned (node :: nodes)
          | Raised => Raised
          | OutOfFuel => OutOfFuel
          end
      | Raised => Raised
      | OutOfFuel => OutOfFuel
      end
  end.

Definition plan (hosts : nat -> host) (fuel : nat) (nodeCount : nat)
           (malicious_indices : list nat) : run (list NodeInfo) :=
  create_nodes hosts fuel malicious_indices (seq 0 nodeCount).

Definition node_ports (n : NodeInfo) : list Z :=
  [p2p_port n; http_port n; admin_port n].

Definition all_ports (nodes : list NodeInfo) : list Z :=
  flat_map node_ports nodes.

(** A host on which ports 9000..9099 accept connections and every other
    port refuses them (errno 111). *)
Definition crowded_host : host :=
  fun port => if (9000 <=? port) && (port <? 9100) then Some 0 else Some 111.

(** A host on which 9000..9002 are taken. *)
Definition three_taken_host : host :=
  fun port => if (9000 <=? port) && (port <=? 9002) then Some 0 else Some 111.

(** network_manager.py: [generate_node_configs], ports only. *)
Record NodeConfig : Type := mkNodeConfig {
  nc_index : nat;
  nc_p2p_port : Z;
  nc_http_port : Z;
  nc_is_genesis : bool
}.

Definition generate_node_configs (base_p2p_port base_http_port : Z)
           (node_count : nat) : list NodeConfig :=
  mkNodeConfig 0 base_p2p_port base_http_port true
  :: map (fun i => mkNodeConfig i (base_p2p_port + Z.of_nat i)
                                (base_http_port + Z.of_nat i) false)
         (seq 1 (node_count - 1)%nat).

End Ports.

(** ** The attack demo and its security report (malicious_attack_demo.py) *)

Module AttackDemo.

(** What [requests.get]/[requests.post] does for the caller. *)
Inductive http_outcome : Type :=
| Response (status_code : Z)
| TimeoutExc               (* requests.exceptions.Timeout *)
| OtherExc.                (* ConnectionError and every other Exception *)

(** One entry of [attack_result["details"]]. *)
Record detail : Type := mkDetail {
  payload_type : string;
  endpoint : string;
  status_code : Z;
  blocked : bool
}.

(** The dictionaries appended to [self.results], one constructor per
    [attack_type]. *)
Inductive attack_result : Type :=
| DDoS (requests_sent successful_requests failed_requests : Z)
| Injection (payloads_tested blocked_attempts successful_injections : Z)
            (details : list detail)
| Unauthorized (endpoints_tested blocked_access unauthorized_success : Z)
| Exhaustion (long_requests : Z).

(** What becomes of one of the 100 requests of [attack_1_ddos_simulation]:
    what [requests.get] does in the worker that sends it, and whether the
    main thread gives up on its future, [future.result(timeout=1)]
    raising before the worker is done (the request is given 2 seconds,
    and waits its turn while the 20 workers are busy). *)
Record flood_request : Type := mkFloodRequest {
  answer : http_outcome;
  late : bool
}.

(** The three counters of its [attack_result]. *)
Record ddos_state : Type := mkDdos {
  ddos_requests_sent : Z;
  ddos_successful_requests : Z;
  ddos_failed_requests : Z
}.

(** [send_flood_request], run by a worker: a response is counted as sent
    and as successful (200) or failed; [except Exception] counts a
    failure. *)
Definition send_flood_request (o : http_outcome) (st : ddos_state) : ddos_state :=
  match o with
  | Response code =>
      mkDdos (ddos_requests_sent st + 1)
             (if code =? 200 then ddos_successful_requests st + 1
              else ddos_successful_requests st)
             (if code =? 200 then ddos_failed_requests st
              else ddos_failed_requests st + 1)
  | _ =>
      mkDdos (ddos_requests_sent st) (ddos_successful_requests st)
             (ddos_failed_requests st + 1)
  end.

(** [try: future.result(timeout=1)] with its bare [except:], in the main
    thread: a future that is not done in time counts as a failure. *)
Definition await_result (is_late : bool) (st : ddos_state) : ddos_state :=
  if is_late
  then mkDdos (ddos_requests_sent st) (ddos_successful_requests st)
              (ddos_failed_requests st + 1)
  else st.

(** [attack_1_ddos_simulation]: the counters of the result it appends to
    [self.results].  That is after the [with] block, which waits for
    every worker, the late ones too; the increments of the workers and of
    the main thread only add, so they are applied here request by
    request. *)
Definition attack_1_ddos_simulation (reqs : nat -> flood_request) : attack_result :=
  let st :=
    fold_left (fun st i => await_result (late (reqs i))
                             (send_flood_request (answer (reqs i)) st))
              (seq 0 100) (mkDdos 0 0 0) in
  DDoS (ddos_requests_sent st) (ddos_successful_requests st) (ddos_failed_requests st).

(** Of the requests numbered [indices], those whose future the main
    thread gave up on. *)
Definition late_requests (reqs : nat -> flood_request) (indices : list nat) : list nat :=
  filter (fun i => late (reqs i)) indices.

Definition malicious_payloads : list string :=
  ["SQL injection"; "XSS injection"; "buffer overflow"; "malformed JSON"; "Unicode attack"].

Definition endpoints : list string :=
  ["/api/v1/message"; "/api/v1/neighbor/add"; "/health"].

Definition mem_Z (x : Z) (l : list Z) : bool := existsb (Z.eqb x) l.

(** Counters of [attack_2_malformed_data]. *)
Record injection_state : Type := mkInj {
  inj_payloads_tested : Z;
  inj_blocked_attempts : Z;
  inj_successful_injections : Z;
  inj_details : list detail
}.

(** Body of the inner [for endpoint in endpoints] loop, with its
    [except requests.exceptions.Timeout] and [except Exception]. *)
Definition inject_one (payload endpoint : string) (o : http_outcome)
           (st : injection_state) : injection_state :=
  match o with
  | Response code =>
      let d := mkDetail payload endpoint code (mem_Z code [400; 401; 403; 422; 429]) in
      mkInj (inj_payloads_tested st + 1)
            (if blocked d then inj_blocked_attempts st + 1 else inj_blocked_attempts st)
            (if blocked d then inj_successful_injections st
             else if code =? 200 then inj_successful_injections st + 1
                  else inj_successful_injections st)
            (inj_details st ++ [d])
  | TimeoutExc =>
      mkInj (inj_payloads_tested st) (inj_blocked_attempts st + 1)
            (inj_successful_injections st) (inj_details st)
  | OtherExc => st
  end.

(** [attack_2_malformed_data]; [net payload endpoint] is what the request
    for that payload to that endpoint does. *)
Definition attack_2_malformed_data (net : string -> string -> http_outcome)
  : attack_result :=
  let st :=
    fold_left (fun st payload =>
                 fold_left (fun st endpoint => inject_one payload endpoint (net payload endpoint) st)
                           endpoints st)
              malicious_payloads (mkInj 0 0 0 []) in
  Injection (inj_payloads_tested st) (inj_blocked_attempts st)
            (inj_successful_injections st) (inj_details st).

(** One iteration of the two nested loops, as a step on the counters. *)
Definition inject_step (net : string -> string -> http_outcome)
           (st : injection_state) (pe : string * string) : injection_state :=
  inject_one (fst pe) (snd pe) (net (fst pe) (snd pe)) st.

(** The requests issued by one run, in order. *)
Definition requests : list (string * string) :=
  flat_map (fun p => map (fun e => (p, e)) endpoints) malicious_payloads.

Definition outcomes (net : string -> string -> http_outcome) : list http_outcome :=
  map (fun pe => net (fst pe) (snd pe)) requests.

Definition is_response (o : http_outcome) : bool :=
  match o with Response _ => true | _ => false end.
Definition is_blocked_response (o : http_outcome) : bool :=
  match o with Response code => mem_Z code [400; 401; 403; 422; 429] | _ => false end.
Definition is_accepted_response (o : http_outcome) : bool :=
  match o with
  | Response code => negb (mem_Z code [400; 401; 403; 422; 429]) && (code =? 200)
  | _ => false
  end.
Definition is_timeout (o : http_outcome) : bool :=
  match o with TimeoutExc => true | _ => false end.
Definition is_other_exc (o : http_outcome) : bool :=
  match o with OtherExc => true | _ => false end.

Definition count (p : http_outcome -> bool) (l : list http_outcome) : Z :=
  Z.of_nat (List.length (filter p l)).

(** *** [attack_3_unauthorized_access] *)

Definition protected_endpoints : list string :=
  [ "/api/v1/admin/config"; "/api/v1/admin/tokens"; "/api/v1/admin/shutdown";
    "/api/v1/node/neighbors/add"; "/api/v1/node/neighbors/remove"; "/api/v1/message/send" ].

(** The last one is ["0" * 64]. *)
Definition fake_tokens : list string :=
  [ "fake_token_123"; "admin"; "root"; "password";
    "0000000000000000000000000000000000000000000000000000000000000000" ].

(** One entry of the details of attack 3; [with_token] tells the two
    values of its ["method"] key apart. *)
Record access_detail : Type := mkAccessDetail {
  ad_endpoint : string;
  ad_with_token : bool;
  ad_status_code : Z;
  ad_blocked : bool
}.

Record access_state : Type := mkAcc {
  acc_endpoints_tested : Z;
  acc_blocked_access : Z;
  acc_unauthorized_success : Z;
  acc_details : list access_detail
}.

(** Body of both loops, with its bare [except: pass]. *)
Definition access_one (token : option string) (endpoint : string) (o : http_outcome)
           (st : access_state) : access_state :=
  match o with
  | Response code =>
      let d := mkAccessDetail endpoint (match token with Some _ => true | None => false end)
                              code (mem_Z code [401; 403]) in
      mkAcc (acc_endpoints_tested st + 1)
            (if ad_blocked d then acc_blocked_access st + 1 else acc_blocked_access st)
            (if ad_blocked d then acc_unauthorized_success st
             else acc_unauthorized_success st + 1)
            (acc_details st ++ [d])
  | _ => st
  end.

(** The two loops: every protected endpoint without a token, then every
    fake token against the first three endpoints; [net token endpoint]
    is what the request does. *)
Definition attack_3_state (net : option string -> string -> http_outcome) : access_state :=
  let st1 :=
    fold_left (fun st endpoint => access_one None endpoint (net None endpoint) st)
              protected_endpoints (mkAcc 0 0 0 []) in
  fold_left (fun st token =>
               fold_left (fun st endpoint =>
                            access_one (Some token) endpoint (net (Some token) endpoint) st)
                         (firstn 3 protected_endpoints) st)
            fake_tokens st1.

(** The dictionary appended to [self.results], without its details. *)
Definition attack_3_unauthorized_access (net : option string -> string -> http_outcome)
  : attack_result :=
  let st := attack_3_state net in
  Unauthorized (acc_endpoints_tested st) (acc_blocked_access st)
               (acc_unauthorized_success st).

(** The requests of one run of attack 3, in order, and what they did. *)
Definition access_requests : list (option string * string) :=
  map (fun e => (None, e)) protected_endpoints
  ++ flat_map (fun t => map (fun e => (Some t, e)) (firstn 3 protected_endpoints)) fake_tokens.

Definition access_outcomes (net : option string -> string -> http_outcome)
  : list http_outcome :=
  map (fun te => net (fst te) (snd te)) access_requests.

Definition is_denied_response (o : http_outcome) : bool :=
  match o with Response code => mem_Z code [401; 403] | _ => false end.

(** *** The report *)

(** The rating strings of the report: 好, 中, 差. *)
Inductive rating : Type := good | fair | poor.

Record category_analysis : Type := mkAnalysis {
  rate : Q;
  rating_of : rating
}.

(** [a / b if b > 0 else 0] on integers.  Python divides in binary
    floating point; for the counters of a run (far below 2^53) the
    comparisons of the quotient with the literals 0.2 ... 0.9 agree with
    the comparisons of the exact quotient, which is what is kept here. *)
Definition ratio (a b : Z) : Q :=
  if b >? 0 then (inject_Z a / inject_Z b)%Q else 0%Q.

Definition Qgt_bool (x y : Q) : bool := negb (Qle_bool x y).

(** ["好" if r > hi else "中" if r > lo else "差"] *)
Definition rate3 (hi lo : Q) (r : Q) : rating :=
  if Qgt_bool r hi then good else if Qgt_bool r lo then fair else poor.

(** The thresholds [(hi, lo)] written in [generate_security_report]. *)
Definition ddos_thresholds : Q * Q := ((5 # 10)%Q, (2 # 10)%Q).
Definition injection_thresholds : Q * Q := ((8 # 10)%Q, (5 # 10)%Q).
Definition access_thresholds : Q * Q := ((9 # 10)%Q, (7 # 10)%Q).

(** The categories of the report, each with the thresholds its rating
    is read off. *)
Definition category_thresholds : list (string * (Q * Q)) :=
  [("ddos_resistance", ddos_thresholds);
   ("input_validation", injection_thresholds);
   ("access_control", access_thresholds)].

Definition is_ddos (r : attack_result) : bool :=
  match r with DDoS _ _ _ => true | _ => false end.
Definition is_injection (r : attack_result) : bool :=
  match r with Injection _ _ _ _ => true | _ => false end.
Definition is_unauthorized (r : attack_result) : bool :=
  match r with Unauthorized _ _ _ => true | _ => false end.

(** The three [if ..._attacks:] blocks: the first result of each type is
    scored and stored under its category, in this order. *)
Definition ddos_resistance (results : list attack_result)
  : list (string * category_analysis) :=
  match find is_ddos results with
  | Some (DDoS sent _ failed) =>
      let fail_rate := ratio failed sent in
      [("ddos_resistance",
        mkAnalysis fail_rate (rate3 (fst ddos_thresholds) (snd ddos_thresholds) fail_rate))]
  | _ => []
  end.

Definition input_validation (results : list attack_result)
  : list (string * category_analysis) :=
  match find is_injection results with
  | Some (Injection tested blocked_n _ _) =>
      let block_rate := ratio blocked_n tested in
      [("input_validation",
        mkAnalysis block_rate
                   (rate3 (fst injection_thresholds) (snd injection_thresholds) block_rate))]
  | _ => []
  end.

Definition access_control (results : list attack_result)
  : list (string * category_analysis) :=
  match find is_unauthorized results with
  | Some (Unauthorized tested blocked_n _) =>
      let block_rate := ratio blocked_n tested in
      [("access_control",
        mkAnalysis block_rate
                   (rate3 (fst access_thresholds) (snd access_thresholds) block_rate))]
  | _ => []
  end.

Definition security_analysis (results : list attack_result)
  : list (string * category_analysis) :=
  ddos_resistance results ++ input_validation results ++ access_control results.

(** [score_map = {"好": 100, "中": 60, "差": 20}] *)
Definition score_map (r : rating) : Z :=
  match r with good => 100 | fair => 60 | poor => 20 end.

Definition sum_Z (l : list Z) : Z := fold_right Z.add 0 l.

(** [if ratings: ... overall_score = sum(...) / len(ratings)]; the key
    is absent from the report ([None]) when nothing was scored. *)
Definition overall_score (ratings : list rating) : option Q :=
  match ratings with
  | [] => None
  | _ => Some (inject_Z (sum_Z (map score_map ratings))
               / inject_Z (Z.of_nat (List.length ratings)))%Q
  end.

Definition recommendation_for (category : string) : list string :=
  if String.eqb category "ddos_resistance" then ["add rate limiting and DDoS protection"]
  else if String.eqb category "input_validation" then ["strengthen input validation"]
  else if String.eqb category "access_control" then ["improve authentication and access control"]
  else [].

Definition recommendations (analysis : list (string * category_analysis)) : list string :=
  let recs :=
    flat_map (fun ca => match rating_of (snd ca) with
                        | poor => recommendation_for (fst ca)
                        | _ => []
                        end) analysis in
  match recs with
  | [] => ["security posture is good"]
  | _ => recs
  end.

Definition is_poor (ca : string * category_analysis) : bool :=
  match rating_of (snd ca) with poor => true | _ => false end.

Record report : Type := mkReport {
  total_attacks : nat;
  report_security_analysis : list (string * category_analysis);
  report_overall_score : option Q;
  report_recommendations : list string
}.

(** The report that [generate_security_report] builds and writes to its
    file.  It is not what the call returns: see
    [generate_security_report_call]. *)
Definition generate_security_report (results : list attack_result) : report :=
  let analysis := security_analysis results in
  mkReport (List.length results) analysis
           (overall_score (map (fun ca => rating_of (snd ca)) analysis))
           (recommendations analysis).

(** How a call of [generate_security_report] ends, the file being
    written in both cases. *)
Inductive call_outcome : Type :=
| ReturnsReport (r : report)
| RaisesTypeError (written : report).

(** The call as a whole.  After the file is written the summary reads
    [analysis['rating']] of every value of [report["security_analysis"]].
    When a category was scored the number stored under ["overall_score"]
    is among these values, and subscripting it raises TypeError;
    [return report] is reached only when nothing was scored.  (A file
    that cannot be written is left out.) *)
Definition generate_security_report_call (results : list attack_result) : call_outcome :=
  let r := generate_security_report results in
  match report_overall_score r with
  | Some _ => RaisesTypeError r
  | None => ReturnsReport r
  end.

End AttackDemo.

(** ** The simplified tester (simple_malicious_test.py) *)

Module SimpleTest.

Inductive http_outcome : Type :=
| Response (status_code : Z)
| Exc.

(** [attack_result = {"type": "flood", "requests_sent": 0, "failed": 0,
    "success": 0}] *)
Record flood_result : Type := mkFlood {
  requests_sent : Z;
  failed : Z;
  success : Z
}.

Definition flood_one (o : http_outcome) (r : flood_result) : flood_result :=
  match o with
  | Response code =>
      if code =? 200
      then mkFlood (requests_sent r + 1) (failed r) (success r + 1)
      else mkFlood (requests_sent r + 1) (failed r + 1) (success r)
  | Exc => mkFlood (requests_sent r) (failed r + 1) (success r)
  end.

(** [perform_flood_attack]: [for i in range(50)], request [i] doing
    [net i]. *)
Definition perform_flood_attack_n (n : nat) (net : nat -> http_outcome) : flood_result :=
  fold_left (fun r i => flood_one (net i) r) (seq 0 n) (mkFlood 0 0 0).

Definition perform_flood_attack (net : nat -> http_outcome) : flood_result :=
  perform_flood_attack_n 50 net.

(** The last line of [analyze_network_resilience]:
    [(total_score / max_score * 100) if max_score > 0 else 0]. *)
Definition security_score (total_score max_score : Z) : Q :=
  if max_score >? 0 then (inject_Z total_score / inject_Z max_score * 100)%Q else 0%Q.

(** *** The two sequential attacks *)

(** One entry of [attack_result["responses"]] of the invalid-data
    attack: a status with its [handled] flag, or the text of an error. *)
Inductive invalid_response : Type :=
| Answered (payload_type : string) (status : Z) (handled : bool)
| Errored (payload_type : string).

Definition invalid_payloads : list string :=
  ["oversized"; "malformed_json"; "sql_injection"; "script_injection"].

Record invalid_result : Type := mkInvalid {
  inv_attempts : Z;
  inv_responses : list invalid_response
}.

Definition mem_Z (x : Z) (l : list Z) : bool := existsb (Z.eqb x) l.

(** Body of the loop of [perform_invalid_data_attack]. *)
Definition invalid_one (payload_type : string) (o : http_outcome) (r : invalid_result)
  : invalid_result :=
  match o with
  | Response code =>
      mkInvalid (inv_attempts r + 1)
                (inv_responses r ++ [Answered payload_type code (mem_Z code [400; 422; 429])])
  | Exc => mkInvalid (inv_attempts r) (inv_responses r ++ [Errored payload_type])
  end.

(** [perform_invalid_data_attack]; [net payload_type] is what the post of
    that payload does. *)
Definition perform_invalid_data_attack (net : string -> http_outcome) : invalid_result :=
  fold_left (fun r t => invalid_one t (net t) r) invalid_payloads (mkInvalid 0 []).

Definition simple_protected_endpoints : list string :=
  [ "/api/v1/admin/config"; "/api/v1/admin/tokens"; "/api/v1/admin/shutdown";
    "/api/v1/node/neighbors/add"; "/api/v1/node/neighbors/remove" ].

Record unauthorized_result : Type := mkUnauth {
  un_attempts : Z;
  un_blocked : Z
}.

Definition count_unauthorized (code : Z) (r : unauthorized_result) : unauthorized_result :=
  mkUnauth (un_attempts r + 1)
           (if mem_Z code [401; 403] then un_blocked r + 1 else un_blocked r).

(** Body of the loop of [perform_unauthorized_attack]: the request
    without a token, then the one with a fake token, in one [try] block
    whose handler passes. *)
Definition unauthorized_one (no_token fake_token : http_outcome) (r : unauthorized_result)
  : unauthorized_result :=
  match no_token with
  | Response code1 =>
      let r1 := count_unauthorized code1 r in
      match fake_token with
      | Response code2 => count_unauthorized code2 r1
      | Exc => r1
      end
  | Exc => r
  end.

(** [perform_unauthorized_attack]; [net endpoint with_fake_token] is what
    the request does. *)
Definition perform_unauthorized_attack (net : string -> bool -> http_outcome)
  : unauthorized_result :=
  fold_left (fun r e => unauthorized_one (net e false) (net e true) r)
            simple_protected_endpoints (mkUnauth 0 0).

(** The requests that [perform_unauthorized_attack] really makes: the one
    with the fake token is made only when the one without got a
    response. *)
Definition unauthorized_requests_made (net : string -> bool -> http_outcome) : list http_outcome :=
  flat_map (fun e => match net e false with
                     | Response _ => [net e false; net e true]
                     | Exc => [net e false]
                     end) simple_protected_endpoints.

Definition is_simple_response (o : http_outcome) : bool :=
  match o with Response _ => true | Exc => false end.

Definition response_type (x : invalid_response) : string :=
  match x with Answered t _ _ => t | Errored t => t end.

Definition is_answered (x : invalid_response) : bool :=
  match x with Answered _ _ _ => true | Errored _ => false end.

Definition flag_matches_status (x : invalid_response) : Prop :=
  match x with
  | Answered _ status handled => handled = mem_Z status [400; 422; 429]
  | Errored _ => True
  end.

(** *** Scoring *)

(** The entries of [self.attack_results]. *)
Inductive attack : Type :=
| FloodAttack (r : flood_result)
| InvalidDataAttack (r : invalid_result)
| UnauthorizedAttack (r : unauthorized_result).

(** [a / b if b > 0 else 0], as an exact quotient. *)
Definition rate_of (a b : Z) : Q :=
  if b >? 0 then (inject_Z a / inject_Z b)%Q else 0%Q.

(** [int(rate * 100)] for [rate = a / b if b > 0 else 0] with
    [0 <= a <= b]: the script computes it in binary floating point, and
    for the counters it can hold here ([b] at most 10) the result is the
    integer quotient. *)
Definition percent (a b : Z) : Z :=
  if b >? 0 then (100 * a) / b else 0.

Definition is_handled (x : invalid_response) : bool :=
  match x with Answered _ _ handled => handled | Errored _ => false end.

(** The points one attack adds to [total_score]; each adds 100 to
    [max_score]. *)
Definition points (a : attack) : Z :=
  match a with
  | FloodAttack r =>
      let fail_rate := rate_of (failed r) (requests_sent r) in
      if negb (Qle_bool fail_rate (5 # 10)) then 80
      else if negb (Qle_bool fail_rate (2 # 10)) then 60
      else 20
  | InvalidDataAttack r =>
      percent (Z.of_nat (List.length (filter is_handled (inv_responses r))))
              (Z.of_nat (List.length (inv_responses r)))
  | UnauthorizedAttack r => percent (un_blocked r) (un_attempts r)
  end.

Definition total_score (attacks : list attack) : Z :=
  fold_right Z.add 0 (map points attacks).

Definition max_score (attacks : list attack) : Z := 100 * Z.of_nat (List.length attacks).

(** [analysis["security_score"]] of [analyze_network_resilience]; the
    three groups of [attack_types] are scored one after the other, which
    adds up the same points. *)
Definition analyze_network_resilience (attacks : list attack) : Q :=
  security_score (total_score attacks) (max_score attacks).

(** The results that [test_node_api] collects from one malicious node
    whose health and info requests were answered. *)
Definition malicious_node_attacks (flood_net : nat -> http_outcome)
           (invalid_net : string -> http_outcome)
           (unauthorized_net : string -> bool -> http_outcome) : list attack :=
  [ FloodAttack (perform_flood_attack flood_net);
    InvalidDataAttack (perform_invalid_data_attack invalid_net);
    UnauthorizedAttack (perform_unauthorized_attack unauthorized_net) ].

(** [generate_recommendations]: the advice on the score, one line per
    attack type present in [analysis["attack_types"]], and the praise.
    The score is compared as the exact quotient. *)
Inductive recommendation : Type :=
| NeedsStrengthening       (* security_score < 70 *)
| AddRateLimiting          (* "flood" in attack_types *)
| StrengthenValidation     (* "invalid_data" in attack_types *)
| StrengthenAccessControl  (* "unauthorized" in attack_types *)
| PerformsWell.            (* security_score > 80 *)

Definition is_flood (a : attack) : bool :=
  match a with FloodAttack _ => true | _ => false end.
Definition is_invalid_data (a : attack) : bool :=
  match a with InvalidDataAttack _ => true | _ => false end.
Definition is_unauthorized (a : attack) : bool :=
  match a with UnauthorizedAttack _ => true | _ => false end.

Definition generate_recommendations (attacks : list attack) : list recommendation :=
  let score := analyze_network_resilience attacks in
  (if negb (Qle_bool 70 score) then [NeedsStrengthening] else []) ++
  (if existsb is_flood attacks then [AddRateLimiting] else []) ++
  (if existsb is_invalid_data attacks then [StrengthenValidation] else []) ++
  (if existsb is_unauthorized attacks then [StrengthenAccessControl] else []) ++
  (if negb (Qle_bool score 80) then [PerformsWell] else []).

End SimpleTest.

(** ** Python effects: exceptions, mutable state, the outside world *)

Module Py.

Set Warnings "-register-all".

(** Values returned by [json.loads]. *)
Inductive json : Type :=
| JNull
| JBool (b : bool)
| JNum (n : Z)
| JStr (s : string)
| JList (l : list json)
| JDict (d : list (string * json)).

(** [len(v)]; [None] is TypeError. *)
Definition py_len (v : json) : option Z :=
  match v with
  | JStr s => Some (Z.of_nat (String.length s))
  | JList l => Some (Z.of_nat (List.length l))
  | JDict d => Some (Z.of_nat (List.length d))
  | _ => None
  end.

(** Insertion-ordered dictionaries with string keys. *)
Definition dict (V : Type) := list (string * V).

Fixpoint dict_get {V} (k : string) (d : dict V) : option V :=
  match d with
  | [] => None
  | (k', v) :: d' => if String.eqb k k' then Some v else dict_get k d'
  end.

(** [d[k] = v]: an existing key keeps its place, a new key goes last. *)
Fixpoint dict_set {V} (k : string) (v : V) (d : dict V) : dict V :=
  match d with
  | [] => [(k, v)]
  | (k', v') :: d' =>
      if String.eqb k k' then (k, v) :: d' else (k', v') :: dict_set k v d'
  end.

(** [del d[k]] *)
Fixpoint dict_del {V} (k : string) (d : dict V) : dict V :=
  match d with
  | [] => []
  | (k', v') :: d' =>
      if String.eqb k k' then dict_del k d' else (k', v') :: dict_del k d'
  end.

Definition keys {V} (d : dict V) : list string := map fst d.

(** The values found when the keys [names] are looked up one after the
    other; a key that is missing gives none. *)
Definition lookup_all {V} (names : list string) (d : dict V) : list V :=
  flat_map (fun n => match dict_get n d with Some v => [v] | None => [] end) names.

(** The values found when the keys [names] are looked up and deleted one
    after the other. *)
Fixpoint taken_out {V} (names : list string) (d : dict V) : list V :=
  match names with
  | [] => []
  | k :: rest =>
      match dict_get k d with
      | Some v => v :: taken_out rest (dict_del k d)
      | None => taken_out rest d
      end
  end.

Definition delete_all {V} (names : list string) (d : dict V) : dict V :=
  fold_left (fun d k => dict_del k d) names d.

(** Exception classes the scripts meet. *)
Inductive exc_kind : Type :=
| HTTPErrorExc (code : Z)      (* urllib.error.HTTPError *)
| OSErrorExc                   (* URLError, socket.timeout, OSError, ... *)
| TimeoutExpiredExc            (* subprocess.TimeoutExpired *)
| KeyErrorExc
| TypeErrorExc
| IndexErrorExc
| ValueErrorExc.               (* json.JSONDecodeError *)

Inductive exn : Type :=
| KeyboardInterrupt
| SystemExit (code : Z)
| Exception (kind : exc_kind).

Definition is_Exception (e : exn) : bool :=
  match e with Exception _ => true | _ => false end.

(** How a call ends: it returns, it raises, or it never comes back
    (a loop that was followed until the fuel ran out). *)
Inductive res (A : Type) : Type :=
| Ret (a : A)
| Raise (e : exn)
| Hang.
Arguments Ret {A} a.
Arguments Raise {A} e.
Arguments Hang {A}.

(** Requests to the outside world. *)
Inductive request : Type :=
| Urlopen (port : Z) (path method : string)
| Popen (name : string) (bootstrap : option string)
| Terminate (pid : Z)
| Wait (pid : Z) (timeout : option Z)
| Kill (pid : Z)
| Sleep
| WriteFile (name : string)
| ConnectEx (port : Z).

(** What the outside world does with a request. *)
Inductive outcome : Type :=
| Done (code : Z) (body : option json)
    (* the call returns: HTTP status and parsed body, or the new pid *)
| HTTPError (code : Z)
| Failed
| TimeoutExpired
| Interrupted.               (* Ctrl-C arrives during the call *)

(** The world answers the request issued as the [n]-th one. *)
Definition oracle := nat -> request -> outcome.

(** The requests issued so far (latest first) and the script's own
    state. *)
Record world (St : Type) : Type := mkWorld {
  hist : list request;
  st : St
}.
Arguments mkWorld {St} hist st.

Definition clock {St} (w : world St) : nat := List.length (hist w).

(** Requests in the order they were issued. *)
Definition trace {St} (w : world St) : list request := rev (hist w).

Definition M (St A : Type) : Type := oracle -> world St -> res A * world St.

Definition ret {St A} (a : A) : M St A := fun _ w => (Ret a, w).

Definition bind {St A B} (m : M St A) (k : A -> M St B) : M St B :=
  fun o w =>
    match m o w with
    | (Ret a, w') => k a o w'
    | (Raise e, w') => (Raise e, w')
    | (Hang, w') => (Hang, w')
    end.

Definition raise {St A} (e : exn) : M St A := fun _ w => (Raise e, w).

Definition gets {St A} (f : St -> A) : M St A := fun _ w => (Ret (f (st w)), w).

Definition modify {St} (f : St -> St) : M St unit :=
  fun _ w => (Ret tt, mkWorld (hist w) (f (st w))).

Definition now {St} : M St nat := fun _ w => (Ret (clock w), w).

(** [try: m except <classes selected by catches>: handler] *)
Definition try_except {St A} (m : M St A) (catches : exn -> bool)
           (handler : exn -> M St A) : M St A :=
  fun o w =>
    match m o w with
    | (Ret a, w') => (Ret a, w')
    | (Raise e, w') => if catches e then handler e o w' else (Raise e, w')
    | (Hang, w') => (Hang, w')
    end.

(** [try: m finally: f] *)
Definition try_finally {St A} (m : M St A) (f : M St unit) : M St A :=
  fun o w =>
    match m o w with
    | (Hang, w') => (Hang, w')
    | (r, w') =>
        match f o w' with
        | (Ret _, w'') => (r, w'')
        | (Raise e, w'') => (Raise e, w'')
        | (Hang, w'') => (Hang, w'')
        end
    end.

(** Issue a request; the caller sees the outcome as a return value or as
    an exception. *)
Definition io {St} (r : request) : M St (Z * option json) :=
  fun o w =>
    let w' := mkWorld (r :: hist w) (st w) in
    match o (clock w) r with
    | Done code body => (Ret (code, body), w')
    | HTTPError code => (Raise (Exception (HTTPErrorExc code)), w')
    | Failed => (Raise (Exception OSErrorExc), w')
    | TimeoutExpired => (Raise (Exception TimeoutExpiredExc), w')
    | Interrupted => (Raise KeyboardInterrupt, w')
    end.

Fixpoint for_each {St A} (l : list A) (body : A -> M St unit) : M St unit :=
  match l with
  | [] => ret tt
  | x :: l' => bind (body x) (fun _ => for_each l' body)
  end.

Definition is_TimeoutExpired (e : exn) : bool :=
  match e with Exception TimeoutExpiredExc => true | _ => false end.

Definition is_KeyboardInterrupt (e : exn) : bool :=
  match e with KeyboardInterrupt => true | _ => false end.

Definition any_exn (e : exn) : bool := true.

(** [time.sleep]: it returns unless Ctrl-C arrives. *)
Definition sleep {St} : M St unit :=
  fun o w =>
    let w' := mkWorld (Sleep :: hist w) (st w) in
    match o (clock w) Sleep with
    | Interrupted => (Raise KeyboardInterrupt, w')
    | _ => (Ret tt, w')
    end.

Definition hang {St A} : M St A := fun _ w => (Hang, w).

(** [time.sleep] at the end of a round of a loop that runs until a
    deadline ([while time.time() - start_time < timeout]), followed by
    the look at the clock at the head of the loop: the answer tells
    whether the deadline has passed.  How long the requests of a round
    take is up to the world, which says so by answering the pause with
    [TimeoutExpired]. *)
Definition deadline_passed (x : outcome) : bool :=
  match x with TimeoutExpired => true | _ => false end.

Definition sleep_until_deadline {St} : M St bool :=
  fun o w =>
    let w' := mkWorld (Sleep :: hist w) (st w) in
    match o (clock w) Sleep with
    | Interrupted => (Raise KeyboardInterrupt, w')
    | x => (Ret (deadline_passed x), w')
    end.

Definition is_terminate (r : request) : option Z :=
  match r with Terminate pid => Some pid | _ => None end.

Definition is_popen (r : request) : option string :=
  match r with Popen name _ => Some name | _ => None end.

Definition is_kill_request (r : request) : option Z :=
  match r with Kill pid => Some pid | _ => None end.

Fixpoint filter_map {A B} (f : A -> option B) (l : list A) : list B :=
  match l with
  | [] => []
  | x :: l' => match f x with Some y => y :: filter_map f l' | None => filter_map f l' end
  end.

(** The pids sent a termination signal, and the node names spawned, in
    the order of the requests. *)
Definition terminated {St} (w : world St) : list Z := filter_map is_terminate (trace w).
Definition spawned {St} (w : world St) : list string := filter_map is_popen (trace w).

(** The pids that were killed, in the order of the requests. *)
Definition force_killed {St} (w : world St) : list Z := filter_map is_kill_request (trace w).

(** [respects R m]: whatever the outside world does, running [m] takes
    a world to one related to it by [R]. *)
Definition respects {St A} (R : world St -> world St -> Prop) (m : M St A) : Prop :=
  forall o w, R w (snd (m o w)).

(** An observation of the world that a computation leaves unchanged. *)
Definition same {St X} (f : world St -> X) : world St -> world St -> Prop :=
  fun w w' => f w' = f w.

(** A property of the world that a computation maintains. *)
Definition keeps {St} (P : world St -> Prop) : world St -> world St -> Prop :=
  fun w w' => P w -> P w'.

Definition is_done (x : outcome) : bool :=
  match x with Done _ _ => true | _ => false end.

(** The node listening on [port] cannot be reached: its health probe
    never gets a response (connection refused, timeout, HTTP error or
    Ctrl-C instead). *)
Definition health_probe (port : Z) : request := Urlopen port "/health" "GET".

Definition unreachable (o : oracle) (port : Z) : Prop :=
  forall t, is_done (o t (health_probe port)) = false.

(** The health probe of [port] was answered 200 at some point. *)
Definition answered_200 (o : oracle) (port : Z) : Prop :=
  exists t body, o t (health_probe port) = Done 200 body.

(** No Ctrl-C from request number [from] on. *)
Definition uninterrupted (o : oracle) (from : nat) : Prop :=
  forall t r, (from <= t)%nat -> o t r <> Interrupted.

(** From request number [from] on, processes can be signalled and
    waited for: terminate and kill succeed, a bounded wait returns or
    times out, an unbounded wait returns. *)
Definition done_or_timeout (x : outcome) : bool :=
  match x with Done _ _ | TimeoutExpired => true | _ => false end.

Definition processes_obey (o : oracle) (from : nat) : Prop :=
  forall t pid, (from <= t)%nat ->
    is_done (o t (Terminate pid)) = true /\
    is_done (o t (Kill pid)) = true /\
    (forall timeout, done_or_timeout (o t (Wait pid (Some timeout))) = true) /\
    is_done (o t (Wait pid None)) = true.

(** A request that fails in transport: connection refused or timed
    out. *)
Definition transport_failure (x : outcome) : bool :=
  match x with Failed | TimeoutExpired => true | _ => false end.

(** The list [f] observed in the world only grows. *)
Definition grows {St X} (f : world St -> list X) : world St -> world St -> Prop :=
  fun w w' => exists l, f w' = f w ++ l.

(** [l'] lists some of the entries of [l], in the order they have in
    [l]. *)
Inductive in_order {A : Type} : list A -> list A -> Prop :=
| in_order_nil : in_order [] []
| in_order_skip x l' l : in_order l' l -> in_order l' (x :: l)
| in_order_keep x l' l : in_order l' l -> in_order (x :: l') (x :: l).

(** [l'] is an initial part of [l]. *)
Definition initial_part (l' l : list string) : Prop := exists rest, l = l' ++ rest.

(** Running [m] starts the processes of an initial part of [names], in
    this order, and all of them when it returns. *)
Definition spawns {St A} (names : list string) (m : M St A) : Prop :=
  forall o w, exists started,
    spawned (snd (m o w)) = spawned w ++ started /\
    initial_part started names /\
    (forall a, fst (m o w) = Ret a -> started = names).

(** The same, without the guarantee on return. *)
Definition spawns_upto {St A} (names : list string) (m : M St A) : Prop :=
  forall o w, exists started,
    spawned (snd (m o w)) = spawned w ++ started /\
    initial_part started names.

(** [m] comes back when no Ctrl-C arrives: run against a world that
    does not interrupt from the current request on, it returns or raises
    an exception of class [Exception]; it does not hang and does not
    leave through [SystemExit]. *)
Definition comes_back {St A} (m : M St A) : Prop :=
  forall o w, uninterrupted o (clock w) ->
    exists r w', m o w = (r, w') /\ (clock w <= clock w')%nat /\
      match r with
      | Ret _ => True
      | Raise e => is_Exception e = true
      | Hang => False
      end.

(** [m] raises no exception outside the classes selected by
    [allowed]. *)
Definition raises_only {St A} (allowed : exn -> bool) (m : M St A) : Prop :=
  forall o w, match fst (m o w) with
              | Raise e => allowed e = true
              | _ => True
              end.

(** Ctrl-C or an ordinary exception: what [except KeyboardInterrupt]
    and [except Exception] catch between them. *)
Definition interrupt_or_error (e : exn) : bool := is_KeyboardInterrupt e || is_Exception e.

(** [m] returns when no Ctrl-C arrives. *)
Definition returns {St A} (m : M St A) : Prop :=
  forall o w, uninterrupted o (clock w) ->
    exists a w', m o w = (Ret a, w') /\ (clock w <= clock w')%nat.

(** [m] returns when no Ctrl-C arrives, and [P] relates the script's
    state before, the value returned and the state after. *)
Definition does {St A} (m : M St A) (P : St -> A -> St -> Prop) : Prop :=
  forall o w, uninterrupted o (clock w) ->
    exists a w', m o w = (Ret a, w') /\ (clock w <= clock w')%nat /\ P (st w) a (st w').

End Py.

Declare Scope py_scope.
Delimit Scope py_scope with py.
Notation "x <- m ;; k" := (Py.bind m (fun x => k))
  (at level 61, m at next level, right associativity) : py_scope.
Notation "m ;; k" := (Py.bind m (fun _ => k))
  (at level 61, right associativity) : py_scope.

(** ** The local five-node test (scripts/heterogeneous_network_test_local.py) *)

Module HeteroLocal.
Import Py.
Local Open Scope py_scope.

Record NodeCfg : Type := mkCfg {
  p2p_port : Z;
  http_port : Z;
  admin_port : Z;
  grpc_port : Z;
  is_malicious : bool;
  is_genesis : bool;
  role : string
}.

Definition NODES_CONFIG : dict NodeCfg :=
  [ ("genesis",    mkCfg 9100 18400 18500 50100 false true  "bootstrap");
    ("node1",      mkCfg 9101 18401 18501 50101 false false "normal");
    ("node2",      mkCfg 9102 18402 18502 50102 false false "normal");
    ("malicious1", mkCfg 9103 18403 18503 50103 true  false "normal");
    ("malicious2", mkCfg 9104 18404 18504 50104 true  false "normal") ].

(** Counters of the flood, in the order of the message
    [f"... {success_count}成功, {blocked_count}限流, {error_count}失败"]. *)
Record spam_counts : Type := mkSpam {
  success_count : Z;
  blocked_count : Z;
  error_count : Z
}.

(** [AttackEvent.result]: the values each attack interpolates into its
    message. *)
Inductive attack_result : Type :=
| SpamResult (counts : spam_counts)
| FalseInfoResult (codes : list Z)
| AbuseResult (tests : Z)
| ReplayResult (accepted : Z)
| SybilResult (accepted : Z)
| DdosResult (per_target : dict Z).

(** [AttackEvent]; the timestamp is the number of requests issued so
    far, the constant description text is left out. *)
Record AttackEvent : Type := mkEvent {
  timestamp : nat;
  node : string;
  attack_type : string;
  result : attack_result;
  response_code : Z
}.

(** [NetworkStats]; the two host-level psutil percentages are left
    out. *)
Record NetworkStats : Type := mkStats {
  stats_timestamp : nat;
  total_nodes : Z;
  healthy_nodes : Z;
  neighbors_count : dict Z
}.

Record SecurityAnalysis : Type := mkSecurity {
  sa_total_attacks : Z;
  sa_attack_types : dict Z;
  sa_rate_limiting : option (Z * Z)     (* f"{blocked}/{len(spam_events)}" *)
}.

Record PerformanceAnalysis : Type := mkPerformance {
  pa_samples : Z;
  pa_healthy_sum : Z                    (* avg_healthy_nodes = healthy_sum / samples *)
}.

(** [self.report] *)
Record Report : Type := mkReport {
  start_time : option nat;
  end_time : option nat;
  stages : list (string * string);      (* stage, status *)
  attacks : list AttackEvent;
  security_analysis : option SecurityAnalysis;
  performance_analysis : option PerformanceAnalysis
}.

(** The tester object; [files] are the report files written so far. *)
Record self : Type := mkSelf {
  processes : dict Z;                   (* node name -> Popen handle (pid) *)
  attack_events : list AttackEvent;
  network_stats : list NetworkStats;
  report : Report;
  files : list (string * Report)
}.

Definition init : self :=
  mkSelf [] [] [] (mkReport None None [] [] None None) [].

Definition Local := M self.

(** Observations of the world: the report files written so far, and
    whether the process table has one entry per node name. *)
Definition files_written (w : world self) : list (string * Report) := files (st w).

Definition table_ok (w : world self) : Prop := NoDup (keys (processes (st w))).

Definition spawned_so_far (w : world self) : list string := spawned w.

(** The process table lists nodes in the order in which their processes
    were asked for. *)
Definition table_in_start_order (w : world self) : Prop :=
  in_order (keys (processes (st w))) (spawned w).

(** Everything in the tester object but the process table. *)
Definition outside_processes (s : self)
  : list AttackEvent * list NetworkStats * Report * list (string * Report) :=
  (attack_events s, network_stats s, report s, files s).

(** [s'] is [s] with the events [evs] appended to [attack_events]. *)
Definition events_added (s s' : self) (evs : list AttackEvent) : Prop :=
  s' = mkSelf (processes s) (attack_events s ++ evs) (network_stats s) (report s) (files s).

Definition with_processes (f : dict Z -> dict Z) (s : self) : self :=
  mkSelf (f (processes s)) (attack_events s) (network_stats s) (report s) (files s).

Definition set_processes (f : dict Z -> dict Z) : Local unit :=
  modify (with_processes f).

Definition append_event (e : AttackEvent) : Local unit :=
  modify (fun s => mkSelf (processes s) (attack_events s ++ [e]) (network_stats s)
                          (report s) (files s)).

Definition append_stats (n : NetworkStats) : Local unit :=
  modify (fun s => mkSelf (processes s) (attack_events s) (network_stats s ++ [n])
                          (report s) (files s)).

Definition set_report (f : Report -> Report) : Local unit :=
  modify (fun s => mkSelf (processes s) (attack_events s) (network_stats s)
                          (f (report s)) (files s)).

Definition append_stage (name status : string) : Local unit :=
  set_report (fun r => mkReport (start_time r) (end_time r) (stages r ++ [(name, status)])
                                (attacks r) (security_analysis r) (performance_analysis r)).

Definition add_file (name : string) (r : Report) : Local unit :=
  modify (fun s => mkSelf (processes s) (attack_events s) (network_stats s)
                          (report s) (files s ++ [(name, r)])).

(** [NODES_CONFIG[node_name]] *)
Definition config_of (node_name : string) : Local NodeCfg :=
  match dict_get node_name NODES_CONFIG with
  | Some c => ret c
  | None => raise (Exception KeyErrorExc)
  end.

(** *** Node management *)

Definition start_node (node_name : string) (bootstrap_addr : option string) : Local bool :=
  config <- config_of node_name ;;
  try_except
    (r <- io (Popen node_name (if is_genesis config then None else bootstrap_addr)) ;;
     set_processes (dict_set node_name (fst r)) ;;
     ret true)
    is_Exception
    (fun _ => ret false).

(** [stop_node], the branch taken off Windows ([proc.terminate()]). *)
Definition stop_node (node_name : string) : Local bool :=
  procs <- gets processes ;;
  match dict_get node_name procs with
  | None => ret true
  | Some proc =>
      try_except
        (io (Terminate proc) ;;
         try_except (io (Wait proc (Some 5)) ;; ret tt)
                    is_TimeoutExpired
                    (fun _ => io (Kill proc) ;; io (Wait proc None) ;; ret tt) ;;
         set_processes (dict_del node_name) ;;
         ret true)
        is_Exception
        (fun _ => ret false)
  end.

(** [for node_name in list(self.processes.keys()): self.stop_node(node_name)] *)
Definition stop_all : Local unit :=
  names <- gets (fun s => keys (processes s)) ;;
  for_each names (fun node_name => stop_node node_name ;; ret tt).

(** The processes among [procs] that have not exited 5 seconds after
    their termination signal, when they are stopped one after the other
    from request number [t] on and can be signalled: stopping one takes
    two requests (terminate, wait), and four when it has to be killed
    (kill, wait again). *)
Fixpoint unresponsive (o : oracle) (t : nat) (procs : list Z) : list Z :=
  match procs with
  | [] => []
  | proc :: rest =>
      match o (S t) (Wait proc (Some 5)) with
      | TimeoutExpired => proc :: unresponsive o (4 + t) rest
      | _ => unresponsive o (2 + t) rest
      end
  end.

(** [wait_for_node]: the loop runs while less than [timeout] seconds
    have passed.  A round is one probe (which may take up to its own
    timeout of 2 seconds) and one second of sleep, so the loop makes at
    most [timeout] probes, and fewer when the deadline passes earlier:
    after each pause the world tells whether it has. *)
Fixpoint wait_for_node_polls (polls : nat) (port : Z) : Local bool :=
  match polls with
  | O => ret false
  | S polls' =>
      ready <- try_except
                 (r <- io (Urlopen port "/health" "GET") ;; ret (fst r =? 200))
                 is_Exception
                 (fun _ => ret false) ;;
      if ready : bool then ret true
      else
        late <- sleep_until_deadline ;;
        if late : bool then ret false
        else wait_for_node_polls polls' port
  end.

Definition wait_for_node (node_name : string) (timeout : nat) : Local bool :=
  config <- config_of node_name ;;
  wait_for_node_polls timeout (http_port config).

(** *** Node API *)

Definition error_body : json := JDict [("error", JStr "error")].

Definition api_call (node_name endpoint method : string) : Local (Z * json) :=
  config <- config_of node_name ;;
  try_except
    (r <- io (Urlopen (http_port config) ("/api" ++ endpoint) method) ;;
     match snd r with
     | Some body => ret (fst r, body)
     | None => raise (Exception ValueErrorExc)     (* json.loads *)
     end)
    is_Exception
    (fun e => match e with
              | Exception (HTTPErrorExc code) => ret (code, error_body)
              | _ => ret (0, error_body)
              end).

Definition get_neighbors (node_name : string) : Local json :=
  r <- api_call node_name "/neighbor/list" "GET" ;;
  match r with
  | (code, JDict d) =>
      if code =? 200
      then ret (match dict_get "neighbors" d with Some v => v | None => JList [] end)
      else ret (JList [])
  | _ => ret (JList [])
  end.

Definition post_bulletin (node_name : string) : Local (Z * json) :=
  api_call node_name "/bulletin/post" "POST".

(** *** Stages *)

Definition bootstrap_addr : string := "/ip4/127.0.0.1/tcp/9100".

Definition stage_1_genesis : Local bool :=
  started_ok <- start_node "genesis" None ;;
  if negb started_ok then ret false
  else
    ready <- wait_for_node "genesis" 30 ;;
    if ready : bool
    then append_stage "genesis" "success" ;; ret true
    else ret false.

Definition start_and_wait (node_name : string) : Local unit :=
  started_ok <- start_node node_name (Some bootstrap_addr) ;;
  (if started_ok : bool then wait_for_node node_name 30 ;; ret tt else ret tt) ;;
  sleep.

Definition stage_2_normal_nodes : Local bool :=
  for_each ["node1"; "node2"] start_and_wait ;;
  append_stage "normal_nodes" "success" ;;
  ret true.

Definition stage_3_malicious_nodes : Local bool :=
  for_each ["malicious1"; "malicious2"] start_and_wait ;;
  append_stage "malicious_nodes" "success" ;;
  ret true.

(** *** Attacks *)

Definition count_code (code : Z) (c : spam_counts) : spam_counts :=
  if code =? 200 then mkSpam (success_count c + 1) (blocked_count c) (error_count c)
  else if code =? 429 then mkSpam (success_count c) (blocked_count c + 1) (error_count c)
  else mkSpam (success_count c) (blocked_count c) (error_count c + 1).

Definition total (c : spam_counts) : Z :=
  success_count c + blocked_count c + error_count c.

(** [for i in range(20)] of [attack_spam_flooding]. *)
Fixpoint spam_loop (node_name : string) (rounds : list nat) (c : spam_counts)
  : Local spam_counts :=
  match rounds with
  | [] => ret c
  | _ :: rounds' =>
      r <- post_bulletin node_name ;;
      sleep ;;
      spam_loop node_name rounds' (count_code (fst r) c)
  end.

Definition attack_spam_flooding (node_name : string) : Local unit :=
  c <- spam_loop node_name (seq 0 20) (mkSpam 0 0 0) ;;
  t <- now ;;
  append_event (mkEvent t node_name "spam_flooding" (SpamResult c)
                        (if blocked_count c >? 0 then 429 else 200)).

(** The status code that [api_call] hands to its caller for an outcome
    of its request: the one of the response or of the HTTP error, and 0
    for any other failure (also a body that is not JSON). *)
Definition code_of (x : outcome) : Z :=
  match x with
  | Done code (Some _) => code
  | HTTPError code => code
  | _ => 0
  end.

(** The codes of the posts of a flood against the node on [port] whose
    first request has number [t]: every round makes one post and one
    pause. *)
Fixpoint flood_codes (o : oracle) (t : nat) (port : Z) (rounds : nat) : list Z :=
  match rounds with
  | O => []
  | S rounds' =>
      code_of (o t (Urlopen port "/api/bulletin/post" "POST"))
      :: flood_codes o (S (S t)) port rounds'
  end.

Definition tally (codes : list Z) (c : spam_counts) : spam_counts :=
  fold_left (fun c code => count_code code c) codes c.

(** Post [n] times, pausing after each post, and collect the codes. *)
Fixpoint post_codes (node_name : string) (n : nat) (pause : bool) : Local (list Z) :=
  match n with
  | O => ret []
  | S n' =>
      r <- post_bulletin node_name ;;
      (if pause then sleep else ret tt) ;;
      rest <- post_codes node_name n' pause ;;
      ret (fst r :: rest)
  end.

Definition attack_false_information (node_name : string) : Local unit :=
  codes <- post_codes node_name 4 true ;;
  t <- now ;;
  append_event (mkEvent t node_name "false_information" (FalseInfoResult codes) 0).

Definition abuse_tests : list (string * string) :=
  [ ("/bulletin/post", "POST"); ("/bulletin/post", "POST"); ("/admin/secret", "GET");
    ("/node/info?id='; DROP TABLE;--", "GET"); ("/../../etc/passwd", "GET") ].

Definition attack_protocol_abuse (node_name : string) : Local unit :=
  for_each abuse_tests (fun t => api_call node_name (fst t) (snd t) ;; ret tt) ;;
  t <- now ;;
  append_event (mkEvent t node_name "protocol_abuse"
                        (AbuseResult (Z.of_nat (List.length abuse_tests))) 0).

Definition count_200 (codes : list Z) : Z :=
  Z.of_nat (List.length (filter (Z.eqb 200) codes)).

Definition attack_replay (node_name : string) : Local unit :=
  codes <- post_codes node_name 10 true ;;
  t <- now ;;
  append_event (mkEvent t node_name "replay_attack" (ReplayResult (count_200 codes)) 0).

(** The five fake identities; ['200' in f"{fake_id}:{code}"] holds for a
    three-digit status exactly when the code is 200. *)
Definition attack_sybil_attempt (node_name : string) : Local unit :=
  codes <- post_codes node_name 5 false ;;
  t <- now ;;
  append_event (mkEvent t node_name "sybil_attempt" (SybilResult (count_200 codes)) 0).

(** [flood_node]: 30 requests to one target; the three workers of the
    pool are run one after the other.  The bare [except] of a worker
    takes the errors a worker can raise.  A Ctrl-C is not among them: it
    is raised in the main thread, which waits in [future.result()], and
    ends the attack; the requests that the workers still make while the
    pool shuts down are not followed. *)
Fixpoint flood_node (target : string) (n : nat) (count : Z) : Local Z :=
  match n with
  | O => ret count
  | S n' =>
      code <- try_except (r <- api_call target "/node/info" "GET" ;; ret (fst r))
                         is_Exception (fun _ => ret 0) ;;
      flood_node target n' (if code =? 200 then count + 1 else count)
  end.

Fixpoint flood_targets (targets : list string) (results : dict Z) : Local (dict Z) :=
  match targets with
  | [] => ret results
  | target :: rest =>
      count <- flood_node target 30 0 ;;
      flood_targets rest (dict_set target count results)
  end.

Definition attack_ddos_attempt (node_name : string) : Local unit :=
  results <- flood_targets ["genesis"; "node1"; "node2"] [] ;;
  t <- now ;;
  append_event (mkEvent t node_name "ddos_attempt" (DdosResult results) 0).

Definition attack_list : list (string -> Local unit) :=
  [ attack_spam_flooding; attack_false_information; attack_protocol_abuse;
    attack_replay; attack_sybil_attempt; attack_ddos_attempt ].

Definition execute_malicious_attacks : Local unit :=
  for_each ["malicious1"; "malicious2"]
    (fun node_name =>
       for_each attack_list
         (fun attack_func =>
            try_except (attack_func node_name ;; sleep) is_Exception (fun _ => ret tt))).

(** *** Monitoring *)

(** One round of the loop of [monitor_network].  The single [try] block
    is written as two blocks with the same bare [except] handler, so
    that [healthy] keeps an increment made before a later statement of
    the block raises. *)
Definition monitor_node (node_name : string) (config : NodeCfg)
           (healthy : Z) (neighbors : dict Z) : Local (Z * dict Z) :=
  probe <- try_except
             (r <- io (Urlopen (http_port config) "/health" "GET") ;; ret (Some (fst r)))
             any_exn (fun _ => ret None) ;;
  match probe with
  | None => ret (healthy, dict_set node_name (-1) neighbors)
  | Some status =>
      n <- try_except
             (neighbor_list <- get_neighbors node_name ;;
              match py_len neighbor_list with
              | Some n => ret n
              | None => raise (Exception TypeErrorExc)
              end)
             any_exn (fun _ => ret (-1)) ;;
      ret (if status =? 200 then healthy + 1 else healthy, dict_set node_name n neighbors)
  end.

Fixpoint monitor_loop (items : dict NodeCfg) (healthy : Z) (neighbors : dict Z)
  : Local (Z * dict Z) :=
  match items with
  | [] => ret (healthy, neighbors)
  | (node_name, config) :: rest =>
      r <- monitor_node node_name config healthy neighbors ;;
      monitor_loop rest (fst r) (snd r)
  end.

Definition monitor_nodes (items : dict NodeCfg) : Local NetworkStats :=
  r <- monitor_loop items 0 [] ;;
  t <- now ;;
  let stats := mkStats t (Z.of_nat (List.length items)) (fst r) (snd r) in
  append_stats stats ;;
  ret stats.

Definition monitor_network : Local NetworkStats := monitor_nodes NODES_CONFIG.

Definition print_network_status : Local unit := monitor_network ;; ret tt.

(** *** Report *)

Definition is_spam (e : AttackEvent) : bool := String.eqb (attack_type e) "spam_flooding".

(** ["限流" in e.result or e.response_code == 429]: the message of a
    flood event always contains the word, whatever the counters. *)
Definition counted_as_rate_limited (e : AttackEvent) : bool :=
  match result e with
  | SpamResult _ => true
  | _ => response_code e =? 429
  end.

Definition count_types (events : list AttackEvent) : dict Z :=
  fold_left (fun d e => dict_set (attack_type e)
                                 (match dict_get (attack_type e) d with
                                  | Some n => n + 1
                                  | None => 1
                                  end) d)
            events [].

Definition generate_security_analysis (s : self) : SecurityAnalysis :=
  let spam_events := filter is_spam (attack_events s) in
  mkSecurity (Z.of_nat (List.length (attack_events s)))
             (count_types (attack_events s))
             (match spam_events with
              | [] => None
              | _ => Some (Z.of_nat (List.length (filter counted_as_rate_limited spam_events)),
                           Z.of_nat (List.length spam_events))
              end).

Definition generate_performance_analysis (s : self) : option PerformanceAnalysis :=
  match network_stats s with
  | [] => None
  | samples => Some (mkPerformance (Z.of_nat (List.length samples))
                                    (fold_right Z.add 0 (map healthy_nodes samples)))
  end.

Definition generate_report : Local string :=
  t <- now ;;
  s <- gets (fun s => s) ;;
  set_report (fun r => mkReport (start_time r) (Some t) (stages r) (attack_events s)
                                (Some (generate_security_analysis s))
                                (generate_performance_analysis s)) ;;
  r <- gets report ;;
  io (WriteFile "hetero_network_test.json") ;;
  add_file "hetero_network_test.json" r ;;
  ret "hetero_network_test.json".

(** *** Main flow *)

Definition set_start_time : Local unit :=
  t <- now ;;
  set_report (fun r => mkReport (Some t) (end_time r) (stages r) (attacks r)
                                (security_analysis r) (performance_analysis r)).

(** From the pause after the genesis stage to the status printed after
    the malicious nodes have joined. *)
Definition bring_up_remaining : Local unit :=
  sleep ;; print_network_status ;;
  stage_2_normal_nodes ;; sleep ;; print_network_status ;;
  stage_3_malicious_nodes ;; sleep ;; print_network_status.

Definition report_after_attacks : Local unit :=
  print_network_status ;; generate_report ;; ret tt.

(** The [try] block of [run_test]. *)
Definition run_test_body : Local unit :=
  set_start_time ;;
  genesis_ok <- stage_1_genesis ;;
  if negb genesis_ok then stop_all
  else
    bring_up_remaining ;;
    execute_malicious_attacks ;;
    report_after_attacks.

(** [try: ... except KeyboardInterrupt: log except Exception: log
    finally: self.stop_all()] *)
Definition run_test : Local unit :=
  try_finally
    (try_except run_test_body
                (fun e => is_KeyboardInterrupt e || is_Exception e)
                (fun _ => ret tt))
    stop_all.

End HeteroLocal.

(** ** The Docker five-node test (scripts/heterogeneous_network_test.py):
       monitoring *)

Module HeteroDocker.
Import Py.
Local Open Scope py_scope.

Record NodeCfg : Type := mkCfg {
  http_port : Z;
  admin_port : Z;
  is_malicious : bool;
  ip : string
}.

Definition NODES : dict NodeCfg :=
  [ ("genesis",    mkCfg 18345 18080 false "172.20.0.10");
    ("node1",      mkCfg 18346 18081 false "172.20.0.11");
    ("node2",      mkCfg 18347 18082 false "172.20.0.12");
    ("malicious1", mkCfg 18348 18083 true  "172.20.0.13");
    ("malicious2", mkCfg 18349 18084 true  "172.20.0.14") ].

Record NetworkStats : Type := mkStats {
  stats_timestamp : nat;
  total_nodes : Z;
  healthy_nodes : Z;
  neighbors_count : dict Z
}.

(** The part of the tester object that monitoring touches. *)
Record self : Type := mkSelf {
  network_stats : list NetworkStats
}.

Definition Docker := M self.

Definition config_of (node_name : string) : Docker NodeCfg :=
  match dict_get node_name NODES with
  | Some c => ret c
  | None => raise (Exception KeyErrorExc)
  end.

Definition error_body : json := JDict [("error", JStr "error")].

Definition api_call (node_name endpoint method : string) : Docker (Z * json) :=
  config <- config_of node_name ;;
  try_except
    (r <- io (Urlopen (http_port config) ("/api" ++ endpoint) method) ;;
     match snd r with
     | Some body => ret (fst r, body)
     | None => raise (Exception ValueErrorExc)
     end)
    is_Exception
    (fun e => match e with
              | Exception (HTTPErrorExc code) => ret (code, error_body)
              | _ => ret (0, error_body)
              end).

Definition get_neighbors (node_name : string) : Docker json :=
  r <- api_call node_name "/neighbor/list" "GET" ;;
  match r with
  | (code, JDict d) =>
      if code =? 200
      then ret (match dict_get "neighbors" d with Some v => v | None => JList [] end)
      else ret (JList [])
  | _ => ret (JList [])
  end.

(** One round of the loop of [monitor_network]; the bare [except] stores
    [0]. *)
Definition monitor_node (node_name : string) (config : NodeCfg)
           (healthy : Z) (neighbors : dict Z) : Docker (Z * dict Z) :=
  probe <- try_except
             (r <- io (Urlopen (http_port config) "/health" "GET") ;; ret (Some (fst r)))
             any_exn (fun _ => ret None) ;;
  match probe with
  | None => ret (healthy, dict_set node_name 0 neighbors)
  | Some status =>
      n <- try_except
             (neighbor_list <- get_neighbors node_name ;;
              match py_len neighbor_list with
              | Some n => ret n
              | None => raise (Exception TypeErrorExc)
              end)
             any_exn (fun _ => ret 0) ;;
      ret (if status =? 200 then healthy + 1 else healthy, dict_set node_name n neighbors)
  end.

Fixpoint monitor_loop (items : dict NodeCfg) (healthy : Z) (neighbors : dict Z)
  : Docker (Z * dict Z) :=
  match items with
  | [] => ret (healthy, neighbors)
  | (node_name, config) :: rest =>
      r <- monitor_node node_name config healthy neighbors ;;
      monitor_loop rest (fst r) (snd r)
  end.

Definition monitor_network : Docker NetworkStats :=
  r <- monitor_loop NODES 0 [] ;;
  t <- now ;;
  let stats := mkStats t (Z.of_nat (List.length NODES)) (fst r) (snd r) in
  modify (fun s => mkSelf (network_stats s ++ [stats])) ;;
  ret stats.

(** [print_network_status]: the mark shown for a node,
    ["✓" if stats.neighbors_count.get(node_name, 0) >= 0 else "✗"]. *)
Definition status_mark (stats : NetworkStats) (node_name : string) : bool :=
  match dict_get node_name (neighbors_count stats) with
  | Some n => n >=? 0
  | None => 0 >=? 0
  end.

(** *** The flood of [attack_spam_flooding]

    The Docker script keeps two counters only: a post that is answered
    neither 200 nor 429 is not counted. *)
Definition count_code (code : Z) (c : Z * Z) : Z * Z :=
  if code =? 200 then (fst c + 1, snd c)
  else if code =? 429 then (fst c, snd c + 1)
  else c.

Definition post_bulletin (node_name : string) : Docker (Z * json) :=
  api_call node_name "/bulletin/post" "POST".

(** [for i in range(20)] of [attack_spam_flooding], with
    [(success_count, blocked_count)]. *)
Fixpoint spam_loop (node_name : string) (rounds : list nat) (c : Z * Z) : Docker (Z * Z) :=
  match rounds with
  | [] => ret c
  | _ :: rounds' =>
      r <- post_bulletin node_name ;;
      sleep ;;
      spam_loop node_name rounds' (count_code (fst r) c)
  end.

(** [attack_spam_flooding] up to the two counters that go into its
    message. *)
Definition spam_flooding_counts (node_name : string) : Docker (Z * Z) :=
  spam_loop node_name (seq 0 20) (0, 0).

End HeteroDocker.

(** ** The staged cluster test (scripts/malicious_node_test.py) *)

Module MaliciousNodeTest.
Import Py.
Local Open Scope py_scope.

Definition NodeInfo : Type := Ports.NodeInfo.

Record stage_entry : Type := mkStage {
  stage : string;
  stage_nodes : Z;
  stage_running : option Z;
  stage_status : string
}.

Record node_info_entry : Type := mkInfo {
  info_status : Ports.node_status;
  info_is_malicious : bool;
  info_neighbors_count : Z
}.

Record network_stat : Type := mkStat {
  stat_timestamp : nat;
  stat_total_nodes : Z;
  stat_running_nodes : Z;
  stat_nodes_info : dict node_info_entry
}.

(** The tester object.  [NodeInfo] objects are mutable and shared
    between [self.nodes] and the lists the stages pass around: they live
    in [heap] and are referred to by their position there. *)
Record self : Type := mkSelf {
  initial_nodes : nat;
  max_nodes : nat;
  nodes : dict nat;                  (* node_id -> object *)
  processes : dict Z;                (* node_id -> Popen handle (pid) *)
  heap : list NodeInfo;
  stages : list stage_entry;
  network_stats : list network_stat;
  end_time : option nat;
  files : list string
}.

Definition init (initial max : nat) : self :=
  mkSelf initial max [] [] [] [] [] None [].

Definition Test := M self.

Definition with_nodes (f : dict nat -> dict nat) (s : self) : self :=
  mkSelf (initial_nodes s) (max_nodes s) (f (nodes s)) (processes s) (heap s)
         (stages s) (network_stats s) (end_time s) (files s).
Definition with_processes (f : dict Z -> dict Z) (s : self) : self :=
  mkSelf (initial_nodes s) (max_nodes s) (nodes s) (f (processes s)) (heap s)
         (stages s) (network_stats s) (end_time s) (files s).
Definition with_heap (f : list NodeInfo -> list NodeInfo) (s : self) : self :=
  mkSelf (initial_nodes s) (max_nodes s) (nodes s) (processes s) (f (heap s))
         (stages s) (network_stats s) (end_time s) (files s).
Definition with_stages (f : list stage_entry -> list stage_entry) (s : self) : self :=
  mkSelf (initial_nodes s) (max_nodes s) (nodes s) (processes s) (heap s)
         (f (stages s)) (network_stats s) (end_time s) (files s).
Definition with_network_stats (f : list network_stat -> list network_stat) (s : self) : self :=
  mkSelf (initial_nodes s) (max_nodes s) (nodes s) (processes s) (heap s)
         (stages s) (f (network_stats s)) (end_time s) (files s).
Definition with_end_time (t : nat) (s : self) : self :=
  mkSelf (initial_nodes s) (max_nodes s) (nodes s) (processes s) (heap s)
         (stages s) (network_stats s) (Some t) (files s).
Definition with_files (f : list string -> list string) (s : self) : self :=
  mkSelf (initial_nodes s) (max_nodes s) (nodes s) (processes s) (heap s)
         (stages s) (network_stats s) (end_time s) (f (files s)).

(** *** Objects *)

Definition blank : NodeInfo :=
  Ports.mkNodeInfo "" 0 0 0 0 "" false false 0 Ports.stopped.

Definition deref (r : nat) : Test NodeInfo := gets (fun s => nth r (heap s) blank).

Fixpoint update {A} (i : nat) (f : A -> A) (l : list A) : list A :=
  match l, i with
  | [], _ => []
  | x :: l', O => f x :: l'
  | x :: l', S i' => x :: update i' f l'
  end.

Definition set_status (st : Ports.node_status) (n : NodeInfo) : NodeInfo :=
  Ports.mkNodeInfo (Ports.node_id n) (Ports.index n) (Ports.p2p_port n) (Ports.http_port n)
                   (Ports.admin_port n) (Ports.data_dir n) (Ports.is_genesis n)
                   (Ports.is_malicious n) (Ports.pid n) st.

Definition set_pid (p : Z) (n : NodeInfo) : NodeInfo :=
  Ports.mkNodeInfo (Ports.node_id n) (Ports.index n) (Ports.p2p_port n) (Ports.http_port n)
                   (Ports.admin_port n) (Ports.data_dir n) (Ports.is_genesis n)
                   (Ports.is_malicious n) p (Ports.status n).

Definition mutate (r : nat) (f : NodeInfo -> NodeInfo) : Test unit :=
  modify (with_heap (update r f)).

(** *** Basic operations *)

(** The host as the probes of one [find_available_port] call see it. *)
Definition host_at (o : oracle) (t : nat) : Ports.host :=
  fun port => match o t (ConnectEx port) with
              | Done errno _ => Some errno
              | _ => None
              end.

(** [create_node]; the probes of the call are one request to the host,
    and [fuel] bounds the candidates the probing loop is followed
    through. *)
Definition create_node (fuel : nat) (index : nat) (genesis malicious : bool) : Test nat :=
  fun o w =>
    let w1 := mkWorld (ConnectEx (Ports.base_port index) :: hist w) (st w) in
    match Ports.create_node (host_at o (clock w)) fuel index genesis malicious with
    | Ports.Returned node =>
        let r := List.length (heap (st w)) in
        (Ret r, mkWorld (hist w1)
                        (with_nodes (dict_set (Ports.node_id node) r)
                                    (with_heap (fun h => h ++ [node]) (st w))))
    | Ports.Raised => (Raise (Exception IndexErrorExc), w1)
    | Ports.OutOfFuel => (Hang, w1)
    end.

(** [f"node{index:02d}"] *)
Definition name_of (index : nat) : string := ("node" ++ Ports.fmt02 index)%string.

(** [wait_for_node]: the loop runs while less than [timeout] seconds
    have passed and sleeps half a second per round, so it makes at most
    [2 * timeout] probes, and fewer when the probes are slow and the
    deadline passes earlier: after each pause the world tells whether it
    has. *)
Fixpoint wait_for_node_polls (polls : nat) (port : Z) : Test bool :=
  match polls with
  | O => ret false
  | S polls' =>
      ready <- try_except
                 (r <- io (Urlopen port "/health" "GET") ;; ret (fst r =? 200))
                 is_Exception
                 (fun _ => ret false) ;;
      if ready : bool then ret true
      else
        late <- sleep_until_deadline ;;
        if late : bool then ret false
        else wait_for_node_polls polls' port
  end.

Definition wait_for_node (r : nat) (timeout : nat) : Test bool :=
  node <- deref r ;;
  wait_for_node_polls (2 * timeout) (Ports.http_port node).

Definition start_node (r : nat) (bootstrap_addr : option string) : Test bool :=
  try_except
    (node <- deref r ;;
     p <- io (Popen (Ports.node_id node)
                    (if Ports.is_genesis node then None else bootstrap_addr)) ;;
     modify (with_processes (dict_set (Ports.node_id node) (fst p))) ;;
     mutate r (set_pid (fst p)) ;;
     mutate r (set_status Ports.started) ;;
     sleep ;;
     ready <- wait_for_node r 10 ;;
     if ready : bool
     then mutate r (set_status Ports.running) ;; ret true
     else mutate r (set_status Ports.failed) ;; ret false)
    is_Exception
    (fun _ => mutate r (set_status Ports.failed) ;; ret false).

Definition stop_node (r : nat) : Test bool :=
  try_except
    (node <- deref r ;;
     procs <- gets processes ;;
     match dict_get (Ports.node_id node) procs with
     | Some proc =>
         io (Terminate proc) ;;
         try_except (io (Wait proc (Some 5)) ;; ret tt)
                    is_TimeoutExpired
                    (fun _ => io (Kill proc) ;; io (Wait proc None) ;; ret tt) ;;
         modify (with_processes (dict_del (Ports.node_id node)))
     | None => ret tt
     end ;;
     mutate r (set_status Ports.stopped) ;;
     mutate r (set_pid 0) ;;
     ret true)
    is_Exception
    (fun _ => ret false).

(** The ways a call of [stop_node] can go when nothing unexpected is
    raised: the node has no process registered, the process exits within
    the 5 seconds given to it, or it has to be killed. *)
Inductive stop_path : Type := NothingToStop | Graceful | Forced.

Definition path_taken (o : oracle) (w : world self) (r : nat) : option stop_path :=
  match dict_get (Ports.node_id (nth r (heap (st w)) blank)) (processes (st w)) with
  | None => Some NothingToStop
  | Some proc =>
      let t := clock w in
      if is_done (o t (Terminate proc)) then
        match o (S t) (Wait proc (Some 5)) with
        | Done _ _ => Some Graceful
        | TimeoutExpired =>
            if is_done (o (S (S t)) (Kill proc)) && is_done (o (S (S (S t))) (Wait proc None))
            then Some Forced
            else None
        | _ => None
        end
      else None
  end.

(** The state a successful [stop_node] leaves behind. *)
Definition stopped_state (r : nat) (s : self) : self :=
  with_heap (update r (set_pid 0))
    (with_heap (update r (set_status Ports.stopped))
       (with_processes (dict_del (Ports.node_id (nth r (heap s) blank))) s)).

(** The node id of the object [r], and the process registered for it. *)
Definition id_of (w : world self) (r : nat) : string :=
  Ports.node_id (nth r (heap (st w)) blank).

Definition registered (w : world self) (r : nat) (proc : Z) : Prop :=
  dict_get (id_of w r) (processes (st w)) = Some proc.

(** What follows each [stop_node] in the two teardown loops: a pause, or
    nothing. *)
Definition harmless (o : oracle) (after : Test unit) : Prop :=
  forall w : world self,
    uninterrupted o (clock w) ->
    exists w', after o w = (Ret tt, w') /\
               st w' = st w /\
               terminated w' = terminated w /\
               (clock w <= clock w')%nat.

(** *** API calls *)

(** [api_call]: the parsed body, or [None]. *)
Definition api_call (r : nat) (endpoint : string) : Test (option json) :=
  try_except
    (node <- deref r ;;
     x <- io (Urlopen (Ports.http_port node) ("/api" ++ endpoint) "GET") ;;
     match snd x with
     | Some body => ret (Some body)
     | None => raise (Exception ValueErrorExc)
     end)
    is_Exception
    (fun _ => ret None).

(** Truth value of a JSON value. *)
Definition truthy (v : json) : bool :=
  match v with
  | JNull => false
  | JBool b => b
  | JNum n => negb (n =? 0)
  | JStr s => negb (String.eqb s "")
  | JList l => match l with [] => false | _ => true end
  | JDict d => match d with [] => false | _ => true end
  end.

Definition get_neighbors (r : nat) : Test json :=
  result <- api_call r "/neighbor/list" ;;
  match result with
  | Some (JDict (e :: d)) =>
      ret (match dict_get "neighbors" (e :: d) with Some v => v | None => JList [] end)
  | _ => ret (JList [])
  end.

(** [len(neighbors) if neighbors else 0] and [len(neighbors or [])] *)
Definition neighbors_len (neighbors : json) : Test Z :=
  if truthy neighbors
  then match py_len neighbors with
       | Some n => ret n
       | None => raise (Exception TypeErrorExc)
       end
  else ret 0.

(** *** Monitoring *)

Definition is_running (n : NodeInfo) : bool :=
  match Ports.status n with Ports.running => true | _ => false end.

Fixpoint monitor_loop (rs : list nat) (info : dict node_info_entry)
  : Test (dict node_info_entry) :=
  match rs with
  | [] => ret info
  | r :: rest =>
      node <- deref r ;;
      count <- (if is_running node
                then neighbors <- get_neighbors r ;; neighbors_len neighbors
                else ret 0) ;;
      monitor_loop rest
        (dict_set (Ports.node_id node)
                  (mkInfo (Ports.status node) (Ports.is_malicious node) count) info)
  end.

Definition monitor_network (rs : list nat) : Test network_stat :=
  t <- now ;;
  h <- gets heap ;;
  let running_nodes :=
    Z.of_nat (List.length (filter (fun r => is_running (nth r h blank)) rs)) in
  info <- monitor_loop rs [] ;;
  ret (mkStat t (Z.of_nat (List.length rs)) running_nodes info).

Definition print_network_status (rs : list nat) : Test unit :=
  for_each rs (fun r =>
    node <- deref r ;;
    if is_running node
    then neighbors <- get_neighbors r ;; neighbors_len neighbors ;; ret tt
    else ret tt).

(** *** Stages *)

Definition append_stage (e : stage_entry) : Test unit :=
  modify (with_stages (fun l => l ++ [e])).

Definition stage_1_genesis (fuel : nat) : Test (option nat) :=
  genesis_node <- create_node fuel 0 true false ;;
  started_ok <- start_node genesis_node None ;;
  if started_ok : bool
  then sleep ;;
       print_network_status [genesis_node] ;;
       append_stage (mkStage "genesis" 1 None "success") ;;
       ret (Some genesis_node)
  else append_stage (mkStage "genesis" 1 None "failed") ;;
       ret None.

Definition malicious_indices : list nat := [2%nat; 7%nat].

(** [f"127.0.0.1:{genesis_node.p2p_port}"] *)
Definition bootstrap_of (genesis : NodeInfo) : string :=
  "127.0.0.1:" ++ NilZero.string_of_int (Z.to_int (Ports.p2p_port genesis)).

(** The loop shared by stages 2 and 3: create and start node [i], keep
    it when it started.  The daemon threads started for malicious nodes
    are not followed. *)
Fixpoint expand (fuel : nat) (indices : list nat) (bootstrap_addr : string)
         (rs : list nat) : Test (list nat) :=
  match indices with
  | [] => ret rs
  | i :: rest =>
      r <- create_node fuel i false (existsb (Nat.eqb i) malicious_indices) ;;
      started_ok <- start_node r (Some bootstrap_addr) ;;
      if started_ok : bool
      then sleep ;; expand fuel rest bootstrap_addr (rs ++ [r])
      else expand fuel rest bootstrap_addr rs
  end.

Definition record_stage (name : string) (rs : list nat) (enough : Z) : Test unit :=
  stats <- monitor_network rs ;;
  modify (with_network_stats (fun l => l ++ [stats])) ;;
  append_stage (mkStage name (Z.of_nat (List.length rs)) (Some (stat_running_nodes stats))
                        (if stat_running_nodes stats >=? enough then "success" else "partial")).

Definition stage_2_expand_to_10 (fuel : nat) (genesis_node : nat) : Test (list nat) :=
  n <- gets initial_nodes ;;
  genesis <- deref genesis_node ;;
  rs <- expand fuel (seq 1 (n - 1)) (bootstrap_of genesis) [genesis_node] ;;
  sleep ;;
  print_network_status rs ;;
  record_stage "expand_to_10" rs 8 ;;
  ret rs.

Definition stage_3_expand_to_20 (fuel : nat) (rs : list nat) : Test (list nat) :=
  n <- gets max_nodes ;;
  genesis <- deref (nth 0 rs 0%nat) ;;
  let current_count := List.length rs in
  rs' <- expand fuel (seq current_count (n - current_count)) (bootstrap_of genesis) rs ;;
  sleep ;;
  print_network_status rs' ;;
  record_stage "expand_to_20" rs' 18 ;;
  ret rs'.

(** [stage_4_observe_network]: the loop runs while less than 30
    seconds have passed, in rounds that take a sample and sleep 5
    seconds: at most 6 rounds, and fewer when the samples are slow and
    the deadline passes earlier.  The threads it starts are not
    followed. *)
Fixpoint observe_rounds (rounds : nat) (rs : list nat) : Test unit :=
  match rounds with
  | O => ret tt
  | S rounds' =>
      stats <- monitor_network rs ;;
      modify (with_network_stats (fun l => l ++ [stats])) ;;
      late <- sleep_until_deadline ;;
      if late : bool then ret tt
      else observe_rounds rounds' rs
  end.

Definition stage_4_observe_network (rs : list nat) : Test unit :=
  observe_rounds 6 rs.

(** [for node in reversed(nodes): self.stop_node(node); time.sleep(1)] *)
Definition stage_5_shutdown (rs : list nat) : Test unit :=
  for_each (rev rs) (fun r => stop_node r ;; sleep) ;;
  append_stage (mkStage "shutdown" (Z.of_nat (List.length rs)) None "success").

Definition generate_report : Test unit :=
  t <- now ;;
  modify (with_end_time t) ;;
  io (WriteFile "malicious_test_report.json") ;;
  modify (with_files (fun l => l ++ ["malicious_test_report.json"])).

(** [for node_id in list(self.nodes.keys()): self.stop_node(self.nodes[node_id])] *)
Definition cleanup : Test unit :=
  ns <- gets nodes ;;
  for_each ns (fun entry => stop_node (snd entry) ;; ret tt).

Definition run_test_body (fuel : nat) : Test unit :=
  genesis_node <- stage_1_genesis fuel ;;
  match genesis_node with
  | None => ret tt
  | Some g =>
      rs <- stage_2_expand_to_10 fuel g ;;
      rs <- stage_3_expand_to_20 fuel rs ;;
      stage_4_observe_network rs ;;
      stage_5_shutdown rs ;;
      generate_report
  end.

(** [except KeyboardInterrupt] and [except Exception]: both clean up and
    call [sys.exit(1)]. *)
Definition run_test (fuel : nat) : Test unit :=
  try_except (run_test_body fuel)
             (fun e => is_KeyboardInterrupt e || is_Exception e)
             (fun _ => cleanup ;; raise (SystemExit 1)).

End MaliciousNodeTest.

(** ** The network manager (scripts/network_manager.py): stopping the
       network *)

Module NetworkManager.
Import Py.
Local Open Scope py_scope.

(** The PID file [testnet/pids.json]: absent, or a JSON object from
    node id to pid as [cmd_start] writes it. *)
Record disk : Type := mkDisk {
  pid_file : option (dict Z)
}.

Definition Manager := M disk.

(** [load_json(PID_FILE)]: the empty dict when the file does not
    exist. *)
Definition load_pids : Manager (dict Z) :=
  gets (fun d => match pid_file d with Some pids => pids | None => [] end).

(** [save_json(PID_FILE, data)] *)
Definition save_pids (data : dict Z) : Manager unit :=
  io (WriteFile "pids.json") ;;
  modify (fun _ => mkDisk (Some data)).

(** [ProcessLookupError], the way [os.kill] fails for a process that is
    gone. *)
Definition is_ProcessLookupError (e : exn) : bool :=
  match e with Exception OSErrorExc => true | _ => false end.

(** [stop_node], the branch taken off Windows: [os.kill(pid, SIGTERM)],
    a second of sleep, [os.kill(pid, SIGKILL)]. *)
Definition stop_node (node_id : string) (pid : Z) : Manager unit :=
  try_except
    (io (Terminate pid) ;;
     sleep ;;
     try_except (io (Kill pid) ;; ret tt) is_ProcessLookupError (fun _ => ret tt))
    is_Exception
    (fun _ => ret tt).

Definition cmd_stop : Manager Z :=
  pids <- load_pids ;;
  match pids with
  | [] => ret 0
  | _ =>
      for_each pids (fun entry =>
        if snd entry >? 0 then stop_node (fst entry) (snd entry) else ret tt) ;;
      save_pids [] ;;
      ret 0
  end.

Definition is_kill (r : request) : option Z :=
  match r with Kill pid => Some pid | _ => None end.

(** The pids sent SIGKILL, in the order of the requests. *)
Definition killed (w : world disk) : list Z := filter_map is_kill (trace w).

End NetworkManager.

(** ** Sample worlds *)

Module Samples.
Import Py.

(** Every process starts (pid 1000 + request number), every HTTP call is
    answered 200 with one neighbour, every port refuses connections,
    every process exits on terminate. *)
Definition friendly : oracle :=
  fun t r =>
    match r with
    | Popen _ _ => Done (1000 + Z.of_nat t) None
    | Urlopen _ _ _ => Done 200 (Some (JDict [("neighbors", JList [JStr "peer"])]))
    | ConnectEx _ => Done 111 None
    | _ => Done 0 None
    end.

(** Ctrl-C during the [n]-th request. *)
Definition interrupt_at (n : nat) (base : oracle) : oracle :=
  fun t r => if Nat.eqb t n then Interrupted else base t r.

(** The node listening on [port] cannot be reached. *)
Definition unreachable_port (port : Z) (base : oracle) : oracle :=
  fun t r =>
    match r with
    | Urlopen p _ _ => if p =? port then Failed else base t r
    | _ => base t r
    end.

(** The node listening on [port] does not answer, and its probes take
    their full 2 seconds: of the pauses of a loop with a deadline, the
    one at request number 19 or later finds the deadline passed. *)
Definition slow_probes (port : Z) (base : oracle) : oracle :=
  fun t r =>
    match r with
    | Urlopen p _ _ => if p =? port then TimeoutExpired else base t r
    | Sleep => if Nat.leb 19 t then TimeoutExpired else base t r
    | _ => base t r
    end.

(** Processes ignore the termination signal for more than 5 seconds. *)
Definition stubborn (base : oracle) : oracle :=
  fun t r =>
    match r with
    | Wait _ (Some _) => TimeoutExpired
    | _ => base t r
    end.

Definition local0 : world HeteroLocal.self := mkWorld [] HeteroLocal.init.
Definition docker0 : world HeteroDocker.self := mkWorld [] (HeteroDocker.mkSelf []).
Definition cluster0 (initial max : nat) : world MaliciousNodeTest.self :=
  mkWorld [] (MaliciousNodeTest.init initial max).

(** A run of the local test in which Ctrl-C arrives during request number
    60, in the middle of the first flood: the worlds after the genesis
    stage and after the bring-up of the other nodes. *)
Definition interrupted : oracle := interrupt_at 60 friendly.

Definition local1 : world HeteroLocal.self :=
  snd (bind HeteroLocal.set_start_time (fun _ => HeteroLocal.stage_1_genesis)
            interrupted local0).
Definition local2 : world HeteroLocal.self :=
  snd (HeteroLocal.bring_up_remaining interrupted local1).

(** The staged cluster test with 3 initial and 4 nodes at most, after its
    genesis stage and after its two expansion stages. *)
Definition cluster1 : world MaliciousNodeTest.self :=
  snd (MaliciousNodeTest.stage_1_genesis 100 friendly (cluster0 3 4)).
Definition cluster3 : world MaliciousNodeTest.self :=
  snd (bind (MaliciousNodeTest.stage_2_expand_to_10 100 0)
            (MaliciousNodeTest.stage_3_expand_to_20 100) friendly cluster1).

(** The local test with no interrupt: its five nodes are up. *)
Definition local_up : world HeteroLocal.self :=
  snd (bind HeteroLocal.set_start_time
            (fun _ => bind HeteroLocal.stage_1_genesis
                           (fun _ => HeteroLocal.bring_up_remaining))
            friendly local0).

(** The run in which Ctrl-C arrives during request number 135, in the
    first flood of the DDoS attempt, and the processes ignore the
    termination signal: the world at the interrupt. *)
Definition interrupted_in_ddos : oracle := interrupt_at 135 (stubborn friendly).

Definition local_ddos : world HeteroLocal.self :=
  snd (HeteroLocal.execute_malicious_attacks interrupted_in_ddos local_up).

(** The run with no interrupt when its [try] block is over, before [stop_all]. *)
Definition local_done : world HeteroLocal.self :=
  snd (try_except HeteroLocal.run_test_body
                  (fun e => is_KeyboardInterrupt e || is_Exception e)
                  (fun _ => ret tt) friendly local0).

(** The staged cluster test when Ctrl-C arrives during request number
    50, in the observation stage, before [cleanup]. *)
Definition cluster_interrupted : world MaliciousNodeTest.self :=
  snd (MaliciousNodeTest.run_test_body 100 (interrupt_at 50 friendly) (cluster0 3 4)).

End Samples.

(* ===================================================================== *)
(** * Part II. Properties                                                 *)
(* ===================================================================== *)

Unset Implicit Arguments.

(** ** Ports *)

Module PortsFacts.
Import Ports.

Section Probing.
Variable connect_ex : host.

Lemma candidates_S port n :
  candidates port (S n) = port :: candidates (port + 1) n.
Proof.
  unfold candidates. simpl. f_equal; [lia|].
  rewrite <- seq_shift, map_map. apply map_ext. intros; lia.
Qed.

Lemma available_S port n :
  available connect_ex port (S n) =
  if unbound connect_ex port
  then port :: available connect_ex (port + 1) n
  else available connect_ex (port + 1) n.
Proof. unfold available. rewrite candidates_S. reflexivity. Qed.

Lemma candidates_app port n m :
  candidates port (n + m) = candidates port n ++ candidates (port + Z.of_nat n) m.
Proof.
  revert port; induction n; intros port.
  - simpl. rewrite Z.add_0_r. reflexivity.
  - cbn [Nat.add]. rewrite !candidates_S, IHn. simpl. do 3 f_equal. lia.
Qed.

Lemma in_candidates p port n :
  In p (candidates port n) <-> port <= p < port + Z.of_nat n.
Proof.
  unfold candidates. rewrite in_map_iff. split.
  - intros (i & <- & Hi). apply in_seq in Hi. lia.
  - intros H. exists (Z.to_nat (p - port)). split; [lia|]. apply in_seq. lia.
Qed.

Lemma candidates_sorted port n : StronglySorted Z.lt (candidates port n).
Proof.
  revert port; induction n; intros port.
  - constructor.
  - rewrite candidates_S. constructor; [apply IHn|].
    apply Forall_forall. intros p Hp. apply in_candidates in Hp. lia.
Qed.

Lemma in_available p port n :
  In p (available connect_ex port n) <->
  port <= p < port + Z.of_nat n /\ unbound connect_ex p = true.
Proof. unfold available. rewrite filter_In, in_candidates. tauto. Qed.

Lemma sorted_filter (f : Z -> bool) l :
  StronglySorted Z.lt l -> StronglySorted Z.lt (filter f l).
Proof.
  induction 1 as [|a l Hl IH Ha]; simpl; [constructor|].
  destruct (f a); [|exact IH]. constructor; [exact IH|].
  apply Forall_forall. intros x Hx. apply filter_In in Hx.
  rewrite Forall_forall in Ha. apply Ha, Hx.
Qed.

Lemma in_firstn (k : nat) (l : list Z) x : In x (firstn k l) -> In x l.
Proof.
  intros H. rewrite <- (firstn_skipn k l). apply in_or_app. left. exact H.
Qed.

Lemma sorted_firstn k l :
  StronglySorted Z.lt l -> StronglySorted Z.lt (firstn k l).
Proof.
  intros H; revert k; induction H as [|a l Hl IH Ha]; intros [|k]; simpl;
    try constructor; [apply IH|].
  apply Forall_forall. intros x Hx. rewrite Forall_forall in Ha.
  apply Ha. eapply in_firstn; exact Hx.
Qed.

Lemma available_sorted port n : StronglySorted Z.lt (available connect_ex port n).
Proof. apply sorted_filter, candidates_sorted. Qed.

Lemma sorted_NoDup l : StronglySorted Z.lt l -> NoDup l.
Proof.
  induction 1 as [|a l Hl IH Ha]; constructor; [|exact IH].
  intros Hin. rewrite Forall_forall in Ha. specialize (Ha _ Hin). lia.
Qed.

(** The loop returns the ports it already holds followed by the first
    available candidates, as soon as the fuel covers enough of them. *)
Lemma find_available_port_loop_returns fuel : forall ports port count,
  (missing ports count <= List.length (available connect_ex port fuel))%nat ->
  find_available_port_loop connect_ex fuel ports port count =
  Returned (ports ++ firstn (missing ports count) (available connect_ex port fuel)).
Proof.
  induction fuel as [|fuel IH]; intros ports port count Hlen.
  - simpl in *. unfold missing in Hlen.
    destruct (Z.ltb_spec (Z.of_nat (List.length ports)) count); [lia|].
    rewrite firstn_nil, app_nil_r. reflexivity.
  - cbn [find_available_port_loop].
    destruct (Z.ltb_spec (Z.of_nat (List.length ports)) count) as [Hlt|Hge].
    + rewrite available_S in *. unfold unbound in *.
      assert (Hm : missing ports count = S (missing (ports ++ [port]) count)).
      { unfold missing. rewrite length_app. simpl. lia. }
      destruct (connect_ex port) as [result|].
      * destruct (negb (result =? 0)).
        -- rewrite IH; [|simpl in Hlen; lia].
           rewrite Hm. simpl. rewrite <- app_assoc. reflexivity.
        -- apply IH, Hlen.
      * apply IH, Hlen.
    + unfold missing. replace (Z.to_nat _) with 0%nat by lia.
      simpl. rewrite app_nil_r. reflexivity.
Qed.

Lemma nm_find_available_port_loop_returns fuel : forall ports port count,
  (forall p, port <= p -> connect_ex p <> None) ->
  (missing ports count <= List.length (available connect_ex port fuel))%nat ->
  nm_find_available_port_loop connect_ex fuel ports port count =
  Returned (ports ++ firstn (missing ports count) (available connect_ex port fuel)).
Proof.
  induction fuel as [|fuel IH]; intros ports port count Hok Hlen.
  - simpl in *. unfold missing in Hlen.
    destruct (Z.ltb_spec (Z.of_nat (List.length ports)) count); [lia|].
    rewrite firstn_nil, app_nil_r. reflexivity.
  - cbn [nm_find_available_port_loop].
    destruct (Z.ltb_spec (Z.of_nat (List.length ports)) count) as [Hlt|Hge].
    + rewrite available_S in *. unfold unbound, is_port_in_use in *.
      assert (Hm : missing ports count = S (missing (ports ++ [port]) count)).
      { unfold missing. rewrite length_app. simpl. lia. }
      assert (Hok' : forall p, port + 1 <= p -> connect_ex p <> None)
        by (intros; apply Hok; lia).
      specialize (Hok port ltac:(lia)).
      destruct (connect_ex port) as [result|]; [|congruence].
      destruct (negb (result =? 0)).
      * rewrite IH; [| exact Hok' |simpl in Hlen; lia].
        rewrite Hm. simpl. rewrite <- app_assoc. reflexivity.
      * apply IH; assumption.
    + unfold missing. replace (Z.to_nat _) with 0%nat by lia.
      simpl. rewrite app_nil_r. reflexivity.
Qed.

(** More fuel than needed does not change the ports found. *)
Lemma available_firstn_more k port n m :
  (k <= List.length (available connect_ex port n))%nat ->
  firstn k (available connect_ex port (n + m)) = firstn k (available connect_ex port n).
Proof.
  intros Hk. unfold available in *. rewrite candidates_app, filter_app.
  rewrite firstn_app. replace (k - _)%nat with 0%nat by lia.
  simpl. apply app_nil_r.
Qed.

(** Unbound ports at or above [start], without repetition, all occur
    among the available candidates once the fuel reaches past them. *)
Lemma free_ports_bounded (free : list Z) start :
  Forall (fun p => start <= p /\ unbound connect_ex p = true) free ->
  exists n, incl free (available connect_ex start n).
Proof.
  induction 1 as [|p l [Hp Hu] Hl [n IH]].
  - exists 0%nat. intros x [].
  - exists (n + Z.to_nat (p - start + 1))%nat. intros x [<-|Hx].
    + apply in_available. split; [lia|exact Hu].
    + apply IH in Hx. apply in_available in Hx. apply in_available. split; [lia|tauto].
Qed.

(** Both loops, for every amount of fuel from [n] on, once [n]
    candidates contain enough available ports. *)
Lemma find_available_port_enough_fuel n start count fuel :
  (Z.to_nat count <= List.length (available connect_ex start n))%nat ->
  (n <= fuel)%nat ->
  find_available_port connect_ex fuel start count =
  Returned (firstn (Z.to_nat count) (available connect_ex start n)).
Proof.
  intros Hk Hfuel. unfold find_available_port.
  replace fuel with (n + (fuel - n))%nat by lia.
  assert (Hm : missing [] count = Z.to_nat count)
    by (unfold missing; simpl; f_equal; lia).
  rewrite find_available_port_loop_returns; rewrite Hm.
  - simpl. now rewrite available_firstn_more.
  - unfold available in *. rewrite candidates_app, filter_app, length_app. lia.
Qed.

Lemma nm_find_available_port_enough_fuel n start count fuel :
  (forall p, start <= p -> connect_ex p <> None) ->
  (Z.to_nat count <= List.length (available connect_ex start n))%nat ->
  (n <= fuel)%nat ->
  nm_find_available_port connect_ex fuel start count =
  Returned (firstn (Z.to_nat count) (available connect_ex start n)).
Proof.
  intros Hok Hk Hfuel. unfold nm_find_available_port.
  replace fuel with (n + (fuel - n))%nat by lia.
  assert (Hm : missing [] count = Z.to_nat count)
    by (unfold missing; simpl; f_equal; lia).
  rewrite nm_find_available_port_loop_returns; try rewrite Hm; try assumption.
  - simpl. now rewrite available_firstn_more.
  - unfold available in *. rewrite candidates_app, filter_app, length_app. lia.
Qed.

Lemma firstn_available_free k start n :
  Forall (fun p => start <= p /\ unbound connect_ex p = true)
         (firstn k (available connect_ex start n)).
Proof.
  apply Forall_forall. intros p Hp. apply in_firstn, in_available in Hp.
  split; [lia|tauto].
Qed.

End Probing.

(** C10. For every start_port and count, as soon as at least [count]
    distinct ports at or above [start_port] are unbound,
    [find_available_port] terminates: from some amount of fuel on, every
    run returns the same list, which has exactly [count] entries
    ([max 0 count]: a non-positive count returns the empty list), is
    strictly increasing, hence without repetition, and consists of
    unbound ports at or above [start_port].  The module-level function
    of network_manager.py returns the same list whenever no probe
    raises. *)
Theorem find_available_port_returns_count_free_ports
        (connect_ex : host) (start_port count : Z) (free : list Z) :
  NoDup free ->
  count <= Z.of_nat (List.length free) ->
  Forall (fun p => start_port <= p /\ unbound connect_ex p = true) free ->
  exists (fuel : nat) (ports : list Z),
    (forall fuel', (fuel <= fuel')%nat ->
       find_available_port connect_ex fuel' start_port count = Returned ports) /\
    ((forall p, start_port <= p -> connect_ex p <> None) ->
     forall fuel', (fuel <= fuel')%nat ->
       nm_find_available_port connect_ex fuel' start_port count = Returned ports) /\
    Z.of_nat (List.length ports) = Z.max 0 count /\
    StronglySorted Z.lt ports /\
    NoDup ports /\
    Forall (fun p => start_port <= p /\ unbound connect_ex p = true) ports.
Proof.
  intros Hnd Hcount Hfree.
  destruct (@free_ports_bounded connect_ex free start_port Hfree) as [n Hincl].
  pose proof (NoDup_incl_length Hnd Hincl) as Hlen.
  assert (Hk : (Z.to_nat count <= List.length (available connect_ex start_port n))%nat) by lia.
  exists n, (firstn (Z.to_nat count) (available connect_ex start_port n)).
  repeat split.
  - intros fuel' Hf. now apply find_available_port_enough_fuel.
  - intros Hok fuel' Hf. now apply nm_find_available_port_enough_fuel.
  - rewrite length_firstn. lia.
  - apply sorted_firstn, available_sorted.
  - apply sorted_NoDup, sorted_firstn, available_sorted.
  - apply firstn_available_free.
Qed.

Lemma find_available_port_witness :
  exists (fuel : nat) (ports : list Z),
    (forall fuel', (fuel <= fuel')%nat ->
       find_available_port three_taken_host fuel' 9000 3 = Returned ports) /\
    ((forall p, 9000 <= p -> three_taken_host p <> None) ->
     forall fuel', (fuel <= fuel')%nat ->
       nm_find_available_port three_taken_host fuel' 9000 3 = Returned ports) /\
    Z.of_nat (List.length ports) = Z.max 0 3 /\
    StronglySorted Z.lt ports /\
    NoDup ports /\
    Forall (fun p => 9000 <= p /\ unbound three_taken_host p = true) ports.
Proof.
  apply (@find_available_port_returns_count_free_ports
           three_taken_host 9000 3 [9003; 9004; 9005]).
  - repeat constructor; simpl; intuition lia.
  - simpl; lia.
  - repeat constructor; simpl; lia.
Defined.

(** The end-to-end scenario of the specification: with 9000..9002 taken,
    the three ports found from 9000 on are 9003, 9004 and 9005. *)
Example find_available_port_skips_taken :
  find_available_port three_taken_host 6 9000 3 = Returned [9003; 9004; 9005].
Proof. reflexivity. Qed.

(** A start port above 65535: every probe raises; the class method
    keeps probing whatever the fuel, the module-level function
    propagates the exception. *)
Lemma find_available_port_loop_above_range fuel : forall port,
  65535 < port ->
  find_available_port_loop (fun p => if p <=? 65535 then Some 111 else None)
                           fuel [] port 1 = OutOfFuel.
Proof.
  induction fuel as [|fuel IH]; intros port Hp; simpl; [reflexivity|].
  destruct (Z.leb_spec port 65535); [lia|]. apply IH. lia.
Qed.

Example find_available_port_no_valid_port fuel :
  find_available_port (fun p => if p <=? 65535 then Some 111 else None) fuel 70000 1
  = OutOfFuel
  /\ nm_find_available_port (fun p => if p <=? 65535 then Some 111 else None)
                            (S fuel) 70000 1 = Raised.
Proof.
  split; [|reflexivity]. apply find_available_port_loop_above_range. lia.
Qed.

(** *** Planning *)

Lemma three_available_ports (h : host) i a b c :
  base_port i <= a < b -> b < c < base_port i + 100 ->
  unbound h a = true -> unbound h b = true -> unbound h c = true ->
  (3 <= List.length (available h (base_port i) 100))%nat.
Proof.
  intros Hab Hbc Ha Hb Hc.
  apply (@NoDup_incl_length Z [a; b; c]).
  - repeat constructor; simpl; intuition lia.
  - intros x [<-|[<-|[<-|[]]]]; apply in_available; (split; [lia|assumption]).
Qed.

(** A node whose window of 100 candidates holds three unbound ports gets
    its three ports, in increasing order, inside the window. *)
Lemma create_node_in_window (h : host) fuel i g m :
  (100 <= fuel)%nat ->
  (3 <= List.length (available h (base_port i) 100))%nat ->
  exists node, create_node h fuel i g m = Returned node /\
    index node = i /\
    base_port i <= p2p_port node /\ p2p_port node < http_port node /\
    http_port node < admin_port node /\ admin_port node < base_port i + 100.
Proof.
  intros Hfuel H3. unfold create_node.
  rewrite (@find_available_port_enough_fuel h 100 (base_port i) 3 fuel) by (simpl; lia).
  pose proof (available_sorted h (base_port i) 100) as Hs.
  assert (Hin : forall p, In p (available h (base_port i) 100) ->
                          base_port i <= p < base_port i + 100)
    by (intros p Hp; apply in_available in Hp; lia).
  destruct (available h (base_port i) 100) as [|a [|b [|c l]]]; simpl in H3; try lia.
  change (Z.to_nat 3) with 3%nat. simpl.
  eexists; split; [reflexivity|]. simpl.
  inversion Hs as [|? ? Hs1 Ha]; subst. inversion Hs1 as [|? ? Hs2 Hb]; subst.
  inversion Ha; subst. inversion Hb; subst.
  pose proof (Hin a ltac:(simpl; auto)).
  pose proof (Hin c ltac:(simpl; auto)).
  repeat split; lia.
Qed.

Lemma sorted_app (l1 l2 : list Z) :
  StronglySorted Z.lt l1 -> StronglySorted Z.lt l2 ->
  (forall x y, In x l1 -> In y l2 -> x < y) ->
  StronglySorted Z.lt (l1 ++ l2).
Proof.
  induction 1 as [|a l Hl IH Ha]; intros H2 Hlt; simpl; [exact H2|].
  constructor.
  - apply IH; [exact H2|]. intros; apply Hlt; simpl; auto.
  - apply Forall_app. split; [exact Ha|].
    apply Forall_forall. intros y Hy. apply Hlt; simpl; auto.
Qed.

Lemma create_nodes_sorted hosts fuel adv : forall indices,
  (100 <= fuel)%nat ->
  StronglySorted lt indices ->
  (forall i, In i indices ->
     (3 <= List.length (available (hosts i) (base_port i) 100))%nat) ->
  exists nodes, create_nodes hosts fuel adv indices = Returned nodes /\
    map index nodes = indices /\
    StronglySorted Z.lt (all_ports nodes) /\
    (forall p, In p (all_ports nodes) ->
       exists i, In i indices /\ base_port i <= p < base_port i + 100).
Proof.
  intros indices Hfuel Hs; induction Hs as [|i rest Hrest IH Hi]; intros Hw.
  - exists []. simpl. repeat split; [constructor|intros p []].
  - destruct IH as (nodes & Hrun & Hidx & Hsorted & Hin).
    { intros j Hj. apply Hw. simpl; auto. }
    destruct (@create_node_in_window (hosts i) fuel i (Nat.eqb i 0)
                (existsb (Nat.eqb i) adv) Hfuel (Hw i ltac:(simpl; auto)))
      as (node & Hnode & Hi0 & H1 & H2 & H3 & H4).
    exists (node :: nodes). cbn [create_nodes]. rewrite Hnode, Hrun.
    split; [reflexivity|]. split; [simpl; congruence|]. split.
    + cbn [all_ports flat_map]. apply sorted_app.
      * unfold node_ports. repeat constructor; lia.
      * exact Hsorted.
      * intros x y Hx Hy. apply Hin in Hy. destruct Hy as (j & Hj & Hy).
        rewrite Forall_forall in Hi. specialize (Hi _ Hj).
        unfold base_port in *. simpl in Hx. intuition lia.
    + intros p Hp. cbn [all_ports flat_map] in Hp. apply in_app_or in Hp.
      destruct Hp as [Hp|Hp].
      * exists i. split; [simpl; auto|]. simpl in Hp. intuition lia.
      * apply Hin in Hp. destruct Hp as (j & Hj & Hp). exists j. simpl; auto.
Qed.

Lemma seq_sorted start len : StronglySorted lt (seq start len).
Proof.
  revert start; induction len; intros start; simpl; constructor; [apply IHlen|].
  apply Forall_forall. intros x Hx. apply in_seq in Hx. lia.
Qed.

(** C1 (amended). For every node count and every set of adversarial
    indices, when each node's own window of 100 candidate ports
    [9000+100*i, 9000+100*i+99] holds at least three ports that are
    unbound when the node is created, the descriptors are all created
    and no two of them share a p2p, http or admin port. *)
Theorem plan_ports_pairwise_distinct
        (hosts : nat -> host) (fuel nodeCount : nat) (malicious_indices : list nat) :
  (100 <= fuel)%nat ->
  (forall i, (i < nodeCount)%nat ->
     exists a b c, base_port i <= a < b /\ b < c < base_port i + 100 /\
       unbound (hosts i) a = true /\ unbound (hosts i) b = true /\
       unbound (hosts i) c = true) ->
  exists nodes,
    plan hosts fuel nodeCount malicious_indices = Returned nodes /\
    map index nodes = seq 0 nodeCount /\
    NoDup (all_ports nodes).
Proof.
  intros Hfuel Hw.
  destruct (@create_nodes_sorted hosts fuel malicious_indices (seq 0 nodeCount) Hfuel
              (seq_sorted 0 nodeCount)) as (nodes & Hrun & Hidx & Hsorted & _).
  - intros i Hi. apply in_seq in Hi.
    destruct (Hw i ltac:(lia)) as (a & b & c & Hab & Hbc & Ha & Hb & Hc).
    eapply three_available_ports; eassumption.
  - exists nodes. repeat split; [exact Hrun|exact Hidx|].
    apply sorted_NoDup, Hsorted.
Qed.

Lemma plan_ports_pairwise_distinct_witness :
  exists nodes,
    plan (fun _ => three_taken_host) 100 3 [2%nat] = Returned nodes /\
    map index nodes = seq 0 3 /\
    NoDup (all_ports nodes).
Proof.
  apply (@plan_ports_pairwise_distinct (fun _ => three_taken_host) 100 3 [2%nat]).
  - lia.
  - intros i Hi.
    exists (base_port i + 3), (base_port i + 4), (base_port i + 5).
    destruct i as [|[|[|i]]]; [| | |lia]; vm_compute; intuition congruence.
Defined.

(** C1 as stated fails: on a host where 9000..9099 are all bound, the
    genesis node spills into the next window and node 1, planned on the
    same host state, is given the very same three ports. *)
Lemma plan_ports_collide_on_crowded_host :
  exists n0 n1,
    plan (fun _ => crowded_host) 200 2 [] = Returned [n0; n1] /\
    node_ports n0 = [9100; 9101; 9102] /\
    node_ports n1 = [9100; 9101; 9102] /\
    ~ NoDup (all_ports [n0; n1]).
Proof.
  eexists _, _. split; [vm_compute; reflexivity|].
  split; [reflexivity|]. split; [reflexivity|].
  intros H. inversion H as [|x l Hnotin _]; subst. apply Hnotin. simpl. auto.
Qed.

(** The fixed-offset planner of network_manager.py has two port classes
    only; its ports are pairwise distinct exactly as long as the two
    ranges do not meet. *)
Lemma generate_node_configs_distinct base_p2p base_http n :
  base_p2p < base_http ->
  base_p2p + Z.of_nat n <= base_http ->
  NoDup (map nc_p2p_port (generate_node_configs base_p2p base_http n)
         ++ map nc_http_port (generate_node_configs base_p2p base_http n)).
Proof.
  intros H0 H. apply sorted_NoDup. unfold generate_node_configs. simpl.
  rewrite !map_map. simpl.
  assert (Hs : forall b k m, StronglySorted Z.lt (map (fun i => b + Z.of_nat i) (seq k m))).
  { intros b k m; revert k; induction m; intros k; simpl; constructor; [apply IHm|].
    apply Forall_forall. intros x Hx. apply in_map_iff in Hx.
    destruct Hx as (j & <- & Hj). apply in_seq in Hj. lia. }
  constructor.
  - apply sorted_app.
    + apply Hs.
    + constructor; [apply Hs|]. apply Forall_forall. intros x Hx.
      apply in_map_iff in Hx. destruct Hx as (j & <- & Hj). apply in_seq in Hj. lia.
    + intros x y Hx [<-|Hy]; apply in_map_iff in Hx; destruct Hx as (j & <- & Hj);
        apply in_seq in Hj.
      * destruct n; simpl in *; lia.
      * apply in_map_iff in Hy. destruct Hy as (k & <- & Hk). apply in_seq in Hk. lia.
  - apply Forall_app. split.
    + apply Forall_forall. intros x Hx. apply in_map_iff in Hx.
      destruct Hx as (j & <- & Hj). apply in_seq in Hj. lia.
    + constructor; [lia|]. apply Forall_forall. intros x Hx. apply in_map_iff in Hx.
      destruct Hx as (j & <- & Hj). apply in_seq in Hj. lia.
Qed.

Example generate_node_configs_overlap :
  ~ NoDup (map nc_p2p_port (generate_node_configs 9000 9001 2)
           ++ map nc_http_port (generate_node_configs 9000 9001 2)).
Proof.
  simpl. intros H. inversion H as [|x l _ H1]; subst.
  inversion H1 as [|y l' Hnotin _]; subst. apply Hnotin. simpl. auto.
Qed.

(** *** Probing on any host *)

(** Whatever the probes do, the class method's loop does not raise, and a
    list it returns consists of the ports it held followed by unbound
    candidates in increasing order, as many as were missing. *)
Lemma find_available_port_loop_sound (connect_ex : host) fuel : forall ports port count,
  find_available_port_loop connect_ex fuel ports port count <> Raised /\
  forall l, find_available_port_loop connect_ex fuel ports port count = Returned l ->
    exists found,
      l = ports ++ found /\
      List.length found = missing ports count /\
      StronglySorted Z.lt found /\
      Forall (fun p => port <= p /\ unbound connect_ex p = true) found.
Proof.
  induction fuel as [|fuel IH]; intros ports port count.
  - simpl. destruct (Z.ltb_spec (Z.of_nat (List.length ports)) count) as [Hlt|Hge].
    + split; [discriminate|]. intros l H. discriminate.
    + split; [discriminate|]. intros l H. inversion H; subst. exists [].
      rewrite app_nil_r. unfold missing. repeat split; try constructor.
      simpl. lia.
  - cbn [find_available_port_loop].
    destruct (Z.ltb_spec (Z.of_nat (List.length ports)) count) as [Hlt|Hge].
    + assert (Hm : missing ports count = S (missing (ports ++ [port]) count)).
      { unfold missing. rewrite length_app. simpl. lia. }
      assert (Hweak : forall found,
                Forall (fun p => port + 1 <= p /\ unbound connect_ex p = true) found ->
                Forall (fun p => port <= p /\ unbound connect_ex p = true) found).
      { intros found H. eapply Forall_impl; [|exact H]. simpl. intros a [? ?]. split; [lia|auto]. }
      destruct (connect_ex port) as [result|] eqn:E.
      * destruct (negb (result =? 0)) eqn:Eb.
        -- destruct (IH (ports ++ [port]) (port + 1) count) as [Hnr Hret].
           split; [exact Hnr|]. intros l Hl.
           destruct (Hret l Hl) as (found & -> & Hlen & Hs & Hall).
           exists (port :: found). rewrite <- app_assoc. split; [reflexivity|].
           split; [simpl; lia|]. split.
           ++ constructor; [exact Hs|]. eapply Forall_impl; [|exact Hall].
              simpl. intros a [? ?]. lia.
           ++ constructor; [|apply Hweak, Hall]. split; [lia|].
              unfold unbound. rewrite E. exact Eb.
        -- destruct (IH ports (port + 1) count) as [Hnr Hret].
           split; [exact Hnr|]. intros l Hl.
           destruct (Hret l Hl) as (found & -> & Hlen & Hs & Hall).
           exists found. repeat split; auto.
      * destruct (IH ports (port + 1) count) as [Hnr Hret].
        split; [exact Hnr|]. intros l Hl.
        destruct (Hret l Hl) as (found & -> & Hlen & Hs & Hall).
        exists found. repeat split; auto.
    + split; [discriminate|]. intros l H. inversion H; subst. exists [].
      rewrite app_nil_r. unfold missing. repeat split; try constructor.
      simpl. lia.
Qed.

(** As long as ports are missing and no candidate is unbound, the loop
    goes on. *)
Lemma find_available_port_loop_starves (connect_ex : host) fuel : forall ports port count,
  Z.of_nat (List.length ports) < count ->
  (forall p, port <= p -> unbound connect_ex p = false) ->
  find_available_port_loop connect_ex fuel ports port count = OutOfFuel.
Proof.
  induction fuel as [|fuel IH]; intros ports port count Hlt Hnone;
    cbn [find_available_port_loop];
    destruct (Z.ltb_spec (Z.of_nat (List.length ports)) count); try lia; [reflexivity|].
  pose proof (Hnone port ltac:(lia)) as Hp. unfold unbound in Hp.
  destruct (connect_ex port) as [result|].
  - rewrite Hp. apply IH; [exact Hlt|]. intros; apply Hnone; lia.
  - apply IH; [exact Hlt|]. intros; apply Hnone; lia.
Qed.

(** X1. The class method [find_available_port] has no way out but a
    full list: on every host it does not raise, and what it returns is a
    list of [max 0 count] strictly increasing ports at or above
    [start_port], each of them unbound when probed.  So on a host where
    no port from [start_port] on is unbound (every probe is accepted or
    raises, as every probe above 65535 does) a call for at least one
    port never returns, whereas the module-level function of
    network_manager.py raises as soon as a probe does. *)
Theorem find_available_port_returns_only_free_ports
        (connect_ex : host) (start_port count : Z) :
  (forall fuel, find_available_port connect_ex fuel start_port count <> Raised) /\
  (forall fuel ports,
     find_available_port connect_ex fuel start_port count = Returned ports ->
     Z.of_nat (List.length ports) = Z.max 0 count /\
     StronglySorted Z.lt ports /\
     Forall (fun p => start_port <= p /\ unbound connect_ex p = true) ports) /\
  (0 < count ->
   (forall p, start_port <= p -> unbound connect_ex p = false) ->
   forall fuel, find_available_port connect_ex fuel start_port count = OutOfFuel) /\
  (0 < count ->
   connect_ex start_port = None ->
   forall fuel, nm_find_available_port connect_ex (S fuel) start_port count = Raised).
Proof.
  split; [|split; [|split]].
  - intros fuel. apply find_available_port_loop_sound.
  - intros fuel ports H.
    destruct (find_available_port_loop_sound connect_ex fuel [] start_port count) as [_ Hret].
    destruct (Hret ports H) as (found & -> & Hlen & Hs & Hall).
    simpl. split; [|split; assumption].
    rewrite Hlen. unfold missing. simpl. lia.
  - intros Hc Hnone fuel. apply find_available_port_loop_starves; [simpl; lia|exact Hnone].
  - intros Hc Hraise fuel. unfold nm_find_available_port.
    cbn [nm_find_available_port_loop List.length].
    destruct (Z.ltb_spec (Z.of_nat 0) count); [|simpl in *; lia].
    unfold is_port_in_use. rewrite Hraise. reflexivity.
Qed.

(** X2. The descriptor of [create_node] of the staged cluster test.
    The port search it relies on, when it returns, returns exactly the
    three ports that the descriptor is made of.  When [create_node]
    returns, the descriptor is named after its index ([node00],
    [node01], ...), carries the roles it was given, is stopped with pid
    0, and holds three strictly increasing ports at or above
    [9000 + 100 * index], each of them unbound when it was probed. *)
Theorem create_node_returns_fresh_descriptor
        (connect_ex : host) (fuel index : nat) (genesis malicious : bool) :
  (forall ports,
     find_available_port connect_ex fuel (base_port index) 3 = Returned ports ->
     List.length ports = 3%nat) /\
  forall node,
    create_node connect_ex fuel index genesis malicious = Returned node ->
    node_id node = ("node" ++ fmt02 index)%string /\
    Ports.index node = index /\
    (is_genesis node, is_malicious node, pid node, status node)
      = (genesis, malicious, 0, stopped) /\
    base_port index <= p2p_port node /\
    p2p_port node < http_port node /\
    http_port node < admin_port node /\
    Forall (fun p => unbound connect_ex p = true) (node_ports node).
Proof.
  unfold create_node.
  destruct (find_available_port_loop_sound connect_ex fuel [] (base_port index) 3)
    as [Hnr Hret].
  fold (find_available_port connect_ex fuel (base_port index) 3) in Hnr, Hret.
  destruct (find_available_port connect_ex fuel (base_port index) 3) as [ports| |];
    [|congruence|split; [discriminate|intros node H; discriminate]].
  destruct (Hret ports eq_refl) as (found & -> & Hlen & Hs & Hall).
  unfold missing in Hlen. simpl in Hlen.
  destruct found as [|a [|b [|c [|d found]]]]; simpl in Hlen; try lia.
  simpl. split; [intros ports E; inversion E; reflexivity|].
  intros node H. inversion H; subst; clear H. simpl.
  inversion Hs as [|? ? Hs1 Ha]; subst. inversion Hs1 as [|? ? Hs2 Hb]; subst.
  inversion Ha; subst. inversion Hb; subst.
  inversion Hall as [|? ? [Ha1 Ha2] Hall1]; subst.
  inversion Hall1 as [|? ? [Hb1 Hb2] Hall2]; subst.
  inversion Hall2 as [|? ? [Hc1 Hc2] _]; subst.
  repeat split; try lia; auto.
  unfold node_ports. cbn [p2p_port http_port admin_port]. repeat constructor; assumption.
Qed.

(** X3. The fixed-offset planner of network_manager.py gives node [i]
    the ports [base_p2p + i] and [base_http + i]: with the p2p base below
    the http base, no port is used twice exactly when the p2p range ends
    at or before the http base, that is when at most
    [base_http - base_p2p] nodes are asked for. *)
Theorem generate_node_configs_distinct_iff base_p2p base_http (n : nat) :
  base_p2p < base_http ->
  (NoDup (map nc_p2p_port (generate_node_configs base_p2p base_http n)
          ++ map nc_http_port (generate_node_configs base_p2p base_http n))
   <-> base_p2p + Z.of_nat n <= base_http).
Proof.
  intros H0. split; [|apply generate_node_configs_distinct; exact H0].
  intros Hnd. destruct (Z.le_gt_cases (base_p2p + Z.of_nat n) base_http) as [|Hgt]; [assumption|].
  exfalso.
  set (k := Z.to_nat (base_http - base_p2p)).
  assert (Hk : (1 <= k < n)%nat) by (unfold k; lia).
  assert (Hin1 : In base_http (map nc_p2p_port (generate_node_configs base_p2p base_http n))).
  { unfold generate_node_configs. simpl. right. rewrite map_map. simpl.
    apply in_map_iff. exists k. split; [unfold k; lia|]. apply in_seq. lia. }
  assert (Hin2 : In base_http (map nc_http_port (generate_node_configs base_p2p base_http n))).
  { unfold generate_node_configs. simpl. left. reflexivity. }
  apply in_split in Hin1. destruct Hin1 as (l1 & l2 & E). rewrite E in Hnd.
  rewrite <- app_assoc in Hnd. apply NoDup_remove_2 in Hnd.
  apply Hnd. rewrite !in_app_iff. right. right. exact Hin2.
Qed.

Lemma generate_node_configs_distinct_iff_witness :
  NoDup (map nc_p2p_port (generate_node_configs 9000 18000 5)
         ++ map nc_http_port (generate_node_configs 9000 18000 5))
  <-> 9000 + Z.of_nat 5 <= 18000.
Proof.
  apply (generate_node_configs_distinct_iff 9000 18000 5). lia.
Defined.

End PortsFacts.

(** ** The attack demo and its report *)

Module AttackDemoFacts.
Import AttackDemo.

(** *** Attack 1 *)

(** The counters after any part of the flood: every request is counted
    once by its worker, as a success or as a failure, and the late ones
    once more by the main thread. *)
Lemma ddos_loop_counts reqs l : forall st,
  let st' := fold_left (fun st i => await_result (late (reqs i))
                                      (send_flood_request (answer (reqs i)) st)) l st in
  ddos_successful_requests st' + ddos_failed_requests st' =
    ddos_successful_requests st + ddos_failed_requests st
    + Z.of_nat (List.length l) + Z.of_nat (List.length (late_requests reqs l)) /\
  ddos_requests_sent st <= ddos_requests_sent st'
    <= ddos_requests_sent st + Z.of_nat (List.length l).
Proof.
  induction l as [|i l IH]; intros st; cbn zeta.
  - cbn [fold_left late_requests filter List.length]. lia.
  - cbn [fold_left].
    specialize (IH (await_result (late (reqs i)) (send_flood_request (answer (reqs i)) st))).
    cbn zeta in IH. destruct IH as [IH1 IH2]. rewrite IH1.
    unfold late_requests in *. cbn [filter List.length].
    unfold await_result, send_flood_request in *.
    destruct (late (reqs i)); destruct (answer (reqs i)) as [code| |];
      try destruct (code =? 200);
      cbn [ddos_requests_sent ddos_successful_requests ddos_failed_requests List.length] in *;
      lia.
Qed.

(** C4. The flood of the attack demo does not keep the count that the
    flood of the local test and the flood of the simplified tester keep.
    A request whose future is not done within the second the main thread
    waits for it is counted as failed there, and is counted again by its
    worker when it ends: the two counters of the recorded result add up
    to the burst size 100 plus the number of late requests.  With 100
    answers of 200, the first of them late, the result records 100
    successful and 1 failed requests, 101 in all. *)
Theorem ddos_simulation_counts_late_requests_twice :
  (forall reqs, exists sent successful failed,
     attack_1_ddos_simulation reqs = DDoS sent successful failed /\
     successful + failed
       = 100 + Z.of_nat (List.length (late_requests reqs (seq 0 100))) /\
     0 <= sent <= 100) /\
  attack_1_ddos_simulation (fun i => mkFloodRequest (Response 200) (Nat.eqb i 0))
    = DDoS 100 100 1.
Proof.
  split; [|vm_compute; reflexivity].
  intros reqs. unfold attack_1_ddos_simulation. cbn zeta.
  destruct (ddos_loop_counts reqs (seq 0 100) (mkDdos 0 0 0)) as [H1 H2].
  cbn zeta in H1, H2. rewrite length_seq in H1, H2.
  cbn [ddos_requests_sent ddos_successful_requests ddos_failed_requests] in H1, H2.
  do 3 eexists. split; [reflexivity|]. split; lia.
Qed.

(** *** Attack 2 *)

Lemma fold_left_flat_map (A B C : Type) (f : A -> C -> A) (g : B -> list C) l : forall a,
  fold_left f (flat_map g l) a = fold_left (fun a b => fold_left f (g b) a) l a.
Proof.
  induction l as [|b l IH]; intros a; simpl; [reflexivity|].
  rewrite fold_left_app. apply IH.
Qed.

Lemma attack_2_as_one_loop net :
  attack_2_malformed_data net =
  let st := fold_left (inject_step net) requests (mkInj 0 0 0 []) in
  Injection (inj_payloads_tested st) (inj_blocked_attempts st)
            (inj_successful_injections st) (inj_details st).
Proof. reflexivity. Qed.

Lemma count_cons p o l :
  count p (o :: l) = (if p o then 1 else 0) + count p l.
Proof. unfold count. cbn [filter]. destruct (p o); cbn [List.length]; lia. Qed.

(** The counters after any sequence of requests. *)
Lemma inject_loop_counts net reqs : forall st,
  let outs := map (fun pe => net (fst pe) (snd pe)) reqs in
  let st' := fold_left (inject_step net) reqs st in
  inj_payloads_tested st' = inj_payloads_tested st + count is_response outs /\
  inj_blocked_attempts st' =
    inj_blocked_attempts st + count is_blocked_response outs + count is_timeout outs /\
  inj_successful_injections st' =
    inj_successful_injections st + count is_accepted_response outs /\
  Z.of_nat (List.length (inj_details st')) =
    Z.of_nat (List.length (inj_details st)) + count is_response outs.
Proof.
  induction reqs as [|[p e] reqs IH]; intros st; cbn zeta.
  - unfold count; simpl. repeat split; lia.
  - cbn [fold_left map]. specialize (IH (inject_step net st (p, e))). cbn zeta in IH.
    destruct IH as (H1 & H2 & H3 & H4). rewrite H1, H2, H3, H4. rewrite !count_cons.
    unfold inject_step, inject_one. cbn [fst snd].
    destruct (net p e) as [code| |]; cbn [is_response is_blocked_response is_timeout
      is_accepted_response blocked inj_payloads_tested inj_blocked_attempts
      inj_successful_injections inj_details].
    + rewrite length_app. cbn [List.length].
      destruct (mem_Z code [400; 401; 403; 422; 429]); cbn [negb andb];
        [|destruct (code =? 200)]; repeat split; lia.
    + repeat split; lia.
    + repeat split; lia.
Qed.

(** The counters of [attack_2_malformed_data] in terms of what the 15
    requests did: responses are tested and detailed, a request that
    times out only adds to [blocked_attempts], and a request that fails
    in any other way (connection refused) changes no counter at all. *)
Lemma attack_2_counts net :
  exists tested blocked_n accepted details,
    attack_2_malformed_data net = Injection tested blocked_n accepted details /\
    tested = count is_response (outcomes net) /\
    blocked_n = count is_blocked_response (outcomes net) + count is_timeout (outcomes net) /\
    accepted = count is_accepted_response (outcomes net) /\
    Z.of_nat (List.length details) = count is_response (outcomes net).
Proof.
  rewrite attack_2_as_one_loop. cbn zeta.
  destruct (inject_loop_counts net requests (mkInj 0 0 0 [])) as (H1 & H2 & H3 & H4).
  simpl in H1, H2, H3, H4.
  do 4 eexists. split; [reflexivity|]. unfold outcomes. repeat split; assumption.
Qed.

(** *** Ratings and the overall score *)

Lemma Qgt_bool_iff x y : Qgt_bool x y = true <-> (y < x)%Q.
Proof.
  unfold Qgt_bool. rewrite negb_true_iff. split.
  - intros H. apply Qnot_le_lt. intros Hle. apply Qle_bool_iff in Hle. congruence.
  - intros H. destruct (Qle_bool x y) eqn:E; [|reflexivity].
    apply Qle_bool_iff in E. exfalso. eapply Qlt_not_le; eassumption.
Qed.

Lemma Qgt_bool_false_iff x y : Qgt_bool x y = false <-> (x <= y)%Q.
Proof.
  unfold Qgt_bool. rewrite negb_false_iff. apply Qle_bool_iff.
Qed.

Lemma rate3_good hi lo r : rate3 hi lo r = good <-> (hi < r)%Q.
Proof.
  unfold rate3. destruct (Qgt_bool r hi) eqn:E1.
  - apply Qgt_bool_iff in E1. tauto.
  - apply Qgt_bool_false_iff in E1. split.
    + destruct (Qgt_bool r lo); discriminate.
    + intros H. exfalso. eapply Qlt_not_le; eassumption.
Qed.

Lemma rate3_fair hi lo r : rate3 hi lo r = fair <-> (lo < r /\ r <= hi)%Q.
Proof.
  unfold rate3. destruct (Qgt_bool r hi) eqn:E1.
  - apply Qgt_bool_iff in E1. split; [discriminate|].
    intros [_ H]. exfalso. eapply Qlt_not_le; eassumption.
  - apply Qgt_bool_false_iff in E1. destruct (Qgt_bool r lo) eqn:E2.
    + apply Qgt_bool_iff in E2. tauto.
    + apply Qgt_bool_false_iff in E2. split; [discriminate|].
      intros [H _]. exfalso. eapply Qlt_not_le; eassumption.
Qed.

Lemma rate3_poor hi lo r : rate3 hi lo r = poor <-> (r <= hi /\ r <= lo)%Q.
Proof.
  unfold rate3. destruct (Qgt_bool r hi) eqn:E1.
  - apply Qgt_bool_iff in E1. split; [discriminate|].
    intros [H _]. exfalso. eapply Qlt_not_le; eassumption.
  - apply Qgt_bool_false_iff in E1. destruct (Qgt_bool r lo) eqn:E2.
    + apply Qgt_bool_iff in E2. split; [discriminate|].
      intros [_ H]. exfalso. eapply Qlt_not_le; eassumption.
    + apply Qgt_bool_false_iff in E2. tauto.
Qed.

Lemma sum_all_good n : sum_Z (map score_map (repeat good n)) = 100 * Z.of_nat n.
Proof. induction n; [reflexivity|]. cbn [repeat map sum_Z fold_right] in *. fold (sum_Z (map score_map (repeat good n))). rewrite IHn. simpl score_map. lia. Qed.

(** Every rating weighs between 20 and 100, so does the sum per entry. *)
Lemma sum_scores_bounds ratings :
  20 * Z.of_nat (List.length ratings) <= sum_Z (map score_map ratings)
  <= 100 * Z.of_nat (List.length ratings).
Proof.
  induction ratings as [|r rs IH]; [simpl; lia|].
  cbn [map sum_Z fold_right List.length]. fold (sum_Z (map score_map rs)).
  destruct r; simpl score_map; lia.
Qed.

(** The overall score in the report of the attack demo is computed from
    the ratings of the scored categories with the weights good=100,
    fair=60, poor=20; it is their mean ([score * number of ratings = sum
    of weights]); with no scored category the key is absent ([None]),
    not a number; and when every category is rated good it is exactly
    100. *)
Lemma demo_overall_score :
  (score_map good = 100 /\ score_map fair = 60 /\ score_map poor = 20) /\
  (forall results,
     report_overall_score (generate_security_report results) =
     overall_score (map (fun ca => rating_of (snd ca)) (security_analysis results))) /\
  overall_score [] = None /\
  report_overall_score (generate_security_report []) = None /\
  (forall r rs, exists score,
     overall_score (r :: rs) = Some score /\
     (score * inject_Z (Z.of_nat (List.length (r :: rs)))
      == inject_Z (sum_Z (map score_map (r :: rs))))%Q) /\
  (forall n, exists score,
     overall_score (repeat good (S n)) = Some score /\ (score == 100)%Q).
Proof.
  split; [repeat split|]. split; [reflexivity|]. split; [reflexivity|].
  split; [reflexivity|]. split.
  - intros r rs. eexists. split; [reflexivity|].
    field. intros H. cbn [List.length] in H.
    rewrite Nat2Z.inj_succ in H. unfold Qeq in H. simpl in H. lia.
  - intros n. eexists. split; [reflexivity|].
    rewrite sum_all_good, repeat_length.
    rewrite inject_Z_mult. field.
    intros H. rewrite Nat2Z.inj_succ in H. unfold Qeq in H. simpl in H. lia.
Qed.

(** How the call ends: the report is written in both cases, and the
    call returns only when nothing was scored. *)
Lemma generate_security_report_call_ends results :
  match generate_security_report_call results with
  | ReturnsReport r => r = generate_security_report results /\ security_analysis results = []
  | RaisesTypeError r => r = generate_security_report results /\ security_analysis results <> []
  end.
Proof.
  unfold generate_security_report_call. cbn zeta.
  unfold generate_security_report at 1. cbn [report_overall_score].
  destruct (security_analysis results) as [|ca analysis]; cbn [map overall_score].
  - split; reflexivity.
  - split; [reflexivity|discriminate].
Qed.

(** Every entry of the security analysis is a category of the table,
    rated by the thresholds the table gives it. *)
Lemma scored_category results category a :
  In (category, a) (security_analysis results) ->
  exists hi lo,
    In (category, (hi, lo)) category_thresholds /\
    (lo < hi)%Q /\
    rating_of a = rate3 hi lo (rate a).
Proof.
  unfold security_analysis, category_thresholds. rewrite !in_app_iff.
  intros [H|[H|H]].
  - unfold ddos_resistance in H.
    destruct (find is_ddos results) as [[]|]; cbn [In] in H; try tauto.
    destruct H as [H|[]]. inversion H; subst.
    exists (fst ddos_thresholds), (snd ddos_thresholds).
    split; [cbn [In]; auto|]. split; reflexivity.
  - unfold input_validation in H.
    destruct (find is_injection results) as [[]|]; cbn [In] in H; try tauto.
    destruct H as [H|[]]. inversion H; subst.
    exists (fst injection_thresholds), (snd injection_thresholds).
    split; [cbn [In]; auto|]. split; reflexivity.
  - unfold access_control in H.
    destruct (find is_unauthorized results) as [[]|]; cbn [In] in H; try tauto.
    destruct H as [H|[]]. inversion H; subst.
    exists (fst access_thresholds), (snd access_thresholds).
    split; [cbn [In]; auto|]. split; reflexivity.
Qed.

(** C9 (amended). The three-tier boundaries are exclusive for every
    scored category.  Every entry of the security analysis of a report
    is one of [ddos_resistance] (thresholds 0.5 and 0.2),
    [input_validation] (0.8 and 0.5) and [access_control] (0.9 and 0.7),
    and its rating follows from its rate: good exactly when the rate is
    above the upper threshold, fair exactly when it is above the lower
    one and at most the upper one, poor exactly when it is at most the
    lower one.  So a rate equal to the upper threshold is rated fair and
    a rate equal to the lower threshold is rated poor. *)
Theorem rating_boundaries_are_exclusive
        (results : list attack_result) (category : string) (a : category_analysis) :
  In (category, a) (security_analysis results) ->
  exists hi lo,
    In (category, (hi, lo)) category_thresholds /\
    (rating_of a = good <-> (hi < rate a)%Q) /\
    (rating_of a = fair <-> (lo < rate a /\ rate a <= hi)%Q) /\
    (rating_of a = poor <-> (rate a <= lo)%Q) /\
    ((rate a == hi)%Q -> rating_of a = fair) /\
    ((rate a == lo)%Q -> rating_of a = poor).
Proof.
  intros Hin. destruct (scored_category results category a Hin) as (hi & lo & Ht & Hlohi & ->).
  exists hi, lo. split; [exact Ht|].
  split; [apply rate3_good|]. split; [apply rate3_fair|]. split; [|split].
  - rewrite rate3_poor. split; [tauto|]. intros H. split; [|exact H].
    apply Qle_trans with lo; [exact H|]. apply Qlt_le_weak, Hlohi.
  - intros E. apply rate3_fair. rewrite E. split; [exact Hlohi|apply Qle_refl].
  - intros E. apply rate3_poor. rewrite E.
    split; [apply Qlt_le_weak, Hlohi|apply Qle_refl].
Qed.

Lemma rating_boundaries_are_exclusive_witness :
  let a := mkAnalysis (ratio 12 15) fair in
  In ("input_validation", a) (security_analysis [DDoS 100 100 1; Injection 15 12 0 []]) /\
  exists hi lo,
    In ("input_validation", (hi, lo)) category_thresholds /\
    (rating_of a = good <-> (hi < rate a)%Q) /\
    (rating_of a = fair <-> (lo < rate a /\ rate a <= hi)%Q) /\
    (rating_of a = poor <-> (rate a <= lo)%Q) /\
    ((rate a == hi)%Q -> rating_of a = fair) /\
    ((rate a == lo)%Q -> rating_of a = poor).
Proof.
  cbn zeta.
  assert (Hin : In ("input_validation", mkAnalysis (ratio 12 15) fair)
                   (security_analysis [DDoS 100 100 1; Injection 15 12 0 []])).
  { right. left. reflexivity. }
  split; [exact Hin|].
  exact (rating_boundaries_are_exclusive
           [DDoS 100 100 1; Injection 15 12 0 []] "input_validation"
           (mkAnalysis (ratio 12 15) fair) Hin).
Defined.

(** C9 as stated fails: 12 blocked out of 15 tested is a block rate of
    exactly 0.8 and is rated fair, not good; 7 out of 14 is exactly 0.5
    and is rated poor, not fair. *)
Lemma rating_at_threshold_is_lower_tier :
  (exists a, input_validation [Injection 15 12 0 []] = [("input_validation", a)] /\
             (rate a == 8 # 10)%Q /\ rating_of a = fair) /\
  (exists a, input_validation [Injection 14 7 0 []] = [("input_validation", a)] /\
             (rate a == 5 # 10)%Q /\ rating_of a = poor).
Proof.
  split; eexists; (split; [reflexivity|]); split; reflexivity.
Qed.

(** *** Attack 3 and what the report makes of the counters *)

Lemma access_loop_counts net reqs : forall st,
  let outs := map (fun te => net (fst te) (snd te)) reqs in
  let st' := fold_left (fun st te => access_one (fst te) (snd te) (net (fst te) (snd te)) st)
                       reqs st in
  acc_endpoints_tested st' = acc_endpoints_tested st + count is_response outs /\
  acc_blocked_access st' = acc_blocked_access st + count is_denied_response outs /\
  acc_unauthorized_success st' =
    acc_unauthorized_success st + (count is_response outs - count is_denied_response outs) /\
  Z.of_nat (List.length (acc_details st')) =
    Z.of_nat (List.length (acc_details st)) + count is_response outs.
Proof.
  induction reqs as [|[t e] reqs IH]; intros st; cbn zeta.
  - unfold count; simpl. repeat split; lia.
  - cbn [fold_left map fst snd].
    specialize (IH (access_one t e (net t e) st)). cbn zeta in IH.
    destruct IH as (H1 & H2 & H3 & H4). rewrite H1, H2, H3, H4. rewrite !count_cons.
    unfold access_one.
    destruct (net t e) as [code| |];
      cbn [is_response is_denied_response ad_blocked acc_endpoints_tested
           acc_blocked_access acc_unauthorized_success acc_details];
      try (repeat split; lia).
    rewrite length_app. cbn [List.length].
    destruct (mem_Z code [401; 403]); repeat split; lia.
Qed.

Lemma attack_3_as_one_loop net :
  attack_3_state net =
  fold_left (fun st te => access_one (fst te) (snd te) (net (fst te) (snd te)) st)
            access_requests (mkAcc 0 0 0 []).
Proof. reflexivity. Qed.

Lemma count_bounds p l : 0 <= count p l <= Z.of_nat (List.length l).
Proof.
  unfold count. split; [lia|]. apply inj_le, filter_length_le.
Qed.

Lemma count_denied_le_responses l : count is_denied_response l <= count is_response l.
Proof.
  induction l as [|o l IH]; [unfold count; simpl; lia|].
  rewrite !count_cons.
  destruct o as [code| |]; cbn [is_denied_response is_response]; try lia.
  destruct (mem_Z code [401; 403]); lia.
Qed.

Lemma ratio_bounds a b : 0 <= a <= b -> (0 <= ratio a b /\ ratio a b <= 1)%Q.
Proof.
  intros [Ha Hab]. unfold ratio. destruct (Z.gtb_spec b 0) as [Hb|Hb].
  - assert (Hq : (0 < inject_Z b)%Q) by (rewrite <- (Zlt_Qlt 0); lia).
    split.
    + apply Qle_shift_div_l; [exact Hq|]. rewrite Qmult_0_l.
      rewrite <- (Zle_Qle 0). exact Ha.
    + apply Qle_shift_div_r; [exact Hq|]. rewrite Qmult_1_l.
      rewrite <- Zle_Qle. exact Hab.
  - split; discriminate.
Qed.

(** X4. [attack_3_unauthorized_access] makes 21 requests (6 without a
    token, 5 fake tokens against 3 endpoints).  A request that raises is
    dropped without a trace; every response is tested and detailed, and
    it is either blocked (401 or 403) or counted as an unauthorized
    success, whatever its status: so [endpoints_tested] is the sum of the
    other two counters and at most 21, and the block rate that the report
    computes from this result lies between 0 and 1. *)
Theorem attack_3_counts_every_response_once (net : option string -> string -> http_outcome) :
  let st := attack_3_state net in
  List.length access_requests = 21%nat /\
  acc_endpoints_tested st = count is_response (access_outcomes net) /\
  acc_blocked_access st = count is_denied_response (access_outcomes net) /\
  acc_endpoints_tested st = acc_blocked_access st + acc_unauthorized_success st /\
  Z.of_nat (List.length (acc_details st)) = acc_endpoints_tested st /\
  0 <= acc_blocked_access st <= acc_endpoints_tested st /\
  acc_endpoints_tested st <= 21 /\
  exists a,
    access_control [attack_3_unauthorized_access net] = [("access_control", a)] /\
    (0 <= rate a /\ rate a <= 1)%Q.
Proof.
  cbn zeta. rewrite attack_3_as_one_loop.
  destruct (access_loop_counts net access_requests (mkAcc 0 0 0 [])) as (H1 & H2 & H3 & H4).
  cbn zeta in H1, H2, H3, H4. fold (access_outcomes net) in H1, H2, H3, H4.
  cbn [acc_endpoints_tested acc_blocked_access acc_unauthorized_success acc_details
       List.length] in H1, H2, H3, H4.
  pose proof (count_denied_le_responses (access_outcomes net)) as Hle.
  pose proof (count_bounds is_response (access_outcomes net)) as Hb.
  pose proof (count_bounds is_denied_response (access_outcomes net)) as Hd.
  assert (Hlen : List.length (access_outcomes net) = 21%nat)
    by (unfold access_outcomes; rewrite length_map; reflexivity).
  rewrite Hlen in Hb.
  split; [reflexivity|]. split; [lia|]. split; [lia|]. split; [lia|].
  split; [lia|]. split; [lia|]. split; [lia|].
  eexists. split; [reflexivity|]. cbn [rate].
  unfold attack_3_unauthorized_access. cbn zeta. rewrite attack_3_as_one_loop.
  apply ratio_bounds. lia.
Qed.

(** X5. What the report makes of attack 2.  The block rate of
    [input_validation] divides [blocked_attempts], which counts the
    rejected responses and the requests that timed out, by
    [payloads_tested], which counts the responses only.  So when no
    request was answered the rate is 0 and the rating is the lowest one,
    however many requests timed out; and as soon as the rejected
    responses and the timeouts together outnumber the responses the
    rate exceeds 1 and the rating is the highest one. *)
Theorem input_validation_rate_counts_timeouts (net : string -> string -> http_outcome) :
  let responses := count is_response (outcomes net) in
  let rejected := count is_blocked_response (outcomes net) in
  let timeouts := count is_timeout (outcomes net) in
  exists a,
    input_validation [attack_2_malformed_data net] = [("input_validation", a)] /\
    rate a = ratio (rejected + timeouts) responses /\
    (responses = 0 -> rate a = 0%Q /\ rating_of a = poor) /\
    (0 < responses -> responses < rejected + timeouts ->
     (1 < rate a)%Q /\ rating_of a = good).
Proof.
  cbn zeta.
  destruct (attack_2_counts net) as (tested & blocked_n & accepted & details & E & -> & -> & _).
  rewrite E. eexists. split; [reflexivity|]. cbn [rate rating_of]. split; [reflexivity|]. split.
  - intros H0. rewrite H0. split; reflexivity.
  - intros Hpos Hmore.
    assert (Hone : (1 < ratio (count is_blocked_response (outcomes net)
                               + count is_timeout (outcomes net))
                              (count is_response (outcomes net)))%Q).
    { unfold ratio. destruct (Z.gtb_spec (count is_response (outcomes net)) 0); [|lia].
      apply Qlt_shift_div_l; [rewrite <- (Zlt_Qlt 0); lia|].
      rewrite Qmult_1_l. rewrite <- Zlt_Qlt. exact Hmore. }
    split; [exact Hone|]. apply rate3_good.
    eapply Qlt_trans; [|exact Hone]. reflexivity.
Qed.

Lemma recommendation_for_known category :
  In category ["ddos_resistance"; "input_validation"; "access_control"] ->
  exists text, recommendation_for category = [text] /\ text <> "security posture is good".
Proof.
  intros [<-|[<-|[<-|[]]]]; eexists; (split; [reflexivity|discriminate]).
Qed.

Lemma security_analysis_categories results :
  Forall (fun ca => In (fst ca) ["ddos_resistance"; "input_validation"; "access_control"])
         (security_analysis results).
Proof.
  unfold security_analysis. apply Forall_app. split; [|apply Forall_app; split].
  - unfold ddos_resistance. destruct (find is_ddos results) as [[]|]; try apply Forall_nil.
    apply Forall_cons; [cbn [fst In]; tauto|apply Forall_nil].
  - unfold input_validation. destruct (find is_injection results) as [[]|]; try apply Forall_nil.
    apply Forall_cons; [cbn [fst In]; tauto|apply Forall_nil].
  - unfold access_control. destruct (find is_unauthorized results) as [[]|]; try apply Forall_nil.
    apply Forall_cons; [cbn [fst In]; tauto|apply Forall_nil].
Qed.

Lemma poor_recommendations analysis :
  Forall (fun ca => In (fst ca) ["ddos_resistance"; "input_validation"; "access_control"])
         analysis ->
  let recs := flat_map (fun ca => match rating_of (snd ca) with
                                  | poor => recommendation_for (fst ca)
                                  | _ => []
                                  end) analysis in
  List.length recs = List.length (filter is_poor analysis) /\
  ~ In "security posture is good" recs.
Proof.
  induction 1 as [|ca analysis Hca Hall IH]; cbn zeta; [simpl; tauto|].
  cbn zeta in IH. destruct IH as [IHlen IHnot].
  cbn [flat_map filter]. unfold is_poor at 1.
  destruct (rating_of (snd ca)); cbn [app]; try (split; assumption).
  destruct (recommendation_for_known (fst ca) Hca) as (text & -> & Hne).
  cbn [app List.length]. split; [now rewrite IHlen|].
  intros [Heq|Hin]; [exact (Hne Heq)|exact (IHnot Hin)].
Qed.

(** X6. The recommendations of the security report are never empty.
    They are the single positive statement exactly when no scored
    category is rated poor; otherwise there is one recommendation for
    each category rated poor and the positive statement is not among
    them. *)
Theorem recommendations_follow_poor_ratings (results : list attack_result) :
  let r := generate_security_report results in
  let poor_ones := filter is_poor (report_security_analysis r) in
  report_recommendations r <> [] /\
  (poor_ones = [] -> report_recommendations r = ["security posture is good"]) /\
  (poor_ones <> [] ->
   List.length (report_recommendations r) = List.length poor_ones /\
   ~ In "security posture is good" (report_recommendations r)).
Proof.
  cbn zeta. unfold generate_security_report.
  cbn [report_recommendations report_security_analysis]. unfold recommendations.
  destruct (poor_recommendations (security_analysis results)
              (security_analysis_categories results)) as [Hlen Hnot].
  cbn zeta in Hlen, Hnot.
  destruct (flat_map _ (security_analysis results)) as [|rec recs] eqn:E.
  - split; [discriminate|]. split; [reflexivity|].
    intros Hne. destruct (filter is_poor (security_analysis results)); [congruence|].
    simpl in Hlen. discriminate.
  - split; [discriminate|]. split.
    + intros H0. rewrite H0 in Hlen. simpl in Hlen. discriminate.
    + intros _. split; assumption.
Qed.

End AttackDemoFacts.

(** ** The simplified tester *)

Module SimpleTestFacts.
Import SimpleTest.

Lemma flood_loop_total (net : nat -> http_outcome) l : forall r,
  let r' := fold_left (fun r i => flood_one (net i) r) l r in
  success r' + failed r' = success r + failed r + Z.of_nat (List.length l) /\
  requests_sent r <= requests_sent r' <= requests_sent r + Z.of_nat (List.length l).
Proof.
  induction l as [|i l IH]; intros r; cbn zeta.
  - simpl. lia.
  - cbn [fold_left List.length]. specialize (IH (flood_one (net i) r)). cbn zeta in IH.
    destruct IH as [IH1 IH2]. rewrite IH1.
    unfold flood_one in *. destruct (net i) as [code|]; [destruct (code =? 200)|];
      cbn [success failed requests_sent] in *; lia.
Qed.

(** Every one of the 50 requests is counted once, as a success or as a
    failure. *)
Lemma perform_flood_attack_total net :
  success (perform_flood_attack net) + failed (perform_flood_attack net) = 50.
Proof.
  unfold perform_flood_attack, perform_flood_attack_n.
  destruct (flood_loop_total net (seq 0 50) (mkFlood 0 0 0)) as [H _].
  cbn zeta in H. rewrite H, length_seq. reflexivity.
Qed.

(** Without any scored attack this script reports the number 0. *)
Example security_score_nothing_scored : security_score 0 0 = 0%Q.
Proof. reflexivity. Qed.

(** *** The two sequential attacks *)

Lemma invalid_loop_invariant net types : forall r,
  let r' := fold_left (fun r t => invalid_one t (net t) r) types r in
  map response_type (inv_responses r') = map response_type (inv_responses r) ++ types /\
  inv_attempts r' - Z.of_nat (List.length (filter is_answered (inv_responses r')))
  = inv_attempts r - Z.of_nat (List.length (filter is_answered (inv_responses r))) /\
  (Forall flag_matches_status (inv_responses r) ->
   Forall flag_matches_status (inv_responses r')).
Proof.
  induction types as [|t types IH]; intros r; cbn zeta.
  - simpl. rewrite app_nil_r. auto.
  - cbn [fold_left]. specialize (IH (invalid_one t (net t) r)). cbn zeta in IH.
    destruct IH as (H1 & H2 & H3). rewrite H1, H2. clear H1 H2.
    unfold invalid_one in *.
    destruct (net t) as [code|]; cbn [inv_responses inv_attempts] in *;
      rewrite map_app, filter_app, length_app, <- app_assoc;
      cbn [map response_type filter is_answered List.length app];
      (split; [reflexivity|]); (split; [lia|]);
      intros Hall; apply H3, Forall_app; (split; [exact Hall|]);
      repeat constructor.
Qed.

(** X7. [perform_invalid_data_attack] posts its four payloads one after
    the other and keeps an entry for each of them, in their order: the
    status of the response with a [handled] flag that is set exactly for
    400, 422 and 429, or the error of a request that raised.  [attempts]
    counts the responses only, so a request that raised is in the list
    but not in the count. *)
Theorem invalid_data_attack_keeps_one_entry_per_payload (net : string -> http_outcome) :
  let r := perform_invalid_data_attack net in
  map response_type (inv_responses r) = invalid_payloads /\
  List.length (inv_responses r) = 4%nat /\
  inv_attempts r = Z.of_nat (List.length (filter is_answered (inv_responses r))) /\
  0 <= inv_attempts r <= 4 /\
  Forall flag_matches_status (inv_responses r) /\
  (forall t, In t invalid_payloads -> net t = Exc -> In (Errored t) (inv_responses r)).
Proof.
  cbn zeta. unfold perform_invalid_data_attack.
  destruct (invalid_loop_invariant net invalid_payloads (mkInvalid 0 [])) as (H1 & H2 & H3).
  cbn zeta in H1, H2, H3. cbn [inv_responses inv_attempts map filter List.length app] in *.
  set (r := fold_left _ invalid_payloads _) in *.
  assert (Hlen : List.length (inv_responses r) = 4%nat).
  { rewrite <- (length_map response_type), H1. reflexivity. }
  pose proof (filter_length_le is_answered (inv_responses r)) as Hle.
  split; [exact H1|]. split; [exact Hlen|]. split; [lia|]. split; [lia|].
  split; [apply H3; constructor|].
  intros t Ht Hexc. subst r. unfold invalid_payloads in *. cbn [fold_left].
  unfold invalid_one.
  destruct Ht as [<-|[<-|[<-|[<-|[]]]]]; rewrite Hexc;
    repeat match goal with
           | |- context [net ?x] =>
               lazymatch x with
               | _ => destruct (net x); cbn [inv_responses inv_attempts]
               end
           end;
    rewrite ?in_app_iff; simpl; tauto.
Qed.

Lemma unauthorized_loop_counts (net : string -> bool -> http_outcome) (es : list string) :
  forall r,
  let r' := fold_left (fun r e => unauthorized_one (net e false) (net e true) r) es r in
  let made := flat_map (fun e => match net e false with
                                 | Response _ => [net e false; net e true]
                                 | Exc => [net e false]
                                 end) es in
  un_attempts r' =
    un_attempts r + Z.of_nat (List.length (filter is_simple_response made)) /\
  un_blocked r <= un_blocked r' /\
  un_blocked r' - un_blocked r <= un_attempts r' - un_attempts r /\
  (List.length es <= List.length made <= 2 * List.length es)%nat.
Proof.
  induction es as [|e es IH]; intros r; cbn zeta.
  - simpl. lia.
  - cbn [fold_left flat_map].
    specialize (IH (unauthorized_one (net e false) (net e true) r)).
    cbn zeta in IH. destruct IH as (H1 & H2 & H3 & H4).
    rewrite H1. rewrite filter_app, !length_app.
    unfold unauthorized_one, count_unauthorized in *.
    destruct (net e false) as [code1|]; [destruct (net e true) as [code2|]|];
      cbn [un_attempts un_blocked filter is_simple_response List.length] in *;
      repeat match goal with
             | |- context [mem_Z ?c ?l] => destruct (mem_Z c l)
             | H : context [mem_Z ?c ?l] |- _ => destruct (mem_Z c l)
             end; lia.
Qed.

(** X8. [perform_unauthorized_attack] tries each of its five endpoints
    without a token and then with a fake token, and skips the second
    request when the first one raised.  [attempts] is the number of
    responses it got, [blocked] the number of those with status 401 or
    403: so blocked is at most attempts, attempts at most 10, and
    between 5 and 10 requests are made. *)
Theorem unauthorized_attack_counts_responses (net : string -> bool -> http_outcome) :
  let r := perform_unauthorized_attack net in
  un_attempts r
    = Z.of_nat (List.length (filter is_simple_response (unauthorized_requests_made net))) /\
  0 <= un_blocked r <= un_attempts r /\
  un_attempts r <= 10 /\
  (5 <= List.length (unauthorized_requests_made net) <= 10)%nat /\
  ((forall e, net e false = Exc) -> r = mkUnauth 0 0).
Proof.
  cbn zeta. unfold perform_unauthorized_attack, unauthorized_requests_made.
  destruct (unauthorized_loop_counts net simple_protected_endpoints (mkUnauth 0 0))
    as (H1 & H2 & H3 & H4).
  cbn zeta in H1, H2, H3, H4. cbn [un_attempts un_blocked] in H1, H2, H3.
  change (List.length simple_protected_endpoints) with 5%nat in H4.
  pose proof (filter_length_le is_simple_response
                (flat_map (fun e => match net e false with
                                    | Response _ => [net e false; net e true]
                                    | Exc => [net e false]
                                    end) simple_protected_endpoints)) as Hle.
  split; [exact H1|]. split; [lia|]. split; [lia|]. split; [lia|].
  intros Hexc. unfold simple_protected_endpoints. cbn [fold_left].
  unfold unauthorized_one. rewrite !Hexc. reflexivity.
Qed.

(** *** Scoring *)

Lemma percent_bounds a b : 0 <= a <= b -> 0 <= percent a b <= 100.
Proof.
  intros [Ha Hab]. unfold percent. destruct (Z.gtb_spec b 0) as [Hb|Hb]; [|lia].
  split.
  - apply Z.div_pos; lia.
  - apply Z.div_le_upper_bound; lia.
Qed.

Lemma flood_points_cases r :
  points (FloodAttack r) = 20 \/ points (FloodAttack r) = 60 \/ points (FloodAttack r) = 80.
Proof.
  unfold points. cbn zeta.
  destruct (negb (Qle_bool _ (5 # 10))); [tauto|].
  destruct (negb (Qle_bool _ (2 # 10))); tauto.
Qed.

Lemma node_points_bounds fnet inet unet :
  20 <= total_score (malicious_node_attacks fnet inet unet) <= 280.
Proof.
  unfold malicious_node_attacks, total_score. cbn [map fold_right].
  pose proof (flood_points_cases (perform_flood_attack fnet)) as Hf.
  assert (Hb : 0 <= un_blocked (perform_unauthorized_attack unet)
               <= un_attempts (perform_unauthorized_attack unet)).
  { unfold perform_unauthorized_attack.
    destruct (unauthorized_loop_counts unet simple_protected_endpoints (mkUnauth 0 0))
      as (_ & H2 & H3 & _).
    cbn zeta in H2, H3. cbn [un_attempts un_blocked] in H2, H3. lia. }
  assert (Hi : 0 <= points (InvalidDataAttack (perform_invalid_data_attack inet)) <= 100).
  { unfold points. apply percent_bounds.
    pose proof (filter_length_le is_handled (inv_responses (perform_invalid_data_attack inet))).
    lia. }
  assert (Hu : 0 <= points (UnauthorizedAttack (perform_unauthorized_attack unet)) <= 100).
  { unfold points. apply percent_bounds. lia. }
  lia.
Qed.

Lemma total_score_app l1 l2 : total_score (l1 ++ l2) = total_score l1 + total_score l2.
Proof.
  unfold total_score. induction l1 as [|a l1 IH]; simpl; [reflexivity|]. rewrite IH. lia.
Qed.

Lemma nodes_points_bounds (nodes : list ((nat -> http_outcome) * (string -> http_outcome)
                                         * (string -> bool -> http_outcome))) :
  let attacks := flat_map (fun n => malicious_node_attacks (fst (fst n)) (snd (fst n)) (snd n))
                          nodes in
  List.length attacks = (3 * List.length nodes)%nat /\
  20 * Z.of_nat (List.length nodes) <= total_score attacks <= 280 * Z.of_nat (List.length nodes).
Proof.
  cbn zeta. induction nodes as [|[[f i] u] nodes [IHlen IH]]; [simpl; split; [reflexivity|]|].
  - unfold total_score. simpl. lia.
  - cbn [flat_map fst snd]. rewrite total_score_app, length_app.
    pose proof (node_points_bounds f i u). cbn [List.length] in *.
    unfold malicious_node_attacks at 1. cbn [List.length]. split; lia.
Qed.

(** X9. The score of [analyze_network_resilience].  Every attack is
    worth 100 points at most, but a flood earns 80, 60 or 20 of them,
    20 in particular when none of its requests was answered (the fail
    rate is then taken to be 0).  So for the results collected from any
    number of malicious nodes the score lies between 20/3 and 280/3: it
    is positive, never reaches 100, and with no node at all it is the
    number 0. *)
Theorem security_score_stays_below_full_marks
        (nodes : list ((nat -> http_outcome) * (string -> http_outcome)
                       * (string -> bool -> http_outcome))) :
  let attacks := flat_map (fun n => malicious_node_attacks (fst (fst n)) (snd (fst n)) (snd n))
                          nodes in
  (nodes = [] -> analyze_network_resilience attacks = 0%Q) /\
  (nodes <> [] ->
   (20 # 3 <= analyze_network_resilience attacks)%Q /\
   (analyze_network_resilience attacks <= 280 # 3)%Q) /\
  (forall fnet, (forall i, fnet i = Exc) ->
     failed (perform_flood_attack fnet) = 50 /\
     points (FloodAttack (perform_flood_attack fnet)) = 20).
Proof.
  cbn zeta. split; [intros ->; reflexivity|]. split.
  - intros Hne. destruct (nodes_points_bounds nodes) as [Hlen [Hlo Hhi]].
    cbn zeta in Hlen, Hlo, Hhi.
    unfold analyze_network_resilience, security_score, max_score. rewrite Hlen.
    set (t := total_score _) in *.
    assert (Hn : 0 < Z.of_nat (List.length nodes)) by (destruct nodes; [congruence|simpl; lia]).
    set (n := Z.of_nat (List.length nodes)) in *.
    replace (Z.of_nat (3 * List.length nodes)) with (3 * n) by (unfold n; lia).
    destruct (Z.gtb_spec (100 * (3 * n)) 0) as [_|]; [|lia].
    assert (Hq : (0 < inject_Z (100 * (3 * n)))%Q) by (rewrite <- (Zlt_Qlt 0); lia).
    assert (Hlow : (1 # 15 <= inject_Z t / inject_Z (100 * (3 * n)))%Q).
    { apply Qle_shift_div_l; [exact Hq|].
      unfold Qle, Qmult, inject_Z. cbn [Qnum Qden]. lia. }
    assert (Hhigh : (inject_Z t / inject_Z (100 * (3 * n)) <= 14 # 15)%Q).
    { apply Qle_shift_div_r; [exact Hq|].
      unfold Qle, Qmult, inject_Z. cbn [Qnum Qden]. lia. }
    split.
    + apply Qle_trans with ((1 # 15) * 100)%Q; [discriminate|].
      apply Qmult_le_compat_r; [exact Hlow|discriminate].
    + apply Qle_trans with ((14 # 15) * 100)%Q; [|discriminate].
      apply Qmult_le_compat_r; [exact Hhigh|discriminate].
  - intros fnet Hexc.
    assert (H : perform_flood_attack fnet = mkFlood 0 50 0).
    { unfold perform_flood_attack, perform_flood_attack_n.
      assert (G : forall l r, fold_left (fun r i => flood_one (fnet i) r) l r
                              = mkFlood (requests_sent r)
                                        (failed r + Z.of_nat (List.length l)) (success r)).
      { induction l as [|i l IH]; intros r; cbn [fold_left List.length].
        - destruct r; simpl. f_equal. lia.
        - rewrite IH, Hexc. simpl. f_equal. lia. }
      rewrite G. reflexivity. }
    rewrite H. split; reflexivity.
Qed.

(** *** The score of the simplified tester and the weights of the demo *)

Lemma flood_points_upper rs :
  total_score (map FloodAttack rs) <= 80 * Z.of_nat (List.length rs).
Proof.
  unfold total_score. induction rs as [|r rs IH]; [simpl; lia|].
  cbn [map fold_right List.length].
  pose proof (flood_points_cases r). lia.
Qed.

(** The score is the mean of the points of the scored attacks. *)
Lemma security_score_is_mean t n :
  0 < n -> (security_score t (100 * n) * inject_Z n == inject_Z t)%Q.
Proof.
  intros Hn. unfold security_score.
  destruct (Z.gtb_spec (100 * n) 0) as [_|]; [|lia].
  rewrite inject_Z_mult. field.
  intros H. unfold Qeq in H. simpl in H. lia.
Qed.

(** C7 as stated fails on simple_malicious_test.py.  With nothing scored
    [analyze_network_resilience] reports the number 0, not a marker for
    an undefined score.  And it has no rating that weighs 100: a flood
    whose 50 requests are all refused with 429, the best a flood can do,
    earns 80 points, so the score of a run with this flood alone is 80
    and not 100. *)
Lemma simple_score_is_number_zero_and_capped :
  analyze_network_resilience [] = 0%Q /\
  let flood := perform_flood_attack (fun _ => Response 429) in
  flood = mkFlood 50 50 0 /\
  points (FloodAttack flood) = 80 /\
  (analyze_network_resilience [FloodAttack flood] == 80)%Q /\
  ~ (analyze_network_resilience [FloodAttack flood] == 100)%Q.
Proof.
  split; [reflexivity|]. cbn zeta.
  split; [vm_compute; reflexivity|]. split; [vm_compute; reflexivity|].
  split; [vm_compute; reflexivity|]. vm_compute. discriminate.
Qed.

(** C7 (amended). The two scripts compute their score differently.
    In malicious_attack_demo.py the report that [generate_security_report]
    writes has the ratings of the scored categories weighed good=100,
    fair=60, poor=20 and their mean as overall score; with no scored
    category the key is absent, not a number; with every category rated
    good the score is exactly 100.  In simple_malicious_test.py
    [analyze_network_resilience] has no ratings: every attack earns
    points out of 100, a flood 20, 60 or 80 of them; the score is the
    mean of the points, it is the number 0 when nothing was scored, and
    a run of floods alone never scores above 80. *)
Theorem overall_score_follows_each_script :
  ((AttackDemo.score_map AttackDemo.good = 100 /\
    AttackDemo.score_map AttackDemo.fair = 60 /\
    AttackDemo.score_map AttackDemo.poor = 20) /\
   (forall results,
      AttackDemo.report_overall_score (AttackDemo.generate_security_report results) =
      AttackDemo.overall_score
        (map (fun ca => AttackDemo.rating_of (snd ca)) (AttackDemo.security_analysis results))) /\
   AttackDemo.overall_score [] = None /\
   AttackDemo.report_overall_score (AttackDemo.generate_security_report []) = None /\
   (forall r rs, exists score,
      AttackDemo.overall_score (r :: rs) = Some score /\
      (score * inject_Z (Z.of_nat (List.length (r :: rs)))
       == inject_Z (AttackDemo.sum_Z (map AttackDemo.score_map (r :: rs))))%Q) /\
   (forall n, exists score,
      AttackDemo.overall_score (repeat AttackDemo.good (S n)) = Some score /\
      (score == 100)%Q)) /\
  (analyze_network_resilience [] = 0%Q /\
   (forall a attacks,
      (analyze_network_resilience (a :: attacks)
       * inject_Z (Z.of_nat (List.length (a :: attacks)))
       == inject_Z (total_score (a :: attacks)))%Q) /\
   (forall r, In (points (FloodAttack r)) [20; 60; 80]) /\
   (forall r rs, (analyze_network_resilience (map FloodAttack (r :: rs)) <= 80)%Q)).
Proof.
  split; [exact AttackDemoFacts.demo_overall_score|].
  split; [reflexivity|]. split; [|split].
  - intros a attacks. unfold analyze_network_resilience, max_score.
    apply security_score_is_mean. cbn [List.length]. lia.
  - intros r. destruct (flood_points_cases r) as [E|[E|E]]; rewrite E; cbn [In]; auto.
  - intros r rs. unfold analyze_network_resilience, max_score.
    pose proof (flood_points_upper (r :: rs)) as Hup.
    rewrite length_map. set (t := total_score _) in *.
    assert (Hn : 0 < Z.of_nat (List.length (r :: rs))) by (cbn [List.length]; lia).
    set (n := Z.of_nat (List.length (r :: rs))) in *.
    unfold security_score. destruct (Z.gtb_spec (100 * n) 0) as [_|]; [|lia].
    assert (Hq : (0 < inject_Z (100 * n))%Q) by (rewrite <- (Zlt_Qlt 0); lia).
    assert (Hhigh : (inject_Z t / inject_Z (100 * n) <= 8 # 10)%Q).
    { apply Qle_shift_div_r; [exact Hq|].
      unfold Qle, Qmult, inject_Z. cbn [Qnum Qden]. lia. }
    apply Qle_trans with ((8 # 10) * 100)%Q; [|discriminate].
    apply Qmult_le_compat_r; [exact Hhigh|discriminate].
Qed.

End SimpleTestFacts.

(** ** Effects: dictionaries and frame rules *)

Module PyFacts.
Import Py.
Local Open Scope py_scope.

(** *** Dictionaries *)

Lemma dict_get_set_eq V (k : string) (v : V) d : dict_get k (dict_set k v d) = Some v.
Proof.
  induction d as [|[k' v'] d IH]; simpl.
  - now rewrite String.eqb_refl.
  - destruct (String.eqb k k') eqn:E; simpl; rewrite ?E, ?String.eqb_refl; auto.
Qed.

Lemma dict_get_set_ne V (k k' : string) (v : V) d :
  k <> k' -> dict_get k (dict_set k' v d) = dict_get k d.
Proof.
  intros Hne. induction d as [|[k'' v''] d IH]; simpl.
  - destruct (String.eqb_spec k k'); [contradiction|reflexivity].
  - destruct (String.eqb_spec k' k''); simpl.
    + subst. destruct (String.eqb_spec k k''); [contradiction|reflexivity].
    + destruct (String.eqb_spec k k''); auto.
Qed.

Lemma dict_get_del_eq V (k : string) (d : dict V) : dict_get k (dict_del k d) = None.
Proof.
  induction d as [|[k' v'] d IH]; simpl; [reflexivity|].
  destruct (String.eqb k k') eqn:E; simpl; rewrite ?E; auto.
Qed.

Lemma dict_get_del_ne V (k k' : string) (d : dict V) :
  k <> k' -> dict_get k (dict_del k' d) = dict_get k d.
Proof.
  intros Hne. induction d as [|[k'' v''] d IH]; simpl; [reflexivity|].
  destruct (String.eqb_spec k' k''); simpl.
  - subst. destruct (String.eqb_spec k k''); [contradiction|exact IH].
  - destruct (String.eqb_spec k k''); auto.
Qed.

Lemma dict_get_In V (k : string) (v : V) d : dict_get k d = Some v -> In (k, v) d.
Proof.
  induction d as [|[k' v'] d IH]; simpl; [discriminate|].
  destruct (String.eqb_spec k k'); intros H.
  - inversion H; subst. auto.
  - auto.
Qed.

Lemma dict_get_None V (k : string) (d : dict V) : dict_get k d = None <-> ~ In k (keys d).
Proof.
  induction d as [|[k' v'] d IH]; simpl; [tauto|].
  destruct (String.eqb_spec k k'); subst.
  - split; [discriminate|]. intros H; exfalso; auto.
  - rewrite IH. intuition congruence.
Qed.

Lemma keys_dict_del V (k k' : string) (d : dict V) :
  In k (keys (dict_del k' d)) <-> k <> k' /\ In k (keys d).
Proof.
  induction d as [|[k'' v''] d IH]; simpl; [tauto|].
  destruct (String.eqb_spec k' k''); simpl; subst; rewrite ?IH; intuition congruence.
Qed.

Lemma dict_del_absent V (k : string) (d : dict V) : ~ In k (keys d) -> dict_del k d = d.
Proof.
  induction d as [|[k' v'] d IH]; simpl; [reflexivity|]. intros H.
  destruct (String.eqb_spec k k'); [subst; exfalso; auto|]. f_equal. auto.
Qed.

Lemma dict_del_head V (k : string) (v : V) d :
  ~ In k (keys d) -> dict_del k ((k, v) :: d) = d.
Proof. intros H. simpl. rewrite String.eqb_refl. now apply dict_del_absent. Qed.

Lemma keys_dict_set V (k : string) (v : V) d :
  keys (dict_set k v d) = if existsb (String.eqb k) (keys d) then keys d else keys d ++ [k].
Proof.
  induction d as [|[k' v'] d IH]; simpl; [reflexivity|].
  destruct (String.eqb_spec k k'); simpl.
  - subst. reflexivity.
  - rewrite IH. destruct (existsb (String.eqb k) (keys d)); reflexivity.
Qed.

Lemma NoDup_keys_dict_set V (k : string) (v : V) d :
  NoDup (keys d) -> NoDup (keys (dict_set k v d)).
Proof.
  intros H. rewrite keys_dict_set.
  destruct (existsb (String.eqb k) (keys d)) eqn:E; [exact H|].
  apply NoDup_app; [exact H|repeat constructor; simpl; tauto|].
  intros x Hx [Heq|[]]. subst x.
  assert (existsb (String.eqb k) (keys d) = true); [|congruence].
  apply existsb_exists. exists k. split; [exact Hx|apply String.eqb_refl].
Qed.

Lemma NoDup_keys_dict_del V (k : string) (d : dict V) :
  NoDup (keys d) -> NoDup (keys (dict_del k d)).
Proof.
  induction d as [|[k' v'] d IH]; simpl; [auto|]. intros H.
  inversion H as [|? ? Hnotin Hnd]; subst.
  destruct (String.eqb_spec k k'); [auto|]. simpl. constructor; [|auto].
  intros Hin. apply keys_dict_del in Hin. tauto.
Qed.

Lemma delete_all_keys V (d : dict V) : forall names,
  incl (keys d) names -> delete_all names d = [].
Proof.
  intros names; revert d. induction names as [|k names IH]; intros d Hincl.
  - destruct d as [|[k v] d]; [reflexivity|]. exfalso. apply (Hincl k). simpl; auto.
  - unfold delete_all. simpl. apply IH. intros x Hx.
    apply keys_dict_del in Hx. destruct Hx as [Hne Hx].
    destruct (Hincl x Hx) as [->|H]; [congruence|exact H].
Qed.

Lemma taken_out_keys V (d : dict V) :
  NoDup (keys d) -> taken_out (keys d) d = map snd d.
Proof.
  induction d as [|[k v] d IH]; intros H; [reflexivity|].
  inversion H as [|? ? Hnotin Hnd]; subst. cbn [keys map fst snd taken_out dict_get].
  rewrite String.eqb_refl. f_equal. rewrite dict_del_head by exact Hnotin. auto.
Qed.

Lemma filter_map_app A B (f : A -> option B) l1 l2 :
  filter_map f (l1 ++ l2) = filter_map f l1 ++ filter_map f l2.
Proof.
  induction l1 as [|x l1 IH]; simpl; [reflexivity|].
  destruct (f x); simpl; congruence.
Qed.

(** The termination signals sent by the latest requests. *)
Lemma terminated_app St (requests : list request) (w : world St) (s : St) :
  terminated (mkWorld (requests ++ hist w) s)
  = terminated w ++ filter_map is_terminate (rev requests).
Proof. unfold terminated, trace. simpl. now rewrite rev_app_distr, filter_map_app. Qed.

Lemma force_killed_app St (requests : list request) (w : world St) (s : St) :
  force_killed (mkWorld (requests ++ hist w) s)
  = force_killed w ++ filter_map is_kill_request (rev requests).
Proof. unfold force_killed, trace. simpl. now rewrite rev_app_distr, filter_map_app. Qed.

Lemma spawned_app St (requests : list request) (w : world St) (s : St) :
  spawned (mkWorld (requests ++ hist w) s)
  = spawned w ++ filter_map is_popen (rev requests).
Proof. unfold spawned, trace. simpl. now rewrite rev_app_distr, filter_map_app. Qed.

Lemma spawned_cons St (r : request) (h : list request) (s : St) :
  spawned (mkWorld (r :: h) s)
  = spawned (mkWorld h s) ++ match is_popen r with Some n => [n] | None => [] end.
Proof.
  unfold spawned, trace. simpl. rewrite filter_map_app. simpl.
  destruct (is_popen r); reflexivity.
Qed.

Lemma spawned_other_request St (r : request) (w : world St) :
  is_popen r = None -> spawned (mkWorld (r :: hist w) (st w)) = spawned w.
Proof.
  intros H. rewrite spawned_cons, H, app_nil_r. reflexivity.
Qed.

(** *** Frame rules *)


#[export] Instance same_preorder St X (f : world St -> X) : PreOrder (same f).
Proof. split; unfold same; [intros w; reflexivity|intros a b c; congruence]. Qed.

#[export] Instance keeps_preorder St (P : world St -> Prop) : PreOrder (keeps P).
Proof. split; unfold keeps; [intros w; auto|intros a b c; auto]. Qed.

Section Frame.
Context {St : Type} (R : world St -> world St -> Prop) `{!PreOrder R}.

Lemma respects_ret A (a : A) : respects R (ret a).
Proof. intros o w. reflexivity. Qed.

Lemma respects_raise A e : respects R (@raise St A e).
Proof. intros o w. reflexivity. Qed.

Lemma respects_hang A : respects R (@hang St A).
Proof. intros o w. reflexivity. Qed.

Lemma respects_gets A (f : St -> A) : respects R (gets f).
Proof. intros o w. reflexivity. Qed.

Lemma respects_now : respects R (@now St).
Proof. intros o w. reflexivity. Qed.

Lemma respects_modify (g : St -> St) :
  (forall w, R w (mkWorld (hist w) (g (st w)))) -> respects R (modify g).
Proof. intros H o w. apply H. Qed.

Lemma respects_io r :
  (forall w, R w (mkWorld (r :: hist w) (st w))) -> respects R (@io St r).
Proof.
  intros H o w. unfold io. destruct (o (clock w) r); apply H.
Qed.

Lemma respects_sleep :
  (forall w, R w (mkWorld (Sleep :: hist w) (st w))) -> respects R (@sleep St).
Proof.
  intros H o w. unfold sleep. destruct (o (clock w) Sleep); apply H.
Qed.

Lemma respects_sleep_until_deadline :
  (forall w, R w (mkWorld (Sleep :: hist w) (st w))) ->
  respects R (@sleep_until_deadline St).
Proof.
  intros H o w. unfold sleep_until_deadline. destruct (o (clock w) Sleep); apply H.
Qed.

Lemma respects_bind A B (m : M St A) (k : A -> M St B) :
  respects R m -> (forall a, respects R (k a)) -> respects R (bind m k).
Proof.
  intros Hm Hk o w. unfold bind. specialize (Hm o w).
  destruct (m o w) as [[a|e|] w1]; simpl in *; auto.
  etransitivity; [exact Hm|apply Hk].
Qed.

Lemma respects_try_except A (m : M St A) catches handler :
  respects R m -> (forall e, respects R (handler e)) ->
  respects R (try_except m catches handler).
Proof.
  intros Hm Hh o w. unfold try_except. specialize (Hm o w).
  destruct (m o w) as [[a|e|] w1]; simpl in *; auto.
  destruct (catches e); simpl; auto.
  etransitivity; [exact Hm|apply Hh].
Qed.

Lemma respects_try_finally A (m : M St A) f :
  respects R m -> respects R f -> respects R (try_finally m f).
Proof.
  intros Hm Hf o w. unfold try_finally. specialize (Hm o w).
  destruct (m o w) as [[a|e|] w1]; simpl in *; auto;
    specialize (Hf o w1); destruct (f o w1) as [[[]|e'|] w2]; simpl in *;
    etransitivity; eauto.
Qed.

Lemma respects_for_each A (l : list A) body :
  (forall x, respects R (body x)) -> respects R (for_each l body).
Proof.
  intros Hb. induction l as [|x l IH]; simpl.
  - apply respects_ret.
  - apply respects_bind; auto.
Qed.

End Frame.

Create HintDb frame.

(** Follow the structure of a computation with the frame rules. *)
Ltac frame_side :=
  intros; unfold same, keeps; simpl; try reflexivity; try tauto.

Ltac frame_step :=
  match goal with
  | |- forall _, _ => intro
  | |- respects _ _ => assumption
  | |- respects _ _ => solve [auto with frame nocore]
  | |- respects _ (ret _) => apply respects_ret; typeclasses eauto
  | |- respects _ (raise _) => apply respects_raise; typeclasses eauto
  | |- respects _ hang => apply respects_hang; typeclasses eauto
  | |- respects _ (gets _) => apply respects_gets; typeclasses eauto
  | |- respects _ now => apply respects_now; typeclasses eauto
  | |- respects _ (bind _ _) => apply respects_bind; [typeclasses eauto| |]
  | |- respects _ (try_except _ _ _) => apply respects_try_except; [typeclasses eauto| |]
  | |- respects _ (try_finally _ _) => apply respects_try_finally; [typeclasses eauto| |]
  | |- respects _ (for_each _ _) => apply respects_for_each; [typeclasses eauto|]
  | |- respects _ (io _) => apply respects_io; solve [eauto | frame_side]
  | |- respects _ sleep => apply respects_sleep; solve [eauto | frame_side]
  | |- respects _ sleep_until_deadline =>
      apply respects_sleep_until_deadline; solve [eauto | frame_side]
  | |- respects _ (modify _) => apply respects_modify; solve [eauto | frame_side]
  | |- respects _ (match ?x with _ => _ end) => destruct x
  end.

Ltac frame := repeat frame_step.

(** *** Running a computation step by step *)

Lemma bind_ret_run St A B (m : M St A) (k : A -> M St B) o w a w1 :
  m o w = (Ret a, w1) -> bind m k o w = k a o w1.
Proof. intros H. unfold bind. now rewrite H. Qed.
Arguments bind_ret_run {St A B m} k {o w a w1} _.

Lemma bind_raise_run St A B (m : M St A) (k : A -> M St B) o w e w1 :
  m o w = (Raise e, w1) -> bind m k o w = (Raise e, w1).
Proof. intros H. unfold bind. now rewrite H. Qed.

Arguments bind_raise_run {St A B m} k {o w e w1} _.

Lemma bind_hang_run St A B (m : M St A) (k : A -> M St B) o w w1 :
  m o w = (Hang, w1) -> bind m k o w = (Hang, w1).
Proof. intros H. unfold bind. now rewrite H. Qed.

Arguments bind_hang_run {St A B m} k {o w w1} _.

Lemma bind_assoc_run St A B C (m : M St A) (k : A -> M St B) (h : B -> M St C) o w :
  bind (bind m k) h o w = bind m (fun a => bind (k a) h) o w.
Proof.
  unfold bind. destruct (m o w) as [[a|e|] w1]; reflexivity.
Qed.

Lemma clock_io St (w : world St) r :
  clock (mkWorld (r :: hist w) (st w)) = S (clock w).
Proof. reflexivity. Qed.

(** *** Start order *)

Lemma initial_part_refl l : initial_part l l.
Proof. exists []. now rewrite app_nil_r. Qed.

Lemma initial_part_nil l : initial_part [] l.
Proof. exists l. reflexivity. Qed.

Lemma initial_part_of_nil l : initial_part l [] -> l = [].
Proof. intros [rest H]. destruct l; [reflexivity|discriminate]. Qed.

Lemma spawns_weaken {St} A names (m : M St A) : spawns names m -> spawns_upto names m.
Proof.
  intros H o w. destruct (H o w) as (started & Hs & Hp & _). eauto.
Qed.

Lemma spawns_nothing {St} A (m : M St A) : respects (same spawned) m -> spawns [] m.
Proof.
  intros H o w. exists []. rewrite app_nil_r.
  split; [apply (H o w)|]. split; [apply initial_part_nil|reflexivity].
Qed.

Lemma spawns_bind {St} A B l1 l2 (m : M St A) (k : A -> M St B) :
  spawns l1 m -> (forall a, spawns l2 (k a)) -> spawns (l1 ++ l2) (bind m k).
Proof.
  intros Hm Hk o w. destruct (Hm o w) as (s1 & Hs1 & [rest1 Hp1] & Hret1).
  unfold bind. destruct (m o w) as [[a|e|] w1]; cbn [fst snd] in *.
  - specialize (Hret1 a eq_refl). subst s1.
    destruct (Hk a o w1) as (s2 & Hs2 & [rest2 Hp2] & Hret2).
    exists (l1 ++ s2). rewrite Hs2, Hs1, app_assoc. split; [reflexivity|]. split.
    + exists rest2. rewrite Hp2 at 1. now rewrite app_assoc.
    + intros b Hb. rewrite (Hret2 b Hb). reflexivity.
  - exists s1. split; [exact Hs1|]. split; [|discriminate].
    exists (rest1 ++ l2). rewrite Hp1 at 1. now rewrite app_assoc.
  - exists s1. split; [exact Hs1|]. split; [|discriminate].
    exists (rest1 ++ l2). rewrite Hp1 at 1. now rewrite app_assoc.
Qed.

Lemma spawns_upto_bind {St} A B l1 l2 (m : M St A) (k : A -> M St B) :
  spawns l1 m -> (forall a, spawns_upto l2 (k a)) -> spawns_upto (l1 ++ l2) (bind m k).
Proof.
  intros Hm Hk o w. destruct (Hm o w) as (s1 & Hs1 & [rest1 Hp1] & Hret1).
  unfold bind. destruct (m o w) as [[a|e|] w1]; cbn [fst snd] in *.
  - specialize (Hret1 a eq_refl). subst s1.
    destruct (Hk a o w1) as (s2 & Hs2 & [rest2 Hp2]).
    exists (l1 ++ s2). rewrite Hs2, Hs1, app_assoc. split; [reflexivity|].
    exists rest2. rewrite Hp2 at 1. now rewrite app_assoc.
  - exists s1. split; [exact Hs1|].
    exists (rest1 ++ l2). rewrite Hp1 at 1. now rewrite app_assoc.
  - exists s1. split; [exact Hs1|].
    exists (rest1 ++ l2). rewrite Hp1 at 1. now rewrite app_assoc.
Qed.

Lemma in_order_nil_l A (l : list A) : in_order [] l.
Proof. induction l; constructor; assumption. Qed.

Lemma in_order_refl A (l : list A) : in_order l l.
Proof. induction l; constructor; assumption. Qed.

Lemma in_order_app_r A (l' l m : list A) : in_order l' l -> in_order l' (l ++ m).
Proof.
  induction 1; simpl; [apply in_order_nil_l| |]; constructor; assumption.
Qed.

Lemma in_order_snoc A (l' l : list A) x : in_order l' l -> in_order (l' ++ [x]) (l ++ [x]).
Proof. induction 1; simpl; repeat constructor; assumption. Qed.

Lemma in_order_trans A (l1 l2 l3 : list A) :
  in_order l1 l2 -> in_order l2 l3 -> in_order l1 l3.
Proof.
  intros H12 H23. revert l1 H12.
  induction H23 as [|x l2 l3 H IH|x l2 l3 H IH]; intros l1 H12.
  - exact H12.
  - constructor. apply IH, H12.
  - inversion H12; subst; constructor; apply IH; assumption.
Qed.

Lemma in_order_dict_del V (k : string) (d : dict V) :
  in_order (keys (dict_del k d)) (keys d).
Proof.
  induction d as [|[k' v] d IH]; simpl; [constructor|].
  destruct (String.eqb k k'); simpl; constructor; exact IH.
Qed.

#[export] Instance grows_preorder St X (f : world St -> list X) : PreOrder (grows f).
Proof.
  split.
  - intros w. exists []. now rewrite app_nil_r.
  - intros w1 w2 w3 [l1 H1] [l2 H2]. exists (l1 ++ l2). now rewrite H2, H1, app_assoc.
Qed.

Lemma try_except_gets St A B (f : St -> B) (k : B -> M St A) c h o w :
  try_except (bind (gets f) k) c h o w = try_except (k (f (st w))) c h o w.
Proof. reflexivity. Qed.

(** A computation that begins by asking for a process and asks for no
    other one has asked for exactly this one, however it ends. *)
Lemma popen_then_quiet St A name b (k : Z * option json -> M St A) :
  (forall a, respects (same spawned) (k a)) ->
  forall o w, spawned (snd (bind (io (Popen name b)) k o w)) = spawned w ++ [name].
Proof.
  intros Hk o w. unfold bind, io.
  destruct (o (clock w) (Popen name b)) as [code body| | | |]; cbn [fst snd];
    try (rewrite spawned_cons; reflexivity).
  pose proof (Hk (code, body) o (mkWorld (Popen name b :: hist w) (st w))) as H.
  unfold same in H. rewrite H, spawned_cons. reflexivity.
Qed.

Lemma try_except_spawned St A (m : M St A) c h l :
  (forall e, respects (same spawned) (h e)) ->
  (forall o w, spawned (snd (m o w)) = spawned w ++ l) ->
  forall o w, spawned (snd (try_except m c h o w)) = spawned w ++ l.
Proof.
  intros Hh Hm o w. specialize (Hm o w). unfold try_except.
  destruct (m o w) as [[a|e|] w1]; cbn [snd] in *; try exact Hm.
  destruct (c e); [|exact Hm].
  pose proof (Hh e o w1) as H. unfold same in H. rewrite H. exact Hm.
Qed.

End PyFacts.

(** ** The local five-node test *)

Module HeteroLocalFacts.
Import Py PyFacts HeteroLocal.
Local Open Scope py_scope.

(** *** What each function leaves alone *)

Section Frame.
Context (R : world self -> world self -> Prop) `{!PreOrder R}.

(** [R] does not see any request other than the start of a process. *)
Hypothesis R_io :
  forall r w, is_popen r = None -> R w (mkWorld (r :: hist w) (st w)).

Lemma config_of_respects node_name : respects R (config_of node_name).
Proof. unfold config_of. frame. Qed.
Hint Resolve config_of_respects : frame.

Lemma api_call_respects node_name endpoint method :
  respects R (api_call node_name endpoint method).
Proof. unfold api_call. frame. Qed.
Hint Resolve api_call_respects : frame.

Lemma get_neighbors_respects node_name : respects R (get_neighbors node_name).
Proof. unfold get_neighbors. frame. Qed.
Hint Resolve get_neighbors_respects : frame.

Lemma post_bulletin_respects node_name : respects R (post_bulletin node_name).
Proof. unfold post_bulletin. frame. Qed.
Hint Resolve post_bulletin_respects : frame.

Lemma wait_for_node_polls_respects polls port :
  respects R (wait_for_node_polls polls port).
Proof. induction polls; simpl; frame. Qed.
Hint Resolve wait_for_node_polls_respects : frame.

Lemma wait_for_node_respects node_name timeout :
  respects R (wait_for_node node_name timeout).
Proof. unfold wait_for_node. frame. Qed.
Hint Resolve wait_for_node_respects : frame.

Lemma spam_loop_respects node_name rounds : forall c,
  respects R (spam_loop node_name rounds c).
Proof. induction rounds; simpl; frame. Qed.
Hint Resolve spam_loop_respects : frame.

Lemma post_codes_respects node_name n pause :
  respects R (post_codes node_name n pause).
Proof. induction n; simpl; frame. Qed.
Hint Resolve post_codes_respects : frame.

Lemma flood_node_respects target n : forall count,
  respects R (flood_node target n count).
Proof. induction n; simpl; frame. Qed.
Hint Resolve flood_node_respects : frame.

Lemma flood_targets_respects targets : forall results,
  respects R (flood_targets targets results).
Proof. induction targets; cbn [flood_targets]; frame. Qed.
Hint Resolve flood_targets_respects : frame.

(** Monitoring, given that [R] does not look at the samples. *)
Hypothesis R_stats : forall n, respects R (append_stats n).
Hint Resolve R_stats : frame.

Lemma monitor_node_respects node_name config healthy neighbors :
  respects R (monitor_node node_name config healthy neighbors).
Proof. unfold monitor_node. frame. Qed.
Hint Resolve monitor_node_respects : frame.

Lemma monitor_loop_respects items : forall healthy neighbors,
  respects R (monitor_loop items healthy neighbors).
Proof. induction items as [|[n c] items IH]; simpl; frame. Qed.
Hint Resolve monitor_loop_respects : frame.

Lemma monitor_network_respects : respects R monitor_network.
Proof. unfold monitor_network, monitor_nodes. frame. Qed.
Hint Resolve monitor_network_respects : frame.

Lemma print_network_status_respects : respects R print_network_status.
Proof. unfold print_network_status. frame. Qed.
Hint Resolve print_network_status_respects : frame.

(** Attacks, given that [R] does not look at the event log. *)
Hypothesis R_events : forall e, respects R (append_event e).
Hint Resolve R_events : frame.

Lemma attacks_respect attack_func node_name :
  In attack_func attack_list -> respects R (attack_func node_name).
Proof.
  intros [<-|[<-|[<-|[<-|[<-|[<-|[]]]]]]];
    unfold attack_spam_flooding, attack_false_information, attack_protocol_abuse,
           attack_replay, attack_sybil_attempt, attack_ddos_attempt; frame.
Qed.

Lemma execute_malicious_attacks_respects : respects R execute_malicious_attacks.
Proof.
  unfold execute_malicious_attacks.
  apply respects_for_each; [typeclasses eauto|]. intros node_name.
  assert (H : forall l, incl l attack_list ->
            respects R (for_each l (fun attack_func =>
              try_except (attack_func node_name ;; sleep) is_Exception
                         (fun _ => ret tt)))).
  { induction l as [|a l IH]; intros Hl; simpl; [frame|].
    apply respects_bind; [typeclasses eauto| |intros; apply IH; intros x Hx; apply Hl; simpl; auto].
    apply respects_try_except; [typeclasses eauto| |frame].
    apply respects_bind; [typeclasses eauto| |frame].
    apply attacks_respect, Hl. simpl; auto. }
  apply H, incl_refl.
Qed.

(** Teardown and the report, given that [R] sees neither an entry taken
    out of the process table, nor the report under construction, nor the
    files written. *)
Hypothesis R_processes_del : forall k, respects R (set_processes (dict_del k)).
Hypothesis R_report : forall f, respects R (set_report f).
Hint Resolve R_processes_del R_report : frame.

Lemma append_stage_respects name status : respects R (append_stage name status).
Proof. unfold append_stage. frame. Qed.
Hint Resolve append_stage_respects : frame.

Lemma stop_node_respects node_name : respects R (stop_node node_name).
Proof. unfold stop_node. frame. Qed.
Hint Resolve stop_node_respects : frame.

Lemma stop_all_respects : respects R stop_all.
Proof. unfold stop_all. frame. Qed.
Hint Resolve stop_all_respects : frame.

Lemma set_start_time_respects : respects R set_start_time.
Proof. unfold set_start_time. frame. Qed.
Hint Resolve set_start_time_respects : frame.

Hypothesis R_files : forall name r, respects R (add_file name r).
Hint Resolve R_files : frame.

Lemma generate_report_respects : respects R generate_report.
Proof. unfold generate_report. frame. Qed.
Hint Resolve generate_report_respects : frame.

Lemma report_after_attacks_respects : respects R report_after_attacks.
Proof. unfold report_after_attacks. frame. Qed.
Hint Resolve report_after_attacks_respects : frame.

(** [start_node], given that [R] sees neither a process start nor an
    entry put into the process table. *)
Lemma start_node_respects node_name bootstrap :
  (forall name b w, R w (mkWorld (Popen name b :: hist w) (st w))) ->
  (forall k v, respects R (set_processes (dict_set k v))) ->
  respects R (start_node node_name bootstrap).
Proof. intros R_popen R_processes_set. unfold start_node. frame. Qed.

(** The stages and the run, given that [start_node] respects [R]. *)
Hypothesis R_start_node :
  forall node_name bootstrap, respects R (start_node node_name bootstrap).
Hint Resolve R_start_node : frame.

Lemma stage_1_genesis_respects : respects R stage_1_genesis.
Proof. unfold stage_1_genesis. frame. Qed.
Hint Resolve stage_1_genesis_respects : frame.

Lemma start_and_wait_respects node_name : respects R (start_and_wait node_name).
Proof. unfold start_and_wait. frame. Qed.
Hint Resolve start_and_wait_respects : frame.

Lemma bring_up_remaining_respects : respects R bring_up_remaining.
Proof.
  unfold bring_up_remaining, stage_2_normal_nodes, stage_3_malicious_nodes. frame.
Qed.
Hint Resolve bring_up_remaining_respects : frame.

Lemma run_test_body_respects : respects R run_test_body.
Proof.
  pose proof execute_malicious_attacks_respects. unfold run_test_body. frame.
Qed.

End Frame.

(** *** The flood *)

Lemma known_node node_name :
  In node_name (keys NODES_CONFIG) ->
  exists config, dict_get node_name NODES_CONFIG = Some config.
Proof.
  intros H. destruct (dict_get node_name NODES_CONFIG) eqn:E; [eauto|].
  apply dict_get_None in E. contradiction.
Qed.

(** A call to the API of a known node returns a status code (0 for a
    transport failure) unless Ctrl-C arrives during the request. *)
Lemma api_call_returns o (w : world self) node_name endpoint method config :
  dict_get node_name NODES_CONFIG = Some config ->
  o (clock w) (Urlopen (http_port config) ("/api" ++ endpoint) method) <> Interrupted ->
  exists code body,
    api_call node_name endpoint method o w =
    (Ret (code, body),
     mkWorld (Urlopen (http_port config) ("/api" ++ endpoint) method :: hist w) (st w)).
Proof.
  intros Hc Hni. unfold api_call, config_of. rewrite Hc.
  unfold bind, ret, try_except, io, raise. simpl.
  destruct (o (clock w) _) as [code [body|]|code| | |]; simpl; eauto. congruence.
Qed.

Lemma total_count_code code c : total (count_code code c) = total c + 1.
Proof.
  unfold count_code, total. destruct (code =? 200); [|destruct (code =? 429)]; simpl; lia.
Qed.

Lemma sleep_returns o (w : world self) :
  o (clock w) Sleep <> Interrupted ->
  sleep o w = (Ret tt, mkWorld (Sleep :: hist w) (st w)).
Proof. intros H. unfold sleep. destruct (o (clock w) Sleep); congruence. Qed.

Lemma spam_loop_returns o node_name config rounds : forall c (w : world self),
  dict_get node_name NODES_CONFIG = Some config ->
  uninterrupted o (clock w) ->
  exists c' w',
    spam_loop node_name rounds c o w = (Ret c', w') /\
    st w' = st w /\
    (clock w <= clock w')%nat /\
    total c' = total c + Z.of_nat (List.length rounds).
Proof.
  induction rounds as [|i rounds IH]; intros c w Hc Hu.
  - exists c, w. simpl. repeat split; auto; lia.
  - cbn [spam_loop]. unfold post_bulletin.
    destruct (@api_call_returns o w node_name "/bulletin/post" "POST" config Hc)
      as (code & body & Hcall); [apply Hu; lia|].
    rewrite (bind_ret_run _ Hcall).
    set (w1 := mkWorld (Urlopen (http_port config) ("/api" ++ "/bulletin/post") "POST"
                                :: hist w) (st w)) in *.
    assert (Hsleep : sleep o w1 = (Ret tt, mkWorld (Sleep :: hist w1) (st w1))).
    { apply sleep_returns. apply Hu. unfold clock. simpl. lia. }
    rewrite (bind_ret_run _ Hsleep).
    destruct (IH (count_code (fst (code, body)) c) (mkWorld (Sleep :: hist w1) (st w1)) Hc)
      as (c' & w' & Hrun & Hst & Hclk & Htot).
    { intros t r Ht. apply Hu. unfold clock in *. simpl in *. lia. }
    exists c', w'. rewrite Hrun. split; [reflexivity|]. split; [exact Hst|].
    split; [unfold clock in *; simpl in *; lia|].
    rewrite Htot, total_count_code. cbn [List.length]. lia.
Qed.

Lemma api_call_code o (w : world self) node_name endpoint method config :
  dict_get node_name NODES_CONFIG = Some config ->
  o (clock w) (Urlopen (http_port config) ("/api" ++ endpoint) method) <> Interrupted ->
  exists body,
    api_call node_name endpoint method o w =
    (Ret (code_of (o (clock w) (Urlopen (http_port config) ("/api" ++ endpoint) method)), body),
     mkWorld (Urlopen (http_port config) ("/api" ++ endpoint) method :: hist w) (st w)).
Proof.
  intros Hc Hni. unfold api_call, config_of. rewrite Hc.
  unfold bind, ret, try_except, io, raise. simpl.
  destruct (o (clock w) _) as [code [body|]|code| | |]; simpl; eauto. congruence.
Qed.

(** The counters of the flood are the tally of the codes of its posts. *)
Lemma spam_loop_counts o node_name config rounds : forall c (w : world self),
  dict_get node_name NODES_CONFIG = Some config ->
  uninterrupted o (clock w) ->
  exists w',
    spam_loop node_name rounds c o w
    = (Ret (tally (flood_codes o (clock w) (http_port config) (List.length rounds)) c), w') /\
    st w' = st w.
Proof.
  induction rounds as [|i rounds IH]; intros c w Hc Hu.
  - exists w. split; reflexivity.
  - cbn [spam_loop List.length flood_codes]. unfold post_bulletin.
    destruct (api_call_code o w node_name "/bulletin/post" "POST" config Hc)
      as (body & Hcall); [apply Hu; lia|].
    rewrite (bind_ret_run _ Hcall).
    set (w1 := mkWorld (Urlopen (http_port config) ("/api" ++ "/bulletin/post") "POST"
                                :: hist w) (st w)) in *.
    assert (Hsleep : sleep o w1 = (Ret tt, mkWorld (Sleep :: hist w1) (st w1))).
    { apply sleep_returns. apply Hu. unfold clock. simpl. lia. }
    rewrite (bind_ret_run _ Hsleep).
    destruct (IH (count_code (code_of (o (clock w)
                    (Urlopen (http_port config) ("/api" ++ "/bulletin/post") "POST"))) c)
                 (mkWorld (Sleep :: hist w1) (st w1)) Hc)
      as (w' & Hrun & Hst).
    { intros t r Ht. apply Hu. unfold clock in *. simpl in *. lia. }
    exists w'. split; [|exact Hst]. cbn [fst]. rewrite Hrun. reflexivity.
Qed.

(** X26. The floods that keep count.  Every invocation of the flood of
    the local test against a configured node that is not cut short by
    Ctrl-C returns and appends exactly one attack event whose three
    counters (accepted, rate-limited, errored) add up to the burst size
    20.  In the flood of the simplified tester, which has two counters
    only, every one of the 50 requests is counted once, as a success or
    as a failure. *)
Theorem spam_flooding_counts_add_up o (w : world self) node_name :
  In node_name (keys NODES_CONFIG) ->
  uninterrupted o (clock w) ->
  (exists w' ev c,
     attack_spam_flooding node_name o w = (Ret tt, w') /\
     attack_events (st w') = attack_events (st w) ++ [ev] /\
     node ev = node_name /\
     attack_type ev = "spam_flooding" /\
     result ev = SpamResult c /\
     success_count c + blocked_count c + error_count c = 20) /\
  (forall net,
     SimpleTest.success (SimpleTest.perform_flood_attack net)
     + SimpleTest.failed (SimpleTest.perform_flood_attack net) = 50).
Proof.
  intros Hk Hu. split; [|apply SimpleTestFacts.perform_flood_attack_total].
  destruct (known_node _ Hk) as [config Hc].
  destruct (@spam_loop_returns o node_name config (seq 0 20) (mkSpam 0 0 0) w Hc Hu)
    as (c & w1 & Hrun & Hst & _ & Htot).
  unfold attack_spam_flooding. rewrite (bind_ret_run _ Hrun).
  unfold bind, now, append_event, modify. simpl.
  do 3 eexists. split; [reflexivity|]. simpl. rewrite Hst.
  repeat split. exact Htot.
Qed.

Lemma spam_flooding_counts_add_up_witness :
  (exists w' ev c,
     attack_spam_flooding "malicious1" Samples.friendly Samples.local0 = (Ret tt, w') /\
     attack_events (st w') = attack_events (st Samples.local0) ++ [ev] /\
     node ev = "malicious1" /\
     attack_type ev = "spam_flooding" /\
     result ev = SpamResult c /\
     success_count c + blocked_count c + error_count c = 20) /\
  (forall net,
     SimpleTest.success (SimpleTest.perform_flood_attack net)
     + SimpleTest.failed (SimpleTest.perform_flood_attack net) = 50).
Proof.
  apply (@spam_flooding_counts_add_up Samples.friendly Samples.local0 "malicious1").
  - simpl. tauto.
  - intros t r _. unfold Samples.friendly. destruct r; discriminate.
Defined.

(** A flood cut short records no event at all. *)
Lemma spam_flooding_interrupted_records_nothing o (w : world self) node_name e w' :
  attack_spam_flooding node_name o w = (Raise e, w') ->
  attack_events (st w') = attack_events (st w).
Proof.
  unfold attack_spam_flooding, bind. intros H.
  pose proof (@spam_loop_respects (same (fun w => st w)) _ ltac:(frame_side)
                node_name (seq 0 20) (mkSpam 0 0 0) o w) as Hs.
  destruct (spam_loop node_name (seq 0 20) (mkSpam 0 0 0) o w) as [[c|e1|] w1];
    simpl in *; inversion H; subst; unfold same in Hs; simpl in Hs; congruence.
Qed.

(** All transport failures of the flood are tallied in [error_count],
    none of them among the rate-limited requests. *)
Lemma count_code_transport_failure c :
  count_code 0 c = mkSpam (success_count c) (blocked_count c) (error_count c + 1).
Proof. reflexivity. Qed.

(** *** Monitoring *)

Lemma api_call_never_hangs o (w : world self) node_name endpoint method :
  fst (api_call node_name endpoint method o w) <> Hang.
Proof.
  unfold api_call, config_of, bind, try_except, io, ret, raise.
  destruct (dict_get node_name NODES_CONFIG); simpl; [|discriminate].
  destruct (o (clock w) _) as [code [body|]|code| | |]; simpl; discriminate.
Qed.

Lemma get_neighbors_never_hangs o (w : world self) node_name :
  fst (get_neighbors node_name o w) <> Hang.
Proof.
  unfold get_neighbors, bind.
  pose proof (@api_call_never_hangs o w node_name "/neighbor/list" "GET") as H.
  destruct (api_call node_name "/neighbor/list" "GET" o w) as [[[code body]|e|] w1];
    simpl in *; try congruence.
  destruct body; try discriminate. destruct (code =? 200); discriminate.
Qed.

(** One round of the monitoring loop always returns; a probe without a
    response stores -1 and leaves the healthy count alone; the healthy
    count goes up only on a 200 response of this node. *)
Lemma monitor_node_returns o (w : world self) node_name config healthy neighbors :
  exists (up : bool) n w',
    monitor_node node_name config healthy neighbors o w =
      (Ret (if up then healthy + 1 else healthy, dict_set node_name n neighbors), w') /\
    st w' = st w /\
    (is_done (o (clock w) (health_probe (http_port config))) = false ->
     n = -1 /\ up = false) /\
    (up = true -> answered_200 o (http_port config)).
Proof.
  unfold monitor_node, bind at 1, try_except at 1, bind at 1, io, health_probe.
  destruct (o (clock w) (Urlopen (http_port config) "/health" "GET"))
    as [status body|code| | |] eqn:E; simpl;
    try (exists false; do 2 eexists; split; [reflexivity|]; simpl;
         repeat split; auto; discriminate).
  set (w1 := mkWorld (Urlopen (http_port config) "/health" "GET" :: hist w) (st w)).
  pose proof (get_neighbors_never_hangs o w1 node_name) as Hn.
  pose proof (get_neighbors_respects (same (fun w => st w)) ltac:(frame_side)
                node_name o w1) as Hs.
  unfold same in Hs. unfold bind, try_except.
  assert (H200 : (status =? 200) = true -> answered_200 o (http_port config)).
  { intros H. apply Z.eqb_eq in H. subst. eexists _, _. exact E. }
  destruct (get_neighbors node_name o w1) as [[l|e|] w2]; simpl in *; try congruence.
  - destruct (py_len l); simpl;
      (exists (status =? 200); do 2 eexists; split; [reflexivity|]; split; [exact Hs|];
       split; [discriminate|exact H200]).
  - exists (status =? 200). do 2 eexists. split; [reflexivity|]. split; [exact Hs|].
    split; [discriminate|exact H200].
Qed.

Lemma monitor_loop_returns o items : forall healthy neighbors (w : world self),
  NoDup (keys items) ->
  exists healthy' neighbors' counted w',
    monitor_loop items healthy neighbors o w = (Ret (healthy', neighbors'), w') /\
    st w' = st w /\
    (forall name config, In (name, config) items ->
       unreachable o (http_port config) -> dict_get name neighbors' = Some (-1)) /\
    (forall name, ~ In name (keys items) ->
       dict_get name neighbors' = dict_get name neighbors) /\
    healthy' = healthy + Z.of_nat (List.length counted) /\
    NoDup counted /\
    (forall name, In name counted ->
       exists config, In (name, config) items /\ answered_200 o (http_port config)).
Proof.
  induction items as [|[name config] items IH]; intros healthy neighbors w Hnd.
  - exists healthy, neighbors, [], w. simpl.
    repeat split; auto; try lia; try constructor; intros; simpl in *; contradiction.
  - cbn [monitor_loop].
    destruct (monitor_node_returns o w name config healthy neighbors)
      as (up & n & w1 & Hrun & Hst & Hun & Hup).
    rewrite (bind_ret_run _ Hrun). cbn [fst snd].
    inversion Hnd as [|? ? Hnotin Hnd']; subst.
    destruct (IH (if up then healthy + 1 else healthy) (dict_set name n neighbors) w1 Hnd')
      as (h2 & ns & counted & w2 & Hrun2 & Hst2 & Hu2 & Hother & Hh2 & Hndc & Hc2).
    exists h2, ns, (if up then name :: counted else counted), w2.
    split; [exact Hrun2|]. split; [congruence|]. split; [|split; [|split; [|split]]].
    + intros name' config' [Heq|Hin] Hunr.
      * inversion Heq; subst. rewrite Hother by exact Hnotin.
        destruct (Hun (Hunr _)) as [-> _]. apply dict_get_set_eq.
      * eauto.
    + intros name' Hn'. simpl in Hn'. rewrite Hother by tauto.
      apply dict_get_set_ne. intros <-. apply Hn'. auto.
    + rewrite Hh2. destruct up; cbn [List.length]; lia.
    + destruct up; [|exact Hndc]. constructor; [|exact Hndc].
      intros Hin. apply Hc2 in Hin. destruct Hin as (c & Hin & _).
      apply Hnotin. unfold keys. apply in_map_iff. exists (name, c). auto.
    + intros name' Hin.
      assert (Hrest : In name' counted ->
                exists c, In (name', c) ((name, config) :: items) /\
                          answered_200 o (http_port c)).
      { intros Hin'. destruct (Hc2 _ Hin') as (c & Hc & H2). exists c. simpl; auto. }
      destruct up; [|auto]. destruct Hin as [<-|Hin]; [|auto].
      exists config. simpl; auto.
Qed.

Lemma NODES_CONFIG_keys_distinct : NoDup (keys NODES_CONFIG).
Proof. repeat constructor; simpl; intuition discriminate. Qed.

(** X10.  The local script does what C2 says: taking a sample always
    returns, whatever the nodes and the operator do (never an exception,
    never a hang), and appends the sample to [network_stats]; every
    unreachable node is recorded with a neighbour count of -1; and the
    healthy count is the number of a set of distinct nodes each of which
    answered its health probe with 200, so no unreachable node is in
    it. *)
Lemma monitor_network_tolerates_unreachable_nodes o (w : world self) :
  exists stats counted w',
    monitor_network o w = (Ret stats, w') /\
    network_stats (st w') = network_stats (st w) ++ [stats] /\
    total_nodes stats = Z.of_nat (List.length NODES_CONFIG) /\
    (forall name config, In (name, config) NODES_CONFIG ->
       unreachable o (http_port config) ->
       dict_get name (neighbors_count stats) = Some (-1) /\ ~ In name counted) /\
    healthy_nodes stats = Z.of_nat (List.length counted) /\
    NoDup counted /\
    (forall name, In name counted ->
       exists config, In (name, config) NODES_CONFIG /\ answered_200 o (http_port config)).
Proof.
  destruct (@monitor_loop_returns o NODES_CONFIG 0 [] w NODES_CONFIG_keys_distinct)
    as (h & ns & counted & w1 & Hrun & Hst & Hu & _ & Hh & Hnd & Hc).
  unfold monitor_network, monitor_nodes. rewrite (bind_ret_run _ Hrun).
  unfold bind, now, append_stats, modify, ret. cbn [fst snd st].
  eexists. exists counted. eexists. split; [reflexivity|].
  cbn [st network_stats neighbors_count healthy_nodes total_nodes]. rewrite Hst.
  split; [reflexivity|]. split; [reflexivity|]. split; [|split; [lia|split; [exact Hnd|exact Hc]]].
  intros name config Hin Hunr. split; [eauto|].
  intros Hcounted. destruct (Hc _ Hcounted) as (c & Hin' & t & body & H200).
  assert (c = config).
  { pose proof NODES_CONFIG_keys_distinct as Hk.
    clear - Hin Hin' Hk. unfold keys in Hk.
    induction NODES_CONFIG as [|[k v] l IH]; [destruct Hin|].
    simpl in Hk. inversion Hk as [|? ? Hnotin Hk']; subst.
    destruct Hin as [Heq|Hin], Hin' as [Heq'|Hin'].
    - congruence.
    - inversion Heq; subst. exfalso. apply Hnotin. apply in_map_iff. exists (name, c). auto.
    - inversion Heq'; subst. exfalso. apply Hnotin. apply in_map_iff. exists (name, config). auto.
    - auto. }
  subst c. specialize (Hunr t). rewrite H200 in Hunr. discriminate.
Qed.

(** *** Teardown *)

Lemma obey_later o t t' : processes_obey o t -> (t <= t')%nat -> processes_obey o t'.
Proof. intros H Hle u pid Hu. apply H. lia. Qed.

(** Stopping a registered process that obeys: one termination signal for
    it, and its entry leaves the table. *)
Lemma local_stop_node_obedient o (w : world self) name proc :
  dict_get name (processes (st w)) = Some proc ->
  processes_obey o (clock w) ->
  exists requests,
    stop_node name o w =
      (Ret true, mkWorld (requests ++ hist w) (with_processes (dict_del name) (st w))) /\
    filter_map is_terminate (rev requests) = [proc] /\
    filter_map is_popen (rev requests) = [].
Proof.
  intros Hproc Hobey.
  destruct (Hobey (clock w) proc (Nat.le_refl _)) as (H0 & _).
  destruct (Hobey (S (clock w)) proc ltac:(lia)) as (_ & _ & H1 & _).
  destruct (Hobey (S (S (clock w))) proc ltac:(lia)) as (_ & H2 & _).
  destruct (Hobey (S (S (S (clock w)))) proc ltac:(lia)) as (_ & _ & _ & H3).
  specialize (H1 5).
  unfold stop_node, try_except, bind, gets, io, set_processes, modify, ret.
  cbn [fst snd st hist]. rewrite Hproc.
  destruct (o (clock w) (Terminate proc)) eqn:E0; try discriminate.
  cbn [fst snd st hist clock List.length]. fold (clock w).
  destruct (o (S (clock w)) (Wait proc (Some 5))) eqn:E1; try discriminate.
  - exists [Wait proc (Some 5); Terminate proc]. repeat split.
  - cbn [is_TimeoutExpired fst snd st hist clock List.length]. fold (clock w).
    destruct (o (S (S (clock w))) (Kill proc)) eqn:E2; try discriminate.
    cbn [fst snd st hist clock List.length]. fold (clock w).
    destruct (o (S (S (S (clock w)))) (Wait proc None)) eqn:E3; try discriminate.
    exists [Wait proc None; Kill proc; Wait proc (Some 5); Terminate proc]. repeat split.
Qed.

Lemma local_stop_node_absent o (w : world self) name :
  dict_get name (processes (st w)) = None -> stop_node name o w = (Ret true, w).
Proof.
  intros H. unfold stop_node, bind, gets, ret. cbn [fst snd st]. now rewrite H.
Qed.

(** Stopping the nodes [names] one after the other, all processes
    obeying: the termination signals go out in the order of [names], and
    the entries leave the table. *)
Lemma stop_names_obedient o names : forall (w : world self),
  processes_obey o (clock w) ->
  exists w',
    for_each names (fun node_name => stop_node node_name ;; ret tt) o w = (Ret tt, w') /\
    processes (st w') = delete_all names (processes (st w)) /\
    terminated w' = terminated w ++ taken_out names (processes (st w)) /\
    spawned w' = spawned w /\
    (clock w <= clock w')%nat.
Proof.
  induction names as [|name names IH]; intros w Hobey.
  - exists w. cbn. rewrite app_nil_r. repeat split; auto.
  - cbn [for_each taken_out]. unfold delete_all. cbn [fold_left].
    destruct (dict_get name (processes (st w))) as [proc|] eqn:Eproc.
    + destruct (local_stop_node_obedient o w name proc Eproc Hobey)
        as (requests & Hrun & Hterm & Hpop).
      set (w1 := mkWorld (requests ++ hist w) (with_processes (dict_del name) (st w))) in *.
      assert (Hclk : (clock w <= clock w1)%nat).
      { unfold clock, w1. simpl. rewrite length_app. lia. }
      destruct (IH w1 (obey_later _ _ _ Hobey Hclk)) as (w' & Hrun' & Hp & Ht & Hs & Hc).
      exists w'. unfold bind at 1. unfold bind at 1. rewrite Hrun. unfold ret at 1.
      split; [exact Hrun'|]. split; [exact Hp|]. split; [|split; [|lia]].
      * rewrite Ht. unfold w1. rewrite terminated_app, Hterm. cbn [st with_processes processes].
        now rewrite <- app_assoc.
      * rewrite Hs. unfold w1. rewrite spawned_app, Hpop. apply app_nil_r.
    + destruct (IH w Hobey) as (w' & Hrun' & Hp & Ht & Hs & Hc).
      exists w'. unfold bind at 1. unfold bind at 1.
      rewrite (local_stop_node_absent o w name Eproc). unfold ret at 1.
      rewrite (dict_del_absent _ _ _ (proj1 (dict_get_None _ _ _) Eproc)).
      repeat split; assumption.
Qed.

(** [stop_all] with obeying processes: every process of the table is sent
    its termination signal, in the order of the table, which is the order
    in which the nodes were started, and the table ends up empty. *)
Lemma stop_all_obedient o (w : world self) :
  processes_obey o (clock w) ->
  NoDup (keys (processes (st w))) ->
  exists w',
    stop_all o w = (Ret tt, w') /\
    processes (st w') = [] /\
    terminated w' = terminated w ++ map snd (processes (st w)) /\
    spawned w' = spawned w.
Proof.
  intros Hobey Hnd. unfold stop_all, bind at 1, gets. cbn [fst snd].
  destruct (stop_names_obedient o (keys (processes (st w))) w Hobey)
    as (w' & Hrun & Hp & Ht & Hs & _).
  exists w'. split; [exact Hrun|]. split; [|split].
  - rewrite Hp. apply delete_all_keys, incl_refl.
  - rewrite Ht. f_equal. apply taken_out_keys, Hnd.
  - exact Hs.
Qed.

(** The same teardown, with the processes that have to be killed: a
    process is killed exactly when the 5 seconds of its wait run out. *)
Lemma local_stop_node_obedient_kill o (w : world self) name proc :
  dict_get name (processes (st w)) = Some proc ->
  processes_obey o (clock w) ->
  exists w',
    stop_node name o w = (Ret true, w') /\
    st w' = with_processes (dict_del name) (st w) /\
    terminated w' = terminated w ++ [proc] /\
    spawned w' = spawned w /\
    match o (S (clock w)) (Wait proc (Some 5)) with
    | TimeoutExpired =>
        clock w' = (4 + clock w)%nat /\ force_killed w' = force_killed w ++ [proc]
    | _ => clock w' = (2 + clock w)%nat /\ force_killed w' = force_killed w
    end.
Proof.
  intros Hproc Hobey.
  destruct (Hobey (clock w) proc (Nat.le_refl _)) as (H0 & _).
  destruct (Hobey (S (clock w)) proc ltac:(lia)) as (_ & _ & H1 & _).
  destruct (Hobey (S (S (clock w))) proc ltac:(lia)) as (_ & H2 & _).
  destruct (Hobey (S (S (S (clock w)))) proc ltac:(lia)) as (_ & _ & _ & H3).
  specialize (H1 5).
  unfold stop_node, try_except, bind, gets, io, set_processes, modify, ret.
  cbn [fst snd st hist]. rewrite Hproc.
  destruct (o (clock w) (Terminate proc)) eqn:E0; try discriminate.
  cbn [fst snd st hist clock List.length]. fold (clock w).
  destruct (o (S (clock w)) (Wait proc (Some 5))) eqn:E1; try discriminate.
  - eexists. split; [reflexivity|]. cbn [st hist]. split; [reflexivity|].
    split; [exact (terminated_app _ [Wait proc (Some 5); Terminate proc] w _)|].
    split; [transitivity (spawned w ++ []);
            [exact (spawned_app _ [Wait proc (Some 5); Terminate proc] w _)|apply app_nil_r]|].
    split; [unfold clock; cbn [hist List.length]; lia|].
    transitivity (force_killed w ++ []); [|apply app_nil_r].
    exact (force_killed_app _ [Wait proc (Some 5); Terminate proc] w _).
  - cbn [is_TimeoutExpired fst snd st hist clock List.length]. fold (clock w).
    destruct (o (S (S (clock w))) (Kill proc)) eqn:E2; try discriminate.
    cbn [fst snd st hist clock List.length]. fold (clock w).
    destruct (o (S (S (S (clock w)))) (Wait proc None)) eqn:E3; try discriminate.
    eexists. split; [reflexivity|]. cbn [st hist]. split; [reflexivity|].
    split; [exact (terminated_app _ [Wait proc None; Kill proc; Wait proc (Some 5);
                                      Terminate proc] w _)|].
    split; [transitivity (spawned w ++ []);
            [exact (spawned_app _ [Wait proc None; Kill proc; Wait proc (Some 5);
                                   Terminate proc] w _)|apply app_nil_r]|].
    split; [unfold clock; cbn [hist List.length]; lia|].
    exact (force_killed_app _ [Wait proc None; Kill proc; Wait proc (Some 5);
                               Terminate proc] w _).
Qed.

Lemma stop_names_obedient_kill o names : forall (w : world self),
  processes_obey o (clock w) ->
  exists w',
    for_each names (fun node_name => stop_node node_name ;; ret tt) o w = (Ret tt, w') /\
    processes (st w') = delete_all names (processes (st w)) /\
    outside_processes (st w') = outside_processes (st w) /\
    terminated w' = terminated w ++ taken_out names (processes (st w)) /\
    force_killed w' =
      force_killed w ++ unresponsive o (clock w) (taken_out names (processes (st w))) /\
    spawned w' = spawned w.
Proof.
  induction names as [|name names IH]; intros w Hobey.
  - exists w. cbn. rewrite !app_nil_r. repeat split; auto.
  - cbn [for_each taken_out]. unfold delete_all. cbn [fold_left].
    destruct (dict_get name (processes (st w))) as [proc|] eqn:Eproc.
    + destruct (local_stop_node_obedient_kill o w name proc Eproc Hobey)
        as (w1 & Hrun & Hst & Hterm & Hsp & Hkill).
      assert (Hclk : (clock w <= clock w1)%nat).
      { destruct (o (S (clock w)) (Wait proc (Some 5))); lia. }
      destruct (IH w1 (obey_later _ _ _ Hobey Hclk))
        as (w' & Hrun' & Hp & Hout & Ht & Hk & Hs).
      exists w'. unfold bind at 1. unfold bind at 1. rewrite Hrun. unfold ret at 1.
      rewrite Hst in Hp, Hout, Ht, Hk. cbn [with_processes processes] in Hp, Ht, Hk.
      split; [exact Hrun'|]. split; [exact Hp|]. split; [exact Hout|].
      split; [rewrite Ht, Hterm, <- app_assoc; reflexivity|].
      split; [|congruence].
      rewrite Hk. cbn [unresponsive].
      destruct (o (S (clock w)) (Wait proc (Some 5)));
        destruct Hkill as (-> & ->); rewrite <- ?app_assoc; reflexivity.
    + destruct (IH w Hobey) as (w' & Hrun' & Hp & Hout & Ht & Hk & Hs).
      exists w'. unfold bind at 1. unfold bind at 1.
      rewrite (local_stop_node_absent o w name Eproc). unfold ret at 1.
      rewrite (dict_del_absent _ _ _ (proj1 (dict_get_None _ _ _) Eproc)).
      repeat split; assumption.
Qed.

(** [stop_all] with processes that can be signalled: every process of
    the table is sent its termination signal, in the order of the table;
    those that have not exited after 5 seconds are killed; the table ends
    up empty and the rest of the tester is left alone. *)
Lemma stop_all_obedient_kill o (w : world self) :
  processes_obey o (clock w) ->
  NoDup (keys (processes (st w))) ->
  exists w',
    stop_all o w = (Ret tt, w') /\
    processes (st w') = [] /\
    outside_processes (st w') = outside_processes (st w) /\
    terminated w' = terminated w ++ map snd (processes (st w)) /\
    force_killed w' =
      force_killed w ++ unresponsive o (clock w) (map snd (processes (st w))) /\
    spawned w' = spawned w.
Proof.
  intros Hobey Hnd. unfold stop_all, bind at 1, gets. cbn [fst snd].
  destruct (stop_names_obedient_kill o (keys (processes (st w))) w Hobey)
    as (w' & Hrun & Hp & Hout & Ht & Hk & Hs).
  rewrite (taken_out_keys _ _ Hnd) in Ht, Hk.
  exists w'. split; [exact Hrun|]. split; [|auto].
  rewrite Hp. apply delete_all_keys, incl_refl.
Qed.

(** *** The run *)

(** Discharge the side conditions of the frame lemmas for an observation
    of the script's state that the state updates in question leave
    alone. *)
Ltac frame_obligations :=
  try typeclasses eauto;
  intros;
  lazymatch goal with
  | |- respects _ (start_node _ _) => apply start_node_respects; frame_obligations
  | _ =>
      try (unfold append_stats, append_event, set_processes, set_report, add_file;
           apply respects_modify; intros);
      unfold same, keeps, files_written, table_ok, spawned_so_far;
      first [ reflexivity
            | apply spawned_other_request; first [assumption | reflexivity]
            | simpl;
              first [ reflexivity
                    | tauto
                    | intros; first [apply NoDup_keys_dict_set | apply NoDup_keys_dict_del];
                      assumption ]
            | idtac ]
  end.

Lemma no_report_before_generate_report :
  respects (same files_written) set_start_time /\
  respects (same files_written) stage_1_genesis /\
  respects (same files_written) bring_up_remaining /\
  respects (same files_written) execute_malicious_attacks /\
  respects (same files_written) stop_all.
Proof.
  split; [|split; [|split; [|split]]].
  - apply set_start_time_respects; frame_obligations.
  - apply stage_1_genesis_respects; frame_obligations.
  - apply bring_up_remaining_respects; frame_obligations.
  - apply execute_malicious_attacks_respects; frame_obligations.
  - apply stop_all_respects; frame_obligations.
Qed.

Lemma table_stays_ok :
  respects (keeps table_ok) set_start_time /\
  respects (keeps table_ok) stage_1_genesis /\
  respects (keeps table_ok) bring_up_remaining /\
  respects (keeps table_ok) execute_malicious_attacks.
Proof.
  split; [|split; [|split]].
  - apply set_start_time_respects; frame_obligations.
  - apply stage_1_genesis_respects; frame_obligations.
  - apply bring_up_remaining_respects; frame_obligations.
  - apply execute_malicious_attacks_respects; frame_obligations.
Qed.

(** [start_node] enters the node into the table once it has asked for
    its process: at the end of the table when the name is new, in its old
    place otherwise. *)
Lemma start_node_keeps_start_order node_name bootstrap :
  respects (keeps table_in_start_order) (start_node node_name bootstrap).
Proof.
  intros o w H. unfold start_node, config_of, bind.
  destruct (dict_get node_name NODES_CONFIG) as [config|]; [|exact H].
  unfold ret at 1. unfold try_except, bind, io, set_processes, modify, ret.
  unfold table_in_start_order in *.
  destruct (o (clock w) _) as [code body|code| | |];
    cbn [fst snd is_Exception st hist processes with_processes];
    rewrite spawned_cons; cbn [is_popen];
    try (apply in_order_app_r; exact H).
  rewrite keys_dict_set.
  destruct (existsb (String.eqb node_name) (keys (processes (st w)))).
  - apply in_order_app_r. exact H.
  - apply in_order_snoc. exact H.
Qed.

(** Whatever happens in the body of [run_test], the process table lists
    the nodes in the order in which they were started. *)
Lemma table_stays_in_start_order : respects (keeps table_in_start_order) run_test_body.
Proof.
  apply run_test_body_respects; try typeclasses eauto;
    try exact start_node_keeps_start_order.
  - intros r w Hr H. unfold table_in_start_order in *. cbn [st].
    rewrite spawned_other_request by exact Hr. exact H.
  - intros n. unfold append_stats. apply respects_modify. intros w H. exact H.
  - intros e. unfold append_event. apply respects_modify. intros w H. exact H.
  - intros k. unfold set_processes. apply respects_modify. intros w H.
    unfold table_in_start_order in *. cbn [st hist processes with_processes].
    eapply in_order_trans; [apply in_order_dict_del|exact H].
  - intros f. unfold set_report. apply respects_modify. intros w H. exact H.
  - intros name r. unfold add_file. apply respects_modify. intros w H. exact H.
Qed.

(** What a relation that a computation respects says about one run. *)
Lemma respects_run A (R : world self -> world self -> Prop) (m : Local A) o w r w' :
  respects R m -> m o w = (r, w') -> R w w'.
Proof. intros H E. specialize (H o w). now rewrite E in H. Qed.

Lemma run_test_body_split o w :
  run_test_body o w =
  bind (set_start_time ;; stage_1_genesis)
       (fun genesis_ok =>
          if negb genesis_ok then stop_all
          else bring_up_remaining ;; execute_malicious_attacks ;; report_after_attacks) o w.
Proof. unfold run_test_body. symmetry. apply bind_assoc_run. Qed.



(** The run of the witness: Ctrl-C arrives during the sixth request of
    the first flood of the DDoS attempt; the five processes, which ignore
    the termination signal, are all killed, and no file is written. *)
Example ctrl_c_during_ddos_flood :
  hd_error (hist Samples.local_ddos) = Some (Urlopen 18400 "/api/node/info" "GET") /\
  fst (execute_malicious_attacks Samples.interrupted_in_ddos Samples.local_up)
    = Raise KeyboardInterrupt /\
  let w := snd (run_test Samples.interrupted_in_ddos Samples.local0) in
  fst (run_test Samples.interrupted_in_ddos Samples.local0) = Ret tt /\
  files_written w = [] /\
  processes (st w) = [] /\
  terminated w = [1000; 1013; 1016; 1030; 1033] /\
  force_killed w = [1000; 1013; 1016; 1030; 1033].
Proof. vm_compute. repeat split. Qed.


(** *** Start order *)

(** Whatever becomes of the new process, [start_node] asks for exactly
    one: the one of the node it is given. *)
Lemma start_node_spawns name bootstrap :
  In name (keys NODES_CONFIG) -> spawns [name] (start_node name bootstrap).
Proof.
  intros Hk o w. destruct (known_node name Hk) as [config Hc].
  exists [name].
  unfold start_node, config_of, bind, try_except, io, set_processes, modify, ret.
  rewrite Hc. cbn [fst snd].
  split; [|split; [apply initial_part_refl|reflexivity]].
  destruct (o (clock w) _); cbn [fst snd is_Exception hist st];
    rewrite spawned_cons; reflexivity.
Qed.

Lemma spawned_untouched :
  (forall n t, respects (same spawned_so_far) (wait_for_node n t)) /\
  respects (same spawned_so_far) print_network_status /\
  respects (same spawned_so_far) execute_malicious_attacks /\
  respects (same spawned_so_far) stop_all /\
  respects (same spawned_so_far) set_start_time /\
  (forall n st, respects (same spawned_so_far) (append_stage n st)) /\
  respects (same spawned_so_far) sleep.
Proof.
  split; [|split; [|split; [|split; [|split; [|split]]]]].
  - intros. apply wait_for_node_respects; frame_obligations.
  - apply print_network_status_respects; frame_obligations.
  - apply execute_malicious_attacks_respects; frame_obligations.
  - apply stop_all_respects; frame_obligations.
  - apply set_start_time_respects; frame_obligations.
  - intros. apply append_stage_respects; frame_obligations.
  - apply respects_sleep; frame_obligations.
Qed.

Lemma start_and_wait_spawns name :
  In name (keys NODES_CONFIG) -> spawns [name] (start_and_wait name).
Proof.
  intros Hk. destruct spawned_untouched as (Hw & _ & _ & _ & _ & _ & Hsl).
  unfold start_and_wait.
  apply (spawns_bind _ _ [name] []); [apply start_node_spawns, Hk|].
  intros ok. apply spawns_nothing. destruct ok; frame.
Qed.

Lemma stage_1_genesis_spawns : spawns ["genesis"] stage_1_genesis.
Proof.
  destruct spawned_untouched as (Hw & _ & _ & _ & _ & Hst & _).
  unfold stage_1_genesis.
  apply (spawns_bind _ _ ["genesis"] []); [apply start_node_spawns; simpl; tauto|].
  intros ok. apply spawns_nothing. destruct ok; cbn [negb]; frame.
Qed.

Lemma bring_up_remaining_spawns :
  spawns ["node1"; "node2"; "malicious1"; "malicious2"] bring_up_remaining.
Proof.
  destruct spawned_untouched as (Hw & Hp & _ & _ & _ & Hst & Hsl).
  assert (Hnothing : forall A (m : Local A) l B (k : A -> Local B),
            respects (same spawned_so_far) m -> (forall a, spawns l (k a)) ->
            spawns l (bind m k)).
  { intros A m l B k Hm Hk. apply (spawns_bind _ _ [] l); [apply spawns_nothing, Hm|exact Hk]. }
  unfold bring_up_remaining, stage_2_normal_nodes, stage_3_malicious_nodes.
  apply Hnothing; [exact Hsl|intros _].
  apply Hnothing; [exact Hp|intros _].
  apply (spawns_bind _ _ ["node1"; "node2"] ["malicious1"; "malicious2"]).
  { apply (spawns_bind _ _ ["node1"; "node2"] []); [|intros; apply spawns_nothing; frame].
    cbn [for_each].
    apply (spawns_bind _ _ ["node1"] ["node2"]); [apply start_and_wait_spawns; simpl; tauto|].
    intros _.
    apply (spawns_bind _ _ ["node2"] []); [apply start_and_wait_spawns; simpl; tauto|].
    intros _. apply spawns_nothing. frame. }
  intros _. apply Hnothing; [exact Hsl|intros _]. apply Hnothing; [exact Hp|intros _].
  apply (spawns_bind _ _ ["malicious1"; "malicious2"] []).
  { apply (spawns_bind _ _ ["malicious1"; "malicious2"] []);
      [|intros; apply spawns_nothing; frame].
    cbn [for_each].
    apply (spawns_bind _ _ ["malicious1"] ["malicious2"]);
      [apply start_and_wait_spawns; simpl; tauto|].
    intros _.
    apply (spawns_bind _ _ ["malicious2"] []); [apply start_and_wait_spawns; simpl; tauto|].
    intros _. apply spawns_nothing. frame. }
  intros _. apply spawns_nothing. frame.
Qed.

(** Every run of the local test starts its nodes in the order of
    [NODES_CONFIG], the genesis node first: the processes it has asked
    for at the end are an initial part of that list. *)
Lemma run_test_start_order o (w : world self) :
  exists started,
    spawned (snd (run_test o w)) = spawned w ++ started /\
    initial_part started (keys NODES_CONFIG).
Proof.
  destruct spawned_untouched as (_ & Hp & Hatt & Hstop & Hstart & _ & _).
  assert (Hbody : spawns_upto (keys NODES_CONFIG) run_test_body).
  { unfold run_test_body.
    apply (spawns_upto_bind _ _ [] (keys NODES_CONFIG)); [apply spawns_nothing, Hstart|].
    intros _.
    apply (spawns_upto_bind _ _ ["genesis"] ["node1"; "node2"; "malicious1"; "malicious2"]);
      [apply stage_1_genesis_spawns|].
    intros ok. destruct ok; cbn [negb].
    - apply spawns_weaken.
      apply (spawns_bind _ _ ["node1"; "node2"; "malicious1"; "malicious2"] []);
        [apply bring_up_remaining_spawns|].
      intros _. apply spawns_nothing. unfold report_after_attacks, generate_report.
      pose proof Hatt. pose proof Hp.
      assert (forall n r, respects (same spawned_so_far) (add_file n r))
        by (intros; unfold add_file; apply respects_modify; frame_obligations).
      assert (forall f, respects (same spawned_so_far) (set_report f))
        by (intros; unfold set_report; apply respects_modify; frame_obligations).
      assert (forall n, respects (same spawned_so_far) (io (WriteFile n)))
        by (intros; apply respects_io; frame_obligations).
      frame.
    - intros o' w'. exists []. rewrite app_nil_r.
      split; [exact (Hstop o' w')|apply initial_part_nil]. }
  destruct (Hbody o w) as (started & Hs & Hpart).
  exists started. split; [|exact Hpart]. rewrite <- Hs.
  unfold run_test, try_finally, try_except.
  destruct (run_test_body o w) as [[[]|e|] w1]; cbn [snd].
  - pose proof (Hstop o w1) as H. destruct (stop_all o w1) as [[[]|e'|] w2]; exact H.
  - destruct (is_KeyboardInterrupt e || is_Exception e); cbn [ret];
      pose proof (Hstop o w1) as H; destruct (stop_all o w1) as [[[]|e'|] w2]; exact H.
  - reflexivity.
Qed.

End HeteroLocalFacts.

(** ** The Docker five-node test: monitoring *)

Module HeteroDockerFacts.
Import Py PyFacts HeteroDocker.
Local Open Scope py_scope.

Lemma docker_api_call_never_hangs o (w : world self) node_name endpoint method :
  fst (api_call node_name endpoint method o w) <> Hang.
Proof.
  unfold api_call, config_of, bind, try_except, io, ret, raise.
  destruct (dict_get node_name NODES); simpl; [|discriminate].
  destruct (o (clock w) _) as [code [body|]|code| | |]; simpl; discriminate.
Qed.

Lemma docker_get_neighbors_never_hangs o (w : world self) node_name :
  fst (get_neighbors node_name o w) <> Hang.
Proof.
  unfold get_neighbors, bind.
  pose proof (@docker_api_call_never_hangs o w node_name "/neighbor/list" "GET") as H.
  destruct (api_call node_name "/neighbor/list" "GET" o w) as [[[code body]|e|] w1];
    simpl in *; try congruence.
  destruct body; try discriminate. destruct (code =? 200); discriminate.
Qed.

Lemma py_len_nonneg v n : py_len v = Some n -> 0 <= n.
Proof. destruct v; simpl; intros H; inversion H; lia. Qed.

(** One round of the Docker monitoring loop: it always returns, stores a
    count that is never negative, and stores 0 when the probe gets no
    response. *)
Lemma docker_monitor_node_returns o (w : world self) node_name config healthy neighbors :
  exists healthy' n w',
    monitor_node node_name config healthy neighbors o w =
      (Ret (healthy', dict_set node_name n neighbors), w') /\
    0 <= n /\
    (is_done (o (clock w) (health_probe (http_port config))) = false ->
     n = 0 /\ healthy' = healthy).
Proof.
  unfold monitor_node, bind at 1, try_except at 1, bind at 1, io, health_probe.
  destruct (o (clock w) (Urlopen (http_port config) "/health" "GET"))
    as [status body|code| | |] eqn:E; simpl;
    try (do 3 eexists; split; [reflexivity|]; simpl; repeat split; auto; lia).
  set (w1 := mkWorld (Urlopen (http_port config) "/health" "GET" :: hist w) (st w)).
  pose proof (@docker_get_neighbors_never_hangs o w1 node_name) as Hn.
  unfold bind, try_except.
  destruct (get_neighbors node_name o w1) as [[l|e|] w2]; simpl in *; try congruence.
  - destruct (py_len l) as [n|] eqn:El; simpl;
      (do 3 eexists; split; [reflexivity|]; split; [|discriminate]).
    + eapply py_len_nonneg; eassumption.
    + lia.
  - do 3 eexists. split; [reflexivity|]. split; [lia|discriminate].
Qed.

Lemma docker_monitor_loop_returns o items : forall healthy neighbors (w : world self),
  NoDup (keys items) ->
  exists healthy' neighbors' w',
    monitor_loop items healthy neighbors o w = (Ret (healthy', neighbors'), w') /\
    (forall name config, In (name, config) items ->
       unreachable o (http_port config) -> dict_get name neighbors' = Some 0) /\
    (forall name, ~ In name (keys items) ->
       dict_get name neighbors' = dict_get name neighbors) /\
    (forall name config n, In (name, config) items ->
       dict_get name neighbors' = Some n -> 0 <= n).
Proof.
  induction items as [|[name config] items IH]; intros healthy neighbors w Hnd.
  - exists healthy, neighbors, w. simpl. repeat split; auto; intros ? ? []; contradiction.
  - cbn [monitor_loop].
    destruct (@docker_monitor_node_returns o w name config healthy neighbors)
      as (h1 & n & w1 & Hrun & Hn & Hun).
    rewrite (bind_ret_run _ Hrun). cbn [fst snd].
    inversion Hnd as [|? ? Hnotin Hnd']; subst.
    destruct (IH h1 (dict_set name n neighbors) w1 Hnd')
      as (h2 & ns & w2 & Hrun2 & Hu2 & Hother & Hpos).
    exists h2, ns, w2. split; [exact Hrun2|]. split; [|split].
    + intros name' config' [Heq|Hin] Hunr.
      * inversion Heq; subst. rewrite Hother by exact Hnotin.
        destruct (Hun (Hunr _)) as [-> _]. apply dict_get_set_eq.
      * eauto.
    + intros name' Hn'. simpl in Hn'. rewrite Hother by tauto.
      apply dict_get_set_ne. intros <-. apply Hn'. auto.
    + intros name' config' m [Heq|Hin] Hget.
      * inversion Heq; subst. rewrite Hother in Hget by exact Hnotin.
        rewrite dict_get_set_eq in Hget. congruence.
      * eauto.
Qed.

Lemma NODES_keys_distinct : NoDup (keys NODES).
Proof. repeat constructor; simpl; intuition discriminate. Qed.

(** The Docker script also never fails a sample, but it records an
    unreachable node with a neighbour count of 0, never -1: no recorded
    count is negative, so the [>= 0] test that chooses between the two
    status marks always chooses the first. *)
Lemma docker_monitor_records_zero_for_unreachable o (w : world self) :
  exists stats w',
    monitor_network o w = (Ret stats, w') /\
    (forall name config, In (name, config) NODES ->
       unreachable o (http_port config) ->
       dict_get name (neighbors_count stats) = Some 0) /\
    (forall name config, In (name, config) NODES -> status_mark stats name = true).
Proof.
  destruct (@docker_monitor_loop_returns o NODES 0 [] w NODES_keys_distinct)
    as (h & ns & w1 & Hrun & Hu & _ & Hpos).
  unfold monitor_network. rewrite (bind_ret_run _ Hrun).
  unfold bind, now, modify, ret. cbn [fst snd st].
  do 2 eexists. split; [reflexivity|]. cbn [neighbors_count]. split; [exact Hu|].
  intros name config Hin. unfold status_mark. cbn [neighbors_count].
  destruct (dict_get name ns) as [n|] eqn:E; [|reflexivity].
  apply Z.geb_le. eapply Hpos; eassumption.
Qed.

(** C2 on the Docker script, at a concrete input: with node1 unreachable
    and every other node answering, the sample is taken without any
    exception, node1 is left out of the healthy count, but its neighbour
    count is recorded as 0 where the specification says -1, and its
    status mark is the one of a reachable node. *)
Theorem docker_monitor_unreachable_node_counts_zero :
  exists stats w',
    monitor_network (Samples.unreachable_port 18346 Samples.friendly) Samples.docker0
      = (Ret stats, w') /\
    total_nodes stats = 5 /\
    healthy_nodes stats = 4 /\
    dict_get "node1" (neighbors_count stats) = Some 0 /\
    dict_get "node1" (neighbors_count stats) <> Some (-1) /\
    status_mark stats "node1" = true.
Proof.
  do 2 eexists. split; [vm_compute; reflexivity|]. cbn.
  repeat split. discriminate.
Qed.

End HeteroDockerFacts.

(** ** The staged cluster test *)

Module MaliciousNodeTestFacts.
Import Py PyFacts MaliciousNodeTest.
Local Open Scope py_scope.

(** *** Objects *)

Lemma length_update A (f : A -> A) l : forall i, List.length (update i f l) = List.length l.
Proof. induction l as [|x l IH]; intros [|i]; simpl; auto. Qed.

Lemma nth_update_eq A (f : A -> A) d l : forall i,
  (i < List.length l)%nat -> nth i (update i f l) d = f (nth i l d).
Proof.
  induction l as [|x l IH]; intros [|i] H; simpl in *; try lia; auto.
  apply IH. lia.
Qed.

Lemma nth_update_ne A (f : A -> A) d l : forall i j,
  i <> j -> nth j (update i f l) d = nth j l d.
Proof.
  induction l as [|x l IH]; intros [|i] [|j] H; simpl; auto; try congruence.
Qed.

Lemma update_fixpoint A (f : A -> A) d l : forall i,
  f (nth i l d) = nth i l d -> (i < List.length l)%nat -> update i f l = l.
Proof.
  induction l as [|x l IH]; intros [|i] H Hlt; simpl in *; try lia.
  - congruence.
  - f_equal. apply IH; [exact H|lia].
Qed.

Lemma set_status_same n : Ports.status n = Ports.stopped -> set_status Ports.stopped n = n.
Proof. destruct n; simpl; intros ->; reflexivity. Qed.

Lemma set_pid_same n : Ports.pid n = 0 -> set_pid 0 n = n.
Proof. destruct n; simpl; intros ->; reflexivity. Qed.

(** *** Stopping a node *)

Lemma stopped_state_node r s :
  (r < List.length (heap s))%nat ->
  Ports.status (nth r (heap (stopped_state r s)) blank) = Ports.stopped /\
  Ports.pid (nth r (heap (stopped_state r s)) blank) = 0 /\
  Ports.node_id (nth r (heap (stopped_state r s)) blank)
    = Ports.node_id (nth r (heap s) blank) /\
  dict_get (Ports.node_id (nth r (heap s) blank)) (processes (stopped_state r s)) = None.
Proof.
  intros Hr. unfold stopped_state. simpl.
  rewrite !nth_update_eq by (rewrite ?length_update; exact Hr).
  destruct (nth r (heap s) blank); simpl. repeat split. apply dict_get_del_eq.
Qed.

Lemma stopped_state_idempotent r s :
  (r < List.length (heap s))%nat ->
  dict_get (Ports.node_id (nth r (heap s) blank)) (processes s) = None ->
  Ports.status (nth r (heap s) blank) = Ports.stopped ->
  Ports.pid (nth r (heap s) blank) = 0 ->
  with_heap (update r (set_pid 0)) (with_heap (update r (set_status Ports.stopped)) s) = s.
Proof.
  intros Hr Hnone Hst Hpid. destruct s; unfold with_heap; simpl in *. f_equal.
  rewrite (@update_fixpoint _ (set_status Ports.stopped) blank heap0 r);
    [|apply set_status_same; exact Hst|exact Hr].
  apply (@update_fixpoint _ (set_pid 0) blank); [apply set_pid_same; exact Hpid|exact Hr].
Qed.

Lemma with_processes_del_absent k s :
  dict_get k (processes s) = None -> with_processes (dict_del k) s = s.
Proof.
  intros H. destruct s; unfold with_processes; simpl in *. f_equal.
  apply dict_del_absent. apply dict_get_None. exact H.
Qed.

(** What [stop_node] does on each of the three paths. *)
Lemma stop_node_on_path o (w : world self) r p :
  path_taken o w r = Some p ->
  exists requests,
    stop_node r o w = (Ret true, mkWorld (requests ++ hist w) (stopped_state r (st w))) /\
    match p with
    | NothingToStop =>
        requests = [] /\ dict_get (id_of w r) (processes (st w)) = None
    | Graceful => exists proc,
        registered w r proc /\ requests = [Wait proc (Some 5); Terminate proc]
    | Forced => exists proc,
        registered w r proc /\
        requests = [Wait proc None; Kill proc; Wait proc (Some 5); Terminate proc]
    end.
Proof.
  unfold path_taken, registered, id_of. intros H.
  destruct (dict_get (Ports.node_id (nth r (heap (st w)) blank)) (processes (st w)))
    as [proc|] eqn:Eproc.
  - cbv zeta in H.
    destruct (o (clock w) (Terminate proc)) as [c b|c| | |] eqn:E0; cbn [is_done] in H;
      try discriminate.
    destruct (o (S (clock w)) (Wait proc (Some 5))) as [c1 b1|c1| | |] eqn:E1;
      try discriminate.
    + inversion H; subst. exists [Wait proc (Some 5); Terminate proc]. split; [|eauto].
      unfold stop_node, try_except, bind, deref, gets, io, mutate, modify, ret.
      cbn [fst snd st hist]. rewrite Eproc. rewrite E0.
      cbn [fst snd st hist clock List.length]. fold (clock w). rewrite E1.
      reflexivity.
    + destruct (o (S (S (clock w))) (Kill proc)) as [c2 b2|c2| | |] eqn:E2;
        cbn [is_done andb] in H; try discriminate.
      destruct (o (S (S (S (clock w)))) (Wait proc None)) as [c3 b3|c3| | |] eqn:E3;
        cbn [is_done] in H; try discriminate.
      inversion H; subst.
      exists [Wait proc None; Kill proc; Wait proc (Some 5); Terminate proc].
      split; [|eauto].
      unfold stop_node, try_except, bind, deref, gets, io, mutate, modify, ret.
      cbn [fst snd st hist]. rewrite Eproc. rewrite E0.
      cbn [fst snd st hist clock List.length]. fold (clock w). rewrite E1.
      cbn [is_TimeoutExpired fst snd st hist clock List.length]. fold (clock w).
      rewrite E2. cbn [fst snd st hist clock List.length]. fold (clock w). rewrite E3.
      reflexivity.
  - inversion H; subst. exists []. split; [|split; reflexivity].
    unfold stop_node, try_except, bind, deref, gets, io, mutate, modify, ret.
    cbn [fst snd st hist]. rewrite Eproc.
    unfold stopped_state. rewrite (with_processes_del_absent _ _ Eproc). reflexivity.
Qed.

(** Whatever happens to the process, [stop_node] returns a Boolean: every
    exception of the process calls is caught.  Only Ctrl-C, which is not
    an [Exception], would pass through. *)
Lemma stop_node_never_raises o (w : world self) r :
  uninterrupted o (clock w) ->
  exists b w', stop_node r o w = (Ret b, w').
Proof.
  intros Hu.
  unfold stop_node, try_except, bind, deref, gets, io, mutate, modify, ret.
  cbn [fst snd st hist].
  destruct (dict_get (Ports.node_id (nth r (heap (st w)) blank)) (processes (st w)))
    as [proc|]; [|eauto].
  repeat match goal with
         | |- context [match o ?t ?q with _ => _ end] =>
             let E := fresh "E" in
             destruct (o t q) eqn:E;
             cbn [fst snd st hist is_Exception is_TimeoutExpired];
             try (exfalso; apply (Hu t q); [unfold clock; simpl; lia|exact E])
         end; eauto.
Qed.

(** C3. Whichever way [stop_node] goes (nothing registered, graceful
    exit, forced kill), it returns [True] and leaves the descriptor with
    status stopped and pid 0 and without a registered process; a second
    call on the same descriptor then returns [True] again and changes
    nothing, issuing no request at all; and in no case does a call let an
    exception of the process operations escape. *)
Theorem stop_node_leaves_descriptor_stopped o (w : world self) r p :
  (r < List.length (heap (st w)))%nat ->
  path_taken o w r = Some p ->
  exists w',
    stop_node r o w = (Ret true, w') /\
    Ports.status (nth r (heap (st w')) blank) = Ports.stopped /\
    Ports.pid (nth r (heap (st w')) blank) = 0 /\
    dict_get (Ports.node_id (nth r (heap (st w')) blank)) (processes (st w')) = None /\
    (forall o', stop_node r o' w' = (Ret true, w')) /\
    (forall o' w0 r0, uninterrupted o' (clock w0) ->
       exists b w1, stop_node r0 o' w0 = (Ret b, w1)).
Proof.
  intros Hr Hp.
  destruct (stop_node_on_path o w r p Hp) as (requests & Hrun & _).
  destruct (stopped_state_node r (st w) Hr) as (Hst & Hpid & Hid & Hnone).
  eexists. split; [exact Hrun|]. cbn [st].
  split; [exact Hst|]. split; [exact Hpid|]. rewrite Hid. split; [exact Hnone|].
  split; [|intros; apply stop_node_never_raises; assumption].
  intros o'.
  set (w' := mkWorld (requests ++ hist w) (stopped_state r (st w))).
  assert (Hr' : (r < List.length (heap (st w')))%nat).
  { unfold w', stopped_state. simpl. rewrite !length_update. exact Hr. }
  assert (Hnone' : dict_get (Ports.node_id (nth r (heap (st w')) blank))
                            (processes (st w')) = None).
  { unfold w'. cbn [st]. rewrite Hid. exact Hnone. }
  assert (Hpath : path_taken o' w' r = Some NothingToStop).
  { unfold path_taken. rewrite Hnone'. reflexivity. }
  destruct (stop_node_on_path o' w' r _ Hpath) as (requests' & Hrun' & -> & _).
  rewrite Hrun'. f_equal. unfold stopped_state.
  rewrite (with_processes_del_absent _ _ Hnone').
  rewrite stopped_state_idempotent; try assumption.
  - destruct w'; reflexivity.
Qed.

Lemma stop_node_leaves_descriptor_stopped_witness :
  path_taken (Samples.stubborn Samples.friendly) Samples.cluster1 0 = Some Forced /\
  exists w',
    stop_node 0 (Samples.stubborn Samples.friendly) Samples.cluster1 = (Ret true, w') /\
    Ports.status (nth 0 (heap (st w')) blank) = Ports.stopped /\
    Ports.pid (nth 0 (heap (st w')) blank) = 0 /\
    dict_get (Ports.node_id (nth 0 (heap (st w')) blank)) (processes (st w')) = None /\
    (forall o', stop_node 0 o' w' = (Ret true, w')) /\
    (forall o' w0 r0, uninterrupted o' (clock w0) ->
       exists b w1, stop_node r0 o' w0 = (Ret b, w1)).
Proof.
  split; [vm_compute; reflexivity|].
  apply (stop_node_leaves_descriptor_stopped
           (Samples.stubborn Samples.friendly) Samples.cluster1 0%nat Forced).
  - vm_compute. lia.
  - vm_compute. reflexivity.
Defined.

(** *** Teardown order *)

Lemma cluster_obey_later o t t' : processes_obey o t -> (t <= t')%nat -> processes_obey o t'.
Proof. intros H Hle u pid Hu. apply H. lia. Qed.

Lemma uninterrupted_later o t t' : uninterrupted o t -> (t <= t')%nat -> uninterrupted o t'.
Proof. intros H Hle u q Hu. apply H. lia. Qed.

(** With obeying processes a call of [stop_node] goes one of the three
    ways, and a registered process is terminated or killed. *)
Lemma path_when_obedient o (w : world self) r :
  processes_obey o (clock w) ->
  exists p, path_taken o w r = Some p.
Proof.
  intros Hobey. unfold path_taken.
  destruct (dict_get _ (processes (st w))) as [proc|]; [|eauto]. cbv zeta.
  destruct (Hobey (clock w) proc (Nat.le_refl _)) as (H0 & _).
  destruct (Hobey (S (clock w)) proc ltac:(lia)) as (_ & _ & H1 & _).
  destruct (Hobey (S (S (clock w))) proc ltac:(lia)) as (_ & H2 & _).
  destruct (Hobey (S (S (S (clock w)))) proc ltac:(lia)) as (_ & _ & _ & H3).
  specialize (H1 5). rewrite H0.
  destruct (o (S (clock w)) (Wait proc (Some 5))); cbn in H1; try discriminate.
  - eauto.
  - rewrite H2, H3. cbn. eauto.
Qed.

Lemma id_of_stopped_state (w : world self) h r r' :
  id_of (mkWorld h (stopped_state r (st w))) r' = id_of w r'.
Proof.
  unfold id_of, stopped_state. simpl.
  destruct (Nat.eq_dec r r') as [<-|Hne].
  - destruct (Nat.lt_ge_cases r (List.length (heap (st w)))) as [Hlt|Hge].
    + rewrite !nth_update_eq by (rewrite ?length_update; exact Hlt).
      destruct (nth r (heap (st w)) blank); reflexivity.
    + rewrite !nth_overflow by (rewrite ?length_update; exact Hge). reflexivity.
  - rewrite !nth_update_ne by exact Hne. reflexivity.
Qed.

(** One [stop_node] with obeying processes, in terms of the process
    table. *)
Lemma stop_node_obedient o (w : world self) r :
  processes_obey o (clock w) ->
  exists requests,
    stop_node r o w = (Ret true, mkWorld (requests ++ hist w) (stopped_state r (st w))) /\
    filter_map is_terminate (rev requests) = taken_out [id_of w r] (processes (st w)).
Proof.
  intros Hobey. destruct (path_when_obedient o w r Hobey) as [p Hp].
  destruct (stop_node_on_path o w r p Hp) as (requests & Hrun & Hreq).
  exists requests. split; [exact Hrun|]. cbn [taken_out].
  destruct p.
  - destruct Hreq as [-> ->]. reflexivity.
  - destruct Hreq as (proc & Hreg & ->). unfold registered in Hreg. rewrite Hreg. reflexivity.
  - destruct Hreq as (proc & Hreg & ->). unfold registered in Hreg. rewrite Hreg. reflexivity.
Qed.

Lemma sleep_harmless o : harmless o sleep.
Proof.
  intros w Hu. exists (mkWorld (Sleep :: hist w) (st w)).
  split; [|split; [reflexivity|split]].
  - unfold sleep. specialize (Hu (clock w) Sleep (Nat.le_refl _)).
    destruct (o (clock w) Sleep); try reflexivity. congruence.
  - change (Sleep :: hist w) with ([Sleep] ++ hist w).
    rewrite terminated_app. apply app_nil_r.
  - unfold clock. simpl. lia.
Qed.

Lemma ret_harmless o : harmless o (ret tt).
Proof. intros w _. exists w. repeat split. lia. Qed.

Lemma id_of_same_state (w w' : world self) r : st w' = st w -> id_of w' r = id_of w r.
Proof. unfold id_of. now intros ->. Qed.

(** Stopping the objects [rs] one after the other: the termination
    signals go to the processes registered for them, in the order of
    [rs]. *)
Lemma stop_each_obedient o after rs :
  harmless o after ->
  forall w : world self,
    uninterrupted o (clock w) ->
    processes_obey o (clock w) ->
    exists w',
      for_each rs (fun r => stop_node r ;; after) o w = (Ret tt, w') /\
      terminated w' = terminated w ++ taken_out (map (id_of w) rs) (processes (st w)) /\
      processes (st w') = delete_all (map (id_of w) rs) (processes (st w)) /\
      (clock w <= clock w')%nat.
Proof.
  intros Hafter. induction rs as [|r rs IH]; intros w Hu Hobey.
  - exists w. cbn. rewrite app_nil_r. auto.
  - cbn [for_each map].
    destruct (stop_node_obedient o w r Hobey) as (requests & Hrun & Hterm).
    set (w1 := mkWorld (requests ++ hist w) (stopped_state r (st w))) in *.
    assert (Hclk1 : (clock w <= clock w1)%nat).
    { unfold clock, w1. simpl. rewrite length_app. lia. }
    destruct (Hafter w1 (uninterrupted_later _ _ _ Hu Hclk1))
      as (w2 & Hq & Hst2 & Hterm2 & Hclk12).
    assert (Hclk2 : (clock w <= clock w2)%nat) by lia.
    destruct (IH w2 (uninterrupted_later _ _ _ Hu Hclk2)
                 (cluster_obey_later _ _ _ Hobey Hclk2))
      as (w' & Hrun' & Ht & Hp & Hc).
    assert (Hids : map (id_of w2) rs = map (id_of w) rs).
    { apply map_ext. intros r'. rewrite (id_of_same_state w1 w2 r' Hst2).
      apply id_of_stopped_state. }
    assert (Hprocs : processes (st w2) = dict_del (id_of w r) (processes (st w))).
    { rewrite Hst2. reflexivity. }
    rewrite Hids, Hprocs in Ht, Hp.
    exists w'. split.
    { unfold bind at 1. unfold bind at 1. rewrite Hrun. rewrite Hq. exact Hrun'. }
    split; [|split; [|lia]].
    + rewrite Ht, Hterm2. unfold w1. rewrite terminated_app, Hterm.
      rewrite <- app_assoc. f_equal.
      cbn [taken_out]. destruct (dict_get (id_of w r) (processes (st w))) as [proc|] eqn:E.
      * reflexivity.
      * simpl. now rewrite (dict_del_absent _ _ _ (proj1 (dict_get_None _ _ _) E)).
    + rewrite Hp. reflexivity.
Qed.

(** Looking up distinct registered keys one after the other finds their
    values. *)
Lemma taken_out_registered V (d : dict V) names : forall values,
  NoDup names ->
  Forall2 (fun k v => dict_get k d = Some v) names values ->
  taken_out names d = values.
Proof.
  revert d. induction names as [|k names IH]; intros d values Hnd Hall.
  - inversion Hall. reflexivity.
  - inversion Hall as [|? v ? values' Hk Hrest]; subst.
    inversion Hnd as [|? ? Hnotin Hnd']; subst.
    cbn [taken_out]. rewrite Hk. f_equal. apply IH; [exact Hnd'|].
    clear - Hrest Hnotin. induction Hrest as [|k' v' ks vs Hk' Hrest IH]; constructor.
    + rewrite dict_get_del_ne; [exact Hk'|]. intros ->. apply Hnotin. simpl; auto.
    + apply IH. intros Hin. apply Hnotin. simpl; auto.
Qed.

Lemma Forall2_rev A B (P : A -> B -> Prop) l1 l2 :
  Forall2 P l1 l2 -> Forall2 P (rev l1) (rev l2).
Proof.
  induction 1; simpl; [constructor|].
  apply Forall2_app; [assumption|repeat constructor; assumption].
Qed.

(** [stage_5_shutdown]: the nodes of the list, each with its process
    registered, are sent their termination signals in the reverse order
    of the list. *)
Lemma stage_5_shutdown_reverse_order o (w : world self) rs pids :
  uninterrupted o (clock w) ->
  processes_obey o (clock w) ->
  NoDup (map (id_of w) rs) ->
  Forall2 (registered w) rs pids ->
  exists w',
    stage_5_shutdown rs o w = (Ret tt, w') /\
    terminated w' = terminated w ++ rev pids /\
    processes (st w') = delete_all (map (id_of w) (rev rs)) (processes (st w)).
Proof.
  intros Hu Hobey Hnd Hreg.
  destruct (stop_each_obedient o sleep (rev rs) (sleep_harmless o) w Hu Hobey)
    as (w' & Hrun & Ht & Hp & _).
  unfold stage_5_shutdown. rewrite (bind_ret_run _ Hrun).
  unfold append_stage, modify. eexists. split; [reflexivity|].
  split; [|exact Hp].
  change (terminated (mkWorld (hist w') (with_stages
            (fun l => l ++ [mkStage "shutdown" (Z.of_nat (List.length rs)) None "success"])
            (st w')))) with (terminated w').
  rewrite Ht. f_equal. apply taken_out_registered.
  - rewrite map_rev. apply NoDup_rev. exact Hnd.
  - rewrite map_rev. apply Forall2_rev.
    clear - Hreg. unfold registered in Hreg.
    induction Hreg; simpl; constructor; auto.
Qed.

Lemma for_each_map A B (f : A -> B) (body : B -> Test unit) l o (w : world self) :
  for_each (map f l) body o w = for_each l (fun x => body (f x)) o w.
Proof.
  revert w. induction l as [|x l IH]; intros w; simpl; [reflexivity|].
  unfold bind. destruct (body (f x) o w) as [[[]|e|] w1]; auto.
Qed.

(** [cleanup]: the nodes of [self.nodes], each with its process
    registered, are sent their termination signals in the order of the
    dictionary, that is in the order in which they were created. *)
Lemma cleanup_creation_order o (w : world self) pids :
  uninterrupted o (clock w) ->
  processes_obey o (clock w) ->
  NoDup (map (id_of w) (map snd (nodes (st w)))) ->
  Forall2 (registered w) (map snd (nodes (st w))) pids ->
  exists w',
    cleanup o w = (Ret tt, w') /\
    terminated w' = terminated w ++ pids.
Proof.
  intros Hu Hobey Hnd Hreg.
  destruct (stop_each_obedient o (ret tt) (map snd (nodes (st w))) (ret_harmless o) w Hu Hobey)
    as (w' & Hrun & Ht & _ & _).
  rewrite for_each_map in Hrun.
  exists w'. split.
  - unfold cleanup, bind at 1, gets. cbn [fst snd]. exact Hrun.
  - rewrite Ht. f_equal. apply taken_out_registered; [exact Hnd|].
    clear - Hreg. unfold registered in Hreg. induction Hreg; simpl; constructor; auto.
Qed.

(** *** What each function leaves alone *)

Section Frame.
Context (R : world self -> world self -> Prop) `{!PreOrder R}.

(** [R] sees neither a request other than the start of a process nor
    the state of the script. *)
Hypothesis R_io :
  forall r w, is_popen r = None -> R w (mkWorld (r :: hist w) (st w)).
Hypothesis R_state : forall g w, R w (mkWorld (hist w) (g (st w))).

Lemma create_node_respects fuel index genesis malicious :
  respects R (create_node fuel index genesis malicious).
Proof.
  intros o w. unfold create_node.
  pose proof (R_io (ConnectEx (Ports.base_port index)) w eq_refl) as H1.
  destruct (Ports.create_node _ fuel index genesis malicious) as [node| |];
    cbn [snd]; try exact H1.
  etransitivity; [exact H1|].
  exact (R_state (fun s => with_nodes (dict_set (Ports.node_id node) (List.length (heap (st w))))
                             (with_heap (fun h => h ++ [node]) s))
                 (mkWorld (ConnectEx (Ports.base_port index) :: hist w) (st w))).
Qed.
Hint Resolve create_node_respects : frame.

Lemma deref_respects r : respects R (deref r).
Proof. unfold deref. frame. Qed.
Hint Resolve deref_respects : frame.

Lemma mutate_respects r f : respects R (mutate r f).
Proof. unfold mutate. frame. Qed.
Hint Resolve mutate_respects : frame.

Lemma cluster_wait_for_node_polls_respects polls port :
  respects R (wait_for_node_polls polls port).
Proof. induction polls; simpl; frame. Qed.
Hint Resolve cluster_wait_for_node_polls_respects : frame.

Lemma cluster_wait_for_node_respects r timeout : respects R (wait_for_node r timeout).
Proof. unfold wait_for_node. frame. Qed.
Hint Resolve cluster_wait_for_node_respects : frame.

Lemma cluster_stop_node_respects r : respects R (stop_node r).
Proof. unfold stop_node. frame. Qed.
Hint Resolve cluster_stop_node_respects : frame.

Lemma cluster_api_call_respects r endpoint : respects R (api_call r endpoint).
Proof. unfold api_call. frame. Qed.
Hint Resolve cluster_api_call_respects : frame.

Lemma cluster_get_neighbors_respects r : respects R (get_neighbors r).
Proof. unfold get_neighbors. frame. Qed.
Hint Resolve cluster_get_neighbors_respects : frame.

Lemma neighbors_len_respects neighbors : respects R (neighbors_len neighbors).
Proof. unfold neighbors_len. frame. Qed.
Hint Resolve neighbors_len_respects : frame.

Lemma cluster_monitor_loop_respects rs : forall info, respects R (monitor_loop rs info).
Proof. induction rs; cbn [monitor_loop]; frame. Qed.
Hint Resolve cluster_monitor_loop_respects : frame.

Lemma cluster_monitor_network_respects rs : respects R (monitor_network rs).
Proof. unfold monitor_network. frame. Qed.
Hint Resolve cluster_monitor_network_respects : frame.

Lemma cluster_print_network_status_respects rs : respects R (print_network_status rs).
Proof. unfold print_network_status. frame. Qed.
Hint Resolve cluster_print_network_status_respects : frame.

Lemma cluster_append_stage_respects e : respects R (append_stage e).
Proof. unfold append_stage. frame. Qed.
Hint Resolve cluster_append_stage_respects : frame.

Lemma record_stage_respects name rs enough : respects R (record_stage name rs enough).
Proof. unfold record_stage. frame. Qed.
Hint Resolve record_stage_respects : frame.

Lemma observe_rounds_respects rounds rs : respects R (observe_rounds rounds rs).
Proof. induction rounds; cbn [observe_rounds]; frame. Qed.
Hint Resolve observe_rounds_respects : frame.

Lemma stage_4_observe_network_respects rs : respects R (stage_4_observe_network rs).
Proof. unfold stage_4_observe_network. frame. Qed.
Hint Resolve stage_4_observe_network_respects : frame.

Lemma stage_5_shutdown_respects rs : respects R (stage_5_shutdown rs).
Proof. unfold stage_5_shutdown. frame. Qed.
Hint Resolve stage_5_shutdown_respects : frame.

Lemma cluster_generate_report_respects : respects R generate_report.
Proof. unfold generate_report. frame. Qed.
Hint Resolve cluster_generate_report_respects : frame.

Lemma cleanup_respects : respects R cleanup.
Proof. unfold cleanup. frame. Qed.
Hint Resolve cleanup_respects : frame.

(** What [start_node] does once it has asked for the process. *)
Lemma after_popen_respects r (p : Z * option json) node :
  respects R (modify (with_processes (dict_set (Ports.node_id node) (fst p))) ;;
              mutate r (set_pid (fst p)) ;;
              mutate r (set_status Ports.started) ;;
              sleep ;;
              ready <- wait_for_node r 10 ;;
              if ready : bool
              then mutate r (set_status Ports.running) ;; ret true
              else mutate r (set_status Ports.failed) ;; ret false).
Proof. frame. Qed.

(** The stages that start nodes, given that [R] does not see the start
    of a process either. *)
Hypothesis R_popen :
  forall name bootstrap w, R w (mkWorld (Popen name bootstrap :: hist w) (st w)).

Lemma cluster_start_node_respects r bootstrap_addr : respects R (start_node r bootstrap_addr).
Proof. unfold start_node. frame. Qed.
Hint Resolve cluster_start_node_respects : frame.

Lemma cluster_stage_1_genesis_respects fuel : respects R (stage_1_genesis fuel).
Proof. unfold stage_1_genesis. frame. Qed.
Hint Resolve cluster_stage_1_genesis_respects : frame.

Lemma expand_respects fuel indices bootstrap_addr : forall rs,
  respects R (expand fuel indices bootstrap_addr rs).
Proof. induction indices; cbn [expand]; frame. Qed.
Hint Resolve expand_respects : frame.

Lemma stage_2_expand_to_10_respects fuel g : respects R (stage_2_expand_to_10 fuel g).
Proof. unfold stage_2_expand_to_10. frame. Qed.
Hint Resolve stage_2_expand_to_10_respects : frame.

Lemma stage_3_expand_to_20_respects fuel rs : respects R (stage_3_expand_to_20 fuel rs).
Proof. unfold stage_3_expand_to_20. frame. Qed.
Hint Resolve stage_3_expand_to_20_respects : frame.

Lemma after_genesis_respects fuel (genesis_node : option nat) :
  respects R (try_except
                match genesis_node with
                | None => ret tt
                | Some g =>
                    rs <- stage_2_expand_to_10 fuel g ;;
                    rs <- stage_3_expand_to_20 fuel rs ;;
                    stage_4_observe_network rs ;;
                    stage_5_shutdown rs ;;
                    generate_report
                end
                (fun e => is_KeyboardInterrupt e || is_Exception e)
                (fun _ => cleanup ;; raise (SystemExit 1))).
Proof. frame. Qed.

End Frame.

(** *** Start order *)

Lemma spawned_io_other (r : request) (w : world self) :
  is_popen r = None -> same spawned w (mkWorld (r :: hist w) (st w)).
Proof. intros H. unfold same. apply spawned_other_request, H. Qed.

Lemma spawned_state (g : self -> self) (w : world self) :
  same spawned w (mkWorld (hist w) (g (st w))).
Proof. reflexivity. Qed.

Lemma grows_io (r : request) (w : world self) :
  grows spawned w (mkWorld (r :: hist w) (st w)).
Proof. eexists. apply spawned_cons. Qed.

Lemma grows_state (g : self -> self) (w : world self) :
  grows spawned w (mkWorld (hist w) (g (st w))).
Proof. exists []. symmetry. apply app_nil_r. Qed.

(** The descriptor that [create_node] returns carries the name made
    from its index, and creating it starts no process. *)
Lemma create_node_id fuel index genesis malicious o (w w1 : world self) r :
  create_node fuel index genesis malicious o w = (Ret r, w1) ->
  id_of w1 r = name_of index.
Proof.
  unfold create_node, Ports.create_node.
  destruct (Ports.find_available_port _ fuel (Ports.base_port index) 3) as [ports| |];
    try discriminate.
  destruct (nth_error ports 0); try discriminate.
  destruct (nth_error ports 1); try discriminate.
  destruct (nth_error ports 2); try discriminate.
  intros H. inversion H; subst. unfold id_of. cbn [st with_nodes with_heap heap].
  rewrite nth_middle. reflexivity.
Qed.

(** [start_node] asks for exactly one process, the one of the
    descriptor it is given, whatever becomes of it. *)
Lemma cluster_start_node_spawns r bootstrap_addr o (w : world self) :
  spawned (snd (start_node r bootstrap_addr o w)) = spawned w ++ [id_of w r].
Proof.
  unfold start_node, deref. rewrite try_except_gets. revert o w.
  intros o w. unfold id_of.
  generalize (nth r (heap (st w)) blank). intros node. revert o w.
  apply try_except_spawned.
  - intros e. unfold mutate. pose proof spawned_state. frame.
  - apply popen_then_quiet. intros p.
    apply after_popen_respects; [typeclasses eauto|apply spawned_io_other|apply spawned_state].
Qed.

(** Creating a node and starting it, followed by steps that start
    [names]: the node's own name comes first. *)
Lemma create_and_start_spawns A fuel index genesis malicious bootstrap_addr names
      (k : nat -> bool -> Test A) :
  (forall r ok, spawns names (k r ok)) ->
  spawns (name_of index :: names)
         (r <- create_node fuel index genesis malicious ;;
          ok <- start_node r bootstrap_addr ;;
          k r ok).
Proof.
  intros Hk o w.
  pose proof (create_node_respects (same spawned) spawned_io_other spawned_state
                fuel index genesis malicious o w) as Hc.
  unfold same in Hc.
  destruct (create_node fuel index genesis malicious o w) as [[r|e|] w1] eqn:Ec;
    cbn [fst snd] in Hc.
  - rewrite (bind_ret_run _ Ec).
    pose proof (cluster_start_node_spawns r bootstrap_addr o w1) as Hs.
    rewrite (create_node_id _ _ _ _ _ _ _ _ Ec), Hc in Hs.
    destruct (start_node r bootstrap_addr o w1) as [[ok|e|] w2] eqn:Est; cbn [fst snd] in Hs.
    + rewrite (bind_ret_run _ Est).
      destruct (Hk r ok o w2) as (started & Hst & [rest Hpart] & Hret).
      exists (name_of index :: started). split; [|split].
      * rewrite Hst, Hs, <- app_assoc. reflexivity.
      * exists rest. rewrite Hpart at 1. reflexivity.
      * intros a Ha. rewrite (Hret a Ha). reflexivity.
    + rewrite (bind_raise_run _ Est).
      exists [name_of index]. split; [exact Hs|]. split; [now exists names|discriminate].
    + rewrite (bind_hang_run _ Est).
      exists [name_of index]. split; [exact Hs|]. split; [now exists names|discriminate].
  - rewrite (bind_raise_run _ Ec).
    exists []. rewrite app_nil_r. split; [exact Hc|]. split; [apply initial_part_nil|discriminate].
  - rewrite (bind_hang_run _ Ec).
    exists []. rewrite app_nil_r. split; [exact Hc|]. split; [apply initial_part_nil|discriminate].
Qed.

(** The loop of the two expansion stages starts the nodes of its
    indices in their order. *)
Lemma expand_spawns fuel indices bootstrap_addr : forall rs,
  spawns (map name_of indices) (expand fuel indices bootstrap_addr rs).
Proof.
  induction indices as [|i indices IH]; intros rs; cbn [expand map].
  - apply spawns_nothing. frame.
  - apply create_and_start_spawns. intros r ok. destruct ok; [|apply IH].
    apply (spawns_bind _ _ [] (map name_of indices)); [|intros _; apply IH].
    apply spawns_nothing, respects_sleep. intros w. apply spawned_io_other. reflexivity.
Qed.

(** The genesis stage starts the node of index 0 and no other. *)
Lemma cluster_stage_1_genesis_spawns fuel : spawns [name_of 0] (stage_1_genesis fuel).
Proof.
  unfold stage_1_genesis. apply create_and_start_spawns.
  intros r ok. apply spawns_nothing.
  pose proof spawned_state. pose proof spawned_io_other.
  assert (forall rs, respects (same spawned) (print_network_status rs))
    by (intros; apply cluster_print_network_status_respects;
        first [typeclasses eauto|apply spawned_io_other|apply spawned_state]).
  destruct ok; unfold append_stage; frame.
Qed.

(** A run of the staged test starts the genesis node before any other
    node. *)
Lemma cluster_run_test_genesis_first fuel o (w : world self) :
  exists started,
    spawned (snd (run_test fuel o w)) = spawned w ++ started /\
    (started = [] \/ exists others, started = name_of 0 :: others).
Proof.
  destruct (cluster_stage_1_genesis_spawns fuel o w) as (s1 & Hs1 & [rest Hpart] & Hret).
  unfold run_test, run_test_body.
  assert (Hsplit : forall (k : option nat -> Test unit) c h,
            try_except (bind (stage_1_genesis fuel) k) c h o w =
            match stage_1_genesis fuel o w with
            | (Ret g, w1) => try_except (k g) c h o w1
            | (Raise e, w1) => if c e then h e o w1 else (Raise e, w1)
            | (Hang, w1) => (Hang, w1)
            end).
  { intros k c h. unfold try_except at 1, bind at 1.
    destruct (stage_1_genesis fuel o w) as [[g|e|] w1]; reflexivity. }
  rewrite Hsplit. clear Hsplit.
  assert (Hclean : forall w1,
            spawned (snd ((cleanup ;; raise (SystemExit 1)) o w1 : res unit * world self))
            = spawned w1).
  { intros w1.
    assert (H : respects (same spawned) (cleanup ;; @raise self unit (SystemExit 1))).
    { pose proof (cleanup_respects (same spawned) spawned_io_other spawned_state). frame. }
    apply (H o w1). }
  assert (Hs1' : s1 = [] \/ exists others, s1 = name_of 0 :: others).
  { destruct s1 as [|x s1]; [now left|right]. exists s1.
    simpl in Hpart. inversion Hpart. reflexivity. }
  destruct (stage_1_genesis fuel o w) as [[g|e|] w1]; cbn [fst snd] in *.
  - specialize (Hret g eq_refl). subst s1.
    destruct (after_genesis_respects (grows spawned) (fun r w _ => grows_io r w) grows_state
                (fun n b w => grows_io _ w) fuel g o w1) as [l Hl].
    exists (name_of 0 :: l). split; [|right; now exists l].
    rewrite Hl, Hs1. rewrite <- app_assoc. reflexivity.
  - exists s1. split; [|exact Hs1'].
    destruct (is_KeyboardInterrupt e || is_Exception e); [|exact Hs1].
    rewrite (Hclean w1). exact Hs1.
  - exists s1. split; [exact Hs1|exact Hs1'].
Qed.

End MaliciousNodeTestFacts.

(** ** Requests that fail in transport *)

Module TransportFailureFacts.
Import Py PyFacts.

(** C6 (amended). A request that fails in transport is tallied once, and
    where depends on the script.  In [attack_2_malformed_data] of the
    demo a request that times out is added to [blocked_attempts] and to
    nothing else (it is not among [payloads_tested], has no detail entry,
    and the result has no tally of errors), and a request that fails in
    any other way changes no counter at all.  In [attack_spam_flooding]
    of the local test the three counters of the event are the tally of
    the codes of the 20 posts, and a post that is refused or times out
    has code 0, which adds to [error_count] and to neither of the other
    two counters. *)
Theorem transport_failures_are_tallied_once
        (net : string -> string -> AttackDemo.http_outcome)
        o (w : world HeteroLocal.self) node_name config :
  dict_get node_name HeteroLocal.NODES_CONFIG = Some config ->
  uninterrupted o (clock w) ->
  (exists tested blocked_n accepted details,
     AttackDemo.attack_2_malformed_data net
       = AttackDemo.Injection tested blocked_n accepted details /\
     tested = AttackDemo.count AttackDemo.is_response (AttackDemo.outcomes net) /\
     blocked_n = AttackDemo.count AttackDemo.is_blocked_response (AttackDemo.outcomes net)
                 + AttackDemo.count AttackDemo.is_timeout (AttackDemo.outcomes net) /\
     accepted = AttackDemo.count AttackDemo.is_accepted_response (AttackDemo.outcomes net) /\
     Z.of_nat (List.length details)
       = AttackDemo.count AttackDemo.is_response (AttackDemo.outcomes net)) /\
  (exists w' ev,
     HeteroLocal.attack_spam_flooding node_name o w = (Ret tt, w') /\
     HeteroLocal.attack_events (st w') = HeteroLocal.attack_events (st w) ++ [ev] /\
     HeteroLocal.result ev
       = HeteroLocal.SpamResult
           (HeteroLocal.tally
              (HeteroLocal.flood_codes o (clock w) (HeteroLocal.http_port config) 20)
              (HeteroLocal.mkSpam 0 0 0))) /\
  (forall x c, transport_failure x = true ->
     HeteroLocal.code_of x = 0 /\
     HeteroLocal.count_code (HeteroLocal.code_of x) c
       = HeteroLocal.mkSpam (HeteroLocal.success_count c) (HeteroLocal.blocked_count c)
                            (HeteroLocal.error_count c + 1)).
Proof.
  intros Hc Hu. split; [apply AttackDemoFacts.attack_2_counts|]. split.
  - destruct (HeteroLocalFacts.spam_loop_counts o node_name config (seq 0 20)
                (HeteroLocal.mkSpam 0 0 0) w Hc Hu) as (w1 & Hrun & Hst).
    unfold HeteroLocal.attack_spam_flooding. rewrite (bind_ret_run _ Hrun).
    unfold bind, now, HeteroLocal.append_event, modify. cbn [fst snd st hist].
    do 2 eexists. split; [reflexivity|]. cbn [st HeteroLocal.attack_events HeteroLocal.result].
    rewrite Hst. split; reflexivity.
  - intros x c Hx. destruct x; try discriminate; split; reflexivity.
Qed.

Lemma transport_failures_are_tallied_once_witness :
  (exists tested blocked_n accepted details,
     AttackDemo.attack_2_malformed_data (fun _ _ => AttackDemo.TimeoutExc)
       = AttackDemo.Injection tested blocked_n accepted details /\
     tested = AttackDemo.count AttackDemo.is_response
                (AttackDemo.outcomes (fun _ _ => AttackDemo.TimeoutExc)) /\
     blocked_n = AttackDemo.count AttackDemo.is_blocked_response
                   (AttackDemo.outcomes (fun _ _ => AttackDemo.TimeoutExc))
                 + AttackDemo.count AttackDemo.is_timeout
                     (AttackDemo.outcomes (fun _ _ => AttackDemo.TimeoutExc)) /\
     accepted = AttackDemo.count AttackDemo.is_accepted_response
                  (AttackDemo.outcomes (fun _ _ => AttackDemo.TimeoutExc)) /\
     Z.of_nat (List.length details)
       = AttackDemo.count AttackDemo.is_response
           (AttackDemo.outcomes (fun _ _ => AttackDemo.TimeoutExc))) /\
  (exists w' ev,
     HeteroLocal.attack_spam_flooding "malicious1"
       (Samples.unreachable_port 18403 Samples.friendly) Samples.local_up = (Ret tt, w') /\
     HeteroLocal.attack_events (st w') = HeteroLocal.attack_events (st Samples.local_up) ++ [ev] /\
     HeteroLocal.result ev
       = HeteroLocal.SpamResult
           (HeteroLocal.tally
              (HeteroLocal.flood_codes (Samples.unreachable_port 18403 Samples.friendly)
                 (clock Samples.local_up) 18403 20)
              (HeteroLocal.mkSpam 0 0 0))) /\
  (forall x c, transport_failure x = true ->
     HeteroLocal.code_of x = 0 /\
     HeteroLocal.count_code (HeteroLocal.code_of x) c
       = HeteroLocal.mkSpam (HeteroLocal.success_count c) (HeteroLocal.blocked_count c)
                            (HeteroLocal.error_count c + 1)).
Proof.
  apply (transport_failures_are_tallied_once (fun _ _ => AttackDemo.TimeoutExc)
           (Samples.unreachable_port 18403 Samples.friendly) Samples.local_up "malicious1"
           (HeteroLocal.mkCfg 9103 18403 18503 50103 true false "normal")).
  - reflexivity.
  - intros t r _. unfold Samples.unreachable_port, Samples.friendly.
    destruct r; try discriminate. destruct (_ =? _); discriminate.
Defined.

(** C6 as stated fails in both scripts.  In the demo, when every request
    is refused, 15 calls have errored and none is counted as blocked (nor
    anywhere else); when every request times out, all 15 are counted as
    blocked and the result holds no tally that tells them from
    rejections.  In the local test, a flood against a node that cannot be
    reached records 20 errors and no blocked request, and the event
    carries the code 200. *)
Lemma transport_errors_not_counted_as_blocked :
  AttackDemo.attack_2_malformed_data (fun _ _ => AttackDemo.OtherExc)
    = AttackDemo.Injection 0 0 0 [] /\
  AttackDemo.count AttackDemo.is_other_exc (AttackDemo.outcomes (fun _ _ => AttackDemo.OtherExc))
    = 15 /\
  AttackDemo.attack_2_malformed_data (fun _ _ => AttackDemo.TimeoutExc)
    = AttackDemo.Injection 0 15 0 [] /\
  (exists w' t,
     HeteroLocal.attack_spam_flooding "malicious1"
       (Samples.unreachable_port 18403 Samples.friendly) Samples.local_up = (Ret tt, w') /\
     HeteroLocal.attack_events (st w')
       = [HeteroLocal.mkEvent t "malicious1" "spam_flooding"
            (HeteroLocal.SpamResult (HeteroLocal.mkSpam 0 0 20)) 200]).
Proof.
  split; [reflexivity|]. split; [reflexivity|]. split; [reflexivity|].
  do 2 eexists. split; vm_compute; reflexivity.
Qed.

End TransportFailureFacts.

(** ** Start and stop order across the scripts *)

Module OrderFacts.
Import Py PyFacts.

Lemma friendly_uninterrupted t : uninterrupted Samples.friendly t.
Proof. intros u r _. destruct r; discriminate. Qed.

Lemma friendly_processes_obey t : processes_obey Samples.friendly t.
Proof. intros u pid _. repeat split. Qed.




(** The cleanup of the staged cluster test after Ctrl-C during its
    observation stage: the four nodes are signalled in the order in which
    they were created. *)
Example cleanup_after_interrupt :
  fst (MaliciousNodeTest.run_test_body 100 (Samples.interrupt_at 50 Samples.friendly)
         (Samples.cluster0 3 4)) = Raise KeyboardInterrupt /\
  MaliciousNodeTest.processes (st Samples.cluster_interrupted)
    = [("node00", 1001); ("node01", 1007); ("node02", 1012); ("node03", 1024)] /\
  terminated Samples.cluster_interrupted = [] /\
  fst (MaliciousNodeTest.run_test 100 (Samples.interrupt_at 50 Samples.friendly)
         (Samples.cluster0 3 4)) = Raise (SystemExit 1) /\
  terminated (snd (MaliciousNodeTest.run_test 100 (Samples.interrupt_at 50 Samples.friendly)
                     (Samples.cluster0 3 4)))
    = [1001; 1007; 1012; 1024].
Proof. repeat split; vm_compute; reflexivity. Qed.

End OrderFacts.

(** ** Computations that come back *)

Module ReturnFacts.
Import Py.
Local Open Scope py_scope.

Lemma uninterrupted_from o t t' : uninterrupted o t -> (t <= t')%nat -> uninterrupted o t'.
Proof. intros H Hle u r Hu. apply H. lia. Qed.

Section Rules.
Context {St : Type}.

Lemma returns_comes_back A (m : M St A) : returns m -> comes_back m.
Proof.
  intros H o w Hu. destruct (H o w Hu) as (a & w' & E & Hc).
  exists (Ret a), w'. auto.
Qed.

Lemma returns_ret A (a : A) : returns (@ret St A a).
Proof. intros o w _. exists a, w. split; [reflexivity|lia]. Qed.

Lemma returns_gets A (f : St -> A) : returns (gets f).
Proof. intros o w _. exists (f (st w)), w. split; [reflexivity|lia]. Qed.

Lemma returns_now : returns (@now St).
Proof. intros o w _. exists (clock w), w. split; [reflexivity|lia]. Qed.

Lemma returns_modify (g : St -> St) : returns (modify g).
Proof. intros o w _. eexists. eexists. split; [reflexivity|]. unfold clock. simpl. lia. Qed.

Lemma returns_sleep : returns (@sleep St).
Proof.
  intros o w Hu. exists tt, (mkWorld (Sleep :: hist w) (st w)). split.
  - unfold sleep. specialize (Hu (clock w) Sleep (le_n _)).
    destruct (o (clock w) Sleep); congruence.
  - unfold clock. simpl. lia.
Qed.

Lemma returns_sleep_until_deadline : returns (@sleep_until_deadline St).
Proof.
  intros o w Hu. specialize (Hu (clock w) Sleep (le_n _)). unfold sleep_until_deadline.
  destruct (o (clock w) Sleep); try congruence;
    eexists; eexists; (split; [reflexivity|]); unfold clock; simpl; lia.
Qed.

Lemma comes_back_raise A kind : comes_back (@raise St A (Exception kind)).
Proof. intros o w _. exists (Raise (Exception kind)), w. split; [reflexivity|]. split; [lia|reflexivity]. Qed.

Lemma comes_back_io r : comes_back (@io St r).
Proof.
  intros o w Hu. specialize (Hu (clock w) r (le_n _)). unfold io.
  destruct (o (clock w) r); try congruence;
    eexists; eexists; (split; [reflexivity|]); (split; [unfold clock; simpl; lia|]);
    solve [exact I | reflexivity].
Qed.

Lemma comes_back_bind A B (m : M St A) (k : A -> M St B) :
  comes_back m -> (forall a, comes_back (k a)) -> comes_back (bind m k).
Proof.
  intros Hm Hk o w Hu. destruct (Hm o w Hu) as (r & w1 & E & Hc & Hr).
  unfold bind. rewrite E. destruct r as [a|e|]; [|eauto|contradiction].
  destruct (Hk a o w1 (uninterrupted_from _ _ _ Hu Hc)) as (r2 & w2 & E2 & Hc2 & Hr2).
  exists r2, w2. split; [exact E2|]. split; [lia|exact Hr2].
Qed.

Lemma returns_bind A B (m : M St A) (k : A -> M St B) :
  returns m -> (forall a, returns (k a)) -> returns (bind m k).
Proof.
  intros Hm Hk o w Hu. destruct (Hm o w Hu) as (a & w1 & E & Hc).
  unfold bind. rewrite E.
  destruct (Hk a o w1 (uninterrupted_from _ _ _ Hu Hc)) as (b & w2 & E2 & Hc2).
  exists b, w2. split; [exact E2|lia].
Qed.

(** A handler for every [Exception] (or for everything) turns a
    computation that comes back into one that returns. *)
Lemma returns_try_except A (m : M St A) catches handler :
  (forall e, is_Exception e = true -> catches e = true) ->
  comes_back m -> (forall e, returns (handler e)) ->
  returns (try_except m catches handler).
Proof.
  intros Hcatch Hm Hh o w Hu. destruct (Hm o w Hu) as (r & w1 & E & Hc & Hr).
  unfold try_except. rewrite E. destruct r as [a|e|]; [eauto| |contradiction].
  rewrite (Hcatch e Hr).
  destruct (Hh e o w1 (uninterrupted_from _ _ _ Hu Hc)) as (b & w2 & E2 & Hc2).
  exists b, w2. split; [exact E2|lia].
Qed.

Lemma comes_back_try_except A (m : M St A) catches handler :
  comes_back m -> (forall e, comes_back (handler e)) ->
  comes_back (try_except m catches handler).
Proof.
  intros Hm Hh o w Hu. destruct (Hm o w Hu) as (r & w1 & E & Hc & Hr).
  unfold try_except. rewrite E. destruct r as [a|e|]; [eauto| |contradiction].
  destruct (catches e); [|eauto].
  destruct (Hh e o w1 (uninterrupted_from _ _ _ Hu Hc)) as (r2 & w2 & E2 & Hc2 & Hr2).
  exists r2, w2. split; [exact E2|]. split; [lia|exact Hr2].
Qed.

Lemma returns_try_finally A (m : M St A) f :
  returns m -> returns f -> returns (try_finally m f).
Proof.
  intros Hm Hf o w Hu. destruct (Hm o w Hu) as (a & w1 & E & Hc).
  destruct (Hf o w1 (uninterrupted_from _ _ _ Hu Hc)) as ([] & w2 & E2 & Hc2).
  unfold try_finally. rewrite E, E2. exists a, w2. split; [reflexivity|lia].
Qed.

Lemma returns_for_each A (l : list A) (body : A -> M St unit) :
  (forall x, returns (body x)) -> returns (for_each l body).
Proof.
  intros Hb. induction l as [|x l IH]; simpl.
  - apply returns_ret.
  - apply returns_bind; auto.
Qed.

Lemma comes_back_for_each A (l : list A) (body : A -> M St unit) :
  (forall x, comes_back (body x)) -> comes_back (for_each l body).
Proof.
  intros Hb. induction l as [|x l IH]; simpl.
  - apply returns_comes_back, returns_ret.
  - apply comes_back_bind; auto.
Qed.

(** *** What a computation that returns does to the state *)

Lemma does_returns A (m : M St A) P : does m P -> returns m.
Proof.
  intros H o w Hu. destruct (H o w Hu) as (a & w' & E & Hc & _). eauto.
Qed.

Lemma does_weaken A (m : M St A) (P Q : St -> A -> St -> Prop) :
  does m P -> (forall s a s', P s a s' -> Q s a s') -> does m Q.
Proof.
  intros H HPQ o w Hu. destruct (H o w Hu) as (a & w' & E & Hc & HP). eauto 6.
Qed.

Lemma does_both A (m : M St A) (P Q : St -> A -> St -> Prop) :
  does m P -> does m Q -> does m (fun s a s' => P s a s' /\ Q s a s').
Proof.
  intros HP HQ o w Hu. destruct (HP o w Hu) as (a & w' & E & Hc & Hp).
  destruct (HQ o w Hu) as (a2 & w2 & E2 & _ & Hq).
  rewrite E in E2. inversion E2; subst. eauto 6.
Qed.

(** A computation that returns and leaves an observation of the state
    alone. *)
Lemma does_same A X (m : M St A) (f : St -> X) :
  returns m -> respects (same (fun w => f (st w))) m ->
  does m (fun s _ s' => f s' = f s).
Proof.
  intros Hr Hs o w Hu. destruct (Hr o w Hu) as (a & w' & E & Hc).
  exists a, w'. split; [exact E|]. split; [exact Hc|].
  specialize (Hs o w). rewrite E in Hs. exact Hs.
Qed.

Lemma does_ret A (a : A) : does (@ret St A a) (fun s b s' => b = a /\ s' = s).
Proof. intros o w _. exists a, w. split; [reflexivity|]. split; [lia|auto]. Qed.

Lemma does_modify (g : St -> St) : does (modify g) (fun s _ s' => s' = g s).
Proof.
  intros o w _. eexists. eexists. split; [reflexivity|].
  split; [unfold clock; simpl; lia|reflexivity].
Qed.

Lemma does_bind A B (m : M St A) (k : A -> M St B) P Q :
  does m P -> (forall a, does (k a) (Q a)) ->
  does (bind m k) (fun s b s'' => exists a s', P s a s' /\ Q a s' b s'').
Proof.
  intros Hm Hk o w Hu. destruct (Hm o w Hu) as (a & w1 & E & Hc & HP).
  unfold bind. rewrite E.
  destruct (Hk a o w1 (uninterrupted_from _ _ _ Hu Hc)) as (b & w2 & E2 & Hc2 & HQ).
  exists b, w2. split; [exact E2|]. split; [lia|eauto].
Qed.

Lemma does_now : does (@now St) (fun s _ s' => s' = s).
Proof. intros o w _. exists (clock w), w. split; [reflexivity|]. split; [lia|reflexivity]. Qed.

Lemma does_gets A (f : St -> A) : does (gets f) (fun s a s' => a = f s /\ s' = s).
Proof. intros o w _. exists (f (st w)), w. split; [reflexivity|]. split; [lia|auto]. Qed.

Lemma does_same_state A (m : M St A) :
  returns m -> respects (same (fun w => st w)) m -> does m (fun s _ s' => s' = s).
Proof. intros Hr Hs. exact (does_same A St m (fun s => s) Hr Hs). Qed.

Lemma does_try_except A (m : M St A) catches handler P :
  does m P -> does (try_except m catches handler) P.
Proof.
  intros H o w Hu. destruct (H o w Hu) as (a & w' & E & Hc & HP).
  unfold try_except. rewrite E. eauto.
Qed.

Lemma does_sleep : does (@sleep St) (fun s _ s' => s' = s).
Proof.
  intros o w Hu. exists tt, (mkWorld (Sleep :: hist w) (st w)). split.
  - unfold sleep. specialize (Hu (clock w) Sleep (le_n _)).
    destruct (o (clock w) Sleep); congruence.
  - split; [unfold clock; simpl; lia|reflexivity].
Qed.

End Rules.

(** *** The exceptions a computation can raise *)

Section Raises.
Context {St : Type} (allowed : exn -> bool).

Lemma raises_only_ret A (a : A) : raises_only allowed (@ret St A a).
Proof. intros o w. exact I. Qed.

Lemma raises_only_gets A (f : St -> A) : raises_only allowed (gets f).
Proof. intros o w. exact I. Qed.

Lemma raises_only_now : raises_only allowed (@now St).
Proof. intros o w. exact I. Qed.

Lemma raises_only_modify (g : St -> St) : raises_only allowed (modify g).
Proof. intros o w. exact I. Qed.

Lemma raises_only_hang A : raises_only allowed (@hang St A).
Proof. intros o w. exact I. Qed.

Lemma raises_only_raise A e : allowed e = true -> raises_only allowed (@raise St A e).
Proof. intros H o w. exact H. Qed.

Lemma raises_only_io r :
  allowed KeyboardInterrupt = true -> (forall kind, allowed (Exception kind) = true) ->
  raises_only allowed (@io St r).
Proof.
  intros Hki Hex o w. unfold io. destruct (o (clock w) r); cbn [fst]; auto.
Qed.

Lemma raises_only_sleep :
  allowed KeyboardInterrupt = true -> raises_only allowed (@sleep St).
Proof.
  intros Hki o w. unfold sleep. destruct (o (clock w) Sleep); cbn [fst]; auto.
Qed.

Lemma raises_only_sleep_until_deadline :
  allowed KeyboardInterrupt = true -> raises_only allowed (@sleep_until_deadline St).
Proof.
  intros Hki o w. unfold sleep_until_deadline. destruct (o (clock w) Sleep); cbn [fst]; auto.
Qed.

Lemma raises_only_bind A B (m : M St A) (k : A -> M St B) :
  raises_only allowed m -> (forall a, raises_only allowed (k a)) ->
  raises_only allowed (bind m k).
Proof.
  intros Hm Hk o w. unfold bind. specialize (Hm o w).
  destruct (m o w) as [[a|e|] w1]; cbn [fst] in *; auto. apply Hk.
Qed.

Lemma raises_only_try_except A (inside : exn -> bool) (m : M St A) catches handler :
  raises_only inside m ->
  (forall e, inside e = true -> catches e = false -> allowed e = true) ->
  (forall e, raises_only allowed (handler e)) ->
  raises_only allowed (try_except m catches handler).
Proof.
  intros Hm Hc Hh o w. unfold try_except. specialize (Hm o w).
  destruct (m o w) as [[a|e|] w1]; cbn [fst] in *; auto.
  destruct (catches e) eqn:E; [apply Hh|]. cbn [fst]. auto.
Qed.

Lemma raises_only_for_each A (l : list A) (body : A -> M St unit) :
  (forall x, raises_only allowed (body x)) -> raises_only allowed (for_each l body).
Proof.
  intros Hb. induction l as [|x l IH]; cbn [for_each].
  - apply raises_only_ret.
  - apply raises_only_bind; auto.
Qed.

End Raises.

Create HintDb raises.

Ltac raises_step :=
  match goal with
  | |- forall _, _ => intro
  | |- raises_only _ _ => assumption
  | |- raises_only _ _ => solve [auto with raises nocore]
  | |- raises_only _ (ret _) => apply raises_only_ret
  | |- raises_only _ (gets _) => apply raises_only_gets
  | |- raises_only _ now => apply raises_only_now
  | |- raises_only _ (modify _) => apply raises_only_modify
  | |- raises_only _ hang => apply raises_only_hang
  | |- raises_only _ (raise _) => apply raises_only_raise; reflexivity
  | |- raises_only _ (io _) => apply raises_only_io; [reflexivity|intro; reflexivity]
  | |- raises_only _ sleep => apply raises_only_sleep; reflexivity
  | |- raises_only _ sleep_until_deadline =>
      apply raises_only_sleep_until_deadline; reflexivity
  | |- raises_only _ (bind _ _) => apply raises_only_bind
  | |- raises_only _ (try_except _ _ _) =>
      apply (raises_only_try_except _ _ interrupt_or_error);
      [ |intros [| |]; cbv; congruence| ]
  | |- raises_only _ (for_each _ _) => apply raises_only_for_each
  | |- raises_only _ (match ?x with _ => _ end) => destruct x
  end.

Ltac raises := repeat raises_step.

(** Follow the structure of a computation with the rules above. *)
Create HintDb returns.

Ltac back_step :=
  match goal with
  | |- forall _, _ => intro
  | |- returns _ => assumption
  | |- comes_back _ => assumption
  | |- returns _ => solve [auto with returns nocore]
  | |- comes_back _ => solve [auto with returns nocore]
  | |- returns (ret _) => apply returns_ret
  | |- returns (gets _) => apply returns_gets
  | |- returns now => apply returns_now
  | |- returns (modify _) => apply returns_modify
  | |- returns sleep => apply returns_sleep
  | |- returns sleep_until_deadline => apply returns_sleep_until_deadline
  | |- returns (bind _ _) => apply returns_bind
  | |- returns (try_except _ _ _) =>
      apply returns_try_except; [intros [| |]; cbv; congruence| |]
  | |- returns (try_finally _ _) => apply returns_try_finally
  | |- returns (for_each _ _) => apply returns_for_each
  | |- returns (match ?x with _ => _ end) => destruct x
  | |- comes_back (raise (Exception _)) => apply comes_back_raise
  | |- comes_back (io _) => apply comes_back_io
  | |- comes_back (bind _ _) => apply comes_back_bind
  | |- comes_back (try_except _ _ _) => apply comes_back_try_except
  | |- comes_back (for_each _ _) => apply comes_back_for_each
  | |- comes_back (match ?x with _ => _ end) => destruct x
  | |- comes_back _ => apply returns_comes_back
  end.

Ltac back := repeat back_step.

End ReturnFacts.

(** ** The local five-node test: what a run without Ctrl-C does *)

Module HeteroLocalRunFacts.
Import Py HeteroLocal PyFacts HeteroLocalFacts ReturnFacts.
Local Open Scope py_scope.

Lemma api_call_comes_back node_name endpoint method :
  comes_back (api_call node_name endpoint method).
Proof.
  unfold api_call, config_of.
  destruct (dict_get node_name NODES_CONFIG); back.
Qed.
#[local] Hint Resolve api_call_comes_back : returns.

Lemma api_call_known_returns node_name endpoint method :
  In node_name (keys NODES_CONFIG) -> returns (api_call node_name endpoint method).
Proof.
  intros H. destruct (known_node node_name H) as (config & Hc).
  unfold api_call, config_of. rewrite Hc. back.
Qed.
#[local] Hint Resolve api_call_known_returns : returns.

Lemma spam_loop_known_returns node_name rounds :
  In node_name (keys NODES_CONFIG) -> forall c, returns (spam_loop node_name rounds c).
Proof.
  intros H. induction rounds as [|i rounds IH]; intros c; cbn [spam_loop]; unfold post_bulletin; back.
Qed.

Lemma post_codes_known_returns node_name n pause :
  In node_name (keys NODES_CONFIG) -> returns (post_codes node_name n pause).
Proof.
  intros H. induction n as [|n IH]; cbn [post_codes]; unfold post_bulletin; back.
Qed.

Lemma flood_node_returns target n : forall count, returns (flood_node target n count).
Proof. induction n as [|n IH]; intros count; cbn [flood_node]; back. Qed.

Lemma flood_targets_returns targets : forall results, returns (flood_targets targets results).
Proof.
  induction targets as [|target rest IH]; intros results; cbn [flood_targets]; back.
  apply flood_node_returns.
Qed.

(** Every attack has the shape: a body that only talks to the network,
    then one event appended. *)
Lemma body_then_event_run A (body : Local A) (mk : A -> nat -> AttackEvent) o w :
  respects (same (fun w => st w)) body ->
  match (x <- body ;; t <- now ;; append_event (mk x t)) o w with
  | (Ret _, w') => exists x, events_added (st w) (st w') [mk x (clock w')]
  | (_, w') => st w' = st w
  end.
Proof.
  intros Hsame. specialize (Hsame o w). unfold same in Hsame. unfold bind.
  destruct (body o w) as [[x|e|] w1]; cbn [snd] in Hsame; [|exact Hsame|exact Hsame].
  unfold now, append_event, modify. cbn [st hist]. exists x.
  unfold events_added. rewrite Hsame. reflexivity.
Qed.

Lemma body_then_event_does A (body : Local A) (mk : A -> nat -> AttackEvent) :
  returns body -> respects (same (fun w => st w)) body ->
  does (x <- body ;; t <- now ;; append_event (mk x t))
       (fun s _ s' => exists x t, events_added s s' [mk x t]).
Proof.
  intros Hr Hsame o w Hu. destruct (Hr o w Hu) as (x & w1 & E & Hc).
  pose proof (body_then_event_run A body mk o w Hsame) as H.
  revert H. unfold bind. rewrite E. unfold now, append_event, modify. cbn [st hist].
  intros (x' & H). eexists. eexists. split; [reflexivity|].
  split; [exact Hc|]. eauto.
Qed.

Ltac state_untouched :=
  first [ apply spam_loop_respects | apply post_codes_respects
        | apply flood_targets_respects
        | apply respects_for_each; [typeclasses eauto|intros; frame] ];
  try typeclasses eauto; intros; try apply api_call_respects;
  try typeclasses eauto; intros; reflexivity.

(** X11.  Each of the six attacks records its event as its last step:
    a call that returns has appended exactly one event, carrying the
    attacking node's name, the attack's own type and the request count
    at that moment as timestamp, and has changed nothing else in the
    tester; a call that is cut short (by Ctrl-C, or by the KeyError of an
    unknown node name) leaves the tester exactly as it was. *)
Theorem attack_records_its_event_last :
  Forall2
    (fun (attack : string -> Local unit) (type : string) =>
       forall node_name o w,
         match attack node_name o w with
         | (Ret _, w') =>
             exists ev, events_added (st w) (st w') [ev] /\
                        node ev = node_name /\ attack_type ev = type /\
                        timestamp ev = clock w'
         | (_, w') => st w' = st w
         end)
    attack_list
    ["spam_flooding"; "false_information"; "protocol_abuse";
     "replay_attack"; "sybil_attempt"; "ddos_attempt"].
Proof.
  unfold attack_list.
  repeat apply Forall2_cons; try apply Forall2_nil; intros node_name o w.
  - pose proof (body_then_event_run _ (spam_loop node_name (seq 0 20) (mkSpam 0 0 0))
      (fun c t => mkEvent t node_name "spam_flooding" (SpamResult c)
                          (if blocked_count c >? 0 then 429 else 200)) o w) as H.
    unfold attack_spam_flooding.
    destruct (bind _ _ o w) as [[u|e|] w']; try (apply H; state_untouched).
    destruct H as (x & H); [state_untouched|]. eauto.
  - pose proof (body_then_event_run _ (post_codes node_name 4 true)
      (fun codes t => mkEvent t node_name "false_information" (FalseInfoResult codes) 0) o w) as H.
    unfold attack_false_information.
    destruct (bind _ _ o w) as [[u|e|] w']; try (apply H; state_untouched).
    destruct H as (x & H); [state_untouched|]. eauto.
  - pose proof (body_then_event_run _
      (for_each abuse_tests (fun t => api_call node_name (fst t) (snd t) ;; ret tt))
      (fun _ t => mkEvent t node_name "protocol_abuse"
                          (AbuseResult (Z.of_nat (List.length abuse_tests))) 0) o w) as H.
    unfold attack_protocol_abuse.
    destruct (bind _ _ o w) as [[u|e|] w']; try (apply H; state_untouched).
    destruct H as (x & H); [state_untouched|]. eauto.
  - pose proof (body_then_event_run _ (post_codes node_name 10 true)
      (fun codes t => mkEvent t node_name "replay_attack" (ReplayResult (count_200 codes)) 0)
      o w) as H.
    unfold attack_replay.
    destruct (bind _ _ o w) as [[u|e|] w']; try (apply H; state_untouched).
    destruct H as (x & H); [state_untouched|]. eauto.
  - pose proof (body_then_event_run _ (post_codes node_name 5 false)
      (fun codes t => mkEvent t node_name "sybil_attempt" (SybilResult (count_200 codes)) 0)
      o w) as H.
    unfold attack_sybil_attempt.
    destruct (bind _ _ o w) as [[u|e|] w']; try (apply H; state_untouched).
    destruct H as (x & H); [state_untouched|]. eauto.
  - pose proof (body_then_event_run _ (flood_targets ["genesis"; "node1"; "node2"] [])
      (fun results t => mkEvent t node_name "ddos_attempt" (DdosResult results) 0) o w) as H.
    unfold attack_ddos_attempt.
    destruct (bind _ _ o w) as [[u|e|] w']; try (apply H; state_untouched).
    destruct H as (x & H); [state_untouched|]. eauto.
Qed.


(** *** The attack stage *)

Lemma attacks_do :
  Forall2
    (fun (attack : string -> Local unit) (type : string) =>
       forall node_name, In node_name (keys NODES_CONFIG) ->
         does (attack node_name)
              (fun s _ s' => exists ev, events_added s s' [ev] /\
                 node ev = node_name /\ attack_type ev = type /\
                 counted_as_rate_limited ev = is_spam ev))
    attack_list
    ["spam_flooding"; "false_information"; "protocol_abuse";
     "replay_attack"; "sybil_attempt"; "ddos_attempt"].
Proof.
  unfold attack_list.
  repeat apply Forall2_cons; try apply Forall2_nil; intros node_name Hknown;
    (eapply does_weaken;
     [ apply body_then_event_does
     | intros s a s' (x & t & H); eexists; (split; [exact H|]); repeat split ]).
  - apply spam_loop_known_returns, Hknown.
  - state_untouched.
  - apply post_codes_known_returns, Hknown.
  - state_untouched.
  - back.
  - state_untouched.
  - apply post_codes_known_returns, Hknown.
  - state_untouched.
  - apply post_codes_known_returns, Hknown.
  - state_untouched.
  - apply flood_targets_returns.
  - state_untouched.
Qed.

Lemma attack_step_does (attack : Local unit) (P : self -> self -> Prop) :
  does attack (fun s _ s' => P s s') ->
  does (try_except (attack ;; sleep) is_Exception (fun _ => ret tt)) (fun s _ s' => P s s').
Proof.
  intros H. apply does_try_except.
  eapply does_weaken; [eapply does_bind; [exact H|intros; apply does_sleep]|].
  intros s a s' (a' & s1 & HP & ->). exact HP.
Qed.

Lemma events_added_app s s1 s2 l1 l2 :
  events_added s s1 l1 -> events_added s1 s2 l2 -> events_added s s2 (l1 ++ l2).
Proof.
  unfold events_added. intros -> ->.
  cbn [processes attack_events network_stats report files]. now rewrite app_assoc.
Qed.

Lemma events_added_nil s : events_added s s [].
Proof. unfold events_added. rewrite app_nil_r. destruct s; reflexivity. Qed.

Ltac open_up :=
  repeat match goal with
         | H : exists _, _ |- _ => destruct H
         | H : _ /\ _ |- _ => destruct H
         end.

Lemma attacks_of_node_do node_name :
  In node_name (keys NODES_CONFIG) ->
  does (for_each attack_list
          (fun attack_func =>
             try_except (attack_func node_name ;; sleep) is_Exception (fun _ => ret tt)))
       (fun s _ s' => exists evs, events_added s s' evs /\
          map (fun e => (node e, attack_type e)) evs =
          map (pair node_name)
              ["spam_flooding"; "false_information"; "protocol_abuse";
               "replay_attack"; "sybil_attempt"; "ddos_attempt"] /\
          Forall (fun e => counted_as_rate_limited e = is_spam e) evs).
Proof.
  intros Hknown. pose proof attacks_do as H. unfold attack_list in *.
  repeat match goal with
         | H : Forall2 _ (_ :: _) _ |- _ => inversion H; clear H; subst
         end.
  cbn [for_each].
  eapply does_weaken.
  { repeat (eapply does_bind;
            [apply attack_step_does;
             match goal with H : forall n, _ -> does (?f n) _ |- does (?f _) _ => apply (H _ Hknown) end
            |intro]).
    apply does_ret. }
  cbv beta. intros s a s' Hrun. open_up. subst.
  eexists. split; [|split].
  - repeat (eapply events_added_app; [eassumption|]). apply events_added_nil.
  - cbn [map app].
    repeat match goal with
           | H : node _ = _ |- _ => rewrite H; clear H
           | H : attack_type _ = _ |- _ => rewrite H; clear H
           end.
    reflexivity.
  - cbn [app]. repeat constructor; assumption.
Qed.

Lemma execute_malicious_attacks_does :
  does execute_malicious_attacks
       (fun s _ s' => exists evs, events_added s s' evs /\
          map (fun e => (node e, attack_type e)) evs =
          list_prod ["malicious1"; "malicious2"]
                    ["spam_flooding"; "false_information"; "protocol_abuse";
                     "replay_attack"; "sybil_attempt"; "ddos_attempt"] /\
          Forall (fun e => counted_as_rate_limited e = is_spam e) evs).
Proof.
  unfold execute_malicious_attacks. cbn [for_each].
  eapply does_weaken.
  { eapply does_bind; [apply (attacks_of_node_do "malicious1"); cbn; tauto|intro].
    eapply does_bind; [apply (attacks_of_node_do "malicious2"); cbn; tauto|intro].
    apply does_ret. }
  cbv beta. intros s a s' Hrun. open_up. subst.
  eexists. split; [|split].
  - repeat (eapply events_added_app; [eassumption|]). apply events_added_nil.
  - rewrite app_nil_r, map_app.
    repeat match goal with
           | H : map _ _ = _ |- _ => rewrite H; clear H
           end.
    reflexivity.
  - rewrite app_nil_r. apply Forall_app. split; assumption.
Qed.

(** X12.  The attack stage records twelve events.  In a run without
    Ctrl-C [execute_malicious_attacks] returns, having appended to
    [attack_events] one event per malicious node and attack, first the
    six of malicious1 and then the six of malicious2, each six in the
    order of the attack list, and having changed nothing else in the
    tester.  This holds whatever the nodes answer, also when no node is
    reachable.  (The thirty requests per target of the last attack are
    made one after the other here; the count of events does not depend
    on how the pool interleaves them.) *)
Theorem attack_stage_records_twelve_events o (w : world self) :
  uninterrupted o (clock w) ->
  exists evs w',
    execute_malicious_attacks o w = (Ret tt, w') /\
    events_added (st w) (st w') evs /\
    map (fun e => (node e, attack_type e)) evs =
    list_prod ["malicious1"; "malicious2"]
              ["spam_flooding"; "false_information"; "protocol_abuse";
               "replay_attack"; "sybil_attempt"; "ddos_attempt"].
Proof.
  intros Hu.
  destruct (execute_malicious_attacks_does o w Hu) as ([] & w' & Hrun & _ & evs & Hadd & Hmap & _).
  exists evs, w'. auto.
Qed.

Lemma attack_stage_records_twelve_events_witness :
  exists evs w',
    execute_malicious_attacks Samples.friendly Samples.local_up = (Ret tt, w') /\
    events_added (st Samples.local_up) (st w') evs /\
    map (fun e => (node e, attack_type e)) evs =
    list_prod ["malicious1"; "malicious2"]
              ["spam_flooding"; "false_information"; "protocol_abuse";
               "replay_attack"; "sybil_attempt"; "ddos_attempt"].
Proof.
  apply (attack_stage_records_twelve_events Samples.friendly Samples.local_up).
  intros t r _. unfold Samples.friendly. destruct r; discriminate.
Defined.

(** *** A complete run *)

Lemma get_neighbors_comes_back node_name : comes_back (get_neighbors node_name).
Proof. unfold get_neighbors. back. Qed.
#[local] Hint Resolve get_neighbors_comes_back : returns.

Lemma monitor_loop_always_returns items : forall healthy neighbors,
  returns (monitor_loop items healthy neighbors).
Proof.
  induction items as [|[node_name config] items IH]; intros healthy neighbors;
    cbn [monitor_loop]; unfold monitor_node; back.
Qed.

Lemma monitor_loop_state_untouched items healthy neighbors :
  respects (same (fun w => st w)) (monitor_loop items healthy neighbors).
Proof.
  apply monitor_loop_respects; try typeclasses eauto; intros; reflexivity.
Qed.

Lemma print_network_status_does :
  does print_network_status
       (fun s _ s' => exists x,
          s' = mkSelf (processes s) (attack_events s) (network_stats s ++ [x])
                      (report s) (files s)).
Proof.
  unfold print_network_status, monitor_network, monitor_nodes, append_stats. cbv zeta.
  eapply does_weaken.
  { eapply does_bind; [|intro; apply does_ret].
    eapply does_bind;
      [apply does_same_state;
       [apply monitor_loop_always_returns|apply monitor_loop_state_untouched]|intro].
    eapply does_bind; [apply does_now|intro].
    eapply does_bind; [apply does_modify|intro; apply does_ret]. }
  cbv beta. intros s a s' Hrun. open_up. subst. eauto.
Qed.

Lemma wait_for_node_polls_returns polls port : returns (wait_for_node_polls polls port).
Proof. induction polls as [|polls IH]; cbn [wait_for_node_polls]; back. Qed.
#[local] Hint Resolve wait_for_node_polls_returns : returns.

Lemma start_and_wait_returns node_name :
  In node_name (keys NODES_CONFIG) -> returns (start_and_wait node_name).
Proof.
  intros H. destruct (known_node node_name H) as (config & Hc).
  unfold start_and_wait, start_node, wait_for_node, config_of, set_processes. rewrite Hc. back.
Qed.

Lemma outside_processes_same s s' :
  outside_processes s' = outside_processes s ->
  s' = mkSelf (processes s') (attack_events s) (network_stats s) (report s) (files s).
Proof.
  unfold outside_processes. destruct s, s'. cbn. intros H. inversion H. reflexivity.
Qed.

Ltac outside_obligations :=
  try typeclasses eauto; intros;
  try (apply start_node_respects; try typeclasses eauto; intros);
  try (unfold set_processes; apply respects_modify; try typeclasses eauto; intros);
  reflexivity.

Lemma start_and_wait_does node_name :
  In node_name (keys NODES_CONFIG) ->
  does (start_and_wait node_name)
       (fun s _ s' => exists procs,
          s' = mkSelf procs (attack_events s) (network_stats s) (report s) (files s)).
Proof.
  intros H. eapply does_weaken.
  - apply (does_same _ _ (start_and_wait node_name) outside_processes).
    + apply start_and_wait_returns, H.
    + apply start_and_wait_respects; outside_obligations.
  - cbv beta. intros s a s' Hout. eexists. apply outside_processes_same, Hout.
Qed.

Lemma known_nodes :
  In "node1" (keys NODES_CONFIG) /\ In "node2" (keys NODES_CONFIG) /\
  In "malicious1" (keys NODES_CONFIG) /\ In "malicious2" (keys NODES_CONFIG).
Proof. cbn. tauto. Qed.

Lemma start_stage_does (n1 n2 stage : string) :
  In n1 (keys NODES_CONFIG) -> In n2 (keys NODES_CONFIG) ->
  does (for_each [n1; n2] start_and_wait ;; append_stage stage "success" ;; ret true)
       (fun s _ s' => exists procs,
          s' = mkSelf procs (attack_events s) (network_stats s)
                 (mkReport (start_time (report s)) (end_time (report s))
                           (stages (report s) ++ [(stage, "success")])
                           (attacks (report s)) (security_analysis (report s))
                           (performance_analysis (report s)))
                 (files s)).
Proof.
  intros H1 H2. unfold append_stage, set_report. cbn [for_each].
  eapply does_weaken.
  { eapply does_bind; [|intro].
    - eapply does_bind; [apply (start_and_wait_does n1 H1)|intro].
      eapply does_bind; [apply (start_and_wait_does n2 H2)|intro]. apply does_ret.
    - eapply does_bind; [apply does_modify|intro]. apply does_ret. }
  cbv beta. intros s a s' Hrun. open_up. subst.
  cbn [attack_events network_stats report files stages]. eauto.
Qed.

Lemma bring_up_remaining_does :
  does bring_up_remaining
       (fun s _ s' =>
          attack_events s' = attack_events s /\
          (exists x1 x2 x3, network_stats s' = network_stats s ++ [x1; x2; x3]) /\
          stages (report s') =
          stages (report s) ++ [("normal_nodes", "success"); ("malicious_nodes", "success")] /\
          files s' = files s).
Proof.
  destruct known_nodes as (K1 & K2 & K3 & K4).
  unfold bring_up_remaining.
  eapply does_weaken.
  { eapply does_bind; [apply does_sleep|intro].
    eapply does_bind; [apply print_network_status_does|intro].
    eapply does_bind; [apply (start_stage_does "node1" "node2" "normal_nodes" K1 K2)|intro].
    eapply does_bind; [apply does_sleep|intro].
    eapply does_bind; [apply print_network_status_does|intro].
    eapply does_bind;
      [apply (start_stage_does "malicious1" "malicious2" "malicious_nodes" K3 K4)|intro].
    eapply does_bind; [apply does_sleep|intro].
    apply print_network_status_does. }
  cbv beta. intros s a s' Hrun. open_up. subst.
  cbn [attack_events network_stats report files stages].
  split; [reflexivity|]. split; [|split; [|reflexivity]].
  - do 3 eexists. rewrite <- !app_assoc. reflexivity.
  - rewrite <- !app_assoc. reflexivity.
Qed.

(** The first stage, when it reports success. *)
Lemma genesis_stage_success o (w w1 : world self) :
  (set_start_time ;; stage_1_genesis) o w = (Ret true, w1) ->
  attack_events (st w1) = attack_events (st w) /\
  network_stats (st w1) = network_stats (st w) /\
  stages (report (st w1)) = stages (report (st w)) ++ [("genesis", "success")] /\
  files (st w1) = files (st w).
Proof.
  unfold bind at 1. unfold set_start_time, bind at 1, now, set_report, modify. cbn [st hist].
  set (w0 := mkWorld _ _). unfold stage_1_genesis, bind at 1.
  destruct (start_node "genesis" None o w0) as [[started_ok|e|] wa] eqn:Ea; try discriminate.
  assert (Ha : outside_processes (st wa) = outside_processes (st w0)).
  { apply (respects_run _ (same (fun w => outside_processes (st w))) _ _ _ _ _
             ltac:(apply start_node_respects; outside_obligations) Ea). }
  destruct started_ok; cbn [negb]; [|discriminate].
  unfold bind at 1.
  destruct (wait_for_node "genesis" 30 o wa) as [[ready|e|] wb] eqn:Eb; try discriminate.
  assert (Hb : st wb = st wa).
  { apply (respects_run _ (same (fun w => st w)) _ _ _ _ _
             ltac:(apply wait_for_node_respects; try typeclasses eauto; intros; reflexivity)
             Eb). }
  destruct ready; [|discriminate].
  unfold append_stage, set_report, modify, bind, ret. intros H. inversion H; subst. clear H.
  cbn [st attack_events network_stats report files stages]. rewrite Hb.
  unfold outside_processes in Ha. inversion Ha as [[He Hn Hr Hf]].
  rewrite He, Hn, Hr, Hf. unfold w0. cbn. auto.
Qed.

Lemma generate_report_run o (w : world self) :
  is_done (o (clock w) (WriteFile "hetero_network_test.json")) = true ->
  exists w',
    generate_report o w = (Ret "hetero_network_test.json", w') /\
    (clock w <= clock w')%nat /\
    files (st w') =
    files (st w) ++
    [("hetero_network_test.json",
      mkReport (start_time (report (st w))) (Some (clock w)) (stages (report (st w)))
               (attack_events (st w)) (Some (generate_security_analysis (st w)))
               (generate_performance_analysis (st w)))].
Proof.
  intros H. unfold generate_report, bind, now, gets, set_report, modify, io, add_file, ret.
  cbn [st hist fst snd report files clock List.length]. fold (clock w).
  destruct (o (clock w) _); try discriminate.
  eexists. split; [reflexivity|]. cbn [st hist files clock List.length]. fold (clock w).
  split; [lia|reflexivity].
Qed.

Lemma count_types_of_types events :
  count_types events =
  fold_left (fun d type => dict_set type (match dict_get type d with
                                           | Some n => n + 1
                                           | None => 1
                                           end) d)
            (map attack_type events) [].
Proof.
  unfold count_types. generalize (@nil (string * Z)).
  induction events as [|e events IH]; intros d; [reflexivity|].
  cbn [fold_left map]. apply IH.
Qed.

Lemma stop_node_returns node_name : returns (stop_node node_name).
Proof. unfold stop_node, set_processes. back. Qed.

Lemma stop_all_returns : returns stop_all.
Proof. unfold stop_all. back. apply stop_node_returns. Qed.

Lemma length_filter_by_type (p : string -> bool) events :
  List.length (filter (fun e => p (attack_type e)) events) =
  List.length (filter p (map attack_type events)).
Proof.
  induction events as [|e events IH]; [reflexivity|].
  cbn [filter map]. destruct (p (attack_type e)); cbn [List.length]; now rewrite IH.
Qed.

Lemma filter_counted_spam events :
  Forall (fun e => counted_as_rate_limited e = is_spam e) events ->
  filter counted_as_rate_limited (filter is_spam events) = filter is_spam events.
Proof.
  induction 1 as [|e events He _ IH]; [reflexivity|].
  cbn [filter]. destruct (is_spam e) eqn:E; [|exact IH].
  cbn [filter]. rewrite He. now rewrite IH.
Qed.

(** The analysis of the events of a complete attack stage. *)
Lemma security_analysis_of_attack_stage s :
  map (fun e => (node e, attack_type e)) (attack_events s) =
  list_prod ["malicious1"; "malicious2"]
            ["spam_flooding"; "false_information"; "protocol_abuse";
             "replay_attack"; "sybil_attempt"; "ddos_attempt"] ->
  Forall (fun e => counted_as_rate_limited e = is_spam e) (attack_events s) ->
  generate_security_analysis s =
  mkSecurity 12
             [("spam_flooding", 2); ("false_information", 2); ("protocol_abuse", 2);
              ("replay_attack", 2); ("sybil_attempt", 2); ("ddos_attempt", 2)]
             (Some (2, 2)).
Proof.
  intros Hmap Hcounted. unfold generate_security_analysis.
  assert (Htypes : map attack_type (attack_events s) =
                   map snd (list_prod ["malicious1"; "malicious2"]
                              ["spam_flooding"; "false_information"; "protocol_abuse";
                               "replay_attack"; "sybil_attempt"; "ddos_attempt"])).
  { rewrite <- Hmap, map_map. reflexivity. }
  assert (Hlen : List.length (attack_events s) = 12%nat).
  { rewrite <- (length_map attack_type), Htypes. reflexivity. }
  assert (Hspam : List.length (filter is_spam (attack_events s)) = 2%nat).
  { unfold is_spam.
    rewrite (length_filter_by_type (fun type => String.eqb type "spam_flooding")), Htypes.
    reflexivity. }
  rewrite (filter_counted_spam _ Hcounted), count_types_of_types, Htypes, Hlen.
  destruct (filter is_spam (attack_events s)) as [|e l] eqn:E; [discriminate|].
  rewrite Hspam. reflexivity.
Qed.

(** X14.  A complete run.  On a fresh tester, when the genesis stage
    succeeds, no Ctrl-C arrives afterwards and the report file can be
    written, [run_test] returns and has written exactly one report.  The
    report lists the three stages as successful (the two later ones
    whether or not their nodes came up), holds the twelve events of the
    attack stage, counts twelve attacks with two of each type, gives the
    rate limiting figure as 2 of 2 (a flood event always counts as
    limited) and averages over four network samples. *)
Theorem complete_run_writes_full_report o (w w1 : world self) :
  st w = init ->
  (set_start_time ;; stage_1_genesis) o w = (Ret true, w1) ->
  uninterrupted o (clock w1) ->
  (forall t, is_done (o t (WriteFile "hetero_network_test.json")) = true) ->
  exists w' r,
    run_test o w = (Ret tt, w') /\
    files_written w' = [("hetero_network_test.json", r)] /\
    stages r = [("genesis", "success"); ("normal_nodes", "success");
                ("malicious_nodes", "success")] /\
    map (fun e => (node e, attack_type e)) (attacks r) =
    list_prod ["malicious1"; "malicious2"]
              ["spam_flooding"; "false_information"; "protocol_abuse";
               "replay_attack"; "sybil_attempt"; "ddos_attempt"] /\
    security_analysis r =
    Some (mkSecurity 12
            [("spam_flooding", 2); ("false_information", 2); ("protocol_abuse", 2);
             ("replay_attack", 2); ("sybil_attempt", 2); ("ddos_attempt", 2)]
            (Some (2, 2))) /\
    exists p, performance_analysis r = Some p /\ pa_samples p = 4.
Proof.
  intros Hinit H1 Hu Hwrite.
  destruct (genesis_stage_success o w w1 H1) as (He1 & Hn1 & Hs1 & Hf1).
  rewrite Hinit in He1, Hn1, Hs1, Hf1. cbn in He1, Hn1, Hs1, Hf1.
  destruct (bring_up_remaining_does o w1 Hu)
    as ([] & w2 & H2 & Hc2 & He2 & (x1 & x2 & x3 & Hn2) & Hs2 & Hf2).
  assert (Hu2 := uninterrupted_from _ _ _ Hu Hc2).
  destruct (execute_malicious_attacks_does o w2 Hu2)
    as ([] & w3 & H3 & Hc3 & evs & Hadd & Hmap & Hcounted).
  assert (Hu3 := uninterrupted_from _ _ _ Hu2 Hc3).
  destruct (print_network_status_does o w3 Hu3) as ([] & w4 & H4 & Hc4 & x4 & Hst4).
  assert (Hu4 := uninterrupted_from _ _ _ Hu3 Hc4).
  destruct (generate_report_run o w4 (Hwrite _)) as (w5 & H5 & Hc5 & Hf5).
  assert (Hu5 := uninterrupted_from _ _ _ Hu4 Hc5).
  destruct (stop_all_returns o w5 Hu5) as ([] & w6 & H6 & _).
  destruct no_report_before_generate_report as (_ & _ & _ & _ & F4).
  assert (Hbody : run_test_body o w = (Ret tt, w5)).
  { rewrite run_test_body_split. rewrite (bind_ret_run _ H1). cbn [negb].
    rewrite (bind_ret_run _ H2), (bind_ret_run _ H3). unfold report_after_attacks.
    rewrite (bind_ret_run _ H4), (bind_ret_run _ H5). reflexivity. }
  assert (Hevents : attack_events (st w4) = evs).
  { rewrite Hst4. cbn [attack_events]. rewrite Hadd. cbn [attack_events].
    rewrite He2, He1. reflexivity. }
  assert (Hstats : network_stats (st w4) = [x1; x2; x3; x4]).
  { rewrite Hst4. cbn [network_stats]. rewrite Hadd. cbn [network_stats].
    rewrite Hn2, Hn1. reflexivity. }
  assert (Hstages : stages (report (st w4)) =
                    [("genesis", "success"); ("normal_nodes", "success");
                     ("malicious_nodes", "success")]).
  { rewrite Hst4. cbn [report]. rewrite Hadd. cbn [report]. rewrite Hs2, Hs1. reflexivity. }
  assert (Hfiles : files (st w4) = []).
  { rewrite Hst4. cbn [files]. rewrite Hadd. cbn [files]. rewrite Hf2, Hf1. reflexivity. }
  eexists w6, _. split; [|split].
  - unfold run_test, try_finally, try_except. rewrite Hbody, H6. reflexivity.
  - rewrite (respects_run _ _ _ _ _ _ _ F4 H6 : files_written w6 = files_written w5).
    unfold files_written. rewrite Hf5, Hfiles. reflexivity.
  - cbn [stages attacks security_analysis performance_analysis].
    split; [exact Hstages|]. split; [rewrite Hevents; exact Hmap|]. split.
    + f_equal. apply security_analysis_of_attack_stage; rewrite Hevents; assumption.
    + unfold generate_performance_analysis. rewrite Hstats. eexists. split; reflexivity.
Qed.

Lemma complete_run_writes_full_report_witness :
  exists w' r,
    run_test Samples.friendly Samples.local0 = (Ret tt, w') /\
    files_written w' = [("hetero_network_test.json", r)] /\
    stages r = [("genesis", "success"); ("normal_nodes", "success");
                ("malicious_nodes", "success")] /\
    map (fun e => (node e, attack_type e)) (attacks r) =
    list_prod ["malicious1"; "malicious2"]
              ["spam_flooding"; "false_information"; "protocol_abuse";
               "replay_attack"; "sybil_attempt"; "ddos_attempt"] /\
    security_analysis r =
    Some (mkSecurity 12
            [("spam_flooding", 2); ("false_information", 2); ("protocol_abuse", 2);
             ("replay_attack", 2); ("sybil_attempt", 2); ("ddos_attempt", 2)]
            (Some (2, 2))) /\
    exists p, performance_analysis r = Some p /\ pa_samples p = 4.
Proof.
  apply (complete_run_writes_full_report Samples.friendly Samples.local0
           (snd ((set_start_time ;; stage_1_genesis) Samples.friendly Samples.local0))).
  - reflexivity.
  - vm_compute. reflexivity.
  - intros t r _. unfold Samples.friendly. destruct r; discriminate.
  - intros t. reflexivity.
Defined.

(** *** The run comes back *)

Lemma stage_1_genesis_returns : returns stage_1_genesis.
Proof.
  unfold stage_1_genesis, start_node, wait_for_node, config_of, append_stage, set_report,
    set_processes.
  cbn [dict_get NODES_CONFIG String.eqb Ascii.eqb Bool.eqb]. back.
Qed.

Lemma generate_report_comes_back : comes_back generate_report.
Proof. unfold generate_report, set_report, add_file. back. Qed.

Lemma run_test_body_comes_back : comes_back run_test_body.
Proof.
  unfold run_test_body, set_start_time, set_report, report_after_attacks.
  pose proof stage_1_genesis_returns. pose proof stop_all_returns.
  pose proof (does_returns _ _ _ bring_up_remaining_does).
  pose proof (does_returns _ _ _ execute_malicious_attacks_does).
  pose proof (does_returns _ _ _ print_network_status_does).
  pose proof generate_report_comes_back.
  back.
Qed.

(** X15.  [run_test] lets no failure escape.  Whatever the nodes and
    the file system do (a node that does not start, requests that fail,
    a report that cannot be written), a run in which no Ctrl-C arrives
    returns normally, its [finally] clause having run [stop_all]. *)
Theorem run_test_returns_without_ctrl_c o (w : world self) :
  uninterrupted o (clock w) ->
  exists w1 w',
    try_except run_test_body (fun e => is_KeyboardInterrupt e || is_Exception e)
               (fun _ => ret tt) o w = (Ret tt, w1) /\
    stop_all o w1 = (Ret tt, w') /\
    run_test o w = (Ret tt, w').
Proof.
  intros Hu.
  assert (Hbody : returns (try_except run_test_body
                             (fun e => is_KeyboardInterrupt e || is_Exception e)
                             (fun _ => ret tt))).
  { apply returns_try_except.
    - intros e He. rewrite He. apply orb_true_r.
    - apply run_test_body_comes_back.
    - intros e. apply returns_ret. }
  destruct (Hbody o w Hu) as ([] & w1 & H1 & Hc1).
  destruct (stop_all_returns o w1 (uninterrupted_from _ _ _ Hu Hc1)) as ([] & w' & H2 & _).
  exists w1, w'. split; [exact H1|]. split; [exact H2|].
  unfold run_test, try_finally. rewrite H1, H2. reflexivity.
Qed.

Lemma run_test_returns_without_ctrl_c_witness :
  exists w1 w',
    try_except run_test_body (fun e => is_KeyboardInterrupt e || is_Exception e)
               (fun _ => ret tt)
               (Samples.unreachable_port 18400 Samples.friendly) Samples.local0 = (Ret tt, w1) /\
    stop_all (Samples.unreachable_port 18400 Samples.friendly) w1 = (Ret tt, w') /\
    run_test (Samples.unreachable_port 18400 Samples.friendly) Samples.local0 = (Ret tt, w').
Proof.
  apply (run_test_returns_without_ctrl_c
           (Samples.unreachable_port 18400 Samples.friendly) Samples.local0).
  intros t r _. unfold Samples.unreachable_port, Samples.friendly.
  destruct r; try discriminate. destruct (port =? 18400); discriminate.
Defined.

(** *** Teardown when stopping a node can fail *)

Lemma stop_node_best_effort o (w : world self) name proc :
  dict_get name (processes (st w)) = Some proc ->
  uninterrupted o (clock w) ->
  exists b requests s',
    stop_node name o w = (Ret b, mkWorld (requests ++ hist w) s') /\
    filter_map is_terminate (rev requests) = [proc] /\
    filter_map is_popen (rev requests) = [] /\
    (s' = st w \/ s' = with_processes (dict_del name) (st w)).
Proof.
  intros Hproc Hu.
  pose proof (Hu (clock w) (Terminate proc) (le_n _)) as H0.
  pose proof (Hu (S (clock w)) (Wait proc (Some 5)) ltac:(lia)) as H1.
  pose proof (Hu (S (S (clock w))) (Kill proc) ltac:(lia)) as H2.
  pose proof (Hu (S (S (S (clock w)))) (Wait proc None) ltac:(lia)) as H3.
  unfold stop_node, try_except, bind, gets, io, set_processes, modify, ret.
  cbn [fst snd st hist]. rewrite Hproc.
  destruct (o (clock w) (Terminate proc)) eqn:E0; try congruence;
    cbn [is_Exception fst snd st hist clock List.length]; fold (clock w);
    try (eexists; eexists [_]; eexists; split; [reflexivity|]; repeat split; left; reflexivity).
  destruct (o (S (clock w)) (Wait proc (Some 5))) eqn:E1; try congruence;
    cbn [is_TimeoutExpired is_Exception fst snd st hist clock List.length]; fold (clock w);
    try (eexists; eexists [_; _]; eexists; split; [reflexivity|]; repeat split;
         first [left; reflexivity | right; reflexivity]).
  destruct (o (S (S (clock w))) (Kill proc)) eqn:E2; try congruence;
    cbn [is_TimeoutExpired is_Exception fst snd st hist clock List.length]; fold (clock w);
    try (eexists; eexists [_; _; _]; eexists; split; [reflexivity|]; repeat split;
         left; reflexivity).
  destruct (o (S (S (S (clock w)))) (Wait proc None)) eqn:E3; try congruence;
    cbn [is_TimeoutExpired is_Exception fst snd st hist clock List.length]; fold (clock w);
    eexists; eexists [_; _; _; _]; eexists; (split; [reflexivity|]); repeat split;
    first [left; reflexivity | right; reflexivity].
Qed.

Lemma flat_map_agree A B (f g : A -> list B) l :
  (forall x, In x l -> f x = g x) -> flat_map f l = flat_map g l.
Proof.
  induction l as [|x l IH]; intros H; [reflexivity|].
  cbn [flat_map]. rewrite (H x (or_introl eq_refl)). f_equal.
  apply IH. intros y Hy. apply H. right. exact Hy.
Qed.

Lemma stop_names_best_effort o names : forall (w : world self),
  uninterrupted o (clock w) ->
  NoDup names ->
  exists w',
    for_each names (fun node_name => stop_node node_name ;; ret tt) o w = (Ret tt, w') /\
    terminated w' = terminated w ++ lookup_all names (processes (st w)) /\
    spawned w' = spawned w /\
    (clock w <= clock w')%nat /\
    outside_processes (st w') = outside_processes (st w) /\
    (forall n, ~ In n names -> dict_get n (processes (st w')) = dict_get n (processes (st w))) /\
    in_order (keys (processes (st w'))) (keys (processes (st w))).
Proof.
  induction names as [|name names IH]; intros w Hu Hnd.
  - exists w. cbn. rewrite app_nil_r. repeat split; auto. apply in_order_refl.
  - inversion Hnd as [|? ? Hnotin Hnd']; subst.
    cbn [for_each lookup_all flat_map].
    assert (Hrest : forall d : dict Z,
               (forall n, n <> name -> dict_get n d = dict_get n (processes (st w))) ->
               lookup_all names d = lookup_all names (processes (st w))).
    { intros d Hd. unfold lookup_all. apply flat_map_agree.
      intros n Hn. rewrite Hd; [reflexivity|]. intros ->. contradiction. }
    destruct (dict_get name (processes (st w))) as [proc|] eqn:Eproc.
    + destruct (stop_node_best_effort o w name proc Eproc Hu)
        as (b & requests & s' & Hrun & Hterm & Hpop & Hs').
      set (w1 := mkWorld (requests ++ hist w) s') in *.
      assert (Hclk : (clock w <= clock w1)%nat).
      { unfold clock, w1. simpl. rewrite length_app. lia. }
      assert (Hget : forall n, n <> name ->
                       dict_get n (processes (st w1)) = dict_get n (processes (st w))).
      { intros n Hn. unfold w1. cbn [st].
        destruct Hs' as [-> | ->]; [reflexivity|].
        cbn [with_processes processes]. apply dict_get_del_ne. exact Hn. }
      destruct (IH w1 (uninterrupted_from _ _ _ Hu Hclk) Hnd')
        as (w' & Hrun' & Ht & Hs & Hc & Hout & Hkeep & Hord).
      exists w'. unfold bind at 1. unfold bind at 1. rewrite Hrun. unfold ret at 1.
      split; [exact Hrun'|]. split; [|split; [|split; [lia|split; [|split]]]].
      * rewrite Ht. unfold w1 at 1. rewrite terminated_app, Hterm.
        rewrite (Hrest _ Hget). cbn [app]. now rewrite <- app_assoc.
      * rewrite Hs. unfold w1. rewrite spawned_app, Hpop. apply app_nil_r.
      * rewrite Hout. unfold w1. cbn [st]. destruct Hs' as [-> | ->]; reflexivity.
      * intros n Hn. rewrite Hkeep by (intros Hin; apply Hn; right; exact Hin).
        apply Hget. intros ->. apply Hn. left. reflexivity.
      * eapply in_order_trans; [exact Hord|]. unfold w1. cbn [st].
        destruct Hs' as [-> | ->]; [apply in_order_refl|].
        cbn [with_processes processes]. apply in_order_dict_del.
    + destruct (IH w Hu Hnd') as (w' & Hrun' & Ht & Hs & Hc & Hout & Hkeep & Hord).
      exists w'. unfold bind at 1. unfold bind at 1.
      rewrite (local_stop_node_absent o w name Eproc). unfold ret at 1.
      cbn [app]. repeat split; try assumption.
      intros n Hn. apply Hkeep. intros Hin. apply Hn. right. exact Hin.
Qed.

Lemma lookup_all_keys V (d : dict V) : NoDup (keys d) -> lookup_all (keys d) d = map snd d.
Proof.
  unfold keys. induction d as [|[k v] d IH]; intros Hnd; [reflexivity|].
  cbn [map fst] in Hnd. inversion Hnd as [|? ? Hnotin Hnd']; subst.
  cbn [map fst snd lookup_all flat_map dict_get]. rewrite String.eqb_refl. cbn [app].
  f_equal. rewrite <- (IH Hnd'). apply flat_map_agree. intros n Hn.
  cbn [dict_get]. destruct (String.eqb_spec n k) as [->|Hne]; [contradiction|reflexivity].
Qed.

(** X13.  [stop_all] is best effort.  In a run without Ctrl-C it
    returns, and every process of the table has been sent its
    termination signal exactly once, in the order of the table, also when
    stopping some of the nodes fails (the signal, the wait or the kill
    raises): such a failure is logged by [stop_node] and the loop goes on.
    What is left in the table is a part of what was there, in the same
    order; nothing is started, and the rest of the tester is left
    alone. *)
Theorem stop_all_is_best_effort o (w : world self) :
  uninterrupted o (clock w) ->
  NoDup (keys (processes (st w))) ->
  exists w',
    stop_all o w = (Ret tt, w') /\
    terminated w' = terminated w ++ map snd (processes (st w)) /\
    spawned w' = spawned w /\
    in_order (keys (processes (st w'))) (keys (processes (st w))) /\
    outside_processes (st w') = outside_processes (st w).
Proof.
  intros Hu Hnd. unfold stop_all, bind at 1, gets. cbn [fst snd].
  destruct (stop_names_best_effort o (keys (processes (st w))) w Hu Hnd)
    as (w' & Hrun & Ht & Hs & _ & Hout & _ & Hord).
  exists w'. split; [exact Hrun|]. split; [|auto].
  rewrite Ht. f_equal. apply lookup_all_keys, Hnd.
Qed.

Lemma stop_all_is_best_effort_witness :
  exists w',
    stop_all (Samples.stubborn Samples.friendly) Samples.local_up = (Ret tt, w') /\
    terminated w' = terminated Samples.local_up ++ map snd (processes (st Samples.local_up)) /\
    spawned w' = spawned Samples.local_up /\
    in_order (keys (processes (st w'))) (keys (processes (st Samples.local_up))) /\
    outside_processes (st w') = outside_processes (st Samples.local_up).
Proof.
  apply (stop_all_is_best_effort (Samples.stubborn Samples.friendly) Samples.local_up).
  - intros t r _. unfold Samples.stubborn, Samples.friendly.
    destruct r; try discriminate. destruct timeout; discriminate.
  - vm_compute. repeat constructor; cbn; intuition discriminate.
Defined.

End HeteroLocalRunFacts.

(** ** The staged cluster test: how a run ends *)

Module ClusterRunFacts.
Import Py MaliciousNodeTest PyFacts MaliciousNodeTestFacts ReturnFacts.
Local Open Scope py_scope.

(** *** What leaves the report files alone *)

Section Careful.
Context (R : world self -> world self -> Prop) `{!PreOrder R}.

(** [R] sees no request and none of the updates of the tester made
    before the report is generated. *)
Hypothesis R_io : forall r w, R w (mkWorld (r :: hist w) (st w)).
Hypothesis R_nodes : forall f w, R w (mkWorld (hist w) (with_nodes f (st w))).
Hypothesis R_processes : forall f w, R w (mkWorld (hist w) (with_processes f (st w))).
Hypothesis R_heap : forall f w, R w (mkWorld (hist w) (with_heap f (st w))).
Hypothesis R_stages : forall f w, R w (mkWorld (hist w) (with_stages f (st w))).
Hypothesis R_network_stats : forall f w, R w (mkWorld (hist w) (with_network_stats f (st w))).

Lemma create_node_careful fuel index genesis malicious :
  respects R (create_node fuel index genesis malicious).
Proof.
  intros o w. unfold create_node.
  pose proof (R_io (ConnectEx (Ports.base_port index)) w) as H1.
  destruct (Ports.create_node _ fuel index genesis malicious) as [node| |];
    cbn [snd]; try exact H1.
  etransitivity; [exact H1|].
  etransitivity; [apply (R_heap (fun h => h ++ [node]))|].
  apply (R_nodes (dict_set (Ports.node_id node) (List.length (heap (st w))))).
Qed.

Lemma wait_for_node_polls_careful polls port : respects R (wait_for_node_polls polls port).
Proof. induction polls; cbn [wait_for_node_polls]; frame. Qed.

Lemma start_node_careful r bootstrap_addr : respects R (start_node r bootstrap_addr).
Proof.
  pose proof wait_for_node_polls_careful.
  unfold start_node, wait_for_node, deref, mutate. frame.
Qed.

Lemma stop_node_careful r : respects R (stop_node r).
Proof. unfold stop_node, deref, mutate. frame. Qed.

Lemma monitor_loop_careful rs : forall info, respects R (monitor_loop rs info).
Proof.
  induction rs; cbn [monitor_loop]; unfold get_neighbors, api_call, neighbors_len, deref; frame.
Qed.

Lemma print_network_status_careful rs : respects R (print_network_status rs).
Proof. unfold print_network_status, get_neighbors, api_call, neighbors_len, deref. frame. Qed.

Lemma record_stage_careful name rs enough : respects R (record_stage name rs enough).
Proof.
  pose proof monitor_loop_careful.
  unfold record_stage, monitor_network, append_stage. frame.
Qed.

Lemma expand_careful fuel indices bootstrap_addr : forall rs,
  respects R (expand fuel indices bootstrap_addr rs).
Proof.
  pose proof create_node_careful. pose proof start_node_careful.
  induction indices; cbn [expand]; frame.
Qed.

Lemma stage_1_genesis_careful fuel : respects R (stage_1_genesis fuel).
Proof.
  pose proof create_node_careful. pose proof start_node_careful.
  pose proof print_network_status_careful.
  unfold stage_1_genesis, append_stage. frame.
Qed.

Lemma observe_rounds_careful rounds rs : respects R (observe_rounds rounds rs).
Proof.
  pose proof monitor_loop_careful.
  induction rounds; cbn [observe_rounds]; unfold monitor_network; frame.
Qed.

Lemma before_report_careful fuel g :
  respects R (rs <- stage_2_expand_to_10 fuel g ;;
              rs <- stage_3_expand_to_20 fuel rs ;;
              stage_4_observe_network rs ;;
              stage_5_shutdown rs ;;
              ret tt).
Proof.
  pose proof expand_careful. pose proof print_network_status_careful.
  pose proof record_stage_careful. pose proof monitor_loop_careful.
  pose proof stop_node_careful. pose proof observe_rounds_careful.
  unfold stage_2_expand_to_10, stage_3_expand_to_20, stage_4_observe_network,
    stage_5_shutdown, monitor_network, append_stage, deref.
  frame.
Qed.

Lemma cleanup_careful : respects R cleanup.
Proof. pose proof stop_node_careful. unfold cleanup. frame. Qed.

End Careful.

Ltac files_alone := try typeclasses eauto; intros; unfold same; reflexivity.

(** *** What the run can raise *)

Lemma create_node_raises fuel index genesis malicious :
  raises_only interrupt_or_error (create_node fuel index genesis malicious).
Proof.
  intros o w. unfold create_node.
  destruct (Ports.create_node _ fuel index genesis malicious); cbn [fst]; auto.
Qed.

Lemma wait_for_node_polls_raises polls port :
  raises_only interrupt_or_error (wait_for_node_polls polls port).
Proof. induction polls; cbn [wait_for_node_polls]; raises. Qed.

Lemma start_node_raises r bootstrap_addr :
  raises_only interrupt_or_error (start_node r bootstrap_addr).
Proof.
  pose proof wait_for_node_polls_raises.
  unfold start_node, wait_for_node, deref, mutate. raises.
Qed.

Lemma stop_node_raises r : raises_only is_KeyboardInterrupt (stop_node r).
Proof. unfold stop_node, deref, mutate. raises. Qed.

Lemma raises_only_weaken St A (m : M St A) :
  raises_only is_KeyboardInterrupt m -> raises_only interrupt_or_error m.
Proof.
  intros H o w. specialize (H o w). destruct (fst (m o w)) as [a|e|]; auto.
  unfold interrupt_or_error. rewrite H. reflexivity.
Qed.

Lemma monitor_loop_raises rs : forall info, raises_only interrupt_or_error (monitor_loop rs info).
Proof.
  induction rs; cbn [monitor_loop]; unfold get_neighbors, api_call, neighbors_len, deref; raises.
Qed.

Lemma print_network_status_raises rs : raises_only interrupt_or_error (print_network_status rs).
Proof. unfold print_network_status, get_neighbors, api_call, neighbors_len, deref. raises. Qed.

Lemma expand_raises fuel indices bootstrap_addr : forall rs,
  raises_only interrupt_or_error (expand fuel indices bootstrap_addr rs).
Proof.
  pose proof create_node_raises. pose proof start_node_raises.
  induction indices; cbn [expand]; raises.
Qed.

Lemma observe_rounds_raises rounds rs :
  raises_only interrupt_or_error (observe_rounds rounds rs).
Proof.
  pose proof monitor_loop_raises.
  induction rounds; cbn [observe_rounds]; unfold monitor_network; raises.
Qed.

Lemma run_test_body_raises fuel : raises_only interrupt_or_error (run_test_body fuel).
Proof.
  pose proof create_node_raises. pose proof start_node_raises.
  pose proof observe_rounds_raises.
  pose proof expand_raises. pose proof print_network_status_raises.
  pose proof monitor_loop_raises.
  pose proof (fun r => raises_only_weaken _ _ _ (stop_node_raises r)).
  unfold run_test_body, stage_1_genesis, stage_2_expand_to_10, stage_3_expand_to_20,
    stage_4_observe_network, stage_5_shutdown, generate_report, record_stage,
    monitor_network, append_stage, deref.
  raises.
Qed.

Lemma cleanup_raises : raises_only is_KeyboardInterrupt cleanup.
Proof. pose proof stop_node_raises. unfold cleanup. raises. Qed.

(** *** The report and the exit *)

Lemma stages_then A (k : Test A) fuel g o (w : world self) :
  (rs <- stage_2_expand_to_10 fuel g ;;
   rs <- stage_3_expand_to_20 fuel rs ;;
   stage_4_observe_network rs ;;
   stage_5_shutdown rs ;;
   k) o w =
  bind (rs <- stage_2_expand_to_10 fuel g ;;
        rs <- stage_3_expand_to_20 fuel rs ;;
        stage_4_observe_network rs ;;
        stage_5_shutdown rs ;;
        ret tt) (fun _ => k) o w.
Proof.
  unfold bind.
  destruct (stage_2_expand_to_10 fuel g o w) as [[rs|e|] w1]; try reflexivity.
  destruct (stage_3_expand_to_20 fuel rs o w1) as [[rs'|e|] w2]; try reflexivity.
  destruct (stage_4_observe_network rs' o w2) as [[[]|e|] w3]; try reflexivity.
  destruct (stage_5_shutdown rs' o w3) as [[[]|e|] w4]; reflexivity.
Qed.

Lemma generate_report_files o (w : world self) :
  match generate_report o w with
  | (Ret _, w') => files (st w') = files (st w) ++ ["malicious_test_report.json"]
  | (_, w') => files (st w') = files (st w)
  end.
Proof.
  unfold generate_report, bind, now, modify, io. cbn [st hist].
  destruct (o _ _); reflexivity.
Qed.

Lemma run_test_body_files fuel o (w : world self) :
  match run_test_body fuel o w with
  | (Ret _, w') =>
      files (st w') = files (st w) ++ ["malicious_test_report.json"] \/
      (files (st w') = files (st w) /\ fst (stage_1_genesis fuel o w) = Ret None)
  | (_, w') => files (st w') = files (st w)
  end.
Proof.
  unfold run_test_body. unfold bind at 1.
  pose proof (stage_1_genesis_careful (same (fun w => files (st w))) ltac:(files_alone)
                ltac:(files_alone) ltac:(files_alone) ltac:(files_alone) ltac:(files_alone)
                fuel o w) as H1.
  unfold same in H1.
  destruct (stage_1_genesis fuel o w) as [[[g|]|e|] w0]; cbn [snd fst] in *; auto;
    [|unfold ret; right; auto].
  rewrite stages_then. unfold bind at 1.
  pose proof (before_report_careful (same (fun w => files (st w))) ltac:(files_alone)
                ltac:(files_alone) ltac:(files_alone) ltac:(files_alone) ltac:(files_alone)
                ltac:(files_alone) fuel g o w0) as H2.
  unfold same in H2.
  match goal with
  | |- context [match ?x with _ => _ end] =>
      match x with
      | bind _ _ _ _ => destruct x as [[[]|e|] w2]
      end
  end; cbn [snd] in *; try congruence.
  pose proof (generate_report_files o w2) as H3.
  destruct (generate_report o w2) as [[[]|e|] w3]; [left|idtac|idtac]; congruence.
Qed.


(** *** Starting a node *)

Lemma terminated_quiet (requests : list request) (w : world self) (s : self) :
  filter_map is_terminate (rev requests) = [] ->
  terminated (mkWorld (requests ++ hist w) s) = terminated w.
Proof. intros H. rewrite terminated_app, H. apply app_nil_r. Qed.

(** Polling ends with an answer or with Ctrl-C, and only looks. *)
Lemma wait_for_node_polls_result polls port o : forall w : world self,
  exists r w',
    wait_for_node_polls polls port o w = (r, w') /\
    st w' = st w /\ terminated w' = terminated w /\
    (r = Ret true \/ r = Ret false \/ r = Raise KeyboardInterrupt).
Proof.
  induction polls as [|polls IH]; intros w; cbn [wait_for_node_polls].
  - exists (Ret false), w. repeat split; auto.
  - unfold bind at 1, try_except, bind at 1, io, ret.
    set (w1 := mkWorld (Urlopen port "/health" "GET" :: hist w) (st w)).
    assert (H1 : st w1 = st w /\ terminated w1 = terminated w).
    { split; [reflexivity|]. apply (terminated_quiet [_] w (st w)). reflexivity. }
    destruct H1 as (Hs1 & Ht1).
    assert (Hnext : exists r w',
               (late <- sleep_until_deadline ;;
                if late : bool then ret false else wait_for_node_polls polls port) o w1
               = (r, w') /\
               st w' = st w /\ terminated w' = terminated w /\
               (r = Ret true \/ r = Ret false \/ r = Raise KeyboardInterrupt)).
    { unfold bind, sleep_until_deadline.
      set (w2 := mkWorld (Sleep :: hist w1) (st w1)).
      assert (H2 : st w2 = st w /\ terminated w2 = terminated w).
      { split; [exact Hs1|]. rewrite <- Ht1. apply (terminated_quiet [_] w1 (st w1)). reflexivity. }
      destruct H2 as (Hs2 & Ht2).
      destruct (IH w2) as (r & w' & Hrun & Hs & Ht & Hr).
      destruct (o (clock w1) Sleep); cbn [deadline_passed];
        try (exists r, w'; rewrite Hrun; repeat split; congruence).
      - exists (Ret false), w2. repeat split; auto.
      - exists (Raise KeyboardInterrupt), w2. repeat split; auto. }
    destruct (o (clock w) (Urlopen port "/health" "GET")) as [code body|code| | |];
      cbn [fst snd is_Exception]; fold w1; try exact Hnext.
    + destruct (code =? 200); [|exact Hnext].
      exists (Ret true), w1. repeat split; auto.
    + exists (Raise KeyboardInterrupt), w1. repeat split; auto.
Qed.

(** X17.  What [start_node] of the staged cluster test leaves behind.
    It never raises an error, only a Ctrl-C can get out of it, and it
    does not hang.  When it returns, the node is marked [running] if the
    answer is True and [failed] if it is False, and no other node object
    is touched.  True is returned only for a process that was created.
    A created process stays registered in [self.processes] and in
    [node.pid] also when the node is marked failed: [start_node] sends no
    termination signal. *)
Theorem cluster_start_node_marks_node o (w : world self) r bootstrap_addr :
  (r < List.length (heap (st w)))%nat ->
  let node := nth r (heap (st w)) blank in
  let request :=
    Popen (Ports.node_id node) (if Ports.is_genesis node then None else bootstrap_addr) in
  match start_node r bootstrap_addr o w with
  | (Ret ok, w') =>
      let node' := nth r (heap (st w')) blank in
      Ports.status node' = (if ok then Ports.running else Ports.failed) /\
      (forall r', r' <> r -> nth r' (heap (st w')) blank = nth r' (heap (st w)) blank) /\
      (ok = true -> exists pid body, o (clock w) request = Done pid body) /\
      (forall pid body, o (clock w) request = Done pid body ->
         registered w' r pid /\ Ports.pid node' = pid) /\
      terminated w' = terminated w
  | (Raise e, _) => e = KeyboardInterrupt
  | (Hang, _) => False
  end.
Proof.
  intros Hr node request.
  unfold start_node, try_except. unfold bind at 1, deref, gets. cbn [fst snd].
  fold node. unfold bind at 1, io. fold request.
  destruct (o (clock w) request) as [pid body|code| | |] eqn:Ereq; cbn [fst snd is_Exception].
  2-4: unfold mutate, modify, bind, ret; cbn [st hist heap with_heap];
       (split; [rewrite nth_update_eq by exact Hr; reflexivity|]);
       (split; [intros r' Hne; apply nth_update_ne; congruence|]);
       (split; [discriminate|]); (split; [discriminate|]);
       apply (terminated_quiet [_] w); reflexivity.
  2: reflexivity.
  unfold mutate, modify, sleep. unfold bind at 1. unfold bind at 1. unfold bind at 1.
  unfold bind at 1. cbn [st hist clock List.length].
  set (s3 := with_heap (update r (set_status Ports.started))
               (with_heap (update r (set_pid pid))
                  (with_processes (dict_set (Ports.node_id node) pid) (st w)))).
  assert (Hlen3 : (r < List.length (heap s3))%nat).
  { unfold s3. cbn [heap with_heap with_processes]. now rewrite !length_update. }
  assert (Hnode3 : nth r (heap s3) blank =
                   set_status Ports.started (set_pid pid node)).
  { unfold s3. cbn [heap with_heap with_processes].
    rewrite nth_update_eq by (now rewrite length_update).
    rewrite nth_update_eq by exact Hr. reflexivity. }
  assert (Hother3 : forall r', r' <> r -> nth r' (heap s3) blank = nth r' (heap (st w)) blank).
  { intros r' Hne. unfold s3. cbn [heap with_heap with_processes].
    rewrite !nth_update_ne by congruence. reflexivity. }
  assert (Hprocs3 : dict_get (Ports.node_id node) (processes s3) = Some pid).
  { unfold s3. cbn [processes with_heap with_processes]. apply dict_get_set_eq. }
  destruct (o _ Sleep) eqn:Esleep; cbn [fst snd is_Exception]; try reflexivity.
  all: unfold bind at 1, wait_for_node, bind at 1, deref, gets; cbn [fst snd st];
    match goal with
    | |- context [wait_for_node_polls ?n ?p ?o' ?w3] =>
        destruct (wait_for_node_polls_result n p o' w3) as (res & w4 & Hrun & Hs4 & Ht4 & Hres);
        rewrite Hrun
    end;
    cbn [st] in Hs4;
    assert (Ht3 : terminated w4 = terminated w)
      by (rewrite Ht4; apply (terminated_quiet [_; _] w); reflexivity);
    destruct Hres as [-> | [-> | ->]]; cbn [is_Exception]; try reflexivity;
    unfold bind, modify, ret; cbn [st hist heap with_heap fst snd]; rewrite Hs4;
    (split; [rewrite nth_update_eq by exact Hlen3; reflexivity|]);
    (split; [intros r' Hne; rewrite nth_update_ne by congruence; apply Hother3, Hne|]);
    (split; [intros _; eauto|]);
    (split; [|exact Ht3]);
    intros pid' body' Heq; inversion Heq; subst pid' body';
    unfold registered, id_of; cbn [st heap with_heap processes];
    rewrite nth_update_eq by exact Hlen3; rewrite Hnode3;
    (split; [exact Hprocs3|reflexivity]).
Qed.

Lemma cluster_start_node_marks_node_witness :
  match start_node 0 None Samples.friendly Samples.cluster1 with
  | (Ret ok, w') =>
      let node' := nth 0%nat (heap (st w')) blank in
      Ports.status node' = (if ok then Ports.running else Ports.failed) /\
      (forall r', r' <> 0%nat ->
         nth r' (heap (st w')) blank = nth r' (heap (st Samples.cluster1)) blank) /\
      (ok = true -> exists pid body,
          Samples.friendly (clock Samples.cluster1)
            (Popen (Ports.node_id (nth 0%nat (heap (st Samples.cluster1)) blank))
                   (if Ports.is_genesis (nth 0%nat (heap (st Samples.cluster1)) blank)
                    then None else None)) = Done pid body) /\
      (forall pid body,
          Samples.friendly (clock Samples.cluster1)
            (Popen (Ports.node_id (nth 0%nat (heap (st Samples.cluster1)) blank))
                   (if Ports.is_genesis (nth 0%nat (heap (st Samples.cluster1)) blank)
                    then None else None)) = Done pid body ->
         registered w' 0 pid /\ Ports.pid node' = pid) /\
      terminated w' = terminated Samples.cluster1
  | (Raise e, _) => e = KeyboardInterrupt
  | (Hang, _) => False
  end.
Proof.
  apply (cluster_start_node_marks_node Samples.friendly Samples.cluster1 0 None).
  vm_compute. lia.
Defined.

End ClusterRunFacts.

(** ** The network manager: stopping the network *)

Module NetworkManagerFacts.
Import Py NetworkManager PyFacts ReturnFacts.
Local Open Scope py_scope.

Lemma killed_app (requests : list request) (w : world disk) (s : disk) :
  killed (mkWorld (requests ++ hist w) s) = killed w ++ filter_map is_kill (rev requests).
Proof.
  unfold killed, trace. cbn [hist]. rewrite rev_app_distr. apply filter_map_app.
Qed.

Lemma manager_stop_node_run o (w : world disk) node_id pid :
  uninterrupted o (clock w) ->
  exists requests,
    stop_node node_id pid o w = (Ret tt, mkWorld (requests ++ hist w) (st w)) /\
    filter_map is_terminate (rev requests) = [pid] /\
    filter_map is_kill (rev requests) =
    (if is_done (o (clock w) (Terminate pid)) then [pid] else []).
Proof.
  intros Hu.
  pose proof (Hu (clock w) (Terminate pid) (le_n _)) as H0.
  pose proof (Hu (S (clock w)) Sleep ltac:(lia)) as H1.
  pose proof (Hu (S (S (clock w))) (Kill pid) ltac:(lia)) as H2.
  unfold stop_node, try_except, bind, io, sleep, ret.
  destruct (o (clock w) (Terminate pid)) eqn:E0; try congruence;
    cbn [is_Exception is_done fst snd st hist clock List.length]; fold (clock w);
    try solve [exists [Terminate pid]; repeat split].
  destruct (o (S (clock w)) Sleep) eqn:E1; try congruence;
    cbn [is_Exception fst snd st hist clock List.length]; fold (clock w);
    (destruct (o (S (S (clock w))) (Kill pid)) eqn:E2; try congruence;
     cbn [is_ProcessLookupError is_Exception fst snd st hist];
     exists [Kill pid; Sleep; Terminate pid]; repeat split).
Qed.

(** X18.  [stop_node] of the network manager always escalates.  When no
    Ctrl-C arrives it returns without raising and leaves the PID file
    alone; the process is sent SIGTERM once, and whenever that signal
    could be delivered it is sent SIGKILL after the pause, whether or
    not it has exited in the meantime (a process that is gone is
    tolerated).  No SIGKILL is sent when SIGTERM failed. *)
Theorem manager_stop_node_always_escalates o (w : world disk) node_id pid :
  uninterrupted o (clock w) ->
  exists w',
    stop_node node_id pid o w = (Ret tt, w') /\
    st w' = st w /\
    terminated w' = terminated w ++ [pid] /\
    killed w' = killed w ++ (if is_done (o (clock w) (Terminate pid)) then [pid] else []).
Proof.
  intros Hu.
  destruct (manager_stop_node_run o w node_id pid Hu) as (requests & Hrun & Ht & Hk).
  eexists. split; [exact Hrun|]. split; [reflexivity|].
  rewrite terminated_app, killed_app, Ht, Hk. split; reflexivity.
Qed.

Lemma manager_stop_node_always_escalates_witness :
  exists w',
    stop_node "node0" 4242 (Samples.stubborn Samples.friendly)
              (mkWorld [] (mkDisk (Some [("node0", 4242)]))) = (Ret tt, w') /\
    st w' = mkDisk (Some [("node0", 4242)]) /\
    terminated w' = [] ++ [4242] /\
    killed w' = [] ++ [4242].
Proof.
  apply (manager_stop_node_always_escalates (Samples.stubborn Samples.friendly)
           (mkWorld [] (mkDisk (Some [("node0", 4242)]))) "node0" 4242).
  intros t r _. unfold Samples.stubborn, Samples.friendly.
  destruct r; try discriminate. destruct timeout; discriminate.
Defined.

Lemma stop_positive_pids o pids : forall w : world disk,
  uninterrupted o (clock w) ->
  exists w',
    for_each pids (fun entry =>
      if snd entry >? 0 then stop_node (fst entry) (snd entry) else ret tt) o w = (Ret tt, w') /\
    st w' = st w /\
    (clock w <= clock w')%nat /\
    terminated w' = terminated w ++ filter (fun pid => pid >? 0) (map snd pids).
Proof.
  induction pids as [|[node_id pid] pids IH]; intros w Hu.
  - exists w. cbn. rewrite app_nil_r. auto.
  - cbn [for_each map filter fst snd].
    destruct (pid >? 0).
    + destruct (manager_stop_node_run o w node_id pid Hu) as (requests & Hrun & Ht & _).
      set (w1 := mkWorld (requests ++ hist w) (st w)) in *.
      assert (Hc : (clock w <= clock w1)%nat).
      { unfold clock, w1. cbn [hist]. rewrite length_app. lia. }
      destruct (IH w1 (uninterrupted_from _ _ _ Hu Hc)) as (w' & Hrun' & Hs & Hc' & Ht').
      exists w'. rewrite (bind_ret_run _ Hrun). split; [exact Hrun'|].
      split; [exact Hs|]. split; [lia|].
      rewrite Ht'. unfold w1. rewrite terminated_app, Ht, <- app_assoc. reflexivity.
    + destruct (IH w Hu) as (w' & Hrun' & Hs & Hc' & Ht').
      exists w'. unfold bind at 1, ret at 1. auto.
Qed.

(** X19.  [cmd_stop] signals what the PID file lists and then forgets
    it.  When no Ctrl-C arrives and the PID file can be written, it
    returns 0; the pids sent SIGTERM are exactly the positive pids of
    the file, in the order of the file (the pids of simulated nodes are
    skipped); and the file is left holding the empty object, whether or
    not the processes could be stopped.  With no PID file, or an empty
    one, it returns 0 without a signal and without touching the
    file. *)
Theorem cmd_stop_signals_and_forgets o (w : world disk) :
  uninterrupted o (clock w) ->
  (forall t, is_done (o t (WriteFile "pids.json")) = true) ->
  let pids := match pid_file (st w) with Some pids => pids | None => [] end in
  exists w',
    cmd_stop o w = (Ret 0, w') /\
    terminated w' = terminated w ++ filter (fun pid => pid >? 0) (map snd pids) /\
    match pids with
    | [] => w' = w
    | _ => pid_file (st w') = Some []
    end.
Proof.
  intros Hu Hwrite. cbv zeta. unfold cmd_stop, bind at 1, load_pids, gets. cbn [fst snd].
  generalize (match pid_file (st w) with Some pids => pids | None => [] end).
  intros pids. destruct pids as [|entry rest] eqn:E.
  - exists w. cbn. rewrite app_nil_r. auto.
  - rewrite <- E.
    destruct (stop_positive_pids o pids w Hu) as (w1 & Hrun & Hs & Hc & Ht).
    rewrite (bind_ret_run _ Hrun).
    unfold save_pids, bind, io, modify, ret. specialize (Hwrite (clock w1)).
    destruct (o (clock w1) (WriteFile "pids.json")); try discriminate.
    eexists. split; [reflexivity|]. split; [|reflexivity].
    rewrite <- Ht. cbn [hist].
    change (WriteFile "pids.json" :: hist w1) with ([WriteFile "pids.json"] ++ hist w1).
    rewrite terminated_app. apply app_nil_r.
Qed.

Lemma cmd_stop_signals_and_forgets_witness :
  exists w',
    cmd_stop Samples.friendly
             (mkWorld [] (mkDisk (Some [("node0", 4242); ("node1", -1); ("node2", 4244)])))
    = (Ret 0, w') /\
    terminated w' = [] ++ [4242; 4244] /\
    pid_file (st w') = Some [].
Proof.
  apply (cmd_stop_signals_and_forgets Samples.friendly
           (mkWorld [] (mkDisk (Some [("node0", 4242); ("node1", -1); ("node2", 4244)])))).
  - intros t r _. unfold Samples.friendly. destruct r; discriminate.
  - intros t. reflexivity.
Defined.

End NetworkManagerFacts.

(** ** The reports: tallies and recommendations *)

Module ReportFacts.
Import Py PyFacts.

(** *** The security analysis of the local five-node test *)

Lemma count_types_from (type : string) events : forall d0 : dict Z,
  dict_get type
    (fold_left (fun d e => dict_set (HeteroLocal.attack_type e)
                             (match dict_get (HeteroLocal.attack_type e) d with
                              | Some n => n + 1
                              | None => 1
                              end) d)
               events d0) =
  let n := Z.of_nat (List.length
                       (filter (fun e => String.eqb (HeteroLocal.attack_type e) type) events)) in
  match dict_get type d0 with
  | Some k => Some (k + n)
  | None => if n =? 0 then None else Some n
  end.
Proof.
  induction events as [|e events IH]; intros d0; cbn [fold_left filter].
  - cbn. destruct (dict_get type d0); [f_equal; lia|reflexivity].
  - rewrite IH. clear IH. cbv zeta.
    destruct (String.eqb_spec (HeteroLocal.attack_type e) type) as [Heq|Hne].
    + rewrite Heq. rewrite dict_get_set_eq. cbn [List.length].
      destruct (dict_get type d0) as [k|].
      * f_equal. lia.
      * destruct (Z.eqb_spec (Z.of_nat (S (List.length
            (filter (fun e0 => String.eqb (HeteroLocal.attack_type e0) type) events)))) 0);
          [lia|f_equal; lia].
    + rewrite dict_get_set_ne by congruence. reflexivity.
Qed.

(** X20.  What [generate_security_analysis] of the local test tallies:
    [total_attacks] is the number of recorded events; [attack_types]
    holds, for every type that occurs, the number of events of this
    type, and no entry for a type that does not occur; the rate limiting
    figure is present exactly when there is a flood event, its second
    number is the number of flood events and its first number is at
    most that. *)
Theorem security_analysis_tallies_events (s : HeteroLocal.self) (type : string) :
  let a := HeteroLocal.generate_security_analysis s in
  let count_of type :=
    Z.of_nat (List.length (filter (fun e => String.eqb (HeteroLocal.attack_type e) type)
                                  (HeteroLocal.attack_events s))) in
  HeteroLocal.sa_total_attacks a = Z.of_nat (List.length (HeteroLocal.attack_events s)) /\
  dict_get type (HeteroLocal.sa_attack_types a) =
    (if count_of type =? 0 then None else Some (count_of type)) /\
  match HeteroLocal.sa_rate_limiting a with
  | None => count_of "spam_flooding" = 0
  | Some (blocked, floods) =>
      floods = count_of "spam_flooding" /\ 0 < floods /\ 0 <= blocked <= floods
  end.
Proof.
  cbv zeta. unfold HeteroLocal.generate_security_analysis.
  cbn [HeteroLocal.sa_total_attacks HeteroLocal.sa_attack_types HeteroLocal.sa_rate_limiting].
  split; [reflexivity|]. split.
  - unfold HeteroLocal.count_types. rewrite count_types_from. reflexivity.
  - change (fun e => String.eqb (HeteroLocal.attack_type e) "spam_flooding")
      with HeteroLocal.is_spam.
    destruct (filter HeteroLocal.is_spam (HeteroLocal.attack_events s)) as [|e l] eqn:E;
      [reflexivity|].
    split; [reflexivity|]. split; [cbn [List.length]; lia|].
    pose proof (filter_length_le HeteroLocal.counted_as_rate_limited (e :: l)). lia.
Qed.

(** *** The recommendations of the simple test *)

Lemma first_attack_has_type (a : SimpleTest.attack) attacks :
  existsb SimpleTest.is_flood (a :: attacks) = true \/
  existsb SimpleTest.is_invalid_data (a :: attacks) = true \/
  existsb SimpleTest.is_unauthorized (a :: attacks) = true.
Proof. destruct a; cbn; auto. Qed.

(** X21.  The recommendations of the simple test.  The list is never
    empty: with no attack result at all the score is 0 and the first
    advice is given, and any result brings the advice of its type.  The
    advice to strengthen the defences and the praise never come
    together.  Each of the three advices on an attack type is present
    exactly when a result of that type was collected. *)
Theorem simple_recommendations_never_empty (attacks : list SimpleTest.attack) :
  let recs := SimpleTest.generate_recommendations attacks in
  recs <> [] /\
  (attacks = [] -> recs = [SimpleTest.NeedsStrengthening]) /\
  ~ (In SimpleTest.NeedsStrengthening recs /\ In SimpleTest.PerformsWell recs) /\
  (In SimpleTest.AddRateLimiting recs <->
     exists r, In (SimpleTest.FloodAttack r) attacks) /\
  (In SimpleTest.StrengthenValidation recs <->
     exists r, In (SimpleTest.InvalidDataAttack r) attacks) /\
  (In SimpleTest.StrengthenAccessControl recs <->
     exists r, In (SimpleTest.UnauthorizedAttack r) attacks).
Proof.
  cbv zeta. unfold SimpleTest.generate_recommendations.
  set (score := SimpleTest.analyze_network_resilience attacks).
  assert (Hscore : ~ (Qle_bool 70 score = false /\ Qle_bool score 80 = false)).
  { intros (H70 & H80).
    assert (H1 : ~ (70 <= score)%Q) by (rewrite <- Qle_bool_iff; congruence).
    assert (H2 : ~ (score <= 80)%Q) by (rewrite <- Qle_bool_iff; congruence).
    apply Qnot_le_lt in H1. apply Qnot_le_lt in H2.
    assert (H3 : (80 < 70)%Q) by (eapply Qlt_trans; eassumption).
    revert H3. unfold Qlt. cbn. lia. }
  assert (Hflood : existsb SimpleTest.is_flood attacks = true <->
                   exists r, In (SimpleTest.FloodAttack r) attacks).
  { rewrite existsb_exists. split.
    - intros ([r| |] & Hin & Hp); try discriminate. eauto.
    - intros (r & Hin). exists (SimpleTest.FloodAttack r). auto. }
  assert (Hinvalid : existsb SimpleTest.is_invalid_data attacks = true <->
                     exists r, In (SimpleTest.InvalidDataAttack r) attacks).
  { rewrite existsb_exists. split.
    - intros ([|r|] & Hin & Hp); try discriminate. eauto.
    - intros (r & Hin). exists (SimpleTest.InvalidDataAttack r). auto. }
  assert (Hunauth : existsb SimpleTest.is_unauthorized attacks = true <->
                    exists r, In (SimpleTest.UnauthorizedAttack r) attacks).
  { rewrite existsb_exists. split.
    - intros ([| |r] & Hin & Hp); try discriminate. eauto.
    - intros (r & Hin). exists (SimpleTest.UnauthorizedAttack r). auto. }
  assert (Hempty : attacks = [] -> Qle_bool 70 score = false).
  { intros ->. reflexivity. }
  assert (Hsome : attacks <> [] ->
                  existsb SimpleTest.is_flood attacks = true \/
                  existsb SimpleTest.is_invalid_data attacks = true \/
                  existsb SimpleTest.is_unauthorized attacks = true).
  { destruct attacks as [|a rest]; [congruence|]. intros _. apply first_attack_has_type. }
  assert (Hin : forall r,
             In r ((if negb (Qle_bool 70 score) then [SimpleTest.NeedsStrengthening] else []) ++
                   (if existsb SimpleTest.is_flood attacks
                    then [SimpleTest.AddRateLimiting] else []) ++
                   (if existsb SimpleTest.is_invalid_data attacks
                    then [SimpleTest.StrengthenValidation] else []) ++
                   (if existsb SimpleTest.is_unauthorized attacks
                    then [SimpleTest.StrengthenAccessControl] else []) ++
                   (if negb (Qle_bool score 80) then [SimpleTest.PerformsWell] else [])) <->
             (r = SimpleTest.NeedsStrengthening /\ Qle_bool 70 score = false) \/
             (r = SimpleTest.AddRateLimiting /\
              existsb SimpleTest.is_flood attacks = true) \/
             (r = SimpleTest.StrengthenValidation /\
              existsb SimpleTest.is_invalid_data attacks = true) \/
             (r = SimpleTest.StrengthenAccessControl /\
              existsb SimpleTest.is_unauthorized attacks = true) \/
             (r = SimpleTest.PerformsWell /\ Qle_bool score 80 = false)).
  { intros r. rewrite !in_app_iff.
    destruct (Qle_bool 70 score), (Qle_bool score 80),
             (existsb SimpleTest.is_flood attacks),
             (existsb SimpleTest.is_invalid_data attacks),
             (existsb SimpleTest.is_unauthorized attacks);
      cbn [negb In]; intuition congruence. }
  split; [|split; [|split; [|split; [|split]]]].
  - destruct attacks as [|a rest].
    + rewrite (Hempty eq_refl). discriminate.
    + intros Hnil.
      assert (Hnone : forall r, ~ In r (@nil SimpleTest.recommendation)) by (intros r []).
      rewrite <- Hnil in Hnone.
      destruct (Hsome ltac:(discriminate)) as [H|[H|H]].
      * apply (Hnone SimpleTest.AddRateLimiting). apply Hin. auto.
      * apply (Hnone SimpleTest.StrengthenValidation). apply Hin. auto.
      * apply (Hnone SimpleTest.StrengthenAccessControl). apply Hin. auto 6.
  - intros ->. reflexivity.
  - intros (H1 & H2). apply Hin in H1. apply Hin in H2. apply Hscore.
    split.
    + destruct H1 as [[_ H]|[[H _]|[[H _]|[[H _]|[H _]]]]]; try discriminate. exact H.
    + destruct H2 as [[H _]|[[H _]|[[H _]|[[H _]|[_ H]]]]]; try discriminate. exact H.
  - rewrite <- Hflood, Hin. split.
    + intros [[H _]|[[_ H]|[[H _]|[[H _]|[H _]]]]]; try discriminate. exact H.
    + auto.
  - rewrite <- Hinvalid, Hin. split.
    + intros [[H _]|[[H _]|[[_ H]|[[H _]|[H _]]]]]; try discriminate. exact H.
    + auto.
  - rewrite <- Hunauth, Hin. split.
    + intros [[H _]|[[H _]|[[H _]|[[_ H]|[H _]]]]]; try discriminate. exact H.
    + auto 6.
Qed.

End ReportFacts.

(** ** The Docker five-node test: the flood *)

Module DockerFloodFacts.
Import Py HeteroDocker PyFacts ReturnFacts.
Local Open Scope py_scope.

Lemma docker_api_call_code o (w : world self) node_name endpoint method config :
  dict_get node_name NODES = Some config ->
  o (clock w) (Urlopen (http_port config) ("/api" ++ endpoint) method) <> Interrupted ->
  exists body,
    api_call node_name endpoint method o w =
    (Ret (HeteroLocal.code_of
            (o (clock w) (Urlopen (http_port config) ("/api" ++ endpoint) method)), body),
     mkWorld (Urlopen (http_port config) ("/api" ++ endpoint) method :: hist w) (st w)).
Proof.
  intros Hc Hni. unfold api_call, config_of. rewrite Hc.
  unfold bind, ret, try_except, io, raise. cbn [fst snd].
  destruct (o (clock w) _) as [code [body|]|code| | |];
    cbn [fst snd is_Exception HeteroLocal.code_of]; eauto. congruence.
Qed.

Lemma docker_spam_loop_counts o node_name config rounds : forall c (w : world self),
  dict_get node_name NODES = Some config ->
  uninterrupted o (clock w) ->
  exists w',
    spam_loop node_name rounds c o w
    = (Ret (fold_left (fun c code => count_code code c)
                      (HeteroLocal.flood_codes o (clock w) (http_port config)
                                               (List.length rounds)) c), w') /\
    st w' = st w.
Proof.
  induction rounds as [|i rounds IH]; intros c w Hc Hu.
  - exists w. split; reflexivity.
  - cbn [spam_loop List.length HeteroLocal.flood_codes fold_left]. unfold post_bulletin.
    destruct (docker_api_call_code o w node_name "/bulletin/post" "POST" config Hc)
      as (body & Hcall); [apply Hu; lia|].
    rewrite (bind_ret_run _ Hcall).
    set (w1 := mkWorld (Urlopen (http_port config) ("/api" ++ "/bulletin/post") "POST"
                                :: hist w) (st w)) in *.
    assert (Hsleep : sleep o w1 = (Ret tt, mkWorld (Sleep :: hist w1) (st w1))).
    { unfold sleep. pose proof (Hu (clock w1) Sleep) as H.
      destruct (o (clock w1) Sleep); try reflexivity.
      exfalso. apply H; [unfold clock, w1; cbn [hist List.length]; lia|reflexivity]. }
    rewrite (bind_ret_run _ Hsleep).
    destruct (IH (count_code (HeteroLocal.code_of (o (clock w)
                    (Urlopen (http_port config) ("/api" ++ "/bulletin/post") "POST"))) c)
                 (mkWorld (Sleep :: hist w1) (st w1)) Hc)
      as (w' & Hrun & Hst).
    { intros t r Ht. apply Hu. unfold clock in *. cbn [hist List.length] in *.
      unfold w1 in Ht. cbn [hist List.length] in Ht. lia. }
    exists w'. split; [|exact Hst]. cbn [fst]. rewrite Hrun. reflexivity.
Qed.

Lemma two_counters codes : forall c : Z * Z,
  let c' := fold_left (fun c code => count_code code c) codes c in
  fst c' = fst c + Z.of_nat (List.length (filter (Z.eqb 200) codes)) /\
  snd c' = snd c + Z.of_nat (List.length (filter (Z.eqb 429) codes)).
Proof.
  induction codes as [|code codes IH]; intros c; cbv zeta; cbn [fold_left filter].
  - cbn. lia.
  - destruct (IH (count_code code c)) as (H1 & H2). rewrite H1, H2. unfold count_code.
    destruct (Z.eqb_spec code 200), (Z.eqb_spec code 429),
             (Z.eqb_spec 200 code), (Z.eqb_spec 429 code);
      try congruence; cbn [fst snd List.length]; lia.
Qed.

Lemma disjoint_filters (codes : list Z) :
  (List.length (filter (Z.eqb 200) codes) + List.length (filter (Z.eqb 429) codes)
   <= List.length codes)%nat.
Proof.
  induction codes as [|code codes IH]; [reflexivity|]. cbn [filter].
  destruct (Z.eqb_spec 200 code), (Z.eqb_spec 429 code);
    try congruence; cbn [List.length]; lia.
Qed.

Lemma flood_codes_length o t port rounds :
  List.length (HeteroLocal.flood_codes o t port rounds) = rounds.
Proof.
  revert t. induction rounds as [|rounds IH]; intros t; [reflexivity|].
  cbn [HeteroLocal.flood_codes List.length]. now rewrite IH.
Qed.

(** X22.  The flood of the Docker script counts answers only.  When
    no Ctrl-C arrives, the twenty posts against a known node all go out
    and the loop returns; [success_count] is the number of posts answered
    200 and [blocked_count] the number answered 429.  A post that fails
    or is answered otherwise is in neither counter, so the two add up to
    at most 20, and to less than 20 as soon as one post fails. *)
Theorem docker_flood_counts_answers_only o (w : world self) node_name config :
  dict_get node_name NODES = Some config ->
  uninterrupted o (clock w) ->
  let codes := HeteroLocal.flood_codes o (clock w) (http_port config) 20 in
  exists w',
    spam_flooding_counts node_name o w =
    (Ret (Z.of_nat (List.length (filter (Z.eqb 200) codes)),
          Z.of_nat (List.length (filter (Z.eqb 429) codes))), w') /\
    st w' = st w /\
    (List.length (filter (Z.eqb 200) codes) + List.length (filter (Z.eqb 429) codes)
     <= 20)%nat /\
    ((exists code, In code codes /\ code <> 200 /\ code <> 429) ->
     (List.length (filter (Z.eqb 200) codes) + List.length (filter (Z.eqb 429) codes)
      < 20)%nat).
Proof.
  intros Hc Hu codes.
  destruct (docker_spam_loop_counts o node_name config (seq 0 20) (0, 0) w Hc Hu)
    as (w' & Hrun & Hst).
  rewrite length_seq in Hrun. fold codes in Hrun.
  destruct (two_counters codes (0, 0)) as (H1 & H2). cbn [fst snd] in H1, H2.
  assert (Hlen : List.length codes = 20%nat) by apply flood_codes_length.
  exists w'. split; [|split; [exact Hst|split]].
  - unfold spam_flooding_counts. rewrite Hrun. f_equal.
    rewrite (surjective_pairing (fold_left _ codes (0, 0))). now rewrite H1, H2.
  - rewrite <- Hlen. apply disjoint_filters.
  - intros (code & Hin & H200 & H429). rewrite <- Hlen. clear - Hin H200 H429.
    induction codes as [|c codes IH]; [destruct Hin|]. cbn [filter].
    pose proof (disjoint_filters codes) as Hle.
    destruct Hin as [->|Hin].
    + destruct (Z.eqb_spec 200 code); [congruence|].
      destruct (Z.eqb_spec 429 code); [congruence|]. cbn [List.length]. lia.
    + specialize (IH Hin).
      destruct (Z.eqb_spec 200 c), (Z.eqb_spec 429 c);
        try congruence; cbn [List.length]; lia.
Qed.

Lemma docker_flood_counts_answers_only_witness :
  let codes := HeteroLocal.flood_codes (Samples.unreachable_port 18348 Samples.friendly)
                 (clock Samples.docker0) 18348 20 in
  exists w',
    spam_flooding_counts "malicious1" (Samples.unreachable_port 18348 Samples.friendly)
                         Samples.docker0 =
    (Ret (Z.of_nat (List.length (filter (Z.eqb 200) codes)),
          Z.of_nat (List.length (filter (Z.eqb 429) codes))), w') /\
    st w' = st Samples.docker0 /\
    (List.length (filter (Z.eqb 200) codes) + List.length (filter (Z.eqb 429) codes)
     <= 20)%nat /\
    ((exists code, In code codes /\ code <> 200 /\ code <> 429) ->
     (List.length (filter (Z.eqb 200) codes) + List.length (filter (Z.eqb 429) codes)
      < 20)%nat).
Proof.
  apply (docker_flood_counts_answers_only (Samples.unreachable_port 18348 Samples.friendly)
           Samples.docker0 "malicious1" (mkCfg 18348 18083 true "172.20.0.13")).
  - reflexivity.
  - intros t r _. unfold Samples.unreachable_port, Samples.friendly.
    destruct r; try discriminate. destruct (port =? 18348); discriminate.
Defined.

End DockerFloodFacts.

(** ** The staged cluster test: monitoring *)

Module ClusterMonitorFacts.
Import Py MaliciousNodeTest PyFacts ReturnFacts.
Local Open Scope py_scope.

(** Asking a node for its neighbours and counting them is one request,
    whatever comes back. *)
Lemma count_neighbors_run r o (w : world self) :
  exists res,
    (neighbors <- get_neighbors r ;; neighbors_len neighbors) o w =
    (res, mkWorld (Urlopen (Ports.http_port (nth r (heap (st w)) blank))
                           "/api/neighbor/list" "GET" :: hist w) (st w)) /\
    match res with
    | Ret _ => True
    | Raise e => interrupt_or_error e = true
    | Hang => False
    end.
Proof.
  unfold get_neighbors, api_call, try_except.
  unfold bind, deref, gets, io, ret, raise. cbn [fst snd st hist append].
  destruct (o (clock w) _) as [code [body|]|code| | |];
    cbn [fst snd is_Exception]; unfold neighbors_len, ret, raise;
    try (eexists; split; [reflexivity|]; solve [exact I|reflexivity]).
  destruct body as [| | | | l |[|e d]];
    try (cbn [truthy]; eexists; split; [reflexivity|]; solve [exact I|reflexivity]).
  destruct (truthy _); [destruct (py_len _)|];
    eexists; (split; [reflexivity|]); solve [exact I|reflexivity].
Qed.

Lemma monitor_loop_polls rs o : forall info (w : world self),
  exists res w',
    monitor_loop rs info o w = (res, w') /\
    st w' = st w /\
    match res with
    | Ret _ =>
        hist w' =
        rev (map (fun r => Urlopen (Ports.http_port (nth r (heap (st w)) blank))
                                   "/api/neighbor/list" "GET")
                 (filter (fun r => is_running (nth r (heap (st w)) blank)) rs)) ++ hist w
    | Raise e => interrupt_or_error e = true
    | Hang => False
    end.
Proof.
  induction rs as [|r rs IH]; intros info w; cbn [monitor_loop filter].
  - exists (Ret info), w. repeat split.
  - unfold bind at 1, deref, gets. cbn [fst snd]. unfold bind at 1.
    destruct (is_running (nth r (heap (st w)) blank)) eqn:Erun.
    + destruct (count_neighbors_run r o w) as (res & Hrun & Hres). rewrite Hrun.
      destruct res as [count|e|]; [|eauto|contradiction].
      set (w1 := mkWorld _ (st w)) in *.
      destruct (IH (dict_set (Ports.node_id (nth r (heap (st w)) blank))
                      (mkInfo (Ports.status (nth r (heap (st w)) blank))
                              (Ports.is_malicious (nth r (heap (st w)) blank)) count) info) w1)
        as (res' & w' & Hrun' & Hst & Hres').
      exists res', w'. split; [exact Hrun'|]. split; [exact Hst|].
      destruct res' as [x|e|]; auto.
      rewrite Hres'. unfold w1. cbn [st hist map rev]. rewrite <- app_assoc. reflexivity.
    + unfold ret at 1.
      destruct (IH (dict_set (Ports.node_id (nth r (heap (st w)) blank))
                      (mkInfo (Ports.status (nth r (heap (st w)) blank))
                              (Ports.is_malicious (nth r (heap (st w)) blank)) 0) info) w)
        as (res' & w' & Hrun' & Hst & Hres').
      exists res', w'. auto.
Qed.

(** X23.  [monitor_network] of the staged cluster test asks exactly
    the nodes marked running.  When it returns, it has made one
    neighbour-list request to each running node of the list, in list
    order, and no other request; it has changed nothing in the tester
    (the caller stores the sample); [total_nodes] is the length of the
    list and [running_nodes] the number of its nodes marked running.  It
    does not hang, and what it raises is a Ctrl-C or an error (a
    neighbour value without a length). *)
Theorem cluster_monitor_asks_running_nodes_only rs o (w : world self) :
  let running r := is_running (nth r (heap (st w)) blank) in
  let poll r := Urlopen (Ports.http_port (nth r (heap (st w)) blank))
                        "/api/neighbor/list" "GET" in
  match monitor_network rs o w with
  | (Ret stats, w') =>
      st w' = st w /\
      trace w' = trace w ++ map poll (filter running rs) /\
      stat_total_nodes stats = Z.of_nat (List.length rs) /\
      stat_running_nodes stats = Z.of_nat (List.length (filter running rs)) /\
      stat_running_nodes stats <= stat_total_nodes stats
  | (Raise e, w') => st w' = st w /\ interrupt_or_error e = true
  | (Hang, _) => False
  end.
Proof.
  cbv zeta. unfold monitor_network, bind at 1, now. unfold bind at 1, gets. cbn [fst snd].
  unfold bind.
  destruct (monitor_loop_polls rs o [] w) as (res & w' & Hrun & Hst & Hres).
  rewrite Hrun. destruct res as [info|e|]; [|auto|contradiction].
  unfold ret. cbn [stat_total_nodes stat_running_nodes].
  split; [exact Hst|]. split; [|split; [reflexivity|split; [reflexivity|]]].
  - unfold trace. rewrite Hres, rev_app_distr, rev_involutive. reflexivity.
  - pose proof (filter_length_le (fun r => is_running (nth r (heap (st w)) blank)) rs). lia.
Qed.

End ClusterMonitorFacts.

(** ** The local five-node test: readiness and a failed genesis node *)

Module HeteroLocalEdgeFacts.
Import Py HeteroLocal PyFacts HeteroLocalFacts ReturnFacts.
Local Open Scope py_scope.

Lemma wait_for_node_polls_run port o polls : forall w : world self,
  uninterrupted o (clock w) ->
  exists (ready : bool) w',
    wait_for_node_polls polls port o w = (Ret ready, w') /\
    st w' = st w /\
    if ready
    then exists k, (k < polls)%nat /\
           clock w' = (clock w + 2 * k + 1)%nat /\
           (exists body, o (clock w + 2 * k)%nat (health_probe port) = Done 200 body) /\
           (forall j body, (j < k)%nat ->
              o (clock w + 2 * j)%nat (health_probe port) <> Done 200 body)
    else exists k, (k <= polls)%nat /\
           clock w' = (clock w + 2 * k)%nat /\
           (forall j body, (j < k)%nat ->
              o (clock w + 2 * j)%nat (health_probe port) <> Done 200 body) /\
           (k = polls \/
            ((0 < k)%nat /\ deadline_passed (o (clock w + 2 * k - 1)%nat Sleep) = true)).
Proof.
  induction polls as [|polls IH]; intros w Hu; cbn [wait_for_node_polls].
  - exists false, w. split; [reflexivity|]. split; [reflexivity|].
    exists 0%nat. split; [lia|]. split; [lia|]. split; [|left; reflexivity].
    intros j body Hj. lia.
  - fold (health_probe port).
    set (w1 := mkWorld (health_probe port :: hist w) (st w)).
    set (w2 := mkWorld (Sleep :: hist w1) (st w1)).
    assert (Hc1 : clock w1 = (clock w + 1)%nat)
      by (unfold w1, clock; cbn [hist List.length]; lia).
    assert (Hc2 : clock w2 = (clock w + 2)%nat)
      by (unfold w2, w1, clock; cbn [hist List.length]; lia).
    assert (Hu2 : uninterrupted o (clock w2)) by (eapply uninterrupted_from; [exact Hu|lia]).
    assert (Hprobe : exists ready : bool,
               try_except (r <- io (health_probe port) ;; ret (fst r =? 200))
                          is_Exception (fun _ => ret false) o w = (Ret ready, w1) /\
               if ready
               then exists body, o (clock w) (health_probe port) = Done 200 body
               else forall body, o (clock w) (health_probe port) <> Done 200 body).
    { pose proof (Hu (clock w) (health_probe port) (le_n _)) as Hni.
      unfold try_except, bind, io, ret. fold w1.
      destruct (o (clock w) (health_probe port)) as [code body|code| | |] eqn:Eprobe;
        cbn [fst snd is_Exception]; try congruence;
        try (exists false; split; [reflexivity|]; intros body'; discriminate).
      destruct (Z.eqb_spec code 200) as [->|Hcode].
      - exists true. split; [reflexivity|]. eauto.
      - exists false. split; [reflexivity|]. intros body' Heq. congruence. }
    destruct Hprobe as (probed & Hprobe & Hanswer).
    rewrite (bind_ret_run _ Hprobe). destruct probed.
    + exists true, w1. split; [reflexivity|]. split; [reflexivity|].
      exists 0%nat. split; [lia|]. split; [lia|].
      split; [|intros j body' Hj; lia].
      rewrite Nat.mul_0_r, Nat.add_0_r. exact Hanswer.
    + assert (Hsleep : sleep_until_deadline o w1 =
                       (Ret (deadline_passed (o (clock w1) Sleep)), w2)).
      { pose proof (Hu (clock w1) Sleep ltac:(lia)) as Hni. unfold sleep_until_deadline.
        fold w2. destruct (o (clock w1) Sleep); try congruence; reflexivity. }
      rewrite (bind_ret_run _ Hsleep).
      destruct (deadline_passed (o (clock w1) Sleep)) eqn:Elate.
      * exists false, w2. split; [reflexivity|]. split; [reflexivity|].
        exists 1%nat. split; [lia|]. split; [lia|]. split.
        -- intros [|j] body' Hj; [|lia]. rewrite Nat.mul_0_r, Nat.add_0_r. apply Hanswer.
        -- right. split; [lia|].
           replace (clock w + 2 * 1 - 1)%nat with (clock w1) by lia. exact Elate.
      * destruct (IH w2 Hu2) as (ready & w' & Hrun & Hst & Hready).
        exists ready, w'. split; [exact Hrun|]. split; [exact Hst|].
        rewrite Hc2 in Hready. destruct ready.
        -- destruct Hready as (k & Hk & Hclock & (body & Hbody) & Hbefore).
           exists (S k). split; [lia|]. split; [lia|]. split.
           ++ exists body. rewrite <- Hbody. f_equal. lia.
           ++ intros [|j] body' Hj.
              ** rewrite Nat.mul_0_r, Nat.add_0_r. apply Hanswer.
              ** replace (clock w + 2 * S j)%nat with (clock w + 2 + 2 * j)%nat by lia.
                 apply Hbefore. lia.
        -- destruct Hready as (k & Hk & Hclock & Hnone & Hend).
           exists (S k). split; [lia|]. split; [lia|]. split.
           ++ intros [|j] body' Hj.
              ** rewrite Nat.mul_0_r, Nat.add_0_r. apply Hanswer.
              ** replace (clock w + 2 * S j)%nat with (clock w + 2 + 2 * j)%nat by lia.
                 apply Hnone. lia.
           ++ destruct Hend as [->|[Hpos Hlate]]; [left; reflexivity|].
              right. split; [lia|].
              replace (clock w + 2 * S k - 1)%nat with (clock w + 2 + 2 * k - 1)%nat by lia.
              exact Hlate.
Qed.

(** X24.  [wait_for_node] stops at the first good answer.  For a
    known node and a run without Ctrl-C it returns and changes nothing in
    the tester.  It returns True right after the first health probe that
    is answered 200, without a further request.  It returns False after
    a number of probes, each followed by a pause, none of which was
    answered 200: at most [timeout] of them, and fewer only when the
    deadline was found to have passed after the last pause.  A failing
    probe and an answer other than 200 are treated alike. *)
Theorem wait_for_node_stops_at_first_200 node_name config timeout o (w : world self) :
  dict_get node_name NODES_CONFIG = Some config ->
  uninterrupted o (clock w) ->
  exists (ready : bool) w',
    wait_for_node node_name timeout o w = (Ret ready, w') /\
    st w' = st w /\
    if ready
    then exists k, (k < timeout)%nat /\
           clock w' = (clock w + 2 * k + 1)%nat /\
           (exists body,
               o (clock w + 2 * k)%nat (health_probe (http_port config)) = Done 200 body) /\
           (forall j body, (j < k)%nat ->
              o (clock w + 2 * j)%nat (health_probe (http_port config)) <> Done 200 body)
    else exists k, (k <= timeout)%nat /\
           clock w' = (clock w + 2 * k)%nat /\
           (forall j body, (j < k)%nat ->
              o (clock w + 2 * j)%nat (health_probe (http_port config)) <> Done 200 body) /\
           (k = timeout \/
            ((0 < k)%nat /\ deadline_passed (o (clock w + 2 * k - 1)%nat Sleep) = true)).
Proof.
  intros Hc Hu. unfold wait_for_node, config_of. rewrite Hc.
  unfold bind at 1, ret at 1.
  apply (wait_for_node_polls_run (http_port config) o timeout w Hu).
Qed.

Lemma wait_for_node_stops_at_first_200_witness :
  exists (ready : bool) w',
    wait_for_node "node1" 30 (Samples.slow_probes 18401 Samples.friendly) Samples.local0
    = (Ret ready, w') /\
    st w' = st Samples.local0 /\
    if ready
    then exists k, (k < 30)%nat /\
           clock w' = (clock Samples.local0 + 2 * k + 1)%nat /\
           (exists body,
               Samples.slow_probes 18401 Samples.friendly
                 (clock Samples.local0 + 2 * k)%nat (health_probe 18401) = Done 200 body) /\
           (forall j body, (j < k)%nat ->
              Samples.slow_probes 18401 Samples.friendly
                (clock Samples.local0 + 2 * j)%nat (health_probe 18401) <> Done 200 body)
    else exists k, (k <= 30)%nat /\
           clock w' = (clock Samples.local0 + 2 * k)%nat /\
           (forall j body, (j < k)%nat ->
              Samples.slow_probes 18401 Samples.friendly
                (clock Samples.local0 + 2 * j)%nat (health_probe 18401) <> Done 200 body) /\
           (k = 30%nat \/
            ((0 < k)%nat /\
             deadline_passed (Samples.slow_probes 18401 Samples.friendly
                                (clock Samples.local0 + 2 * k - 1)%nat Sleep) = true)).
Proof.
  apply (wait_for_node_stops_at_first_200 "node1"
           (mkCfg 9101 18401 18501 50101 false false "normal") 30
           (Samples.slow_probes 18401 Samples.friendly) Samples.local0).
  - reflexivity.
  - intros t r _. unfold Samples.slow_probes, Samples.friendly.
    destruct r; try discriminate.
    + destruct (port =? 18401); discriminate.
    + destruct (Nat.leb 19 t); discriminate.
Defined.

(** X25.  A genesis node that does not come up.  When the genesis
    stage of the local test answers False, and the processes obey,
    [run_test] returns normally: every process of the table, the one of
    the unready genesis node included, is sent its termination signal,
    the table ends up empty, no stage is recorded beyond those already
    there and no report is written. *)
Theorem failed_genesis_is_stopped_without_report o (w w1 : world self) :
  table_ok w ->
  (set_start_time ;; stage_1_genesis) o w = (Ret false, w1) ->
  processes_obey o (clock w1) ->
  exists w',
    run_test o w = (Ret tt, w') /\
    terminated w' = terminated w1 ++ map snd (processes (st w1)) /\
    processes (st w') = [] /\
    files_written w' = files_written w /\
    report (st w') = report (st w1).
Proof.
  intros Hok H1 Hobey.
  destruct no_report_before_generate_report as (F0 & F1 & _ & _ & F4).
  destruct table_stays_ok as (T0 & T1 & _ & _).
  pose proof H1 as H1'. unfold bind in H1'.
  destruct (set_start_time o w) as [[[]|e0|] w0] eqn:E0; try discriminate.
  assert (Hok1 : table_ok w1).
  { apply (respects_run _ _ _ _ _ _ _ T1 H1').
    apply (respects_run _ _ _ _ _ _ _ T0 E0). exact Hok. }
  destruct (stop_all_obedient o w1 Hobey Hok1) as (w2 & Hstop & Hempty & Hterm & _).
  assert (Hagain : stop_all o w2 = (Ret tt, w2)).
  { unfold stop_all, bind, gets. cbn [fst snd]. rewrite Hempty. reflexivity. }
  assert (Hbody : run_test_body o w = (Ret tt, w2)).
  { rewrite run_test_body_split. rewrite (bind_ret_run _ H1). cbn [negb]. exact Hstop. }
  exists w2. split; [|split; [exact Hterm|split; [exact Hempty|split]]].
  - unfold run_test, try_finally, try_except. rewrite Hbody, Hagain. reflexivity.
  - transitivity (files_written w1); [apply (respects_run _ _ _ _ _ _ _ F4 Hstop)|].
    transitivity (files_written w0); [apply (respects_run _ _ _ _ _ _ _ F1 H1')|].
    apply (respects_run _ _ _ _ _ _ _ F0 E0).
  - apply (respects_run _ (same (fun w => report (st w))) _ _ _ _ _
             ltac:(apply stop_all_respects; try typeclasses eauto; intros;
                   try (unfold set_processes; apply respects_modify; try typeclasses eauto;
                        intros);
                   unfold same; reflexivity)
             Hstop).
Qed.

Lemma failed_genesis_is_stopped_without_report_witness :
  exists w',
    run_test (Samples.unreachable_port 18400 Samples.friendly) Samples.local0 = (Ret tt, w') /\
    terminated w' =
      terminated (snd ((set_start_time ;; stage_1_genesis)
                         (Samples.unreachable_port 18400 Samples.friendly) Samples.local0)) ++
      map snd (processes (st (snd ((set_start_time ;; stage_1_genesis)
                         (Samples.unreachable_port 18400 Samples.friendly) Samples.local0)))) /\
    processes (st w') = [] /\
    files_written w' = files_written Samples.local0 /\
    report (st w') =
      report (st (snd ((set_start_time ;; stage_1_genesis)
                         (Samples.unreachable_port 18400 Samples.friendly) Samples.local0))).
Proof.
  apply (failed_genesis_is_stopped_without_report
           (Samples.unreachable_port 18400 Samples.friendly) Samples.local0).
  - constructor.
  - vm_compute. reflexivity.
  - intros t pid _. unfold Samples.unreachable_port, Samples.friendly. repeat split.
Defined.

End HeteroLocalEdgeFacts.
